(** * stty: the mode-description engine

    A shallow embedding of the two drafts of GNU stty kept in this
    repository, [stty-gemini-2.5-pro.c] and [stty-gpt-4o.c], and the
    properties of the mode registry, the value codecs, the mutation
    engine, the settings parser and the renderer.

    Conventions.
    - [tcflag_t] is a 32-bit unsigned integer and [cc_t] an 8-bit one,
      both carried by [Z] with the wrap-around written out
      ([to_tcflag_t], [to_cc_t]); [unsigned long] has 64 bits.
    - A C string is a [string] without NUL; reading the byte at its end
      yields NUL ([hd_c]).
    - The constants of <termios.h> are not part of the sources: they are
      the fields of the class [platform]; an [#ifdef] on a constant is a
      field of type [option Z].
    - The two drafts live in the modules [Gemini] and [Gpt4o]; what they
      share textually is defined once, before them. *)

From Stdlib Require Import ZArith Lia Bool Ascii String List Btauto.
From stdpp Require Import base list.
Import ListNotations.

Local Open Scope string_scope.
Local Open Scope list_scope.
Local Open Scope Z_scope.

(** ** Machine integers *)

Definition to_tcflag_t (x : Z) : Z := x mod 2 ^ 32.
Definition to_cc_t (x : Z) : Z := x mod 2 ^ 8.
Definition to_ulong (x : Z) : Z := x mod 2 ^ 64.
Definition to_uchar (c : ascii) : Z := Z.of_N (N_of_ascii c).
Definition ULONG_MAX : Z := 2 ^ 64 - 1.
Definition UCHAR_MAX : Z := 255.

Definition is_tcflag (x : Z) : Prop := 0 <= x < 2 ^ 32.
Definition is_cc (x : Z) : Prop := 0 <= x < 2 ^ 8.

(** [#define Control(c) ((c) & 0x1f)] *)
Definition Control (c : ascii) : Z := Z.land (to_uchar c) 31.

(** ** Strings as C sees them *)

Definition NUL : ascii := Ascii.zero.

(** [s[0]]: the first byte, NUL at the end of the string. *)
Definition hd_c (s : string) : ascii :=
  match s with EmptyString => NUL | String c _ => c end.

(** [s + 1] for a string that is not at its end. *)
Definition tl_c (s : string) : string :=
  match s with EmptyString => EmptyString | String _ r => r end.

Definition STREQ (a b : string) : bool := String.eqb a b.

(** ** The platform: <termios.h>

    Every constant the sources take from the system headers.  Optional
    constants are the ones the sources test with [#ifdef]. *)

Class platform := {
  (* c_cflag *)
  PARENB : Z; PARODD : Z; CMSPAR : option Z;
  CS5 : Z; CS6 : Z; CS7 : Z; CS8 : Z; CSIZE : Z;
  HUPCL : Z; CSTOPB : Z; CREAD : Z; CLOCAL : Z;
  CRTSCTS : option Z; CDTRDSR : option Z;
  (* c_iflag *)
  IGNBRK : Z; BRKINT : Z; IGNPAR : Z; PARMRK : Z; INPCK : Z; ISTRIP : Z;
  INLCR : Z; IGNCR : Z; ICRNL : Z; IXON : Z; IXOFF : Z;
  IUCLC : option Z; IXANY : option Z; IMAXBEL : option Z; IUTF8 : option Z;
  (* c_oflag *)
  OPOST : Z;
  OLCUC : option Z; OCRNL : option Z; ONLCR : option Z; ONOCR : option Z;
  ONLRET : option Z; OFILL : option Z; OFDEL : option Z;
  NLDLY : option Z; NL0 : Z; NL1 : Z;
  CRDLY : option Z; CR0 : Z; CR1 : Z; CR2 : Z; CR3 : Z;
  TABDLY : option Z;
  TAB0 : option Z; TAB1 : option Z; TAB2 : option Z; TAB3 : option Z;
  OXTABS : option Z;
  BSDLY : option Z; BS0 : Z; BS1 : Z;
  VTDLY : option Z; VT0 : Z; VT1 : Z;
  FFDLY : option Z; FF0 : Z; FF1 : Z;
  (* c_lflag *)
  ISIG : Z; ICANON : Z; IEXTEN : option Z;
  ECHO : Z; ECHOE : Z; ECHOK : Z; ECHONL : Z; NOFLSH : Z;
  XCASE : option Z; TOSTOP : option Z; ECHOPRT : option Z;
  ECHOCTL : option Z; ECHOKE : option Z; FLUSHO : option Z;
  EXTPROC : option Z;
  (* ioctls and struct members whose presence the sources test *)
  TIOCEXT : bool; TIOCGWINSZ : bool; HAVE_C_LINE : bool;
  (* c_cc *)
  NCCS : nat;
  VINTR : nat; VQUIT : nat; VERASE : nat; VKILL : nat; VEOF : nat;
  VEOL : nat; VEOL2 : option nat; VSWTC : option nat;
  VSTART : nat; VSTOP : nat; VSUSP : nat; VDSUSP : option nat;
  VREPRINT : option nat; CREPRINT : option nat;
  VWERASE : option nat; VLNEXT : option nat;
  VFLUSHO : option nat; VSTATUS : option nat;
  VMIN : nat; VTIME : nat;
  _POSIX_VDISABLE : Z
}.

(** The values of Linux (asm-generic/termbits.h); [TIOCEXT], [CDTRDSR],
    [OXTABS], [VDSUSP] and [VSTATUS] do not exist there. *)
Definition linux : platform := {|
  PARENB := 0x100; PARODD := 0x200; CMSPAR := Some 0x40000000;
  CS5 := 0; CS6 := 0x10; CS7 := 0x20; CS8 := 0x30; CSIZE := 0x30;
  HUPCL := 0x400; CSTOPB := 0x40; CREAD := 0x80; CLOCAL := 0x800;
  CRTSCTS := Some 0x80000000; CDTRDSR := None;
  IGNBRK := 0x1; BRKINT := 0x2; IGNPAR := 0x4; PARMRK := 0x8;
  INPCK := 0x10; ISTRIP := 0x20; INLCR := 0x40; IGNCR := 0x80;
  ICRNL := 0x100; IXON := 0x400; IXOFF := 0x1000;
  IUCLC := Some 0x200; IXANY := Some 0x800; IMAXBEL := Some 0x2000;
  IUTF8 := Some 0x4000;
  OPOST := 0x1;
  OLCUC := Some 0x2; OCRNL := Some 0x8; ONLCR := Some 0x4;
  ONOCR := Some 0x10; ONLRET := Some 0x20; OFILL := Some 0x40;
  OFDEL := Some 0x80;
  NLDLY := Some 0x100; NL0 := 0; NL1 := 0x100;
  CRDLY := Some 0x600; CR0 := 0; CR1 := 0x200; CR2 := 0x400; CR3 := 0x600;
  TABDLY := Some 0x1800;
  TAB0 := Some 0; TAB1 := Some 0x800; TAB2 := Some 0x1000;
  TAB3 := Some 0x1800;
  OXTABS := None;
  BSDLY := Some 0x2000; BS0 := 0; BS1 := 0x2000;
  VTDLY := Some 0x4000; VT0 := 0; VT1 := 0x4000;
  FFDLY := Some 0x8000; FF0 := 0; FF1 := 0x8000;
  ISIG := 0x1; ICANON := 0x2; IEXTEN := Some 0x8000;
  ECHO := 0x8; ECHOE := 0x10; ECHOK := 0x20; ECHONL := 0x40;
  NOFLSH := 0x80;
  XCASE := Some 0x4; TOSTOP := Some 0x100; ECHOPRT := Some 0x400;
  ECHOCTL := Some 0x200; ECHOKE := Some 0x800; FLUSHO := Some 0x1000;
  EXTPROC := Some 0x10000;
  TIOCEXT := false; TIOCGWINSZ := true; HAVE_C_LINE := true;
  NCCS := 32;
  VINTR := 0; VQUIT := 1; VERASE := 2; VKILL := 3; VEOF := 4;
  VEOL := 11; VEOL2 := Some 16%nat; VSWTC := Some 7%nat;
  VSTART := 8; VSTOP := 9; VSUSP := 10; VDSUSP := None;
  VREPRINT := Some 12%nat; CREPRINT := Some 18%nat;
  VWERASE := Some 14%nat; VLNEXT := Some 15%nat;
  VFLUSHO := Some 13%nat; VSTATUS := None;
  VMIN := 6; VTIME := 5;
  _POSIX_VDISABLE := 0
|}.

(** The values of FreeBSD (sys/_termios.h), a platform with [TIOCEXT]
    and without most of the output delays. *)
Definition freebsd : platform := {|
  PARENB := 0x1000; PARODD := 0x2000; CMSPAR := None;
  CS5 := 0; CS6 := 0x100; CS7 := 0x200; CS8 := 0x300; CSIZE := 0x300;
  HUPCL := 0x4000; CSTOPB := 0x400; CREAD := 0x800; CLOCAL := 0x8000;
  CRTSCTS := Some 0x30000; CDTRDSR := None;
  IGNBRK := 0x1; BRKINT := 0x2; IGNPAR := 0x4; PARMRK := 0x8;
  INPCK := 0x10; ISTRIP := 0x20; INLCR := 0x40; IGNCR := 0x80;
  ICRNL := 0x100; IXON := 0x200; IXOFF := 0x400;
  IUCLC := None; IXANY := Some 0x800; IMAXBEL := Some 0x2000;
  IUTF8 := Some 0x4000;
  OPOST := 0x1;
  OLCUC := None; OCRNL := Some 0x10; ONLCR := Some 0x2;
  ONOCR := Some 0x20; ONLRET := Some 0x40; OFILL := None;
  OFDEL := None;
  NLDLY := None; NL0 := 0; NL1 := 0;
  CRDLY := None; CR0 := 0; CR1 := 0; CR2 := 0; CR3 := 0;
  TABDLY := Some 0x4;
  TAB0 := Some 0; TAB1 := None; TAB2 := None; TAB3 := Some 0x4;
  OXTABS := Some 0x4;
  BSDLY := None; BS0 := 0; BS1 := 0;
  VTDLY := None; VT0 := 0; VT1 := 0;
  FFDLY := None; FF0 := 0; FF1 := 0;
  ISIG := 0x80; ICANON := 0x100; IEXTEN := Some 0x400;
  ECHO := 0x8; ECHOE := 0x2; ECHOK := 0x4; ECHONL := 0x10;
  NOFLSH := 0x80000000;
  XCASE := None; TOSTOP := Some 0x400000; ECHOPRT := Some 0x20;
  ECHOCTL := Some 0x40; ECHOKE := Some 0x1; FLUSHO := Some 0x800000;
  EXTPROC := Some 0x800;
  TIOCEXT := true; TIOCGWINSZ := true; HAVE_C_LINE := false;
  NCCS := 20;
  VINTR := 8; VQUIT := 9; VERASE := 3; VKILL := 5; VEOF := 0;
  VEOL := 1; VEOL2 := Some 2%nat; VSWTC := None;
  VSTART := 12; VSTOP := 13; VSUSP := 10; VDSUSP := Some 11%nat;
  VREPRINT := Some 6%nat; CREPRINT := Some 18%nat;
  VWERASE := Some 4%nat; VLNEXT := Some 14%nat;
  VFLUSHO := Some 15%nat; VSTATUS := Some 18%nat;
  VMIN := 16; VTIME := 17;
  _POSIX_VDISABLE := 0xff
|}.

(** ** The mode snapshot: [struct termios] *)

Record struct_termios := {
  c_iflag : Z;
  c_oflag : Z;
  c_cflag : Z;
  c_lflag : Z;
  c_line : Z;
  c_cc : list Z;
  c_ispeed : Z;
  c_ospeed : Z
}.

Definition set_c_iflag (v : Z) (m : struct_termios) : struct_termios :=
  {| c_iflag := v; c_oflag := c_oflag m; c_cflag := c_cflag m;
     c_lflag := c_lflag m; c_line := c_line m; c_cc := c_cc m;
     c_ispeed := c_ispeed m; c_ospeed := c_ospeed m |}.
Definition set_c_oflag (v : Z) (m : struct_termios) : struct_termios :=
  {| c_iflag := c_iflag m; c_oflag := v; c_cflag := c_cflag m;
     c_lflag := c_lflag m; c_line := c_line m; c_cc := c_cc m;
     c_ispeed := c_ispeed m; c_ospeed := c_ospeed m |}.
Definition set_c_cflag (v : Z) (m : struct_termios) : struct_termios :=
  {| c_iflag := c_iflag m; c_oflag := c_oflag m; c_cflag := v;
     c_lflag := c_lflag m; c_line := c_line m; c_cc := c_cc m;
     c_ispeed := c_ispeed m; c_ospeed := c_ospeed m |}.
Definition set_c_lflag (v : Z) (m : struct_termios) : struct_termios :=
  {| c_iflag := c_iflag m; c_oflag := c_oflag m; c_cflag := c_cflag m;
     c_lflag := v; c_line := c_line m; c_cc := c_cc m;
     c_ispeed := c_ispeed m; c_ospeed := c_ospeed m |}.
Definition set_c_line (v : Z) (m : struct_termios) : struct_termios :=
  {| c_iflag := c_iflag m; c_oflag := c_oflag m; c_cflag := c_cflag m;
     c_lflag := c_lflag m; c_line := v; c_cc := c_cc m;
     c_ispeed := c_ispeed m; c_ospeed := c_ospeed m |}.

(** [mode->c_cc[i] = v]; the value is converted to [cc_t].  A store
    outside the array is undefined in C; every index the registry holds
    is below [NCCS] on a well-formed platform, and the model leaves the
    array alone otherwise. *)
Definition set_c_cc (i : nat) (v : Z) (m : struct_termios) : struct_termios :=
  {| c_iflag := c_iflag m; c_oflag := c_oflag m; c_cflag := c_cflag m;
     c_lflag := c_lflag m; c_line := c_line m;
     c_cc := <[i := to_cc_t v]> (c_cc m);
     c_ispeed := c_ispeed m; c_ospeed := c_ospeed m |}.

(** [mode->c_cc[i]] as an rvalue. *)
Definition get_c_cc (i : nat) (m : struct_termios) : Z :=
  default 0 (c_cc m !! i).

(** [struct termios mode = {0}] *)
Definition zero_termios `{platform} : struct_termios :=
  {| c_iflag := 0; c_oflag := 0; c_cflag := 0; c_lflag := 0; c_line := 0;
     c_cc := replicate NCCS 0; c_ispeed := 0; c_ospeed := 0 |}.

(** A snapshot the device can hold: every field within its C type. *)
Definition wf_termios `{platform} (m : struct_termios) : Prop :=
  is_tcflag (c_iflag m) /\ is_tcflag (c_oflag m) /\
  is_tcflag (c_cflag m) /\ is_tcflag (c_lflag m) /\
  length (c_cc m) = NCCS /\ Forall is_cc (c_cc m).

(** ** The flag registry *)

(** Which member(s) of [struct termios] a mode uses. *)
Inductive mode_type := control | input | output | local | combination.

Definition mode_type_eqb (a b : mode_type) : bool :=
  match a, b with
  | control, control | input, input | output, output
  | local, local | combination, combination => true
  | _, _ => false
  end.

(** Flags for [struct mode_info]. *)
Definition SANE_SET : Z := 1.
Definition SANE_UNSET : Z := 2.
Definition REV : Z := 4.
Definition OMIT : Z := 8.
Definition NO_SETATTR : Z := 16.

Record struct_mode_info := Mode {
  name : string;
  type : mode_type;
  flags : Z;
  bits : Z;
  mask : Z
}.

(** [flags & F] as a C condition. *)
Definition has_flag (info : struct_mode_info) (F : Z) : bool :=
  negb (Z.land (flags info) F =? 0).

(** [defined C] *)
Definition defined {A : Type} (c : option A) : bool :=
  match c with Some _ => true | None => false end.

(** Entries under [#ifdef C]. *)
Definition ifdef {A B : Type} (c : option A) (entries : A -> list B) : list B :=
  match c with Some v => entries v | None => [] end.

Notation "a '.|' b" := (Z.lor a b) (at level 50, left associativity).

Section Registry.
Context `{P : platform}.

Definition mode_info : list struct_mode_info :=
  [ Mode "parenb" control REV PARENB 0;
    Mode "parodd" control REV PARODD 0 ] ++
  ifdef CMSPAR (fun v => [ Mode "cmspar" control REV v 0 ]) ++
  [ Mode "cs5" control 0 CS5 CSIZE;
    Mode "cs6" control 0 CS6 CSIZE;
    Mode "cs7" control 0 CS7 CSIZE;
    Mode "cs8" control 0 CS8 CSIZE;
    Mode "hupcl" control REV HUPCL 0;
    Mode "hup" control (REV .| OMIT) HUPCL 0;
    Mode "cstopb" control REV CSTOPB 0;
    Mode "cread" control (SANE_SET .| REV) CREAD 0;
    Mode "clocal" control REV CLOCAL 0 ] ++
  ifdef CRTSCTS (fun v => [ Mode "crtscts" control REV v 0 ]) ++
  ifdef CDTRDSR (fun v => [ Mode "cdtrdsr" control REV v 0 ]) ++
  [ Mode "ignbrk" input (SANE_UNSET .| REV) IGNBRK 0;
    Mode "brkint" input (SANE_SET .| REV) BRKINT 0;
    Mode "ignpar" input REV IGNPAR 0;
    Mode "parmrk" input REV PARMRK 0;
    Mode "inpck" input REV INPCK 0;
    Mode "istrip" input REV ISTRIP 0;
    Mode "inlcr" input (SANE_UNSET .| REV) INLCR 0;
    Mode "igncr" input (SANE_UNSET .| REV) IGNCR 0;
    Mode "icrnl" input (SANE_SET .| REV) ICRNL 0;
    Mode "ixon" input REV IXON 0;
    Mode "ixoff" input (SANE_UNSET .| REV) IXOFF 0;
    Mode "tandem" input (REV .| OMIT) IXOFF 0 ] ++
  ifdef IUCLC (fun v => [ Mode "iuclc" input (SANE_UNSET .| REV) v 0 ]) ++
  ifdef IXANY (fun v => [ Mode "ixany" input (SANE_UNSET .| REV) v 0 ]) ++
  ifdef IMAXBEL (fun v => [ Mode "imaxbel" input (SANE_SET .| REV) v 0 ]) ++
  ifdef IUTF8 (fun v => [ Mode "iutf8" input (SANE_UNSET .| REV) v 0 ]) ++
  [ Mode "opost" output (SANE_SET .| REV) OPOST 0 ] ++
  ifdef OLCUC (fun v => [ Mode "olcuc" output (SANE_UNSET .| REV) v 0 ]) ++
  ifdef OCRNL (fun v => [ Mode "ocrnl" output (SANE_UNSET .| REV) v 0 ]) ++
  ifdef ONLCR (fun v => [ Mode "onlcr" output (SANE_SET .| REV) v 0 ]) ++
  ifdef ONOCR (fun v => [ Mode "onocr" output (SANE_UNSET .| REV) v 0 ]) ++
  ifdef ONLRET (fun v => [ Mode "onlret" output (SANE_UNSET .| REV) v 0 ]) ++
  ifdef OFILL (fun v => [ Mode "ofill" output (SANE_UNSET .| REV) v 0 ]) ++
  ifdef OFDEL (fun v => [ Mode "ofdel" output (SANE_UNSET .| REV) v 0 ]) ++
  ifdef NLDLY (fun d =>
    [ Mode "nl1" output SANE_UNSET NL1 d;
      Mode "nl0" output SANE_SET NL0 d ]) ++
  ifdef CRDLY (fun d =>
    [ Mode "cr3" output SANE_UNSET CR3 d;
      Mode "cr2" output SANE_UNSET CR2 d;
      Mode "cr1" output SANE_UNSET CR1 d;
      Mode "cr0" output SANE_SET CR0 d ]) ++
  match TABDLY with
  | Some d =>
      ifdef TAB3 (fun v => [ Mode "tab3" output SANE_UNSET v d ]) ++
      ifdef TAB2 (fun v => [ Mode "tab2" output SANE_UNSET v d ]) ++
      ifdef TAB1 (fun v => [ Mode "tab1" output SANE_UNSET v d ]) ++
      ifdef TAB0 (fun v => [ Mode "tab0" output SANE_SET v d ])
  | None =>
      ifdef OXTABS (fun v => [ Mode "tab3" output SANE_UNSET v 0 ])
  end ++
  ifdef BSDLY (fun d =>
    [ Mode "bs1" output SANE_UNSET BS1 d;
      Mode "bs0" output SANE_SET BS0 d ]) ++
  ifdef VTDLY (fun d =>
    [ Mode "vt1" output SANE_UNSET VT1 d;
      Mode "vt0" output SANE_SET VT0 d ]) ++
  ifdef FFDLY (fun d =>
    [ Mode "ff1" output SANE_UNSET FF1 d;
      Mode "ff0" output SANE_SET FF0 d ]) ++
  [ Mode "isig" local (SANE_SET .| REV) ISIG 0;
    Mode "icanon" local (SANE_SET .| REV) ICANON 0 ] ++
  ifdef IEXTEN (fun v => [ Mode "iexten" local (SANE_SET .| REV) v 0 ]) ++
  [ Mode "echo" local (SANE_SET .| REV) ECHO 0;
    Mode "echoe" local (SANE_SET .| REV) ECHOE 0;
    Mode "crterase" local (REV .| OMIT) ECHOE 0;
    Mode "echok" local (SANE_SET .| REV) ECHOK 0;
    Mode "echonl" local (SANE_UNSET .| REV) ECHONL 0;
    Mode "noflsh" local (SANE_UNSET .| REV) NOFLSH 0 ] ++
  ifdef XCASE (fun v => [ Mode "xcase" local (SANE_UNSET .| REV) v 0 ]) ++
  ifdef TOSTOP (fun v => [ Mode "tostop" local (SANE_UNSET .| REV) v 0 ]) ++
  ifdef ECHOPRT (fun v =>
    [ Mode "echoprt" local (SANE_UNSET .| REV) v 0;
      Mode "prterase" local (REV .| OMIT) v 0 ]) ++
  ifdef ECHOCTL (fun v =>
    [ Mode "echoctl" local (SANE_SET .| REV) v 0;
      Mode "ctlecho" local (REV .| OMIT) v 0 ]) ++
  ifdef ECHOKE (fun v =>
    [ Mode "echoke" local (SANE_SET .| REV) v 0;
      Mode "crtkill" local (REV .| OMIT) v 0 ]) ++
  ifdef FLUSHO (fun v => [ Mode "flusho" local (SANE_UNSET .| REV) v 0 ]) ++
  ifdef EXTPROC (fun v =>
    if TIOCEXT
    then [ Mode "extproc" local (SANE_UNSET .| REV .| NO_SETATTR) v 0 ]
    else [ Mode "extproc" local (SANE_UNSET .| REV) v 0 ]) ++
  [ Mode "evenp" combination (REV .| OMIT) 0 0;
    Mode "parity" combination (REV .| OMIT) 0 0;
    Mode "oddp" combination (REV .| OMIT) 0 0;
    Mode "nl" combination (REV .| OMIT) 0 0;
    Mode "ek" combination OMIT 0 0;
    Mode "sane" combination OMIT 0 0;
    Mode "cooked" combination (REV .| OMIT) 0 0;
    Mode "raw" combination (REV .| OMIT) 0 0;
    Mode "pass8" combination (REV .| OMIT) 0 0;
    Mode "litout" combination (REV .| OMIT) 0 0;
    Mode "cbreak" combination (REV .| OMIT) 0 0 ] ++
  ifdef IXANY (fun _ => [ Mode "decctlq" combination (REV .| OMIT) 0 0 ]) ++
  (if defined TABDLY || defined OXTABS
   then [ Mode "tabs" combination (REV .| OMIT) 0 0 ] else []) ++
  (if defined XCASE && defined IUCLC && defined OLCUC
   then [ Mode "lcase" combination (REV .| OMIT) 0 0;
          Mode "LCASE" combination (REV .| OMIT) 0 0 ] else []) ++
  [ Mode "crt" combination OMIT 0 0;
    Mode "dec" combination OMIT 0 0 ].

End Registry.

(** ** Control characters *)

Record struct_control_info := Ctl {
  ci_name : string;   (* Name given on command line. *)
  saneval : Z;        (* Value to set for 'stty sane'. *)
  offset : nat        (* Offset in c_cc. *)
}.

Section ControlRegistry.
Context `{P : platform}.

(** Canonical values for control characters: the fallbacks the sources
    give under [#ifndef]. *)
Definition CINTR : Z := Control "c".
Definition CQUIT : Z := 28.
Definition CERASE : Z := 127.
Definition CKILL : Z := Control "u".
Definition CEOF : Z := Control "d".
Definition CEOL : Z := _POSIX_VDISABLE.
Definition CSTART : Z := Control "q".
Definition CSTOP : Z := Control "s".
Definition CSUSP : Z := Control "z".
Definition CEOL2 : Z := _POSIX_VDISABLE.
Definition CDSUSP : Z := Control "y".
Definition CRPRNT : Z := Control "r".
Definition CWERASE : Z := Control "w".
Definition CLNEXT : Z := Control "v".
Definition CFLUSHO : Z := Control "o".
Definition CSTATUS : Z := Control "t".

(** Some platforms have VSWTC, others VSWTCH; where neither exists the
    sources make [swtch] a second name of [susp]. *)
Definition VSWTCH : nat := match VSWTC with Some v => v | None => VSUSP end.
Definition CSWTCH : Z :=
  match VSWTC with Some _ => _POSIX_VDISABLE | None => CSUSP end.

Definition control_info : list struct_control_info :=
  [ Ctl "intr" CINTR VINTR;
    Ctl "quit" CQUIT VQUIT;
    Ctl "erase" CERASE VERASE;
    Ctl "kill" CKILL VKILL;
    Ctl "eof" CEOF VEOF;
    Ctl "eol" CEOL VEOL ] ++
  ifdef VEOL2 (fun o => [ Ctl "eol2" CEOL2 o ]) ++
  [ Ctl "swtch" CSWTCH VSWTCH;
    Ctl "start" CSTART VSTART;
    Ctl "stop" CSTOP VSTOP;
    Ctl "susp" CSUSP VSUSP ] ++
  ifdef VDSUSP (fun o => [ Ctl "dsusp" CDSUSP o ]) ++
  match VREPRINT with
  | Some o => [ Ctl "rprnt" CRPRNT o ]
  | None => ifdef CREPRINT (fun o => [ Ctl "rprnt" CRPRNT o ])
  end ++
  ifdef VWERASE (fun o => [ Ctl "werase" CWERASE o ]) ++
  ifdef VLNEXT (fun o => [ Ctl "lnext" CLNEXT o ]) ++
  ifdef VFLUSHO (fun o =>
    [ Ctl "flush" CFLUSHO o;     (* deprecated compat option. *)
      Ctl "discard" CFLUSHO o ]) ++
  ifdef VSTATUS (fun o => [ Ctl "status" CSTATUS o ]) ++
  (* These must be last because of the display routines. *)
  [ Ctl "min" 1 VMIN;
    Ctl "time" 0 VTIME ].

End ControlRegistry.

(** ** Flag words as lvalues *)

(** What [mode_type_flag] points to. *)
Inductive flag_word := W_cflag | W_iflag | W_oflag | W_lflag.

Definition load (w : flag_word) (m : struct_termios) : Z :=
  match w with
  | W_cflag => c_cflag m | W_iflag => c_iflag m
  | W_oflag => c_oflag m | W_lflag => c_lflag m
  end.

(** A store converts to [tcflag_t]. *)
Definition store (w : flag_word) (v : Z) (m : struct_termios) : struct_termios :=
  match w with
  | W_cflag => set_c_cflag (to_tcflag_t v) m
  | W_iflag => set_c_iflag (to_tcflag_t v) m
  | W_oflag => set_c_oflag (to_tcflag_t v) m
  | W_lflag => set_c_lflag (to_tcflag_t v) m
  end.

(** Both drafts have the same [mode_type_flag]; a null pointer is [None]. *)
Definition mode_type_flag (t : mode_type) : option flag_word :=
  match t with
  | control => Some W_cflag
  | input => Some W_iflag
  | output => Some W_oflag
  | local => Some W_lflag
  | combination => None
  end.

(** The three assignments the sources make through a flag pointer [p]:
    [p |= v], [p &= ~v] and [p = (p & ~clr) | set]. *)
Definition or_bits (w : flag_word) (v : Z) (m : struct_termios) :=
  store w (Z.lor (load w m) v) m.
Definition clear_bits (w : flag_word) (v : Z) (m : struct_termios) :=
  store w (Z.land (load w m) (Z.lnot v)) m.
Definition replace_bits (w : flag_word) (clr set : Z) (m : struct_termios) :=
  store w (Z.lor (Z.land (load w m) (Z.lnot clr)) set) m.

(** The bits of an optional constant, none where it is not defined:
    [#ifdef C | C #endif] inside an expression. *)
Definition bits_ifdef (c : option Z) : Z := default 0 c.

(** [#ifdef C  stmt(C)  #endif] *)
Definition stmt_ifdef {A : Type} (c : option A) (stmt : A -> struct_termios -> struct_termios)
    (m : struct_termios) : struct_termios :=
  match c with Some v => stmt v m | None => m end.

(** ** The C library

    [strtoul] and [printf] in the C locale, with a 64-bit
    [unsigned long]. *)

Infix "+:+" := String.append (at level 60, right associativity).

Definition c_isspace (c : ascii) : bool :=
  let n := to_uchar c in (n =? 32) || ((9 <=? n) && (n <=? 13)).

Definition c_isdigit (c : ascii) : bool :=
  let n := to_uchar c in (48 <=? n) && (n <=? 57).

(** The value of a digit in any base up to 36. *)
Definition digit_value (c : ascii) : option Z :=
  let n := to_uchar c in
  if (48 <=? n) && (n <=? 57) then Some (n - 48)
  else if (97 <=? n) && (n <=? 122) then Some (n - 87)
  else if (65 <=? n) && (n <=? 90) then Some (n - 55)
  else None.

Definition is_digit_in (base : Z) (c : ascii) : bool :=
  match digit_value c with Some d => d <? base | None => false end.

Fixpoint skip_space (s : string) : string :=
  match s with
  | String c r => if c_isspace c then skip_space r else s
  | EmptyString => s
  end.

(** The longest run of digits of [base]: its value, and what follows. *)
Fixpoint scan_digits (base : Z) (s : string) (acc : Z) : Z * string :=
  match s with
  | String c r =>
      match digit_value c with
      | Some d => if d <? base then scan_digits base r (acc * base + d) else (acc, s)
      | None => (acc, s)
      end
  | EmptyString => (acc, s)
  end.

Definition ERANGE : Z := 34.

Record strtoul_result := {
  ul : Z;            (* the value returned *)
  endp : string;     (* where the end pointer is left *)
  errno : Z;
  noconv : bool      (* the end pointer equals the start pointer *)
}.

(** [strtoul (s, &p, base)] for [base] 10 or 16: white space, an
    optional sign, for base 16 an optional "0x" before a hex digit, then
    the digits.  Without a digit nothing is converted and the end
    pointer is the start pointer.  A value above [ULONG_MAX] gives
    [ULONG_MAX] and [ERANGE]; a minus sign negates modulo 2^64. *)
Definition strtoul (s : string) (base : Z) : strtoul_result :=
  let s1 := skip_space s in
  let '(neg, s2) :=
    match s1 with
    | String "-"%char r => (true, r)
    | String "+"%char r => (false, r)
    | _ => (false, s1)
    end in
  let s3 :=
    match s2 with
    | String "0"%char (String x r) =>
        if (base =? 16) && (Ascii.eqb x "x" || Ascii.eqb x "X")
           && is_digit_in 16 (hd_c r)
        then r else s2
    | _ => s2
    end in
  if is_digit_in base (hd_c s3) then
    let '(v, rest) := scan_digits base s3 0 in
    if v >? ULONG_MAX
    then {| ul := ULONG_MAX; endp := rest; errno := ERANGE; noconv := false |}
    else {| ul := if neg then to_ulong (- v) else v;
            endp := rest; errno := 0; noconv := false |}
  else {| ul := 0; endp := s; errno := 0; noconv := true |}.

Definition hex_char (d : Z) : ascii :=
  match Z.to_nat d with
  | 0%nat => "0" | 1%nat => "1" | 2%nat => "2" | 3%nat => "3"
  | 4%nat => "4" | 5%nat => "5" | 6%nat => "6" | 7%nat => "7"
  | 8%nat => "8" | 9%nat => "9" | 10%nat => "a" | 11%nat => "b"
  | 12%nat => "c" | 13%nat => "d" | 14%nat => "e" | _ => "f"
  end%char.

(** The digits of [n] in [base] (10 or 16), most significant first, in
    front of [acc]; [fuel] bounds the number of digits. *)
Fixpoint digits_of (base : Z) (fuel : nat) (n : Z) (acc : string) : string :=
  match fuel with
  | O => acc
  | S f =>
      let acc' := String (hex_char (n mod base)) acc in
      if n / base =? 0 then acc' else digits_of base f (n / base) acc'
  end.

(** [printf ("%lx", v)]: at most 16 digits. *)
Definition printf_lx (v : Z) : string := digits_of 16 16 (to_ulong v) "".

(** [printf ("%lu", v)]: at most 20 digits. *)
Definition printf_lu (v : Z) : string := digits_of 10 20 (to_ulong v) "".

(** [printf ("%d", v)] for an [int]. *)
Definition printf_d (v : Z) : string :=
  if v <? 0 then String "-" (digits_of 10 10 (- v) "") else digits_of 10 10 v "".

Definition strlen (s : string) : Z := Z.of_nat (String.length s).

(** ** The process and its collaborators *)

(** Calls on the device (standard input unless stated); their replies
    come from the [device] of the environment. *)
Inductive dev_call :=
  | Tcgetattr
  | Tcsetattr (optional_actions : Z) (m : struct_termios)
  | Ioctl_TIOCGWINSZ (fd : Z)
  | Ioctl_TIOCSWINSZ (rows cols : Z)
  | Ioctl_TIOCEXT (val : Z)
  | Fd_reopen (file_name : string)
  | Fcntl_reset_nonblock.

Inductive dev_reply :=
  | Rok
  | Rfail (errno_ : Z)
  | Rtermios (m : struct_termios)
  | Rwinsize (ws_row ws_col : Z).

(** Whether a call changes the device. *)
Definition is_device_write (c : dev_call) : bool :=
  match c with
  | Tcsetattr _ _ | Ioctl_TIOCSWINSZ _ _ | Ioctl_TIOCEXT _ => true
  | _ => false
  end.

Definition TCSANOW : Z := 0.
Definition TCSADRAIN : Z := 1.
Definition EXIT_SUCCESS : Z := 0.
Definition EXIT_FAILURE : Z := 1.
Definition EINVAL : Z := 22.
Definition INT_MAX : Z := 2 ^ 31 - 1.
Definition UINTMAX_MAX : Z := 2 ^ 64 - 1.
Definition STDIN_FILENO : Z := 0.
Definition STDOUT_FILENO : Z := 1.

(** [(speed_t) -1] *)
Definition SPEED_INVALID : Z := 2 ^ 32 - 1.

(** What the sources use and the repository does not hold under src/:
    the generated speedlist.h, the speed accessors of the C library, the
    gnulib number parser and quoting, the device and the environment. *)
Class externals := {
  value_to_baud : Z -> Z;
  baud_to_value : Z -> Z;
  B19200 : Z;
  B38400 : Z;
  (* the speed accessors: [None] for a nonzero return *)
  cfsetispeed : struct_termios -> Z -> option struct_termios;
  cfsetospeed : struct_termios -> Z -> option struct_termios;
  cfgetispeed : struct_termios -> Z;
  cfgetospeed : struct_termios -> Z;
  (* [xnumtoumax (s, base, min, max, suffixes, err, ...)]: the number,
     or the diagnostic it dies with *)
  xnumtoumax : string -> Z -> Z -> Z -> string -> string -> Z + string;
  quote : string -> string;
  quotef : string -> string;
  quoteaf : string -> string;
  (* the reply of the device to a call, given the calls made so far *)
  device : list dev_call -> dev_call -> dev_reply;
  (* $COLUMNS when it parses as a long, as xstrtol and strtol report it *)
  env_COLUMNS : option Z;
  emit_try_help : string
}.

(** The process state outside the snapshot: both output streams, the
    calls made on the device, and the file-scope variables. *)
Record world := {
  out : string;               (* what has been written to stdout *)
  err : list string;          (* stderr, oldest first *)
  calls : list dev_call;      (* device calls, oldest first *)
  max_col : Z;                (* The width of the screen, for output wrapping. *)
  current_col : Z;            (* Current position, to know when to wrap. *)
  tcsetattr_options : Z;      (* Default "drain" mode for tcsetattr. *)
  last_ibaud : Z;             (* Record last speed set for correlation. *)
  last_obaud : Z
}.

Definition initial_world : world :=
  {| out := EmptyString; err := []; calls := []; max_col := 0; current_col := 0;
     tcsetattr_options := TCSADRAIN;
     last_ibaud := SPEED_INVALID; last_obaud := SPEED_INVALID |}.

Definition put_out (s : string) (w : world) : world :=
  {| out := out w +:+ s; err := err w; calls := calls w;
     max_col := max_col w; current_col := current_col w;
     tcsetattr_options := tcsetattr_options w;
     last_ibaud := last_ibaud w; last_obaud := last_obaud w |}.
Definition put_err (s : string) (w : world) : world :=
  {| out := out w; err := err w ++ [s]; calls := calls w;
     max_col := max_col w; current_col := current_col w;
     tcsetattr_options := tcsetattr_options w;
     last_ibaud := last_ibaud w; last_obaud := last_obaud w |}.
Definition log_call (c : dev_call) (w : world) : world :=
  {| out := out w; err := err w; calls := calls w ++ [c];
     max_col := max_col w; current_col := current_col w;
     tcsetattr_options := tcsetattr_options w;
     last_ibaud := last_ibaud w; last_obaud := last_obaud w |}.
Definition set_max_col (v : Z) (w : world) : world :=
  {| out := out w; err := err w; calls := calls w;
     max_col := v; current_col := current_col w;
     tcsetattr_options := tcsetattr_options w;
     last_ibaud := last_ibaud w; last_obaud := last_obaud w |}.
Definition set_current_col (v : Z) (w : world) : world :=
  {| out := out w; err := err w; calls := calls w;
     max_col := max_col w; current_col := v;
     tcsetattr_options := tcsetattr_options w;
     last_ibaud := last_ibaud w; last_obaud := last_obaud w |}.
Definition set_tcsetattr_options (v : Z) (w : world) : world :=
  {| out := out w; err := err w; calls := calls w;
     max_col := max_col w; current_col := current_col w;
     tcsetattr_options := v;
     last_ibaud := last_ibaud w; last_obaud := last_obaud w |}.
Definition set_last_ibaud (v : Z) (w : world) : world :=
  {| out := out w; err := err w; calls := calls w;
     max_col := max_col w; current_col := current_col w;
     tcsetattr_options := tcsetattr_options w;
     last_ibaud := v; last_obaud := last_obaud w |}.
Definition set_last_obaud (v : Z) (w : world) : world :=
  {| out := out w; err := err w; calls := calls w;
     max_col := max_col w; current_col := current_col w;
     tcsetattr_options := tcsetattr_options w;
     last_ibaud := last_ibaud w; last_obaud := v |}.

(** How a computation ends: it returns, the process exits with a
    status, or it reads outside an object, which C leaves undefined. *)
Inductive result (A : Type) :=
  | Ret (a : A) (w : world)
  | Exit (status : Z) (w : world)
  | Undefined (w : world).
Arguments Ret {A} a w.
Arguments Exit {A} status w.
Arguments Undefined {A} w.

Definition M (A : Type) : Type := world -> result A.

Definition ret {A} (a : A) : M A := fun w => Ret a w.
Definition bind {A B} (c : M A) (k : A -> M B) : M B :=
  fun w => match c w with
           | Ret a w' => k a w'
           | Exit s w' => Exit s w'
           | Undefined w' => Undefined w'
           end.

Notation "x <- c ;; k" := (bind c (fun x => k))
  (at level 90, c at next level, right associativity).
Notation "c ;;; k" := (bind c (fun _ => k))
  (at level 90, right associativity).

Definition modify (f : world -> world) : M unit := fun w => Ret tt (f w).
Definition gets {A} (f : world -> A) : M A := fun w => Ret (f w) w.
Definition exit {A} (status : Z) : M A := fun w => Exit status w.
Definition undefined_behaviour {A} : M A := fun w => Undefined w.
Definition when (b : bool) (c : M unit) : M unit := if b then c else ret tt.

(** A compound statement on the snapshot: the statements in order. *)
Definition block (stmts : list (struct_termios -> struct_termios))
    (m : struct_termios) : struct_termios :=
  fold_left (fun m stmt => stmt m) stmts m.

(** A statement under a compile-time or run-time condition. *)
Definition stmt_if (b : bool) (stmt : struct_termios -> struct_termios)
    (m : struct_termios) : struct_termios :=
  if b then stmt m else m.

(** Which speeds to set. *)
Inductive speed_setting := input_speed | output_speed | both_speeds.

(** What to output and how. *)
Inductive output_type := changed | all | recoverable.

(** What the option parser finds. *)
Record stty_config := {
  cfg_output_type : output_type;
  verbose_output : bool;
  recoverable_output : bool;
  noargs : bool;
  file_name : option string
}.

Section Process.
Context `{P : platform} `{X : externals}.

(** A call on the device: logged, answered by the environment. *)
Definition call (c : dev_call) : M dev_reply :=
  fun w => Ret (device (calls w) c) (log_call c w).

Definition putchar (c : ascii) : M unit := modify (put_out (String c "")).
Definition fputs_stdout (s : string) : M unit := modify (put_out s).

(** [error (0, 0, msg)] and [error (EXIT_FAILURE, errnum, msg)]. *)
Definition error_continue (msg : string) : M unit := modify (put_err msg).
Definition error_exit {A} (msg : string) : M A :=
  modify (put_err msg) ;;; exit EXIT_FAILURE.

(** [affirm (false)]: the process aborts. *)
Definition abort {A} : M A := exit 134.

(** [usage (status)] for a status other than [EXIT_SUCCESS]: both drafts
    emit the hint and exit. *)
Definition usage_failure {A} : M A :=
  modify (put_err emit_try_help) ;;; exit EXIT_FAILURE.

(** Parse string S as an integer, using decimal radix by default, but
    allowing octal and hex numbers as in C.  Reject values larger than
    MAXVAL. *)
Definition integer_arg (s : string) (maxval : Z) : M Z :=
  match xnumtoumax s 0 0 maxval "bB" "invalid integer argument" with
  | inl v => ret v
  | inr diagnostic => error_exit diagnostic
  end.

(** *** The baud codec (the same text in both drafts) *)

(** [while ((c = *ep++) == '0');] the byte that ends the loop and the
    pointer after it. *)
Fixpoint skip_zeroes (ep : string) : ascii * string :=
  match ep with
  | String c r => if Ascii.eqb c "0" then skip_zeroes r else (c, r)
  | EmptyString => (NUL, EmptyString)
  end.

(** [while (c_isdigit (c)) c = *ep++;] *)
Fixpoint skip_digits (c : ascii) (ep : string) : ascii :=
  if c_isdigit c then
    match ep with
    | String c' r => skip_digits c' r
    | EmptyString => NUL
    end
  else c.

Definition string_to_baud (arg : string) : Z :=
  (* Explicitly disallow negative numbers. *)
  let arg := skip_space arg in
  if Ascii.eqb (hd_c arg) "-" then SPEED_INVALID else
  let r := strtoul arg 10 in
  let value := ul r in
  let ep := endp r in
  let c := hd_c ep in
  let ep := tl_c ep in
  if Ascii.eqb c "." then
    (* Number includes a fraction.  Round it to nearest-even.
       Note in particular that 134.5 must round to 134! *)
    let c := hd_c ep in
    let ep := tl_c ep in
    if negb (Ascii.eqb c NUL) then
      let d := (to_uchar c - 48) mod 256 in
      let '(value, c, ep) :=
        if d >? 5 then (to_ulong (value + 1), c, ep)
        else if d =? 5 then
          let '(c, ep) := skip_zeroes ep in   (* Skip zeroes after .5 *)
          if negb (Ascii.eqb c NUL)
          then (to_ulong (value + 1), c, ep)              (* Nonzero, round up *)
          else (to_ulong (value + Z.land value 1), c, ep) (* Exactly in the middle, round even *)
        else (value, c, ep) in
      let c := skip_digits c ep in            (* Skip remaining digits. *)
      if negb (Ascii.eqb c NUL)
      then SPEED_INVALID                      (* Garbage after otherwise valid number *)
      else value_to_baud value
    else value_to_baud value
  else if negb (Ascii.eqb c NUL) then
    (* Not a valid number; check for legacy aliases "exta" and "extb" *)
    if STREQ arg "exta" then B19200
    else if STREQ arg "extb" then B38400
    else SPEED_INVALID
  else value_to_baud value.

End Process.

(** * The draft stty-gemini-2.5-pro.c *)

Module Gemini.
Section Gemini.
Context `{P : platform} `{X : externals}.

(** Print the formatted text [buf].  Wrap to next line first if it
    won't fit.  Print a space first unless it will start a new line. *)
Definition wrapf (buf : string) : M unit :=
  let buflen := strlen buf in
  cur <- gets current_col ;;
  mx <- gets max_col ;;
  when (0 <? cur)
    (if mx <? cur + 1 + buflen
     then putchar "010" ;;; modify (set_current_col 0)
     else putchar " " ;;; modify (set_current_col (cur + 1))) ;;;
  fputs_stdout buf ;;;
  cur' <- gets current_col ;;
  modify (set_current_col (cur' + buflen)).

(** ** Mutation engine *)

(** The first loop of [sane_mode], with its [break] at "min" where MIN
    shares the slot of EOF. *)
Fixpoint sane_control_chars (l : list struct_control_info)
    (m : struct_termios) : struct_termios :=
  match l with
  | [] => m
  | ci :: l' =>
      if Nat.eqb VMIN VEOF && STREQ (ci_name ci) "min" then m   (* break *)
      else sane_control_chars l' (set_c_cc (offset ci) (saneval ci) m)
  end.

(** The body of the second loop of [sane_mode]. *)
Definition sane_mode_flag (m : struct_termios) (info : struct_mode_info)
    : struct_termios :=
  if negb (Z.land (flags info) NO_SETATTR =? 0) then m         (* continue *)
  else if negb (Z.land (flags info) (SANE_SET .| SANE_UNSET) =? 0) then
    match mode_type_flag (type info) with
    | Some bitsp =>
        if negb (Z.land (flags info) SANE_SET =? 0)
        then replace_bits bitsp (mask info) (bits info) m
        else (* SANE_UNSET is set *)
          clear_bits bitsp (mask info .| bits info) m
    | None => m
    end
  else m.

Definition sane_mode (m : struct_termios) : struct_termios :=
  fold_left sane_mode_flag mode_info (sane_control_chars control_info m).

Definition set_raw_cooked_logic (cooked : bool) : struct_termios -> struct_termios :=
  if cooked then
    block [ or_bits W_iflag (BRKINT .| IGNPAR .| ISTRIP .| ICRNL .| IXON);
            or_bits W_oflag OPOST;
            or_bits W_lflag (ISIG .| ICANON);
            stmt_if (Nat.eqb VMIN VEOF) (set_c_cc VEOF CEOF);
            stmt_if (Nat.eqb VTIME VEOL) (set_c_cc VEOL CEOL) ]
  else
    block [ store W_iflag 0;
            clear_bits W_oflag OPOST;
            clear_bits W_lflag (ISIG .| ICANON .| bits_ifdef XCASE);
            set_c_cc VMIN 1;
            set_c_cc VTIME 0 ].

Definition set_parity_mode (reversed : bool) : struct_termios -> struct_termios :=
  if reversed
  then replace_bits W_cflag (PARENB .| CSIZE) CS8
  else replace_bits W_cflag (PARODD .| CSIZE) (PARENB .| CS7).

Definition set_oddp_mode (reversed : bool) : struct_termios -> struct_termios :=
  if reversed
  then replace_bits W_cflag (PARENB .| CSIZE) CS8
  else replace_bits W_cflag CSIZE (CS7 .| PARODD .| PARENB).

Definition set_nl_mode (reversed : bool) : struct_termios -> struct_termios :=
  if reversed then
    block [ (fun m => store W_iflag
               (Z.land (c_iflag m .| ICRNL) (Z.lnot (INLCR .| IGNCR))) m);
            stmt_ifdef ONLCR (or_bits W_oflag);
            stmt_ifdef OCRNL (clear_bits W_oflag);
            stmt_ifdef ONLRET (clear_bits W_oflag) ]
  else
    block [ clear_bits W_iflag ICRNL;
            stmt_ifdef ONLCR (clear_bits W_oflag) ].

Definition set_ek_mode (reversed : bool) : struct_termios -> struct_termios :=
  block [ set_c_cc VERASE CERASE; set_c_cc VKILL CKILL ].

Definition set_sane_mode (reversed : bool) : struct_termios -> struct_termios :=
  sane_mode.

Definition set_cbreak_mode (reversed : bool) : struct_termios -> struct_termios :=
  if reversed then or_bits W_lflag ICANON else clear_bits W_lflag ICANON.

Definition set_pass8_mode (reversed : bool) : struct_termios -> struct_termios :=
  if reversed then
    block [ replace_bits W_cflag CSIZE (CS7 .| PARENB);
            or_bits W_iflag ISTRIP ]
  else
    block [ replace_bits W_cflag (PARENB .| CSIZE) CS8;
            clear_bits W_iflag ISTRIP ].

Definition set_litout_mode (reversed : bool) : struct_termios -> struct_termios :=
  if reversed then
    block [ replace_bits W_cflag CSIZE (CS7 .| PARENB);
            or_bits W_iflag ISTRIP;
            or_bits W_oflag OPOST ]
  else
    block [ replace_bits W_cflag (PARENB .| CSIZE) CS8;
            clear_bits W_iflag ISTRIP;
            clear_bits W_oflag OPOST ].

Definition handle_raw_mode (reversed : bool) : struct_termios -> struct_termios :=
  set_raw_cooked_logic reversed.

Definition handle_cooked_mode (reversed : bool) : struct_termios -> struct_termios :=
  set_raw_cooked_logic (negb reversed).

(** Compiled under [#ifdef IXANY]. *)
Definition set_decctlq_mode (ixany : Z) (reversed : bool) : struct_termios -> struct_termios :=
  if reversed then or_bits W_iflag ixany else clear_bits W_iflag ixany.

(** Compiled under [#if defined(TABDLY) || defined(OXTABS)]. *)
Definition set_tabs_mode (reversed : bool) : struct_termios -> struct_termios :=
  match TABDLY with
  | Some tabdly =>
      if reversed
      then replace_bits W_oflag tabdly (bits_ifdef TAB3)
      else replace_bits W_oflag tabdly (bits_ifdef TAB0)
  | None => (* OXTABS *)
      if reversed
      then or_bits W_oflag (bits_ifdef OXTABS)
      else clear_bits W_oflag (bits_ifdef OXTABS)
  end.

(** Compiled under [#if defined XCASE && defined IUCLC && defined OLCUC]. *)
Definition set_lcase_mode (reversed : bool) : struct_termios -> struct_termios :=
  if reversed then
    block [ clear_bits W_lflag (bits_ifdef XCASE);
            clear_bits W_iflag (bits_ifdef IUCLC);
            clear_bits W_oflag (bits_ifdef OLCUC) ]
  else
    block [ or_bits W_lflag (bits_ifdef XCASE);
            or_bits W_iflag (bits_ifdef IUCLC);
            or_bits W_oflag (bits_ifdef OLCUC) ].

Definition set_crt_mode (reversed : bool) : struct_termios -> struct_termios :=
  or_bits W_lflag (ECHOE .| bits_ifdef ECHOCTL .| bits_ifdef ECHOKE).

Definition set_dec_mode (reversed : bool) : struct_termios -> struct_termios :=
  block [ set_c_cc VINTR 3;      (* ^C *)
          set_c_cc VERASE 127;   (* DEL *)
          set_c_cc VKILL 21;     (* ^U *)
          or_bits W_lflag (ECHOE .| bits_ifdef ECHOCTL .| bits_ifdef ECHOKE);
          stmt_ifdef IXANY (clear_bits W_iflag) ].

Definition mode_handler_fn : Type := bool -> struct_termios -> struct_termios.

Definition combination_modes : list (string * mode_handler_fn) :=
  [ ("cbreak", set_cbreak_mode);
    ("cooked", handle_cooked_mode);
    ("crt", set_crt_mode);
    ("dec", set_dec_mode) ] ++
  ifdef IXANY (fun v => [ ("decctlq", set_decctlq_mode v) ]) ++
  [ ("ek", set_ek_mode);
    ("evenp", set_parity_mode) ] ++
  (if defined XCASE && defined IUCLC && defined OLCUC
   then [ ("lcase", set_lcase_mode); ("LCASE", set_lcase_mode) ] else []) ++
  [ ("litout", set_litout_mode);
    ("nl", set_nl_mode);
    ("oddp", set_oddp_mode);
    ("parity", set_parity_mode);
    ("pass8", set_pass8_mode);
    ("raw", handle_raw_mode);
    ("sane", set_sane_mode) ] ++
  (if defined TABDLY || defined OXTABS
   then [ ("tabs", set_tabs_mode) ] else []).

(** Return false if not applied because not reversible; otherwise
    return true. *)
Definition set_mode (info : struct_mode_info) (reversed : bool)
    (m : struct_termios) : bool * struct_termios :=
  if reversed && (Z.land (flags info) REV =? 0) then (false, m)
  else
    match mode_type_flag (type info) with
    | Some bitsp =>
        if reversed
        then (true, clear_bits bitsp (mask info .| bits info) m)
        else (true, replace_bits bitsp (mask info) (bits info) m)
    | None =>
        match find (fun h => STREQ (name info) (fst h)) combination_modes with
        | Some h => (true, snd h reversed m)
        | None => (true, m)
        end
    end.

Definition set_control_char (info : struct_control_info) (arg : string)
    (m : struct_termios) : M struct_termios :=
  value <-
    (if STREQ (ci_name info) "min" || STREQ (ci_name info) "time"
     then v <- integer_arg arg UCHAR_MAX ;; ret (to_cc_t v)
     else if Ascii.eqb (hd_c arg) NUL || Ascii.eqb (hd_c (tl_c arg)) NUL
     then ret (to_uchar (hd_c arg))
     else if STREQ arg "^-" || STREQ arg "undef"
     then ret _POSIX_VDISABLE
     else if Ascii.eqb (hd_c arg) "^" && Ascii.eqb (hd_c (tl_c arg)) "?"
     then ret 127
     else if Ascii.eqb (hd_c arg) "^"
     then ret (to_cc_t (Z.land (to_uchar (hd_c (tl_c arg))) 0x1F))
     else v <- integer_arg arg UCHAR_MAX ;; ret (to_cc_t v)) ;;
  ret (set_c_cc (offset info) value m).

Definition set_speed (type_ : speed_setting) (arg : string)
    (m : struct_termios) : M struct_termios :=
  let baud := string_to_baud arg in
  if baud =? SPEED_INVALID then abort else
  let set_input := match type_ with input_speed | both_speeds => true | _ => false end in
  let set_output := match type_ with output_speed | both_speeds => true | _ => false end in
  m <- (if set_input then
          modify (set_last_ibaud baud) ;;;
          match cfsetispeed m baud with
          | Some m' => ret m'
          | None => error_exit ("unsupported ispeed " +:+ quoteaf arg)
          end
        else ret m) ;;
  if set_output then
    modify (set_last_obaud baud) ;;;
    match cfsetospeed m baud with
    | Some m' => ret m'
    | None => error_exit ("unsupported ospeed " +:+ quoteaf arg)
    end
  else ret m.

(** ** Window size and screen width *)

(** [get_win_size (fd, &win)] *)
Definition get_win_size (fd : Z) : M dev_reply := call (Ioctl_TIOCGWINSZ fd).

(** [ws_row] and [ws_col] are [unsigned short]. *)
Definition to_ushort (x : Z) : Z := x mod 2 ^ 16.

(** The workaround under [#ifdef TIOCSSIZE] (SunOS 4) is not compiled. *)
Definition set_window_size (rows cols : Z) (device_name : string) : M unit :=
  r <- get_win_size STDIN_FILENO ;;
  win <- match r with
         | Rwinsize row col => ret (row, col)
         | Rfail e => if negb (e =? EINVAL) then error_exit (quotef device_name)
                      else ret (0, 0)
         | _ => ret (0, 0)
         end ;;
  let win := if 0 <=? rows then (to_ushort rows, snd win) else win in
  let win := if 0 <=? cols then (fst win, to_ushort cols) else win in
  r <- call (Ioctl_TIOCSWINSZ (fst win) (snd win)) ;;
  match r with
  | Rfail _ => error_exit (quotef device_name)
  | _ => ret tt
  end.

Definition display_window_size (fancy : bool) (device_name : string) : M unit :=
  r <- get_win_size STDIN_FILENO ;;
  match r with
  | Rwinsize row col =>
      wrapf (if fancy
             then "rows " +:+ printf_d row +:+ "; columns " +:+ printf_d col +:+ ";"
             else printf_d row +:+ " " +:+ printf_d col +:+ String "010" "") ;;;
      when (negb fancy) (modify (set_current_col 0))
  | Rfail e =>
      if negb (e =? EINVAL) then error_exit (quotef device_name)
      else if negb fancy
      then error_exit (quotef device_name +:+ ": no size information for this device")
      else ret tt
  | _ => ret tt
  end.

Definition screen_columns : M Z :=
  r <- (if TIOCGWINSZ then get_win_size STDOUT_FILENO else ret (Rfail EINVAL)) ;;
  match r with
  | Rwinsize _ col => if 0 <? col then ret col else
      ret match env_COLUMNS with
          | Some n => if (0 <? n) && (n <=? INT_MAX) then n else 80
          | None => 80
          end
  | _ =>
      (* Use $COLUMNS if it's in [1..INT_MAX]. *)
      ret match env_COLUMNS with
          | Some n => if (0 <? n) && (n <=? INT_MAX) then n else 80
          | None => 80
          end
  end.

(** ** Renderer *)

Definition ascii_of_Z (x : Z) : ascii := ascii_of_N (Z.to_N x).

(** Return a string that is the printable representation of character CH. *)
Definition visible (ch : Z) : string :=
  if ch =? _POSIX_VDISABLE then "<undef>" else
  let '(pre, ch) :=
    if negb (Z.land ch 0x80 =? 0) then ("M-", Z.land ch 0x7F) else ("", ch) in
  pre +:+
  (if ch <? 32 then String "^" (String (ascii_of_Z (ch + 64)) "")
   else if ch <? 127 then String (ascii_of_Z ch) ""
   else "^?").

Definition print_newline_if_needed (empty_line : bool) : M bool :=
  if negb empty_line
  then putchar "010" ;;; modify (set_current_col 0) ;;; ret true
  else ret empty_line.

(** The test of [display_control_chars] (changed-only output). *)
Definition should_skip_control_char (info : struct_control_info)
    (m : struct_termios) : bool :=
  if get_c_cc (offset info) m =? to_cc_t (saneval info) then true
  else if defined VFLUSHO && STREQ (ci_name info) "flush" then true
  else if Nat.eqb VSWTCH VSUSP && STREQ (ci_name info) "swtch" then true
  else if Nat.eqb VEOF VMIN
          && (Z.land (c_lflag m) ICANON =? 0)
          && (STREQ (ci_name info) "eof" || STREQ (ci_name info) "eol") then true
  else false.

(** [for (i = 0; !STREQ (control_info[i].name, "min"); ++i) body] *)
Fixpoint until_min (body : struct_control_info -> M unit)
    (l : list struct_control_info) : M unit :=
  match l with
  | [] => undefined_behaviour         (* runs off the table *)
  | ci :: l' =>
      if STREQ (ci_name ci) "min" then ret tt
      else body ci ;;; until_min body l'
  end.

Definition display_control_chars (m : struct_termios) : M unit :=
  let fix loop (l : list struct_control_info) (empty_line : bool) : M bool :=
    match l with
    | [] => undefined_behaviour
    | ci :: l' =>
        if STREQ (ci_name ci) "min" then ret empty_line
        else if should_skip_control_char ci m then loop l' empty_line
        else wrapf (ci_name ci +:+ " = " +:+ visible (get_c_cc (offset ci) m) +:+ ";") ;;;
             loop l' false
    end in
  empty_line <- loop control_info true ;;
  empty_line <-
    (if Z.land (c_lflag m) ICANON =? 0 then
       wrapf ("min = " +:+ printf_lu (get_c_cc VMIN m) +:+ "; time = "
              +:+ printf_lu (get_c_cc VTIME m) +:+ ";") ;;;
       ret false
     else ret empty_line) ;;
  _ <- print_newline_if_needed empty_line ;;
  ret tt.

(** One entry of the flag block of the changed-only output; the result
    is the new [*empty_line].  Dereferencing the null pointer that
    [mode_type_flag] returns for a combination is undefined. *)
Definition display_one_mode_flag (info : struct_mode_info)
    (m : struct_termios) (empty_line : bool) : M bool :=
  if negb (Z.land (flags info) OMIT =? 0) then ret empty_line else
  match mode_type_flag (type info) with
  | None => undefined_behaviour
  | Some bitsp =>
      let mask_ := if negb (mask info =? 0) then mask info else bits info in
      let is_set_as_expected := Z.land (load bitsp m) mask_ =? bits info in
      let is_reversely_set :=
        Z.land (flags info) (SANE_SET .| REV) =? (SANE_SET .| REV) in
      if is_set_as_expected then
        if negb (Z.land (flags info) SANE_UNSET =? 0)
        then wrapf (name info) ;;; ret false
        else ret empty_line
      else if is_reversely_set
      then wrapf ("-" +:+ name info) ;;; ret false
      else ret empty_line
  end.

Definition display_mode_flags (m : struct_termios) : M unit :=
  let fix loop (l : list struct_mode_info) (empty_line : bool)
      (prev_type : mode_type) : M bool :=
    match l with
    | [] => ret empty_line
    | info :: l' =>
        st <- (if negb (mode_type_eqb (type info) prev_type)
               then e <- print_newline_if_needed empty_line ;; ret (e, type info)
               else ret (empty_line, prev_type)) ;;
        e <- display_one_mode_flag info m (fst st) ;;
        loop l' e (snd st)
    end in
  empty_line <- loop mode_info true control ;;
  _ <- print_newline_if_needed empty_line ;;
  ret tt.

Definition display_speed (m : struct_termios) (fancy : bool) : M unit :=
  let ispeed := cfgetispeed m in
  let ospeed := cfgetospeed m in
  (if (ispeed =? 0) || (ispeed =? ospeed)
   then wrapf (if fancy
               then "speed " +:+ printf_lu (baud_to_value ospeed) +:+ " baud;"
               else printf_lu (baud_to_value ospeed) +:+ String "010" "")
   else wrapf (if fancy
               then "ispeed " +:+ printf_lu (baud_to_value ispeed) +:+ " baud; ospeed "
                    +:+ printf_lu (baud_to_value ospeed) +:+ " baud;"
               else printf_lu (baud_to_value ispeed) +:+ " "
                    +:+ printf_lu (baud_to_value ospeed) +:+ String "010" "")) ;;;
  when (negb fancy) (modify (set_current_col 0)).

Definition display_changed (m : struct_termios) : M unit :=
  display_speed m true ;;;
  when HAVE_C_LINE (wrapf ("line = " +:+ printf_d (c_line m) +:+ ";")) ;;;
  putchar "010" ;;;
  modify (set_current_col 0) ;;;
  display_control_chars m ;;;
  display_mode_flags m.

Definition start_new_line : M unit :=
  cur <- gets current_col ;;
  when (negb (cur =? 0)) (putchar "010") ;;;
  modify (set_current_col 0).

(** The test of [display_control_characters] (all settings). *)
Definition should_skip_control_char_all (name_ : string) (m : struct_termios) : bool :=
  if defined VFLUSHO && STREQ name_ "flush" then true
  else if Nat.eqb VSWTCH VSUSP && STREQ name_ "swtch" then true
  else if Nat.eqb VEOF VMIN
          && (Z.land (c_lflag m) ICANON =? 0)
          && (STREQ name_ "eof" || STREQ name_ "eol") then true
  else false.

Definition display_control_characters (m : struct_termios) : M unit :=
  until_min (fun ci =>
      if should_skip_control_char_all (ci_name ci) m then ret tt
      else wrapf (ci_name ci +:+ " = " +:+ visible (get_c_cc (offset ci) m) +:+ ";"))
    control_info ;;;
  when (negb (Nat.eqb VEOF VMIN) || (Z.land (c_lflag m) ICANON =? 0))
    (wrapf ("min = " +:+ printf_lu (get_c_cc VMIN m) +:+ "; time = "
            +:+ printf_lu (get_c_cc VTIME m) +:+ ";")).

Definition display_terminal_modes (m : struct_termios) : M unit :=
  let fix loop (l : list struct_mode_info) (prev_type : mode_type) : M unit :=
    match l with
    | [] => ret tt
    | info :: l' =>
        if negb (Z.land (flags info) OMIT =? 0) then loop l' prev_type else
        prev <- (if negb (mode_type_eqb (type info) prev_type)
                 then start_new_line ;;; ret (type info)
                 else ret prev_type) ;;
        match mode_type_flag (type info) with
        | None => undefined_behaviour
        | Some bitsp =>
            let mask_ := if negb (mask info =? 0) then mask info else bits info in
            (if Z.land (load bitsp m) mask_ =? bits info
             then wrapf (name info)
             else if negb (Z.land (flags info) REV =? 0)
             then wrapf ("-" +:+ name info)
             else ret tt) ;;;
            loop l' prev
        end
    end in
  loop mode_info control.

Definition display_all (m : struct_termios) (device_name : string) : M unit :=
  display_speed m true ;;;
  when TIOCGWINSZ (display_window_size true device_name) ;;;
  when HAVE_C_LINE (wrapf ("line = " +:+ printf_d (c_line m) +:+ ";")) ;;;
  putchar "010" ;;;
  modify (set_current_col 0) ;;;
  display_control_characters m ;;;
  start_new_line ;;;
  display_terminal_modes m ;;;
  putchar "010" ;;;
  modify (set_current_col 0).

(** The line [display_recoverable] prints, without its newline. *)
Definition recoverable_line (m : struct_termios) : string :=
  printf_lx (c_iflag m) +:+ ":" +:+ printf_lx (c_oflag m) +:+ ":" +:+
  printf_lx (c_cflag m) +:+ ":" +:+ printf_lx (c_lflag m) +:+
  fold_right (fun i rest => ":" +:+ printf_lx (get_c_cc i m) +:+ rest) ""
    (seq 0 NCCS).

Definition display_recoverable (m : struct_termios) : M unit :=
  fputs_stdout (printf_lx (c_iflag m) +:+ ":" +:+ printf_lx (c_oflag m) +:+ ":" +:+
                printf_lx (c_cflag m) +:+ ":" +:+ printf_lx (c_lflag m)) ;;;
  fold_right (fun i k => fputs_stdout (":" +:+ printf_lx (get_c_cc i m)) ;;; k)
    (ret tt) (seq 0 NCCS) ;;;
  putchar "010".

Definition display_settings (ot : output_type) (m : struct_termios)
    (device_name : string) : M unit :=
  match ot with
  | changed => display_changed m
  | all => display_all m device_name
  | recoverable => display_recoverable m
  end.

(** ** Recoverable format: decoding *)

(** The result and the end pointer, or [None] for a return of -1. *)
Definition strtoul_tcflag_t (s : string) (base : Z) (delim : ascii)
    : option (Z * string) :=
  let r := strtoul s base in
  if noconv r || negb (Ascii.eqb (hd_c (endp r)) delim) then None
  else if negb (errno r =? 0) || negb (to_tcflag_t (ul r) =? ul r) then None
  else Some (to_tcflag_t (ul r), endp r).

Definition strtoul_cc_t (s : string) (base : Z) (delim : ascii)
    : option (Z * string) :=
  let r := strtoul s base in
  if noconv r then None
  else if negb (errno r =? 0) then None
  else if negb (Ascii.eqb (hd_c (endp r)) delim) then None
  else if negb (to_cc_t (ul r) =? ul r) then None
  else Some (to_cc_t (ul r), endp r).

(** The first loop of [recover_mode]: the four flag words.  The result
    is the new [s], or [None] for the return of false, and the snapshot
    as far as it has been written. *)
Fixpoint recover_flags (ws : list flag_word) (s : string) (m : struct_termios)
    : option string * struct_termios :=
  match ws with
  | [] => (Some s, m)
  | w :: ws' =>
      match strtoul_tcflag_t s 16 ":" with
      | None => (None, m)
      | Some (v, p) => recover_flags ws' (tl_c p) (store w v m)
      end
  end.

(** The second loop of [recover_mode]: the control characters with the
    indices [idx]. *)
Fixpoint recover_cc (idx : list nat) (s : string) (m : struct_termios)
    : bool * struct_termios :=
  match idx with
  | [] => (true, m)
  | i :: idx' =>
      let delim := if (i <? NCCS - 1)%nat then ":"%char else NUL in
      match strtoul_cc_t s 16 delim with
      | None => (false, m)
      | Some (v, p) => recover_cc idx' (tl_c p) (set_c_cc i v m)
      end
  end.

(** Parse the output of display_recoverable.
    Return false if any part of it is invalid.  The snapshot is written
    field by field, so it is returned on failure too. *)
Definition recover_mode (arg : string) (m : struct_termios)
    : bool * struct_termios :=
  match recover_flags [ W_iflag; W_oflag; W_cflag; W_lflag ] arg m with
  | (None, m') => (false, m')
  | (Some s, m') => recover_cc (seq 0 NCCS) s m'
  end.

(** ** Settings parser *)

(** [settings[k + 1]] when [k] is not the last index and the entry is
    not null. *)
Definition next_arg (rest : list (option string)) : option string :=
  match rest with Some a :: _ => Some a | _ => None end.

(** The argument that follows, or the exit for a missing one. *)
Definition check_missing_argument (arg : string) (rest : list (option string))
    : M string :=
  match next_arg rest with
  | Some a => ret a
  | None =>
      error_continue ("missing argument to " +:+ quote arg) ;;; usage_failure
  end.

(** The state a token works on: the snapshot and [*require_set_attr].
    A handler answers whether it took the token, whether it advanced [k]
    over the following argument, and the new state. *)
Definition pstate : Type := struct_termios * bool.
Definition handled : Type := option (bool * pstate).

Definition handle_speed_arg_setting (arg : string) (checking : bool)
    (rest : list (option string)) (st : pstate) : M handled :=
  if STREQ arg "ispeed" || STREQ arg "ospeed" then
    speed_val <- check_missing_argument arg rest ;;
    if string_to_baud speed_val =? SPEED_INVALID then
      error_continue ("invalid " +:+ arg +:+ " " +:+ quote speed_val) ;;;
      usage_failure
    else
      m <- set_speed (if STREQ arg "ispeed" then input_speed else output_speed)
             speed_val (fst st) ;;
      ret (Some (true, (m, if negb checking then true else snd st)))
  else ret None.

Definition handle_window_size_setting (arg : string) (checking : bool)
    (device_name : string) (rest : list (option string)) (st : pstate)
    : M handled :=
  if negb TIOCGWINSZ then ret None
  else if STREQ arg "rows" then
    a <- check_missing_argument arg rest ;;
    when (negb checking)
      (v <- integer_arg a INT_MAX ;; set_window_size v (-1) device_name) ;;;
    ret (Some (true, st))
  else if STREQ arg "cols" || STREQ arg "columns" then
    a <- check_missing_argument arg rest ;;
    when (negb checking)
      (v <- integer_arg a INT_MAX ;; set_window_size (-1) v device_name) ;;;
    ret (Some (true, st))
  else if STREQ arg "size" then
    when (negb checking)
      (c <- screen_columns ;;
       modify (set_max_col c) ;;;
       modify (set_current_col 0) ;;;
       display_window_size false device_name) ;;;
    ret (Some (false, st))
  else ret None.

(** [ckd_add (&mode->c_line, value, 0)]: [c_line] is a [cc_t]. *)
Definition ckd_add_c_line (value : Z) : bool * Z :=
  (negb (to_cc_t value =? value), to_cc_t value).

Definition apply_special_setting (arg : string) (reversed checking : bool)
    (device_name : string) (rest : list (option string)) (st : pstate)
    : M handled :=
  h <- handle_speed_arg_setting arg checking rest st ;;
  match h with Some r => ret (Some r) | None =>
  h <- handle_window_size_setting arg checking device_name rest st ;;
  match h with Some r => ret (Some r) | None =>
  if TIOCEXT && STREQ arg "extproc" then
    (* This is the BSD interface to "extproc".
       Even though it's an lflag, an ioctl is used to set it. *)
    when (negb checking)
      (r <- call (Ioctl_TIOCEXT (if reversed then 0 else 1)) ;;
       match r with
       | Rfail _ => error_exit (quotef device_name +:+ ": error setting " +:+ quote arg)
       | _ => ret tt
       end) ;;;
    ret (Some (false, st))
  else if HAVE_C_LINE && STREQ arg "line" then
    a <- check_missing_argument arg rest ;;
    value <- integer_arg a UINTMAX_MAX ;;
    let '(overflow, line) := ckd_add_c_line value in
    when overflow (error_continue ("invalid line discipline " +:+ quote a)) ;;;
    ret (Some (true, (set_c_line line (fst st), true)))
  else if STREQ arg "speed" then
    when (negb checking)
      (c <- screen_columns ;;
       modify (set_max_col c) ;;;
       display_speed (fst st) false) ;;;
    ret (Some (false, st))
  else if negb (string_to_baud arg =? SPEED_INVALID) then
    m <- set_speed both_speeds arg (fst st) ;;
    ret (Some (false, (m, if negb checking then true else snd st)))
  else ret None
  end end.

(** The block under [if (!match_found || not_set_attr)]: the special
    settings, then the recoverable format.  The result says whether [k]
    was advanced over the following argument. *)
Definition apply_unmatched (arg : string) (reversed checking : bool)
    (device_name : string) (rest : list (option string)) (st : pstate)
    : M (bool * pstate) :=
  h <- apply_special_setting arg reversed checking device_name rest st ;;
  match h with
  | Some r => ret r
  | None =>
      let '(ok, m) := recover_mode arg (fst st) in
      if negb ok then
        error_continue ("invalid argument " +:+ quote arg) ;;; usage_failure
      else ret (false, (m, true))
  end.

(** One round of the loop of [apply_settings] on the token [arg0]
    (not null), with the tokens after it; the result says whether [k]
    was advanced over the following argument. *)
Definition apply_one (checking : bool) (device_name : string) (arg0 : string)
    (rest : list (option string)) (st : pstate) : M (bool * pstate) :=
  let reversed := Ascii.eqb (hd_c arg0) "-" in
  let arg := if reversed then tl_c arg0 else arg0 in
  if STREQ arg "drain" then
    modify (set_tcsetattr_options (if reversed then TCSANOW else TCSADRAIN)) ;;;
    ret (false, st)                                               (* continue *)
  else
    (* the first entry of mode_info with this name; the value of
       set_mode is dropped *)
    let '(match_found, not_set_attr, st1) :=
      match find (fun info => STREQ arg (name info)) mode_info with
      | Some info =>
          if Z.land (flags info) NO_SETATTR =? 0
          then (true, false, (snd (set_mode info reversed (fst st)), true))
          else (true, true, st)
      | None => (false, false, st)
      end in
    if negb match_found && reversed then
      error_continue ("invalid argument " +:+ quote arg0) ;;; usage_failure
    else if negb match_found then
      match find (fun ci => STREQ arg (ci_name ci)) control_info with
      | Some ci =>
          a <- check_missing_argument arg rest ;;
          m <- set_control_char ci a (fst st1) ;;
          ret (true, (m, true))
      | None => apply_unmatched arg reversed checking device_name rest st1
      end
    else if not_set_attr then
      apply_unmatched arg reversed checking device_name rest st1
    else ret (false, st1).

(** Verify requested asymmetric speeds are supported.
    Note we don't flag the case where only ispeed or
    ospeed is set, when that would set both. *)
Definition check_speed (m : struct_termios) : M unit :=
  li <- gets last_ibaud ;;
  lo <- gets last_obaud ;;
  if (li =? SPEED_INVALID) || (lo =? SPEED_INVALID) then ret tt
  else if negb (cfgetispeed m =? li) || negb (cfgetospeed m =? lo) then
    error_exit ("asymmetric input (" +:+ printf_lu (baud_to_value li)
                +:+ "), output (" +:+ printf_lu (baud_to_value lo)
                +:+ ") speeds not supported")
  else ret tt.

(** The loop of [apply_settings] from index [k] on; [settings] holds
    [settings[k]], [settings[k + 1]], ... *)
Fixpoint apply_settings_from (checking : bool) (device_name : string)
    (settings : list (option string)) (st : pstate) : M pstate :=
  match settings with
  | [] => ret st
  | None :: rest => apply_settings_from checking device_name rest st
  | Some arg0 :: rest =>
      r <- apply_one checking device_name arg0 rest st ;;
      let '(consumed, st') := r in
      if consumed
      then match rest with
           | [] => ret st'
           | _ :: rest' => apply_settings_from checking device_name rest' st'
           end
      else apply_settings_from checking device_name rest st'
  end.

(** Apply specified settings to MODE and REQUIRE_SET_ATTR as required.
    If CHECKING is true, this function doesn't interact
    with a device, and only validates specified settings.
    [settings] is the whole of argv; the loop starts at index 1. *)
Definition apply_settings (checking : bool) (device_name : string)
    (settings : list (option string)) (st : pstate) : M pstate :=
  st' <- apply_settings_from checking device_name (tl settings) st ;;
  when checking (check_speed (fst st')) ;;;
  ret st'.

(** ** The program *)

(** Return true if modes are equivalent. *)
Definition eq_mode (mode1 mode2 : struct_termios) : bool :=
  (c_iflag mode1 =? c_iflag mode2) && (c_oflag mode1 =? c_oflag mode2)
  && (c_cflag mode1 =? c_cflag mode2) && (c_lflag mode1 =? c_lflag mode2)
  && (negb HAVE_C_LINE || (c_line mode1 =? c_line mode2))
  && (cfgetispeed mode1 =? cfgetispeed mode2)
  && (cfgetospeed mode1 =? cfgetospeed mode2)
  && forallb (fun i => get_c_cc i mode1 =? get_c_cc i mode2) (seq 0 NCCS).

Definition get_terminal_attributes (device_name : string) : M struct_termios :=
  r <- call Tcgetattr ;;
  match r with
  | Rtermios m => ret m
  | _ => error_exit (quotef device_name)
  end.

Definition set_and_verify_attributes (device_name : string)
    (m : struct_termios) : M unit :=
  opts <- gets tcsetattr_options ;;
  r <- call (Tcsetattr opts m) ;;
  match r with
  | Rfail _ => error_exit (quotef device_name)
  | _ =>
      new_mode <- get_terminal_attributes device_name ;;
      if negb (eq_mode m new_mode)
      then error_exit (quotef device_name
                       +:+ ": unable to perform all requested operations")
      else ret tt
  end.

Definition open_device_file (file_name_ : string) : M unit :=
  r <- call (Fd_reopen file_name_) ;;
  match r with
  | Rfail _ => error_exit (quotef file_name_)
  | _ =>
      r <- call Fcntl_reset_nonblock ;;
      match r with
      | Rfail _ => error_exit (quotef file_name_
                               +:+ ": couldn't reset non-blocking mode")
      | _ => ret tt
      end
  end.

(** [main] from the return of [parse_options] on: [config] is what it
    found, and [argv] is the argument vector in which it has replaced
    every option by a null pointer.  The result is the exit status. *)
Definition main (config : stty_config) (argv : list (option string)) : M Z :=
  let device_name :=
    match file_name config with Some f => f | None => "standard input" end in
  let is_display_mode :=
    match cfg_output_type config with changed => noargs config | _ => true end in
  when (negb is_display_mode)
    (_ <- apply_settings true device_name argv (zero_termios, false) ;; ret tt) ;;;
  match file_name config with
  | Some f => open_device_file f
  | None => ret tt
  end ;;;
  m <- get_terminal_attributes device_name ;;
  (if is_display_mode then
     c <- screen_columns ;;
     modify (set_max_col c) ;;;
     modify (set_current_col 0) ;;;
     display_settings (cfg_output_type config) m device_name
   else
     st <- apply_settings false device_name argv (m, false) ;;
     when (snd st) (set_and_verify_attributes device_name (fst st))) ;;;
  ret EXIT_SUCCESS.

End Gemini.
End Gemini.

(** * The draft stty-gpt-4o.c *)

Module Gpt4o.
Section Gpt4o.
Context `{P : platform} `{X : externals}.

(** The draft defines [wrapf] under the name [safeOutput] and calls it
    [wrapf]. *)
Definition safeOutput (buf : string) : M unit :=
  let buflen := strlen buf in
  cur <- gets current_col ;;
  mx <- gets max_col ;;
  when (0 <? cur)
    (if mx - cur <=? buflen
     then putchar "010" ;;; modify (set_current_col 0)
     else putchar " " ;;; modify (set_current_col (cur + 1))) ;;;
  fputs_stdout buf ;;;
  cur' <- gets current_col ;;
  modify (set_current_col (cur' + buflen)).

Definition wrapf : string -> M unit := safeOutput.

(** ** Mutation engine *)

(** The first loop of [sane_mode], with its [break] at "min" where MIN
    shares the slot of EOF. *)
Fixpoint sane_control_chars (l : list struct_control_info)
    (m : struct_termios) : struct_termios :=
  match l with
  | [] => m
  | ci :: l' =>
      if Nat.eqb VMIN VEOF && STREQ (ci_name ci) "min" then m   (* break *)
      else sane_control_chars l' (set_c_cc (offset ci) (saneval ci) m)
  end.

(** The body of the second loop of [sane_mode]. *)
Definition sane_mode_flag (m : struct_termios) (info : struct_mode_info)
    : struct_termios :=
  if negb (Z.land (flags info) NO_SETATTR =? 0) then m         (* continue *)
  else
    match mode_type_flag (type info) with
    | None => m                                                 (* continue *)
    | Some bitsp =>
        if negb (Z.land (flags info) SANE_SET =? 0)
        then replace_bits bitsp (mask info) (bits info) m
        else if negb (Z.land (flags info) SANE_UNSET =? 0)
        then store bitsp (Z.land (load bitsp m)
                            (Z.land (Z.lnot (mask info)) (Z.lnot (bits info)))) m
        else m
    end.

Definition sane_mode (m : struct_termios) : struct_termios :=
  fold_left sane_mode_flag mode_info (sane_control_chars control_info m).

(** [(w & ~a & ~b) | set] *)
Definition replace_bits2 (w : flag_word) (a b set : Z) (m : struct_termios) :=
  store w (Z.lor (Z.land (Z.land (load w m) (Z.lnot a)) (Z.lnot b)) set) m.

(** In front of [apply_combination_mode] the draft defines four of the
    default control characters again: [#define CERASE 0177],
    [#define CKILL 025], [#define CEOF 004] and [#define CEOL 0].  The
    table [control_info] stands before these lines and keeps the values
    of the head of the file; [apply_combination_mode] uses the new
    ones, of which CEOL differs where _POSIX_VDISABLE is not zero. *)
Definition CERASE : Z := 127.
Definition CKILL : Z := 21.
Definition CEOF : Z := 4.
Definition CEOL : Z := 0.

(** The draft uses ONLCR, OCRNL, ONLRET, ECHOCTL and ECHOKE without an
    [#ifdef]: it builds only where they exist, and [bits_ifdef] is their
    value there. *)
Definition apply_combination_mode (info : struct_mode_info)
    (m : struct_termios) (reversed : bool) : bool * struct_termios :=
  let n := name info in
  if STREQ n "evenp" || STREQ n "parity" then
    (true, if reversed
           then replace_bits2 W_cflag PARENB CSIZE CS8 m
           else replace_bits2 W_cflag PARODD CSIZE (PARENB .| CS7) m)
  else if STREQ n "oddp" then
    (true, if reversed
           then replace_bits2 W_cflag PARENB CSIZE CS8 m
           else replace_bits W_cflag CSIZE (CS7 .| PARODD .| PARENB) m)
  else if STREQ n "nl" then
    (true, if reversed then
             block [ (fun m => store W_iflag
                        (Z.land (Z.land (c_iflag m .| ICRNL) (Z.lnot INLCR))
                                (Z.lnot IGNCR)) m);
                     (fun m => store W_oflag
                        (Z.land (Z.land (c_oflag m .| bits_ifdef ONLCR)
                                        (Z.lnot (bits_ifdef OCRNL)))
                                (Z.lnot (bits_ifdef ONLRET))) m) ] m
           else
             block [ clear_bits W_iflag ICRNL;
                     clear_bits W_oflag (bits_ifdef ONLCR) ] m)
  else if STREQ n "ek" then
    (true, block [ set_c_cc VERASE CERASE; set_c_cc VKILL CKILL ] m)
  else if STREQ n "sane" then
    (true, sane_mode m)
  else if STREQ n "cbreak" then
    (true, if reversed then or_bits W_lflag ICANON m
           else clear_bits W_lflag ICANON m)
  else if STREQ n "pass8" then
    (true, if reversed then
             block [ replace_bits W_cflag CSIZE (CS7 .| PARENB);
                     or_bits W_iflag ISTRIP ] m
           else
             block [ replace_bits2 W_cflag PARENB CSIZE CS8;
                     clear_bits W_iflag ISTRIP ] m)
  else if STREQ n "litout" then
    (true, if reversed then
             block [ replace_bits W_cflag CSIZE (CS7 .| PARENB);
                     or_bits W_iflag ISTRIP;
                     or_bits W_oflag OPOST ] m
           else
             block [ replace_bits2 W_cflag PARENB CSIZE CS8;
                     clear_bits W_iflag ISTRIP;
                     clear_bits W_oflag OPOST ] m)
  else if STREQ n "raw" || STREQ n "cooked" then
    (true, if (Ascii.eqb (hd_c n) "r" && reversed)
              || (Ascii.eqb (hd_c n) "c" && negb reversed) then
             block [ or_bits W_iflag (BRKINT .| IGNPAR .| ISTRIP .| ICRNL .| IXON);
                     or_bits W_oflag OPOST;
                     or_bits W_lflag (ISIG .| ICANON);
                     set_c_cc VEOF CEOF;
                     set_c_cc VEOL CEOL ] m
           else
             block [ store W_iflag 0;
                     clear_bits W_oflag OPOST;
                     clear_bits W_lflag (ISIG .| ICANON);
                     set_c_cc VMIN 1;
                     set_c_cc VTIME 0 ] m)
  else if STREQ n "decctlq" then
    (true, stmt_ifdef IXANY
             (fun v => if reversed then or_bits W_iflag v
                       else clear_bits W_iflag v) m)
  else if STREQ n "tabs" then
    (true, match TABDLY with
           | Some tabdly =>
               if reversed
               then replace_bits W_oflag tabdly (bits_ifdef TAB3) m
               else replace_bits W_oflag tabdly (bits_ifdef TAB0) m
           | None =>
               stmt_ifdef OXTABS
                 (fun v => if reversed then or_bits W_oflag v
                           else clear_bits W_oflag v) m
           end)
  else if STREQ n "lcase" || STREQ n "LCASE" then
    (true, match XCASE, IUCLC, OLCUC with
           | Some xcase, Some iuclc, Some olcuc =>
               if reversed then
                 block [ clear_bits W_lflag xcase;
                         clear_bits W_iflag iuclc;
                         clear_bits W_oflag olcuc ] m
               else
                 block [ or_bits W_lflag xcase;
                         or_bits W_iflag iuclc;
                         or_bits W_oflag olcuc ] m
           | _, _, _ => m
           end)
  else if STREQ n "crt" then
    (true, or_bits W_lflag (ECHOE .| bits_ifdef ECHOCTL .| bits_ifdef ECHOKE) m)
  else if STREQ n "dec" then
    (true, block [ set_c_cc VINTR 3;
                   set_c_cc VERASE 127;
                   set_c_cc VKILL 21;
                   or_bits W_lflag (ECHOE .| bits_ifdef ECHOCTL .| bits_ifdef ECHOKE);
                   stmt_ifdef IXANY (clear_bits W_iflag) ] m)
  else (false, m).

(** Return false if not applied because not reversible; otherwise
    return true. *)
Definition set_mode (info : struct_mode_info) (reversed : bool)
    (m : struct_termios) : bool * struct_termios :=
  if reversed && (Z.land (flags info) REV =? 0) then (false, m)
  else
    match mode_type_flag (type info) with
    | None => apply_combination_mode info m reversed
    | Some bitsp =>
        if reversed
        then (true, store bitsp (Z.land (load bitsp m)
                                   (Z.land (Z.lnot (mask info)) (Z.lnot (bits info)))) m)
        else (true, replace_bits bitsp (mask info) (bits info) m)
    end.

(** [value] starts as [_POSIX_VDISABLE] and is an [unsigned long]. *)
Definition set_control_char (info : struct_control_info) (arg : string)
    (m : struct_termios) : M struct_termios :=
  value <-
    (if STREQ (ci_name info) "min" || STREQ (ci_name info) "time"
     then integer_arg arg UCHAR_MAX
     else if negb (Ascii.eqb (hd_c arg) NUL) && Ascii.eqb (hd_c (tl_c arg)) NUL
     then ret (to_uchar (hd_c arg))
     else if negb (STREQ arg "^-") && negb (STREQ arg "undef") then
       if Ascii.eqb (hd_c arg) "^" && negb (Ascii.eqb (hd_c (tl_c arg)) NUL)
       then ret (if Ascii.eqb (hd_c (tl_c arg)) "?" then 127
                 else Z.land (to_uchar (hd_c (tl_c arg))) (Z.lnot 96 (* ~0140 *)))
       else integer_arg arg UCHAR_MAX
     else ret _POSIX_VDISABLE) ;;
  ret (set_c_cc (offset info) value m).

Definition set_speed (type_ : speed_setting) (arg : string)
    (m : struct_termios) : M struct_termios :=
  let baud := string_to_baud arg in
  if baud =? SPEED_INVALID
  then error_exit ("Invalid baud rate: " +:+ arg) else
  let set_input := match type_ with input_speed | both_speeds => true | _ => false end in
  let set_output := match type_ with output_speed | both_speeds => true | _ => false end in
  r1 <- (if set_input then
           modify (set_last_ibaud baud) ;;;
           ret match cfsetispeed m baud with
               | Some m' => (true, m') | None => (false, m)
               end
         else ret (true, m)) ;;
  r2 <- (if set_output then
           modify (set_last_obaud baud) ;;;
           ret match cfsetospeed (snd r1) baud with
               | Some m' => (true, m') | None => (false, snd r1)
               end
         else ret (true, snd r1)) ;;
  if negb (fst r1 && fst r2)
  then error_exit ("Unsupported speed: " +:+ arg)
  else ret (snd r2).
(** ** Window size and screen width (as in the other draft) *)

(** [get_win_size (fd, &win)] *)
Definition get_win_size (fd : Z) : M dev_reply := call (Ioctl_TIOCGWINSZ fd).

(** [ws_row] and [ws_col] are [unsigned short]. *)
Definition to_ushort (x : Z) : Z := x mod 2 ^ 16.

(** The workaround under [#ifdef TIOCSSIZE] (SunOS 4) is not compiled. *)
Definition set_window_size (rows cols : Z) (device_name : string) : M unit :=
  r <- get_win_size STDIN_FILENO ;;
  win <- match r with
         | Rwinsize row col => ret (row, col)
         | Rfail e => if negb (e =? EINVAL) then error_exit (quotef device_name)
                      else ret (0, 0)
         | _ => ret (0, 0)
         end ;;
  let win := if 0 <=? rows then (to_ushort rows, snd win) else win in
  let win := if 0 <=? cols then (fst win, to_ushort cols) else win in
  r <- call (Ioctl_TIOCSWINSZ (fst win) (snd win)) ;;
  match r with
  | Rfail _ => error_exit (quotef device_name)
  | _ => ret tt
  end.

Definition display_window_size (fancy : bool) (device_name : string) : M unit :=
  r <- get_win_size STDIN_FILENO ;;
  match r with
  | Rwinsize row col =>
      wrapf (if fancy
             then "rows " +:+ printf_d row +:+ "; columns " +:+ printf_d col +:+ ";"
             else printf_d row +:+ " " +:+ printf_d col +:+ String "010" "") ;;;
      when (negb fancy) (modify (set_current_col 0))
  | Rfail e =>
      if negb (e =? EINVAL) then error_exit (quotef device_name)
      else if negb fancy
      then error_exit (quotef device_name +:+ ": no size information for this device")
      else ret tt
  | _ => ret tt
  end.

Definition screen_columns : M Z :=
  r <- (if TIOCGWINSZ then get_win_size STDOUT_FILENO else ret (Rfail EINVAL)) ;;
  match r with
  | Rwinsize _ col => if 0 <? col then ret col else
      ret match env_COLUMNS with
          | Some n => if (0 <? n) && (n <=? INT_MAX) then n else 80
          | None => 80
          end
  | _ =>
      (* Use $COLUMNS if it's in [1..INT_MAX]. *)
      ret match env_COLUMNS with
          | Some n => if (0 <? n) && (n <=? INT_MAX) then n else 80
          | None => 80
          end
  end.


(** ** Renderer *)

Definition ascii_of_Z (x : Z) : ascii := ascii_of_N (Z.to_N x).

(** Return a string that is the printable representation of character CH.
    The draft ends with [*bpout = 0], and [bpout] has only moved where a
    byte was stored through it: what [strcpy] wrote at [bpout] is cut. *)
Definition visible (ch : Z) : string :=
  if ch =? _POSIX_VDISABLE then "<undef>"
  else if (32 <=? ch) && (ch <? 127) then String (ascii_of_Z ch) ""
  else if ch =? 127 then ""
  else if 128 <=? ch then
    let ch := ch - 128 in
    if (32 <=? ch) && (ch <? 127) then "M-" +:+ String (ascii_of_Z ch) ""
    else "M-"
  else "".

(** The start of a new group in the second loop of [display_changed]:
    [if (type != prev_type) { if (!empty_line) { newline } prev_type = type; }].
    The state is [empty_line] and [prev_type]. *)
Definition start_flag_group (info : struct_mode_info) (st : bool * mode_type)
    : M (bool * mode_type) :=
  if negb (mode_type_eqb (type info) (snd st)) then
    e <- (if negb (fst st)
          then putchar "010" ;;; modify (set_current_col 0) ;;; ret true
          else ret (fst st)) ;;
    ret (e, type info)
  else ret st.

(** The body of the second loop of [display_changed]: one entry of the
    flag block. *)
Definition display_changed_flag (info : struct_mode_info) (m : struct_termios)
    (st : bool * mode_type) : M (bool * mode_type) :=
  if negb (Z.land (flags info) OMIT =? 0) then ret st else     (* continue *)
  st <- start_flag_group info st ;;
  match mode_type_flag (type info) with
  | None => undefined_behaviour
  | Some bitsp =>
      let mask_ := if negb (mask info =? 0) then mask info else bits info in
      if Z.land (load bitsp m) mask_ =? bits info then
        if negb (Z.land (flags info) SANE_UNSET =? 0)
        then wrapf (name info) ;;; ret (false, snd st)
        else ret st
      else if Z.land (flags info) (SANE_SET .| REV) =? (SANE_SET .| REV)
      then wrapf ("-" +:+ name info) ;;; ret (false, snd st)
      else ret st
  end.

Definition display_speed (m : struct_termios) (fancy : bool) : M unit :=
  let ispeed := baud_to_value (cfgetispeed m) in
  let ospeed := baud_to_value (cfgetospeed m) in
  (if (ispeed =? 0) || (ispeed =? ospeed)
   then wrapf (if fancy
               then "speed " +:+ printf_lu ospeed +:+ " baud;"
               else printf_lu ospeed +:+ String "010" "")
   else wrapf (if fancy
               then "ispeed " +:+ printf_lu ispeed +:+ " baud; ospeed "
                    +:+ printf_lu ospeed +:+ " baud;"
               else printf_lu ispeed +:+ " " +:+ printf_lu ospeed
                    +:+ String "010" "")) ;;;
  when (negb fancy) (modify (set_current_col 0)).

Definition display_changed (m : struct_termios) : M unit :=
  display_speed m true ;;;
  when HAVE_C_LINE (wrapf ("line = " +:+ printf_d (c_line m) +:+ ";")) ;;;
  putchar "010" ;;;
  modify (set_current_col 0) ;;;
  let fix cc_loop (l : list struct_control_info) (empty_line : bool) : M bool :=
    match l with
    | [] => undefined_behaviour         (* runs off the table *)
    | ci :: l' =>
        if STREQ (ci_name ci) "min" then ret empty_line
        else if get_c_cc (offset ci) m =? to_cc_t (saneval ci) then cc_loop l' empty_line
        else if defined VFLUSHO && STREQ (ci_name ci) "flush" then cc_loop l' empty_line
        else if Nat.eqb VSWTCH VSUSP && STREQ (ci_name ci) "swtch" then cc_loop l' empty_line
        else if Nat.eqb VEOF VMIN && (Z.land (c_lflag m) ICANON =? 0)
                && (STREQ (ci_name ci) "eof" || STREQ (ci_name ci) "eol")
        then cc_loop l' empty_line
        else wrapf (ci_name ci +:+ " = " +:+ visible (get_c_cc (offset ci) m) +:+ ";") ;;;
             cc_loop l' false
    end in
  empty_line <- cc_loop control_info true ;;
  (if Z.land (c_lflag m) ICANON =? 0 then
     wrapf ("min = " +:+ printf_lu (get_c_cc VMIN m) +:+ "; time = "
            +:+ printf_lu (get_c_cc VTIME m) +:+ ";" +:+ String "010" "")
   else when (negb empty_line) (putchar "010")) ;;;
  modify (set_current_col 0) ;;;
  let fix flag_loop (l : list struct_mode_info) (st : bool * mode_type)
      : M (bool * mode_type) :=
    match l with
    | [] => ret st
    | info :: l' => st' <- display_changed_flag info m st ;; flag_loop l' st'
    end in
  st <- flag_loop mode_info (true, control) ;;
  when (negb (fst st)) (putchar "010") ;;;
  modify (set_current_col 0).

Definition display_all (m : struct_termios) (device_name : string) : M unit :=
  display_speed m true ;;;
  when TIOCGWINSZ (display_window_size true device_name) ;;;
  when HAVE_C_LINE (wrapf ("line = " +:+ printf_d (c_line m) +:+ ";")) ;;;
  putchar "010" ;;;
  modify (set_current_col 0) ;;;
  let fix cc_loop (l : list struct_control_info) : M unit :=
    match l with
    | [] => undefined_behaviour
    | ci :: l' =>
        if STREQ (ci_name ci) "min" then ret tt
        else if defined VFLUSHO && STREQ (ci_name ci) "flush" then cc_loop l'
        else if Nat.eqb VSWTCH VSUSP && STREQ (ci_name ci) "swtch" then cc_loop l'
        else if Nat.eqb VEOF VMIN && (Z.land (c_lflag m) ICANON =? 0)
                && (STREQ (ci_name ci) "eof" || STREQ (ci_name ci) "eol")
        then cc_loop l'
        else wrapf (ci_name ci +:+ " = " +:+ visible (get_c_cc (offset ci) m) +:+ ";") ;;;
             cc_loop l'
    end in
  cc_loop control_info ;;;
  when (negb (Nat.eqb VEOF VMIN) || (Z.land (c_lflag m) ICANON =? 0))
    (wrapf ("min = " +:+ printf_lu (get_c_cc VMIN m) +:+ "; time = "
            +:+ printf_lu (get_c_cc VTIME m) +:+ ";")) ;;;
  cur <- gets current_col ;;
  when (negb (cur =? 0)) (putchar "010") ;;;
  modify (set_current_col 0) ;;;
  let fix flag_loop (l : list struct_mode_info) (prev_type : mode_type) : M unit :=
    match l with
    | [] => ret tt
    | info :: l' =>
        if negb (Z.land (flags info) OMIT =? 0) then flag_loop l' prev_type else
        prev <- (if negb (mode_type_eqb (type info) prev_type)
                 then putchar "010" ;;; modify (set_current_col 0) ;;; ret (type info)
                 else ret prev_type) ;;
        match mode_type_flag (type info) with
        | None => undefined_behaviour
        | Some bitsp =>
            let mask_ := if negb (mask info =? 0) then mask info else bits info in
            (if Z.land (load bitsp m) mask_ =? bits info
             then wrapf (name info)
             else if negb (Z.land (flags info) REV =? 0)
             then wrapf ("-" +:+ name info)
             else ret tt) ;;;
            flag_loop l' prev
        end
    end in
  flag_loop mode_info control ;;;
  putchar "010" ;;;
  modify (set_current_col 0).

(** The line [display_recoverable] prints, without its newline. *)
Definition recoverable_line (m : struct_termios) : string :=
  printf_lx (c_iflag m) +:+ ":" +:+ printf_lx (c_oflag m) +:+ ":" +:+
  printf_lx (c_cflag m) +:+ ":" +:+ printf_lx (c_lflag m) +:+
  fold_right (fun i rest => ":" +:+ printf_lx (get_c_cc i m) +:+ rest) ""
    (seq 0 NCCS).

Definition display_recoverable (m : struct_termios) : M unit :=
  fputs_stdout (printf_lx (c_iflag m) +:+ ":" +:+ printf_lx (c_oflag m) +:+ ":" +:+
                printf_lx (c_cflag m) +:+ ":" +:+ printf_lx (c_lflag m)) ;;;
  fold_right (fun i k => fputs_stdout (":" +:+ printf_lx (get_c_cc i m)) ;;; k)
    (ret tt) (seq 0 NCCS) ;;;
  putchar "010".

Definition display_settings (ot : output_type) (m : struct_termios)
    (device_name : string) : M unit :=
  match ot with
  | changed => display_changed m
  | all => display_all m device_name
  | recoverable => display_recoverable m
  end.

(** ** Recoverable format: decoding *)

(** The flag and the new [*s], or [None] for a return of false.  There
    is no test that a digit was read, and the value is cut to
    [tcflag_t]. *)
Definition parse_tcflag (s : string) : option (Z * string) :=
  let r := strtoul s 16 in
  if negb (errno r =? 0) || negb (Ascii.eqb (hd_c (endp r)) ":") then None
  else Some (to_tcflag_t (ul r), tl_c (endp r)).

(** The byte and the new [*s], or [None] for a return of false.  The
    terminating NUL is accepted in place of [delim]; [*s] then points
    behind the terminator of the string, which the result marks by
    [None] for [*s]. *)
Definition parse_cc (s : string) (delim : ascii) : option (Z * option string) :=
  let r := strtoul s 16 in
  let p := endp r in
  if negb (errno r =? 0)
     || (negb (Ascii.eqb (hd_c p) delim) && negb (Ascii.eqb (hd_c p) NUL))
  then None
  else Some (to_cc_t (ul r),
             match p with EmptyString => None | String _ p1 => Some p1 end).

(** The four calls of [parse_tcflag] in [recover_mode], joined by [||]. *)
Fixpoint recover_flags (ws : list flag_word) (s : string) (m : struct_termios)
    : option string * struct_termios :=
  match ws with
  | [] => (Some s, m)
  | w :: ws' =>
      match parse_tcflag s with
      | None => (None, m)
      | Some (v, s') => recover_flags ws' s' (store w v m)
      end
  end.

(** The loop of [recover_mode] over the control characters with the
    indices [idx].  [None]: the parse went on behind the end of the
    string, which C leaves undefined. *)
Fixpoint recover_cc (idx : list nat) (s : option string) (m : struct_termios)
    : option (bool * struct_termios) :=
  match idx with
  | [] => Some (true, m)
  | i :: idx' =>
      match s with
      | None => None
      | Some s =>
          let delim := if (i <? NCCS - 1)%nat then ":"%char else NUL in
          match parse_cc s delim with
          | None => Some (false, m)
          | Some (v, s') => recover_cc idx' s' (set_c_cc i v m)
          end
      end
  end.

(** Parse the output of display_recoverable.
    Return false if any part of it is invalid. *)
Definition recover_mode (arg : string) (m : struct_termios)
    : option (bool * struct_termios) :=
  match recover_flags [ W_iflag; W_oflag; W_cflag; W_lflag ] arg m with
  | (None, m') => Some (false, m')
  | (Some s, m') => recover_cc (seq 0 NCCS) (Some s) m'
  end.

(** ** Settings parser *)

Definition next_arg (rest : list (option string)) : option string :=
  match rest with Some a :: _ => Some a | _ => None end.

Definition pstate : Type := struct_termios * bool.

Definition ckd_add_c_line (value : Z) : bool * Z :=
  (negb (to_cc_t value =? value), to_cc_t value).

Definition missing_argument {A} (arg : string) : M A :=
  error_continue ("missing argument to " +:+ quote arg) ;;; usage_failure.

(** The block under [if (!match_found || not_set_attr)]: the special
    settings, then the recoverable format.  [k] has not moved when it is
    entered; the result says whether it advances over the following
    argument. *)
Definition apply_unmatched (arg : string) (reversed checking : bool)
    (device_name : string) (rest : list (option string)) (st : pstate)
    : M (bool * pstate) :=
  (* param_check is [next_arg rest = None] *)
  if STREQ arg "ispeed" || STREQ arg "ospeed" then
    match next_arg rest with
    | None => missing_argument arg
    | Some a =>
        if string_to_baud a =? SPEED_INVALID then
          error_continue ("invalid " +:+ arg +:+ "speed " +:+ quote a) ;;;
          usage_failure
        else
          m <- set_speed (if STREQ arg "ispeed" then input_speed
                          else output_speed) a (fst st) ;;
          ret (true, (m, if negb checking then true else snd st))
    end
  else if TIOCEXT && STREQ arg "extproc" then
    if negb checking then
      r <- call (Ioctl_TIOCEXT (if reversed then 0 else 1)) ;;
      match r with
      | Rfail _ => error_exit (quotef device_name +:+ ": error setting "
                               +:+ quote arg)
      | _ => ret (false, st)
      end
    else ret (false, st)
  else if TIOCGWINSZ
          && (STREQ arg "rows" || STREQ arg "cols" || STREQ arg "columns") then
    match next_arg rest with
    | None => missing_argument arg
    | Some a =>
        if negb checking then
          value <- integer_arg a INT_MAX ;;
          set_window_size (if STREQ arg "rows" then value else -1)
                          (if STREQ arg "rows" then -1 else value)
                          device_name ;;;
          ret (true, st)
        else ret (false, st)          (* k stays: the argument is not skipped *)
    end
  else if TIOCGWINSZ && STREQ arg "size" then
    when (negb checking)
      (c <- screen_columns ;;
       modify (set_max_col c) ;;;
       modify (set_current_col 0) ;;;
       display_window_size false device_name) ;;;
    ret (false, st)
  else if HAVE_C_LINE && STREQ arg "line" then
    match next_arg rest with
    | None => missing_argument arg
    | Some a =>
        value <- integer_arg a UINTMAX_MAX ;;
        let '(overflow, line) := ckd_add_c_line value in
        when overflow
          (error_continue ("invalid line discipline " +:+ quote a)) ;;;
        ret (true, (set_c_line line (fst st), true))
    end
  else if STREQ arg "speed" then
    when (negb checking)
      (c <- screen_columns ;;
       modify (set_max_col c) ;;;
       display_speed (fst st) false) ;;;
    ret (false, st)
  else if negb (string_to_baud arg =? SPEED_INVALID) then
    m <- set_speed both_speeds arg (fst st) ;;
    ret (false, (m, if negb checking then true else snd st))
  else
    match recover_mode arg (fst st) with
    | None => undefined_behaviour
    | Some (ok, m) =>
        if negb ok then
          error_continue ("invalid argument " +:+ quote arg) ;;; usage_failure
        else ret (false, (m, true))
    end.

(** One round of the loop of [apply_settings] on the token [arg0] (not
    null), with the tokens after it; the result says whether [k] was
    advanced over the following argument. *)
Definition apply_one (checking : bool) (device_name : string) (arg0 : string)
    (rest : list (option string)) (st : pstate) : M (bool * pstate) :=
  let reversed := Ascii.eqb (hd_c arg0) "-" in
  let arg := if reversed then tl_c arg0 else arg0 in
  if STREQ arg "drain" then
    modify (set_tcsetattr_options (if reversed then TCSANOW else TCSADRAIN)) ;;;
    ret (false, st)                                               (* continue *)
  else
    (* the first entry of mode_info with this name *)
    let '(match_found, not_set_attr, st1) :=
      match find (fun info => STREQ arg (name info)) mode_info with
      | Some info =>
          if Z.land (flags info) NO_SETATTR =? 0
          then let '(ok, m) := set_mode info reversed (fst st) in
               (ok, false, (m, true))
          else (true, true, st)
      | None => (false, false, st)
      end in
    if negb match_found && reversed then
      error_continue ("invalid argument " +:+ quote arg0) ;;; usage_failure
    else if negb match_found then
      match find (fun ci => STREQ arg (ci_name ci)) control_info with
      | Some ci =>
          match next_arg rest with
          | None => missing_argument arg
          | Some a =>
              m <- set_control_char ci a (fst st1) ;;
              ret (true, (m, true))
          end
      | None => apply_unmatched arg reversed checking device_name rest st1
      end
    else if not_set_attr then
      apply_unmatched arg reversed checking device_name rest st1
    else ret (false, st1).

Definition check_speed (m : struct_termios) : M unit :=
  li <- gets last_ibaud ;;
  lo <- gets last_obaud ;;
  if (li =? SPEED_INVALID) || (lo =? SPEED_INVALID) then ret tt
  else if negb (cfgetispeed m =? li) || negb (cfgetospeed m =? lo) then
    error_exit ("asymmetric input (" +:+ printf_lu (baud_to_value li)
                +:+ "), output (" +:+ printf_lu (baud_to_value lo)
                +:+ ") speeds not supported")
  else ret tt.

Fixpoint apply_settings_from (checking : bool) (device_name : string)
    (settings : list (option string)) (st : pstate) : M pstate :=
  match settings with
  | [] => ret st
  | None :: rest => apply_settings_from checking device_name rest st
  | Some arg0 :: rest =>
      r <- apply_one checking device_name arg0 rest st ;;
      let '(consumed, st') := r in
      if consumed
      then match rest with
           | [] => ret st'
           | _ :: rest' => apply_settings_from checking device_name rest' st'
           end
      else apply_settings_from checking device_name rest st'
  end.

(** Apply specified settings to MODE and REQUIRE_SET_ATTR as required.
    If CHECKING is true, this function doesn't interact
    with a device, and only validates specified settings. *)
Definition apply_settings (checking : bool) (device_name : string)
    (settings : list (option string)) (st : pstate) : M pstate :=
  st' <- apply_settings_from checking device_name (tl settings) st ;;
  when checking (check_speed (fst st')) ;;;
  ret st'.

(** ** The program *)

(** Return true if modes are equivalent. *)
Definition eq_mode (mode1 mode2 : struct_termios) : bool :=
  (c_iflag mode1 =? c_iflag mode2) && (c_oflag mode1 =? c_oflag mode2)
  && (c_cflag mode1 =? c_cflag mode2) && (c_lflag mode1 =? c_lflag mode2)
  && (negb HAVE_C_LINE || (c_line mode1 =? c_line mode2))
  && forallb (fun i => get_c_cc i mode1 =? get_c_cc i mode2) (seq 0 NCCS)
  && (cfgetispeed mode1 =? cfgetispeed mode2)
  && (cfgetospeed mode1 =? cfgetospeed mode2).

(** [main] from the end of its option loop on: [config] is what the loop
    found, and [argv] the argument vector in which it has replaced every
    option by a null pointer.  The result is the exit status. *)
Definition main (config : stty_config) (argv : list (option string)) : M Z :=
  when (verbose_output config && recoverable_output config)
    (error_exit ("the options for verbose and stty-readable output styles "
                 +:+ "are mutually exclusive")) ;;;
  when (negb (noargs config)
        && (verbose_output config || recoverable_output config))
    (error_exit "when specifying an output style, modes may not be set") ;;;
  let device_name :=
    match file_name config with Some f => f | None => "standard input" end in
  new_mode <-
    (if negb (noargs config) && negb (verbose_output config)
        && negb (recoverable_output config)
     then st <- apply_settings true device_name argv (zero_termios, false) ;;
          ret (fst st)
     else ret zero_termios) ;;
  match file_name config with
  | Some _ =>
      r <- call (Fd_reopen device_name) ;;
      match r with
      | Rfail _ => error_exit device_name
      | _ =>
          r <- call Fcntl_reset_nonblock ;;
          match r with
          | Rfail _ => error_exit (device_name
                                   +:+ ": couldn't reset non-blocking mode")
          | _ => ret tt
          end
      end
  | None => ret tt
  end ;;;
  r <- call Tcgetattr ;;
  m <- match r with
       | Rtermios m => ret m
       | _ => error_exit device_name
       end ;;
  if verbose_output config || recoverable_output config || noargs config then
    display_settings (cfg_output_type config) m device_name ;;;
    ret EXIT_SUCCESS
  else
    st <- apply_settings false device_name argv (m, false) ;;
    when (snd st)
      (r <- call (Tcsetattr TCSANOW (fst st)) ;;
       match r with
       | Rfail _ => error_exit device_name
       | _ =>
           r <- call Tcgetattr ;;
           match r with
           | Rtermios new_mode' =>
               when (negb (eq_mode (fst st) new_mode'))
                 (error_exit (device_name
                              +:+ ": unable to perform all requested operations"))
           | _ => error_exit device_name
           end
       end) ;;;
    ret EXIT_SUCCESS.

End Gpt4o.
End Gpt4o.

(** * Specification vocabulary

    The predicates and functions the properties below are stated with.
    They follow the words of the specification, not the sources. *)

(** Everything of the snapshot except the flag word [w]. *)
Definition same_except (w : flag_word) (m m' : struct_termios) : Prop :=
  (forall w', w' <> w -> load w' m' = load w' m) /\
  c_cc m' = c_cc m /\ c_line m' = c_line m /\
  c_ispeed m' = c_ispeed m /\ c_ospeed m' = c_ospeed m.


(** Every name of the registry is one of these, whatever the platform
    defines. *)
Definition all_mode_names : list string :=
  [ "parenb"; "parodd"; "cmspar"; "cs5"; "cs6"; "cs7"; "cs8"; "hupcl"; "hup";
    "cstopb"; "cread"; "clocal"; "crtscts"; "cdtrdsr";
    "ignbrk"; "brkint"; "ignpar"; "parmrk"; "inpck"; "istrip"; "inlcr";
    "igncr"; "icrnl"; "ixon"; "ixoff"; "tandem"; "iuclc"; "ixany"; "imaxbel";
    "iutf8";
    "opost"; "olcuc"; "ocrnl"; "onlcr"; "onocr"; "onlret"; "ofill"; "ofdel";
    "nl1"; "nl0"; "cr3"; "cr2"; "cr1"; "cr0"; "tab3"; "tab2"; "tab1"; "tab0";
    "bs1"; "bs0"; "vt1"; "vt0"; "ff1"; "ff0";
    "isig"; "icanon"; "iexten"; "echo"; "echoe"; "crterase"; "echok";
    "echonl"; "noflsh"; "xcase"; "tostop"; "echoprt"; "prterase"; "echoctl";
    "ctlecho"; "echoke"; "crtkill"; "flusho"; "extproc";
    "evenp"; "parity"; "oddp"; "nl"; "ek"; "sane"; "cooked"; "raw"; "pass8";
    "litout"; "cbreak"; "decctlq"; "tabs"; "lcase"; "LCASE"; "crt"; "dec" ].

(** What holds of every entry of the registry on every platform: its
    name is a known one, its flags are those the table spells out, a
    combination is omitted from display and carries no bits. *)
Definition entry_shape (info : struct_mode_info) : bool :=
  existsb (String.eqb (name info)) all_mode_names &&
  match type info with
  | combination =>
      existsb (Z.eqb (flags info)) [ OMIT; REV .| OMIT ]
      && (bits info =? 0) && (mask info =? 0)
  | _ =>
      existsb (Z.eqb (flags info))
        [ 0; REV; REV .| OMIT; SANE_SET; SANE_UNSET; SANE_SET .| REV;
          SANE_UNSET .| REV; SANE_UNSET .| REV .| NO_SETATTR ]
  end.

Definition well_shaped (l : list struct_mode_info) : Prop :=
  List.Forall (fun info => entry_shape info = true) l.


(** From the words of the specification: the bits of the entry match
    its pattern under its mask (the pattern itself where the mask is
    zero). *)
Definition bits_match (info : struct_mode_info) (wd : flag_word)
    (m : struct_termios) : bool :=
  Z.land (load wd m) (if mask info =? 0 then bits info else mask info)
  =? bits info.

(** From the words of the specification: what the changed-only output
    shows for an entry that is not omitted.  The plain name when the
    bits match and the entry is unset by default; the name with '-' when
    they do not match and the entry is set by default and reversible;
    nothing otherwise. *)
Definition changed_only_token (info : struct_mode_info) (wd : flag_word)
    (m : struct_termios) : option string :=
  if bits_match info wd m && has_flag info SANE_UNSET
  then Some (name info)
  else if negb (bits_match info wd m)
          && (has_flag info SANE_SET && has_flag info REV)
  then Some ("-" +:+ name info)
  else None.

(** What the changed-only output shows for an entry of the registry:
    nothing for an omitted one, the token of the rule above for any
    other. *)
Definition shown_token `{platform} (m : struct_termios)
    (info : struct_mode_info) : option string :=
  if has_flag info OMIT then None
  else match mode_type_flag (type info) with
       | Some wd => changed_only_token info wd m
       | None => None
       end.

(** The tokens of the flag block of the changed-only output, in the
    order of the registry. *)
Fixpoint tokens_of `{platform} (m : struct_termios)
    (l : list struct_mode_info) : list string :=
  match l with
  | [] => []
  | info :: l' =>
      match shown_token m info with
      | Some token => token :: tokens_of m l'
      | None => tokens_of m l'
      end
  end.

Definition changed_tokens `{platform} (m : struct_termios) : list string :=
  tokens_of m mode_info.

(** The words of a text: its longest runs of bytes other than the space
    and the newline, in their order. *)
Definition is_blank (c : ascii) : bool :=
  Ascii.eqb c " " || Ascii.eqb c "010".

Fixpoint words (s : string) : list string :=
  match s with
  | EmptyString => []
  | String c r =>
      if is_blank c then words r
      else
        match r with
        | EmptyString => [ String c "" ]
        | String c' _ =>
            if is_blank c' then String c "" :: words r
            else match words r with
                 | first :: others => String c first :: others
                 | [] => [ String c "" ]
                 end
        end
  end.

(** A text that is one word: not empty, without space or newline. *)
Fixpoint no_blank (s : string) : bool :=
  match s with
  | EmptyString => true
  | String c r => negb (is_blank c) && no_blank r
  end.

Definition word_like (s : string) : bool :=
  match s with
  | EmptyString => false
  | String _ _ => no_blank s
  end.

(** A text whose last line is closed: empty, or ended by a newline. *)
Definition line_closed (s : string) : Prop :=
  s = "" \/ exists b, s = b +:+ String "010" "".

(** The state of the output while a block is printed from the state
    [w1]: [w] is [w1] with a text [blk] appended to standard output and
    with the column [c]; the words of [blk] are [toks]; at column 0 the
    last line of [blk] is closed; and [empty_line] holds at column 0
    only. *)
Definition block_state (w1 : world) (toks : list string) (empty_line : bool)
    (w : world) : Prop :=
  exists blk c,
    w = set_current_col c (put_out blk w1) /\ words blk = toks /\
    0 <= c /\ (c = 0 -> line_closed blk) /\ (empty_line = true -> c = 0).


(** Entries of the Linux registry, for the instances below. *)
Definition linux_icanon : struct_mode_info :=
  Mode "icanon" local (SANE_SET .| REV) (@ICANON linux) 0.
Definition linux_icrnl : struct_mode_info :=
  Mode "icrnl" input (SANE_SET .| REV) (@ICRNL linux) 0.

(** The registry entries of the combinations the properties name; they
    are in the table of every platform. *)
Definition evenp_entry : struct_mode_info := Mode "evenp" combination (REV .| OMIT) 0 0.
Definition raw_entry : struct_mode_info := Mode "raw" combination (REV .| OMIT) 0 0.
Definition cooked_entry : struct_mode_info := Mode "cooked" combination (REV .| OMIT) 0 0.
Definition sane_entry : struct_mode_info := Mode "sane" combination OMIT 0 0.

(** The flags that "cooked" sets in the input word. *)
Definition cooked_iflags `{platform} : Z := BRKINT .| IGNPAR .| ISTRIP .| ICRNL .| IXON.

(** The three tests of C5 on a control word: character size CS8, PARENB
    clear, PARODD clear. *)
Definition cs8_no_parity `{platform} (cflag : Z) : Prop :=
  Z.land cflag CSIZE = CS8 /\ Z.land cflag PARENB = 0 /\ Z.land cflag PARODD = 0.

(** C6 as it is written: the bits that raw and cooked both govern are
    after [m'] what they were in [m]. *)
Definition jointly_governed_restored `{platform} (m m' : struct_termios) : Prop :=
  Z.land (c_lflag m') (ISIG .| ICANON) = Z.land (c_lflag m) (ISIG .| ICANON) /\
  Z.land (c_oflag m') OPOST = Z.land (c_oflag m) OPOST /\
  Z.land (c_iflag m') cooked_iflags = Z.land (c_iflag m) cooked_iflags.

(** "-evenp" as the parser applies it, in each draft. *)
Definition gemini_minus_evenp `{platform} (m : struct_termios) : struct_termios :=
  snd (Gemini.set_mode evenp_entry true m).
Definition gpt4o_minus_evenp `{platform} (m : struct_termios) : struct_termios :=
  snd (Gpt4o.set_mode evenp_entry true m).

(** "raw" and "cooked" as the parser applies them, in each draft. *)
Definition gemini_raw `{platform} (m : struct_termios) : struct_termios :=
  snd (Gemini.set_mode raw_entry false m).
Definition gemini_cooked `{platform} (m : struct_termios) : struct_termios :=
  snd (Gemini.set_mode cooked_entry false m).
Definition gpt4o_raw `{platform} (m : struct_termios) : struct_termios :=
  snd (Gpt4o.set_mode raw_entry false m).
Definition gpt4o_cooked `{platform} (m : struct_termios) : struct_termios :=
  snd (Gpt4o.set_mode cooked_entry false m).

(** The bits that raw and cooked both govern are all set, or all clear. *)
Definition in_cooked_state `{platform} (m : struct_termios) : Prop :=
  Z.land (c_lflag m) (ISIG .| ICANON) = ISIG .| ICANON /\
  Z.land (c_oflag m) OPOST = OPOST /\
  Z.land (c_iflag m) cooked_iflags = cooked_iflags.
Definition in_raw_state `{platform} (m : struct_termios) : Prop :=
  Z.land (c_lflag m) (ISIG .| ICANON) = 0 /\
  Z.land (c_oflag m) OPOST = 0 /\
  Z.land (c_iflag m) cooked_iflags = 0.

(** A Linux snapshot with odd parity and 5-bit characters. *)
Definition linux_odd_parity : struct_termios :=
  set_c_cflag (@PARENB linux .| @PARODD linux) (@zero_termios linux).

(** A Linux snapshot with every flag the registry gives it for "cooked". *)
Definition linux_cooked_flags : struct_termios :=
  set_c_iflag (@cooked_iflags linux)
    (set_c_oflag (@OPOST linux)
       (set_c_lflag (@ISIG linux .| @ICANON linux) (@zero_termios linux))).

(** *** An environment for the instances

    A plain environment in which the properties are instantiated: speeds
    are their own identifiers, the speed accessors are the two speed
    members, quoting puts the text between apostrophes, the device
    answers every call with an error, and numbers are C literals with an
    optional suffix b (512) or B (1024). *)

Definition c_literal (s : string) : option (Z * string) :=
  match s with
  | String "0" (String x r) =>
      if (Ascii.eqb x "x" || Ascii.eqb x "X") && is_digit_in 16 (hd_c r)
      then Some (scan_digits 16 r 0)
      else Some (scan_digits 8 s 0)
  | _ => if is_digit_in 10 (hd_c s) then Some (scan_digits 10 s 0) else None
  end.

Definition example_xnumtoumax (s : string) (base min max : Z)
    (suffixes err_ : string) : Z + string :=
  match c_literal (skip_space s) with
  | None => inr (err_ +:+ ": '" +:+ s +:+ "'")
  | Some (v, rest) =>
      let scaled :=
        if String.eqb rest "" then Some v
        else if String.eqb rest "b" then Some (v * 512)
        else if String.eqb rest "B" then Some (v * 1024)
        else None in
      match scaled with
      | Some n => if (min <=? n) && (n <=? max) then inl n
                  else inr (err_ +:+ ": '" +:+ s +:+ "'")
      | None => inr (err_ +:+ ": '" +:+ s +:+ "'")
      end
  end.

Definition example_env : externals := {|
  value_to_baud := fun v => v;
  baud_to_value := fun v => v;
  B19200 := 19200;
  B38400 := 38400;
  cfsetispeed := fun m b =>
    Some {| c_iflag := c_iflag m; c_oflag := c_oflag m; c_cflag := c_cflag m;
            c_lflag := c_lflag m; c_line := c_line m; c_cc := c_cc m;
            c_ispeed := b; c_ospeed := c_ospeed m |};
  cfsetospeed := fun m b =>
    Some {| c_iflag := c_iflag m; c_oflag := c_oflag m; c_cflag := c_cflag m;
            c_lflag := c_lflag m; c_line := c_line m; c_cc := c_cc m;
            c_ispeed := c_ispeed m; c_ospeed := b |};
  cfgetispeed := c_ispeed;
  cfgetospeed := c_ospeed;
  xnumtoumax := example_xnumtoumax;
  quote := fun s => "'" +:+ s +:+ "'";
  quotef := fun s => s;
  quoteaf := fun s => s;
  device := fun _ _ => Rfail 5;
  env_COLUMNS := None;
  emit_try_help := "Try 'stty --help' for more information."
|}.

(** *** The control-character literal codec *)

Section ControlCodecSpec.
Context `{P : platform} `{X : externals}.

(** The slot of [info] receives [v]. *)
Definition stores (info : struct_control_info) (v : Z) (m : struct_termios)
    : M struct_termios :=
  ret (set_c_cc (offset info) v m).

(** The generic-integer path: [integer_arg] with the maximum of [cc_t]. *)
Definition integer_path (info : struct_control_info) (arg : string)
    (m : struct_termios) : M struct_termios :=
  v <- integer_arg arg UCHAR_MAX ;; stores info v m.

Definition is_count_slot (info : struct_control_info) : bool :=
  STREQ (ci_name info) "min" || STREQ (ci_name info) "time".

(** C7 as it is written. *)
Definition claimed_control_codec (info : struct_control_info) (arg : string)
    (m : struct_termios) : M struct_termios :=
  if is_count_slot info then integer_path info arg m
  else match arg with
       | EmptyString => stores info 0 m
       | String c EmptyString => stores info (to_uchar c) m
       | String "^" (String "-" EmptyString) => stores info _POSIX_VDISABLE m
       | String "^" (String "?" EmptyString) => stores info 127 m
       | String "^" (String c EmptyString) => stores info (Z.land (to_uchar c) 0x1F) m
       | _ => if String.eqb arg "undef" then stores info _POSIX_VDISABLE m
              else integer_path info arg m
       end.

End ControlCodecSpec.

(** The first entry of the control registry. *)
Definition intr_entry `{platform} : struct_control_info := Ctl "intr" CINTR VINTR.
Definition min_entry `{platform} : struct_control_info := Ctl "min" 1 VMIN.

(** *** Decimal numbers as text *)

Fixpoint all_digits (s : string) : bool :=
  match s with
  | EmptyString => true
  | String c r => c_isdigit c && all_digits r
  end.

Fixpoint all_spaces (s : string) : bool :=
  match s with
  | EmptyString => true
  | String c r => c_isspace c && all_spaces r
  end.

(** The number a string of decimal digits denotes, after [acc]. *)
Fixpoint number_of (s : string) (acc : Z) : Z :=
  match s with
  | EmptyString => acc
  | String c r => number_of r (10 * acc + (to_uchar c - 48))
  end.

(** [n + f / 10^k] rounded to the nearest integer, a tie going to the
    even neighbour. *)
Definition round_half_even (n f k : Z) : Z :=
  if 2 * f >? 10 ^ k then n + 1
  else if 2 * f <? 10 ^ k then n
  else if Z.even n then n else n + 1.

(** *** The recoverable format *)

(** A byte that [printf ("%lx")] can write. *)
Definition lower_hex (c : ascii) : bool :=
  let n := to_uchar c in
  ((48 <=? n) && (n <=? 57)) || ((97 <=? n) && (n <=? 102)).

Fixpoint all_lower_hex (s : string) : bool :=
  match s with
  | EmptyString => true
  | String c r => lower_hex c && all_lower_hex r
  end.

(** The snapshot [m] with the four flag words and the control
    characters of [s]: what decoding the encoding of [s] into [m] is to
    give. *)
Definition with_flags_and_cc (s m : struct_termios) : struct_termios :=
  {| c_iflag := c_iflag s; c_oflag := c_oflag s; c_cflag := c_cflag s;
     c_lflag := c_lflag s; c_line := c_line m; c_cc := c_cc s;
     c_ispeed := c_ispeed m; c_ospeed := c_ospeed m |}.

(** The snapshot [m] after the four flag words of [s] have been stored
    into it, in the order of the recoverable line. *)
Definition flags_stored (s m : struct_termios) : struct_termios :=
  store W_lflag (c_lflag s) (store W_cflag (c_cflag s)
    (store W_oflag (c_oflag s) (store W_iflag (c_iflag s) m))).

(** The text of the control characters [k], ..., [k + n - 1] in the
    recoverable line, each after its colon. *)
Definition cc_text (s : struct_termios) (k n : nat) : string :=
  fold_right (fun i rest => ":" +:+ printf_lx (get_c_cc i s) +:+ rest) ""
    (seq k n).

(** The control characters [k], ..., [k + n - 1] of [s] stored into [m]. *)
Definition copy_cc (s : struct_termios) (k n : nat) (m : struct_termios)
    : struct_termios :=
  fold_left (fun m i => set_c_cc i (get_c_cc i s) m) (seq k n) m.

(** The fields of a colon-separated line, in order. *)
Fixpoint split_colon (s : string) : list string :=
  match s with
  | EmptyString => [ EmptyString ]
  | String c r =>
      if Ascii.eqb c ":" then EmptyString :: split_colon r
      else match split_colon r with
           | f :: fs => String c f :: fs
           | [] => [ String c EmptyString ]
           end
  end.

(** The fields the recoverable line of [s] is to have: the four flag
    words, then the [NCCS] control characters, all as [%lx] prints them. *)
Definition recoverable_fields `{platform} (s : struct_termios) : list string :=
  List.map printf_lx [ c_iflag s; c_oflag s; c_cflag s; c_lflag s ] ++
  List.map (fun i => printf_lx (get_c_cc i s)) (seq 0 NCCS).

Definition newline : string := String "010" EmptyString.

(** A snapshot as a Linux terminal has it after login. *)
Definition linux_login : struct_termios :=
  {| c_iflag := 0x500; c_oflag := 0x5; c_cflag := 0xbf; c_lflag := 0x8a3b;
     c_line := 0;
     c_cc := [ 3; 28; 127; 21; 4; 0; 1; 0; 17; 19; 26; 0; 18; 15; 23; 22 ]
             ++ replicate 16 0;
     c_ispeed := 15; c_ospeed := 15 |}.

(** *** sane *)

(** The entries of [control_info] the first loop of [sane_mode] gets to:
    all of them, or those before "min" where MIN shares the slot of
    EOF. *)
Fixpoint sane_reached `{platform} (l : list struct_control_info)
    : list struct_control_info :=
  match l with
  | [] => []
  | ci :: l' =>
      if Nat.eqb VMIN VEOF && STREQ (ci_name ci) "min" then []
      else ci :: sane_reached l'
  end.

(** The assignments [c_cc[offset] = saneval] for the entries [l]. *)
Definition write_sanevals (l : list struct_control_info) (m : struct_termios)
    : struct_termios :=
  fold_left (fun m ci => set_c_cc (offset ci) (saneval ci) m) l m.

(** The control characters of the registry can be told apart: every
    offset lies within [c_cc], and entries that share a slot (as "flush"
    and "discard" do) have the same default. *)
Definition cc_registry_ok `{platform} : bool :=
  let l := sane_reached control_info in
  forallb (fun ci =>
    (offset ci <? NCCS)%nat &&
    forallb (fun cj =>
      implb (Nat.eqb (offset ci) (offset cj))
            (to_cc_t (saneval ci) =? to_cc_t (saneval cj))) l) l.

Definition flag_word_eqb (a b : flag_word) : bool :=
  match a, b with
  | W_cflag, W_cflag | W_iflag, W_iflag
  | W_oflag, W_oflag | W_lflag, W_lflag => true
  | _, _ => false
  end.

(** The word [word] has the entry at the value the registry gives for
    "sane": the pattern under the mask for an entry that is set by
    default, all its bits clear for one that is unset by default. *)
Definition default_on (info : struct_mode_info) (word : Z) : bool :=
  if has_flag info SANE_SET
  then Z.land word (if mask info =? 0 then bits info else mask info)
       =? bits info
  else if has_flag info SANE_UNSET
  then Z.land word (mask info .| bits info) =? 0
  else true.

Definition at_sane_default (info : struct_mode_info) (m : struct_termios)
    : bool :=
  match mode_type_flag (type info) with
  | Some wd => default_on info (load wd m)
  | None => true
  end.

(** What the second loop of [sane_mode] does to the flag word [wd], as
    a pair: the bits it has written so far, and what it left in them. *)
Definition sane_step (wd : flag_word) (acc : Z * Z) (info : struct_mode_info)
    : Z * Z :=
  if has_flag info NO_SETATTR then acc
  else
    match mode_type_flag (type info) with
    | Some wd' =>
        if flag_word_eqb wd' wd then
          if has_flag info SANE_SET
          then (fst acc .| mask info .| bits info,
                Z.land (snd acc) (Z.lnot (mask info)) .| bits info)
          else if has_flag info SANE_UNSET
          then (fst acc .| mask info .| bits info,
                Z.land (snd acc) (Z.lnot (mask info .| bits info)))
          else acc
        else acc
    | None => acc
    end.

(** A word [x] after the writes summed up in [acc]. *)
Definition after_writes (acc : Z * Z) (x : Z) : Z :=
  to_tcflag_t (Z.land x (Z.lnot (fst acc)) .| snd acc).

(** The values the flag entries of the registry have after "sane" do
    not contradict each other: on the all-zero snapshot, "sane" leaves
    every entry it handles at its default. *)
Definition flags_registry_ok `{platform} (sane : struct_termios -> struct_termios)
    : bool :=
  forallb (fun info =>
    has_flag info NO_SETATTR || at_sane_default info (sane zero_termios))
    mode_info.

(** A FreeBSD snapshot with EXTPROC set. *)
Definition freebsd_extproc : struct_termios :=
  set_c_lflag 0x800 (@zero_termios freebsd).

Definition freebsd_extproc_entry : struct_mode_info :=
  Mode "extproc" local (SANE_UNSET .| REV .| NO_SETATTR) 0x800 0.

(** *** Errors of the settings parser *)

(** [error (0, 0, "invalid argument %s", quote (token))] followed by
    [usage (EXIT_FAILURE)]: the two lines on stderr and the exit; nothing
    else of the process state changes. *)
Definition fatal_invalid_argument_world `{externals} (token : string)
    (w : world) : world :=
  put_err emit_try_help (put_err ("invalid argument " +:+ quote token) w).

Definition fatal_invalid_argument `{externals} {A : Type} (token : string)
    (w : world) : result A :=
  Exit EXIT_FAILURE (fatal_invalid_argument_world token w).

Definition linux_cs8 : struct_mode_info :=
  Mode "cs8" control 0 (@CS8 linux) (@CSIZE linux).

(** What the option parser leaves for a run that sets modes: no output
    style, some settings, perhaps a device file. *)
Definition settings_run (f : option string) : stty_config :=
  {| cfg_output_type := changed; verbose_output := false;
     recoverable_output := false; noargs := false; file_name := f |}.

Definition device_name_of (f : option string) : string :=
  match f with Some f => f | None => "standard input" end.

(** The number of colons of a token: one less than the number of its
    fields. *)
Fixpoint colons (s : string) : nat :=
  match s with
  | EmptyString => 0
  | String c r => (if Ascii.eqb c ":" then 1 else 0) + colons r
  end.

(** ** Further vocabulary *)

(** The mask the display routines test an entry under: its mask, or its
    bits where the mask is zero. *)
Definition effective_mask (info : struct_mode_info) : Z :=
  if mask info =? 0 then bits info else mask info.

(** Whether [set_mode] is to refuse: a negated entry that is not
    reversible. *)
Definition refused (info : struct_mode_info) (reversed : bool) : bool :=
  reversed && negb (has_flag info REV).

(** Two runs of settings that can stand for each other anywhere on a
    command line: whatever follows, whatever the snapshot and the state
    of the process, the loop of [apply_settings] ends the same way.  One
    definition for each draft. *)
Definition gemini_same_settings `{platform} `{externals}
    (ts1 ts2 : list string) : Prop :=
  forall checking device_name rest st w,
    Gemini.apply_settings_from checking device_name
      (List.map Some ts1 ++ rest) st w
    = Gemini.apply_settings_from checking device_name
        (List.map Some ts2 ++ rest) st w.

Definition gpt4o_same_settings `{platform} `{externals}
    (ts1 ts2 : list string) : Prop :=
  forall checking device_name rest st w,
    Gpt4o.apply_settings_from checking device_name
      (List.map Some ts1 ++ rest) st w
    = Gpt4o.apply_settings_from checking device_name
        (List.map Some ts2 ++ rest) st w.

Definition same_settings `{platform} `{externals}
    (ts1 ts2 : list string) : Prop :=
  gemini_same_settings ts1 ts2 /\ gpt4o_same_settings ts1 ts2.

(** The state of the process when a computation has ended, however it
    ended. *)
Definition world_after {A} (r : result A) : world :=
  match r with
  | Ret _ w => w
  | Exit _ w => w
  | Undefined w => w
  end.

(** A computation that makes no call on the device and writes nothing
    to standard output, whatever the state it starts in. *)
Definition off_device {A} (c : M A) : Prop :=
  forall w, calls (world_after (c w)) = calls w /\
            out (world_after (c w)) = out w.

(** Every call on the device that a computation makes satisfies [P]:
    the log of calls grows by calls of that kind only, however the
    computation ends. *)
Definition emits {A} (P : dev_call -> Prop) (c : M A) : Prop :=
  forall w, exists l, calls (world_after (c w)) = calls w ++ l /\ Forall P l.

(** A call that leaves the device as it is. *)
Definition reads_only (c : dev_call) : Prop := is_device_write c = false.

(** A call that is not [tcsetattr], or is [tcsetattr] with [TCSANOW]. *)
Definition sets_at_once (c : dev_call) : Prop :=
  match c with
  | Tcsetattr optional_actions _ => optional_actions = TCSANOW
  | _ => True
  end.

(** A call other than [tcsetattr]. *)
Definition no_tcsetattr (c : dev_call) : Prop :=
  match c with
  | Tcsetattr _ _ => False
  | _ => True
  end.

(** [error (0, 0, "missing argument to %s", quote (arg))] followed by
    [usage (EXIT_FAILURE)]. *)
Definition fatal_missing_argument `{externals} {A : Type} (arg : string)
    (w : world) : result A :=
  Exit EXIT_FAILURE
    (put_err emit_try_help (put_err ("missing argument to " +:+ quote arg) w)).

(** The settings that take the following token as their argument: the
    names of the control characters, the two speeds, the window sizes
    and the line discipline, where the platform has them. *)
Definition takes_argument `{platform} (arg : string) : bool :=
  match find (fun c => STREQ arg (ci_name c)) control_info with
  | Some _ => true
  | None =>
      STREQ arg "ispeed" || STREQ arg "ospeed"
      || (TIOCGWINSZ && (STREQ arg "rows" || STREQ arg "cols"
                         || STREQ arg "columns"))
      || (HAVE_C_LINE && STREQ arg "line")
  end.

(** The token is the last one, or a null follows it. *)
Definition nothing_follows (rest : list (option string)) : Prop :=
  rest = [] \/ exists rest', rest = None :: rest'.

(** A word that is neither negated, nor "drain", nor the name of a flag. *)
Definition plain_word `{platform} (arg : string) : Prop :=
  Ascii.eqb (hd_c arg) "-" = false /\
  STREQ arg "drain" = false /\
  find (fun i => STREQ arg (name i)) mode_info = None.

(** The registry lets the changed-only output fall silent: every flag
    entry is set through tcsetattr, and an entry that is unset by
    default has a bit to show. *)
Definition registry_shows_changes `{platform} : bool :=
  forallb (fun info =>
    negb (has_flag info NO_SETATTR)
    && implb (has_flag info SANE_UNSET) (negb (bits info =? 0))) mode_info.

(** The head of the changed-only output in each draft: the speed, the
    line discipline where there is one, and the end of the line. *)
Definition gemini_changed_header `{platform} `{externals} (m : struct_termios)
    : M unit :=
  Gemini.display_speed m true ;;;
  when HAVE_C_LINE (Gemini.wrapf ("line = " +:+ printf_d (c_line m) +:+ ";")) ;;;
  putchar "010" ;;;
  modify (set_current_col 0).

Definition gpt4o_changed_header `{platform} `{externals} (m : struct_termios)
    : M unit :=
  Gpt4o.display_speed m true ;;;
  when HAVE_C_LINE (Gpt4o.wrapf ("line = " +:+ printf_d (c_line m) +:+ ";")) ;;;
  putchar "010" ;;;
  modify (set_current_col 0).

(** The changed-only output in front of the flag block.  In the draft
    of gemini: the head and [display_control_chars]. *)
Definition gemini_changed_top `{platform} `{externals} (m : struct_termios)
    : M unit :=
  gemini_changed_header m ;;;
  Gemini.display_control_chars m.

(** In the draft of gpt-4o, where [display_changed] is one function:
    its statements up to the second [empty_line = true], that is the
    head, the loop over the control characters, "min" and "time" or the
    end of the line, and [current_col = 0]. *)
Fixpoint gpt4o_changed_control_chars `{platform} `{externals}
    (m : struct_termios) (l : list struct_control_info) (empty_line : bool)
    : M bool :=
  match l with
  | [] => undefined_behaviour         (* runs off the table *)
  | ci :: l' =>
      if STREQ (ci_name ci) "min" then ret empty_line
      else if get_c_cc (offset ci) m =? to_cc_t (saneval ci)
      then gpt4o_changed_control_chars m l' empty_line
      else if defined VFLUSHO && STREQ (ci_name ci) "flush"
      then gpt4o_changed_control_chars m l' empty_line
      else if Nat.eqb VSWTCH VSUSP && STREQ (ci_name ci) "swtch"
      then gpt4o_changed_control_chars m l' empty_line
      else if Nat.eqb VEOF VMIN && (Z.land (c_lflag m) ICANON =? 0)
              && (STREQ (ci_name ci) "eof" || STREQ (ci_name ci) "eol")
      then gpt4o_changed_control_chars m l' empty_line
      else Gpt4o.wrapf (ci_name ci +:+ " = "
                        +:+ Gpt4o.visible (get_c_cc (offset ci) m) +:+ ";") ;;;
           gpt4o_changed_control_chars m l' false
  end.

Definition gpt4o_changed_top `{platform} `{externals} (m : struct_termios)
    : M unit :=
  gpt4o_changed_header m ;;;
  empty_line <- gpt4o_changed_control_chars m control_info true ;;
  (if Z.land (c_lflag m) ICANON =? 0 then
     Gpt4o.wrapf ("min = " +:+ printf_lu (get_c_cc VMIN m) +:+ "; time = "
                  +:+ printf_lu (get_c_cc VTIME m) +:+ ";" +:+ String "010" "")
   else when (negb empty_line) (putchar "010")) ;;;
  modify (set_current_col 0).

(** Whether a text holds a newline, and what stands after its last
    newline: the line that is still open. *)
Fixpoint has_newline (s : string) : bool :=
  match s with
  | EmptyString => false
  | String c r => Ascii.eqb c "010" || has_newline r
  end.

Fixpoint last_line (s : string) : string :=
  match s with
  | EmptyString => EmptyString
  | String c r =>
      if has_newline r then last_line r
      else if Ascii.eqb c "010" then r
      else String c r
  end.

(** [current_col] is the length of the open line of standard output. *)
Definition column_tracks_output (w : world) : Prop :=
  current_col w = strlen (last_line (out w)).

(** A name as it is typed: with '-' before it when negated. *)
Definition typed (negated : bool) (name_ : string) : string :=
  if negated then String "-" name_ else name_.

(** A plain word that is the name of the flag entry [info], an entry
    set through tcsetattr. *)
Definition plain_word_found `{platform} (arg : string)
    (info : struct_mode_info) : Prop :=
  Ascii.eqb (hd_c arg) "-" = false /\
  STREQ arg "drain" = false /\
  find (fun i => STREQ arg (name i)) mode_info = Some info /\
  has_flag info NO_SETATTR = false.

(** * Properties *)

(** ** Bit-level reasoning on flag words *)

Lemma testbit_to_tcflag_t x i :
  Z.testbit (to_tcflag_t x) i = (i <? 32) && Z.testbit x i.
Proof. unfold to_tcflag_t. now rewrite Z.testbit_mod_pow2 by lia. Qed.

Lemma to_tcflag_t_range x : is_tcflag (to_tcflag_t x).
Proof. unfold is_tcflag, to_tcflag_t. apply Z.mod_pos_bound. lia. Qed.

Lemma to_tcflag_t_id x : is_tcflag x -> to_tcflag_t x = x.
Proof. unfold is_tcflag, to_tcflag_t. intros. now apply Z.mod_small. Qed.

Lemma to_cc_t_range x : is_cc (to_cc_t x).
Proof. unfold is_cc, to_cc_t. apply Z.mod_pos_bound. lia. Qed.

Lemma to_cc_t_id x : is_cc x -> to_cc_t x = x.
Proof. unfold is_cc, to_cc_t. intros. now apply Z.mod_small. Qed.

Lemma testbit_tcflag_high x i : is_tcflag x -> 32 <= i -> Z.testbit x i = false.
Proof.
  intros Hx Hi. rewrite <- (to_tcflag_t_id x Hx), testbit_to_tcflag_t.
  destruct (Z.ltb_spec i 32); [lia | reflexivity].
Qed.

(** Equality of two words, bit by bit. *)
Ltac bitwise_eq :=
  apply Z.bits_inj'; intros ?i ?Hi;
  repeat rewrite ?testbit_to_tcflag_t, ?Z.land_spec, ?Z.lor_spec,
                 ?Z.lnot_spec, ?Z.ldiff_spec, ?Z.bits_0 by assumption.

(** What a hypothesis [a = b] on words says about bit [i]. *)
Ltac bit_of H i :=
  let H' := fresh H "_bit" in
  pose proof (f_equal (fun x => Z.testbit x i) H) as H'; cbv beta in H';
  repeat rewrite ?testbit_to_tcflag_t, ?Z.land_spec, ?Z.lor_spec,
                 ?Z.lnot_spec, ?Z.ldiff_spec, ?Z.bits_0 in H' by assumption.

(** ** Strings *)

Lemma append_assoc (a b c : string) : (a +:+ b) +:+ c = a +:+ (b +:+ c).
Proof. induction a as [| x a IH]; simpl; [reflexivity | now rewrite IH]. Qed.

Lemma append_nil_r (a : string) : a +:+ "" = a.
Proof. induction a as [| x a IH]; simpl; [reflexivity | now rewrite IH]. Qed.

(** ** The snapshot as a record *)

Lemma load_store_same w v m : load w (store w v m) = to_tcflag_t v.
Proof. now destruct w. Qed.

Lemma load_store_other w w' v m : w <> w' -> load w (store w' v m) = load w m.
Proof. destruct w, w'; simpl; congruence. Qed.

Lemma c_cc_store w v m : c_cc (store w v m) = c_cc m.
Proof. now destruct w. Qed.

Lemma c_line_store w v m : c_line (store w v m) = c_line m.
Proof. now destruct w. Qed.

Lemma c_ispeed_store w v m : c_ispeed (store w v m) = c_ispeed m.
Proof. now destruct w. Qed.

Lemma c_ospeed_store w v m : c_ospeed (store w v m) = c_ospeed m.
Proof. now destruct w. Qed.

Lemma load_set_c_cc w i v m : load w (set_c_cc i v m) = load w m.
Proof. now destruct w. Qed.

Lemma get_c_cc_store i w v m : get_c_cc i (store w v m) = get_c_cc i m.
Proof. now destruct w. Qed.

(** A snapshot is determined by its eight members. *)
Lemma termios_eq m1 m2 :
  (forall w, load w m1 = load w m2) ->
  c_line m1 = c_line m2 -> c_cc m1 = c_cc m2 ->
  c_ispeed m1 = c_ispeed m2 -> c_ospeed m1 = c_ospeed m2 -> m1 = m2.
Proof.
  intros Hw. pose proof (Hw W_cflag). pose proof (Hw W_iflag).
  pose proof (Hw W_oflag). pose proof (Hw W_lflag).
  destruct m1, m2; simpl in *. congruence.
Qed.

Lemma flag_word_eq_dec (a b : flag_word) : {a = b} + {a <> b}.
Proof. decide equality. Qed.

Ltac simpl_termios :=
  repeat rewrite ?load_store_same, ?c_cc_store, ?c_line_store,
    ?c_ispeed_store, ?c_ospeed_store, ?load_set_c_cc, ?get_c_cc_store.

(** What [replace_bits], [clear_bits] and [or_bits] leave in the word. *)
Lemma load_replace_bits w clr set m :
  load w (replace_bits w clr set m)
  = to_tcflag_t (Z.lor (Z.land (load w m) (Z.lnot clr)) set).
Proof. unfold replace_bits. apply load_store_same. Qed.

Lemma load_clear_bits w v m :
  load w (clear_bits w v m) = to_tcflag_t (Z.land (load w m) (Z.lnot v)).
Proof. unfold clear_bits. apply load_store_same. Qed.

Lemma load_or_bits w v m :
  load w (or_bits w v m) = to_tcflag_t (Z.lor (load w m) v).
Proof. unfold or_bits. apply load_store_same. Qed.

(** ** C10: a plain descriptor touches one flag word *)

Lemma same_except_store w v m : same_except w m (store w v m).
Proof.
  unfold same_except. simpl_termios.
  repeat split. intros w' Hw'. now apply load_store_other.
Qed.

Lemma same_except_refl w m : same_except w m m.
Proof. unfold same_except. auto. Qed.

Section SetModeFrame.
Context `{P : platform}.

Lemma gemini_set_mode_plain info reversed m w :
  mode_type_flag (type info) = Some w ->
  same_except w m (snd (Gemini.set_mode info reversed m)).
Proof.
  intros Hw. unfold Gemini.set_mode. rewrite Hw.
  destruct (reversed && (Z.land (flags info) REV =? 0)); simpl.
  - apply same_except_refl.
  - destruct reversed; simpl; apply same_except_store.
Qed.

Lemma gpt4o_set_mode_plain info reversed m w :
  mode_type_flag (type info) = Some w ->
  same_except w m (snd (Gpt4o.set_mode info reversed m)).
Proof.
  intros Hw. unfold Gpt4o.set_mode. rewrite Hw.
  destruct (reversed && (Z.land (flags info) REV =? 0)); simpl.
  - apply same_except_refl.
  - destruct reversed; simpl; apply same_except_store.
Qed.

Lemma plain_has_word t : t <> combination -> exists w, mode_type_flag t = Some w.
Proof. destruct t; simpl; eauto. congruence. Qed.

End SetModeFrame.

(** C10.  Applying a descriptor that is not a combination through
    [set_mode], negated or not, changes at most the flag word its type
    selects: the three other flag words, the control characters, the
    line discipline and both stored speeds are those of the snapshot
    before.  This holds in both drafts. *)
Theorem set_mode_changes_one_flag_word `{P : platform}
    (info : struct_mode_info) (reversed : bool) (m : struct_termios) :
  type info <> combination ->
  exists w, mode_type_flag (type info) = Some w /\
    same_except w m (snd (Gemini.set_mode info reversed m)) /\
    same_except w m (snd (Gpt4o.set_mode info reversed m)).
Proof.
  intros Hplain. destruct (plain_has_word _ Hplain) as [w Hw].
  exists w. split; [exact Hw | split].
  - now apply gemini_set_mode_plain.
  - now apply gpt4o_set_mode_plain.
Qed.

Lemma set_mode_changes_one_flag_word_witness :
  type linux_icrnl <> combination /\
  exists w,
    mode_type_flag (type linux_icrnl) = Some w /\
    same_except w (@zero_termios linux)
      (snd (@Gemini.set_mode linux linux_icrnl true (@zero_termios linux))) /\
    same_except w (@zero_termios linux)
      (snd (@Gpt4o.set_mode linux linux_icrnl true (@zero_termios linux))).
Proof.
  split; [discriminate |].
  apply (@set_mode_changes_one_flag_word linux linux_icrnl true
           (@zero_termios linux)).
  discriminate.
Defined.

(** ** C8: the flag block of the changed-only output *)

Lemma well_shaped_app l1 l2 :
  well_shaped l1 -> well_shaped l2 -> well_shaped (l1 ++ l2).
Proof. intros. apply List.Forall_app. now split. Qed.

Lemma well_shaped_ifdef {A} (c : option A) (f : A -> list struct_mode_info) :
  (forall v, well_shaped (f v)) -> well_shaped (ifdef c f).
Proof. destruct c; simpl; auto. intros _. constructor. Qed.

Ltac shape_list :=
  repeat first
    [ apply well_shaped_app
    | apply well_shaped_ifdef; intros ?
    | match goal with |- well_shaped (match ?c with _ => _ end) => destruct c end
    | match goal with |- well_shaped (if ?c then _ else _) => destruct c end
    | solve [ repeat (constructor; [ reflexivity | ]); constructor ] ].

Lemma mode_info_shape `{P : platform} : well_shaped mode_info.
Proof. unfold mode_info. shape_list. Qed.

Lemma land_pow2 f k :
  0 <= k -> Z.land f (2 ^ k) = if Z.testbit f k then 2 ^ k else 0.
Proof.
  intros Hk. apply Z.bits_inj'. intros i Hi.
  rewrite Z.land_spec, Z.pow2_bits_eqb by assumption.
  destruct (Z.eqb_spec k i) as [-> | Hne].
  - destruct (Z.testbit f i) eqn:E; simpl.
    + now rewrite Z.pow2_bits_true.
    + now rewrite Z.bits_0.
  - rewrite andb_false_r.
    destruct (Z.testbit f k); [ rewrite Z.pow2_bits_false by lia | rewrite Z.bits_0 ];
      reflexivity.
Qed.

(** [(flags & (SANE_SET | REV)) == (SANE_SET | REV)] holds when both
    flags are set. *)
Lemma both_flags_test info :
  (Z.land (flags info) (SANE_SET .| REV) =? (SANE_SET .| REV))
  = has_flag info SANE_SET && has_flag info REV.
Proof.
  unfold has_flag. change (SANE_SET .| REV) with (Z.lor (2 ^ 0) (2 ^ 2)).
  change SANE_SET with (2 ^ 0). change REV with (2 ^ 2).
  rewrite Z.land_lor_distr_r, !land_pow2 by lia.
  destruct (Z.testbit (flags info) 0), (Z.testbit (flags info) 2); reflexivity.
Qed.

(** An entry of the registry that is not omitted has a flag word. *)
Lemma shown_entry_has_word `{P : platform} info :
  In info mode_info -> has_flag info OMIT = false ->
  exists wd, mode_type_flag (type info) = Some wd.
Proof.
  intros Hin Homit.
  pose proof (proj1 (List.Forall_forall _ _) mode_info_shape info Hin) as Hs.
  unfold entry_shape in Hs. apply andb_prop in Hs. destruct Hs as [_ Hs].
  destruct (type info); simpl; eauto.
  exfalso. apply andb_prop in Hs. destruct Hs as [Hs _].
  apply andb_prop in Hs. destruct Hs as [Hs _].
  unfold has_flag in Homit. simpl in Hs.
  rewrite orb_false_r in Hs. apply orb_prop in Hs.
  destruct Hs as [Hs | Hs]; apply Z.eqb_eq in Hs; rewrite Hs in Homit;
    discriminate.
Qed.

(** In the changed-only output, an entry of the registry that is
    not omitted is passed to [wrapf] under its plain name exactly when
    its bits match its pattern under its mask and it is flagged
    SANE_UNSET, under its name with '-' exactly when the bits do not
    match and it is flagged SANE_SET and REV, and nothing is printed for
    it otherwise.  In the draft of gemini this is
    [display_one_mode_flag]; in the draft of gpt-4o it is the body of
    the second loop of [display_changed], after the group break. *)
Lemma changed_only_entry `{P : platform} (info : struct_mode_info) :
  In info mode_info -> has_flag info OMIT = false ->
  exists wd, mode_type_flag (type info) = Some wd /\
    forall (m : struct_termios) (w : world),
      (forall empty_line,
         Gemini.display_one_mode_flag info m empty_line w =
         match changed_only_token info wd m with
         | Some token => (Gemini.wrapf token ;;; ret false) w
         | None => Ret empty_line w
         end) /\
      (forall st,
         Gpt4o.display_changed_flag info m st w =
         (st' <- Gpt4o.start_flag_group info st ;;
          match changed_only_token info wd m with
          | Some token => Gpt4o.wrapf token ;;; ret (false, snd st')
          | None => ret st'
          end) w).
Proof.
  intros Hin Homit. destruct (shown_entry_has_word info Hin Homit) as [wd Hwd].
  exists wd. split; [exact Hwd |]. intros m w.
  assert (Ho : negb (Z.land (flags info) OMIT =? 0) = false) by exact Homit.
  assert (Hmask : (if negb (mask info =? 0) then mask info else bits info)
                  = (if mask info =? 0 then bits info else mask info))
    by (destruct (mask info =? 0); reflexivity).
  split.
  - intros e. unfold Gemini.display_one_mode_flag, changed_only_token, bits_match.
    rewrite Ho, Hwd, Hmask, both_flags_test. unfold has_flag.
    destruct (Z.land (load wd m) _ =? bits info); simpl.
    + destruct (negb (Z.land (flags info) SANE_UNSET =? 0)); reflexivity.
    + destruct (negb (Z.land (flags info) SANE_SET =? 0)
                && negb (Z.land (flags info) REV =? 0)); reflexivity.
  - intros st. unfold Gpt4o.display_changed_flag, changed_only_token, bits_match.
    rewrite Ho, Hwd, Hmask, both_flags_test. unfold has_flag, bind.
    destruct (Gpt4o.start_flag_group info st w) as [st' w' | |]; try reflexivity.
    destruct (Z.land (load wd m) _ =? bits info); simpl.
    + destruct (negb (Z.land (flags info) SANE_UNSET =? 0)); reflexivity.
    + destruct (negb (Z.land (flags info) SANE_SET =? 0)
                && negb (Z.land (flags info) REV =? 0)); reflexivity.
Qed.

(** Membership in a table that computes. *)
Ltac in_table := vm_compute; repeat (first [ left; reflexivity | right ]).

(** What [wrapf] writes: the text, after a newline, a space or nothing. *)
Lemma gemini_wrapf_output buf w :
  exists w' sep, Gemini.wrapf buf w = Ret tt w' /\
    In sep [ ""; " "; String "010" "" ] /\ out w' = out w +:+ sep +:+ buf.
Proof.
  unfold Gemini.wrapf, bind, gets, when, modify, putchar, fputs_stdout, ret.
  destruct (0 <? current_col w).
  - destruct (max_col w <? current_col w + 1 + strlen buf); simpl;
      eexists; eexists; (split; [reflexivity |]); simpl.
    + split; [right; right; left; reflexivity |].
      now rewrite append_assoc.
    + split; [right; left; reflexivity |].
      now rewrite append_assoc.
  - simpl. eexists; exists ""; split; [reflexivity |]. simpl. auto.
Qed.

(** Both drafts wrap alike. *)
Lemma gpt4o_wrapf_eq buf w : Gpt4o.wrapf buf w = Gemini.wrapf buf w.
Proof.
  unfold Gpt4o.wrapf, Gpt4o.safeOutput, Gemini.wrapf, bind, gets.
  replace (max_col w - current_col w <=? strlen buf)
    with (max_col w <? current_col w + 1 + strlen buf); [reflexivity |].
  destruct (Z.ltb_spec (max_col w) (current_col w + 1 + strlen buf)),
           (Z.leb_spec (max_col w - current_col w) (strlen buf)); lia || reflexivity.
Qed.

(** ** C5 and C6: the combinations evenp, raw and cooked *)

Section Combinations.
Context `{P : platform}.

Lemma in_mode_info_tail info :
  In info
    [ Mode "evenp" combination (REV .| OMIT) 0 0;
      Mode "parity" combination (REV .| OMIT) 0 0;
      Mode "oddp" combination (REV .| OMIT) 0 0;
      Mode "nl" combination (REV .| OMIT) 0 0;
      Mode "ek" combination OMIT 0 0;
      Mode "sane" combination OMIT 0 0;
      Mode "cooked" combination (REV .| OMIT) 0 0;
      Mode "raw" combination (REV .| OMIT) 0 0;
      Mode "pass8" combination (REV .| OMIT) 0 0;
      Mode "litout" combination (REV .| OMIT) 0 0;
      Mode "cbreak" combination (REV .| OMIT) 0 0 ] ->
  In info mode_info.
Proof.
  intros H. unfold mode_info.
  repeat first [ apply List.in_or_app; left; exact H
               | apply List.in_or_app; right ].
Qed.

Lemma evenp_in_registry : In evenp_entry mode_info.
Proof. apply in_mode_info_tail. simpl. tauto. Qed.
Lemma raw_in_registry : In raw_entry mode_info.
Proof. apply in_mode_info_tail. simpl. tauto. Qed.
Lemma cooked_in_registry : In cooked_entry mode_info.
Proof. apply in_mode_info_tail. simpl. tauto. Qed.
Lemma sane_in_registry : In sane_entry mode_info.
Proof. apply in_mode_info_tail. simpl. tauto. Qed.

End Combinations.

(** Case analysis on every bit that occurs in the goal or in a
    hypothesis. *)
Ltac bit_cases :=
  repeat match goal with
         | H : context [Z.testbit _ _] |- _ => revert H
         end;
  repeat match goal with
         | |- context [Z.testbit ?x ?i] => destruct (Z.testbit x i)
         end;
  simpl; intros; try reflexivity; try discriminate; try congruence.

Ltac split_lt32 i :=
  destruct (Z.ltb_spec i 32); simpl.

Section Evenp.
Context `{P : platform}.

Lemma gemini_minus_evenp_eq m :
  gemini_minus_evenp m = replace_bits W_cflag (PARENB .| CSIZE) CS8 m.
Proof.
  unfold gemini_minus_evenp, Gemini.set_mode, Gemini.combination_modes.
  destruct IXANY; reflexivity.
Qed.

Lemma gpt4o_minus_evenp_eq m :
  gpt4o_minus_evenp m = Gpt4o.replace_bits2 W_cflag PARENB CSIZE CS8 m.
Proof. reflexivity. Qed.

(** The two drafts write the same control word. *)
Lemma minus_evenp_same m : gpt4o_minus_evenp m = gemini_minus_evenp m.
Proof.
  rewrite gemini_minus_evenp_eq, gpt4o_minus_evenp_eq.
  unfold Gpt4o.replace_bits2, replace_bits. f_equal.
  now rewrite Z.lnot_lor, Z.land_assoc.
Qed.

Lemma minus_evenp_cflag m :
  c_cflag (gemini_minus_evenp m)
  = to_tcflag_t (Z.lor (Z.land (c_cflag m) (Z.lnot (PARENB .| CSIZE))) CS8).
Proof. rewrite gemini_minus_evenp_eq. reflexivity. Qed.

Lemma minus_evenp_frame m : same_except W_cflag m (gemini_minus_evenp m).
Proof. rewrite gemini_minus_evenp_eq. apply same_except_store. Qed.

End Evenp.

(** C5, as the sources have it.  "-evenp" sets the character size to CS8
    and clears PARENB; it does not touch PARODD, nor any other bit
    outside PARENB and CSIZE, nor any other member of the snapshot.  The
    constants are those of a platform on which CS8 lies within CSIZE and
    apart from PARENB, and PARODD apart from both. *)
Theorem minus_evenp_sets_cs8_clears_parenb `{P : platform} (m : struct_termios) :
  Z.land CS8 CSIZE = CS8 -> Z.land CS8 PARENB = 0 -> is_tcflag CS8 ->
  Z.land PARODD (PARENB .| CSIZE) = 0 ->
  is_tcflag (c_cflag m) ->
  forall m', m' = gemini_minus_evenp m \/ m' = gpt4o_minus_evenp m ->
    Z.land (c_cflag m') CSIZE = CS8 /\
    Z.land (c_cflag m') PARENB = 0 /\
    Z.land (c_cflag m') PARODD = Z.land (c_cflag m) PARODD /\
    (forall k, Z.land k (PARENB .| CSIZE) = 0 ->
       Z.land (c_cflag m') k = Z.land (c_cflag m) k) /\
    same_except W_cflag m m'.
Proof.
  intros Hsize Hpar Hcs8 Hodd Hm m' Hm'.
  assert (Hm'' : m' = gemini_minus_evenp m)
    by (destruct Hm' as [-> | ->]; [reflexivity | apply minus_evenp_same]).
  subst m'. clear Hm'.
  assert (Hkeep : forall k, Z.land k (PARENB .| CSIZE) = 0 ->
            Z.land (c_cflag (gemini_minus_evenp m)) k = Z.land (c_cflag m) k).
  { intros k Hk. rewrite minus_evenp_cflag. bitwise_eq.
    bit_of Hk i. bit_of Hsize i.
    pose proof (testbit_tcflag_high _ i Hm) as Hhi.
    split_lt32 i; [| rewrite Hhi by lia; reflexivity ].
    bit_cases. }
  repeat split.
  - rewrite minus_evenp_cflag. bitwise_eq. bit_of Hsize i.
    pose proof (testbit_tcflag_high _ i Hcs8) as Hhi.
    split_lt32 i; [| rewrite Hhi by lia ]; bit_cases.
  - rewrite minus_evenp_cflag. bitwise_eq. bit_of Hpar i.
    split_lt32 i; bit_cases.
  - rewrite (Z.land_comm _ PARODD), (Z.land_comm _ PARODD) in *.
    rewrite !(Z.land_comm PARODD). apply Hkeep. exact Hodd.
  - exact Hkeep.
  - apply minus_evenp_frame.
  - apply minus_evenp_frame.
  - apply minus_evenp_frame.
  - apply minus_evenp_frame.
  - apply minus_evenp_frame.
Qed.

Lemma minus_evenp_sets_cs8_clears_parenb_witness :
  (Z.land (@CS8 linux) (@CSIZE linux) = @CS8 linux /\
   Z.land (@CS8 linux) (@PARENB linux) = 0 /\
   is_tcflag (@CS8 linux) /\
   Z.land (@PARODD linux) (@PARENB linux .| @CSIZE linux) = 0 /\
   is_tcflag (c_cflag linux_odd_parity)) /\
  let m' := @gemini_minus_evenp linux linux_odd_parity in
  Z.land (c_cflag m') (@CSIZE linux) = @CS8 linux /\
  Z.land (c_cflag m') (@PARENB linux) = 0 /\
  Z.land (c_cflag m') (@PARODD linux)
    = Z.land (c_cflag linux_odd_parity) (@PARODD linux) /\
  (forall k, Z.land k (@PARENB linux .| @CSIZE linux) = 0 ->
     Z.land (c_cflag m') k = Z.land (c_cflag linux_odd_parity) k) /\
  same_except W_cflag linux_odd_parity m'.
Proof.
  assert (Hrange : forall x, (0 <=? x) && (x <? 2 ^ 32) = true -> is_tcflag x).
  { intros x Hx. apply andb_prop in Hx. destruct Hx as [H1 H2].
    apply Z.leb_le in H1. apply Z.ltb_lt in H2. split; assumption. }
  split.
  - repeat split; try reflexivity; try (apply Hrange; reflexivity);
      vm_compute; congruence.
  - apply (@minus_evenp_sets_cs8_clears_parenb linux linux_odd_parity);
      try reflexivity; try (apply Hrange; reflexivity).
    left. reflexivity.
Defined.

(** C5 as it is written fails: on Linux, "-evenp" on a snapshot with odd
    parity leaves PARODD set, in both drafts. *)
Lemma minus_evenp_leaves_parodd :
  ~ @cs8_no_parity linux (c_cflag (@gemini_minus_evenp linux linux_odd_parity)) /\
  ~ @cs8_no_parity linux (c_cflag (@gpt4o_minus_evenp linux linux_odd_parity)) /\
  Z.land (c_cflag (@gemini_minus_evenp linux linux_odd_parity)) (@PARODD linux)
    = @PARODD linux /\
  Z.land (c_cflag (@gpt4o_minus_evenp linux linux_odd_parity)) (@PARODD linux)
    = @PARODD linux.
Proof.
  repeat split; try reflexivity;
    intros (_ & _ & H); vm_compute in H; discriminate.
Qed.

(** *** raw and cooked *)

Section RawCooked.
Context `{P : platform}.

Lemma gemini_raw_eq m : gemini_raw m = Gemini.set_raw_cooked_logic false m.
Proof.
  unfold gemini_raw, Gemini.set_mode, Gemini.combination_modes.
  destruct IXANY, XCASE, IUCLC, OLCUC; reflexivity.
Qed.

Lemma gemini_cooked_eq m : gemini_cooked m = Gemini.set_raw_cooked_logic true m.
Proof. reflexivity. Qed.

(** The flag words after raw and after cooked, in the draft of gemini. *)
Lemma gemini_raw_flags m :
  c_iflag (gemini_raw m) = 0 /\
  c_oflag (gemini_raw m) = to_tcflag_t (Z.land (c_oflag m) (Z.lnot OPOST)) /\
  c_lflag (gemini_raw m)
  = to_tcflag_t (Z.land (c_lflag m) (Z.lnot (ISIG .| ICANON .| bits_ifdef XCASE))).
Proof. rewrite gemini_raw_eq. repeat split. Qed.

Lemma gemini_cooked_flags m :
  c_iflag (gemini_cooked m) = to_tcflag_t (Z.lor (c_iflag m) cooked_iflags) /\
  c_oflag (gemini_cooked m) = to_tcflag_t (Z.lor (c_oflag m) OPOST) /\
  c_lflag (gemini_cooked m) = to_tcflag_t (Z.lor (c_lflag m) (ISIG .| ICANON)).
Proof.
  rewrite gemini_cooked_eq. unfold Gemini.set_raw_cooked_logic, block, stmt_if.
  simpl. destruct (Nat.eqb VMIN VEOF), (Nat.eqb VTIME VEOL); repeat split.
Qed.

(** The same, in the draft of gpt-4o. *)
Lemma gpt4o_raw_flags m :
  c_iflag (gpt4o_raw m) = 0 /\
  c_oflag (gpt4o_raw m) = to_tcflag_t (Z.land (c_oflag m) (Z.lnot OPOST)) /\
  c_lflag (gpt4o_raw m)
  = to_tcflag_t (Z.land (c_lflag m) (Z.lnot (ISIG .| ICANON))).
Proof. repeat split. Qed.

Lemma gpt4o_cooked_flags m :
  c_iflag (gpt4o_cooked m) = to_tcflag_t (Z.lor (c_iflag m) cooked_iflags) /\
  c_oflag (gpt4o_cooked m) = to_tcflag_t (Z.lor (c_oflag m) OPOST) /\
  c_lflag (gpt4o_cooked m) = to_tcflag_t (Z.lor (c_lflag m) (ISIG .| ICANON)).
Proof. repeat split. Qed.

(** [(x | k) & k = k] and [(x & ~(k | j)) & k = 0] on 32-bit words. *)
Lemma set_then_test x k : is_tcflag k -> Z.land (to_tcflag_t (Z.lor x k)) k = k.
Proof.
  intros Hk. bitwise_eq. pose proof (testbit_tcflag_high _ i Hk) as Hhi.
  split_lt32 i; [| rewrite Hhi by lia ]; bit_cases.
Qed.

Lemma clear_then_test x k j :
  Z.land (to_tcflag_t (Z.land x (Z.lnot (k .| j)))) k = 0.
Proof. bitwise_eq. split_lt32 i; bit_cases. Qed.

Lemma clear_then_test1 x k : Z.land (to_tcflag_t (Z.land x (Z.lnot k))) k = 0.
Proof. bitwise_eq. split_lt32 i; bit_cases. Qed.

End RawCooked.

(** C6, as the sources have it.  raw followed by cooked leaves ISIG,
    ICANON, OPOST and the input flags BRKINT, IGNPAR, ISTRIP, ICRNL and
    IXON all set; cooked followed by raw leaves them all clear; in
    neither order do the values before matter.  So the pair gives these
    bits back exactly when they were all set (for raw, cooked) or all
    clear (for cooked, raw) before.  Both drafts; the constants fit
    [tcflag_t]. *)
Theorem raw_cooked_overwrite `{P : platform} (m : struct_termios) :
  is_tcflag cooked_iflags -> is_tcflag OPOST -> is_tcflag (ISIG .| ICANON) ->
  forall rc cr,
    (rc = gemini_cooked (gemini_raw m) /\ cr = gemini_raw (gemini_cooked m)) \/
    (rc = gpt4o_cooked (gpt4o_raw m) /\ cr = gpt4o_raw (gpt4o_cooked m)) ->
    in_cooked_state rc /\ in_raw_state cr /\
    (jointly_governed_restored m rc <-> in_cooked_state m) /\
    (jointly_governed_restored m cr <-> in_raw_state m).
Proof.
  intros Hi Ho Hl rc cr Hdraft.
  assert (Hrc : in_cooked_state rc).
  { destruct Hdraft as [[-> _] | [-> _]]; unfold in_cooked_state.
    - destruct (gemini_cooked_flags (gemini_raw m)) as (-> & -> & ->).
      repeat split; now apply set_then_test.
    - destruct (gpt4o_cooked_flags (gpt4o_raw m)) as (-> & -> & ->).
      repeat split; now apply set_then_test. }
  assert (Hcr : in_raw_state cr).
  { destruct Hdraft as [[_ ->] | [_ ->]]; unfold in_raw_state.
    - destruct (gemini_raw_flags (gemini_cooked m)) as (-> & -> & ->).
      repeat split; [apply clear_then_test | apply clear_then_test1 ].
    - destruct (gpt4o_raw_flags (gpt4o_cooked m)) as (-> & -> & ->).
      repeat split; apply clear_then_test1. }
  split; [exact Hrc | split; [exact Hcr |]].
  unfold jointly_governed_restored, in_cooked_state, in_raw_state in *.
  destruct Hrc as (-> & -> & ->). destruct Hcr as (-> & -> & ->).
  split; split; intros (H1 & H2 & H3); auto.
Qed.

Lemma raw_cooked_overwrite_witness :
  (is_tcflag (@cooked_iflags linux) /\ is_tcflag (@OPOST linux) /\
   is_tcflag (@ISIG linux .| @ICANON linux)) /\
  let m := @zero_termios linux in
  let rc := @gemini_cooked linux (@gemini_raw linux m) in
  let cr := @gemini_raw linux (@gemini_cooked linux m) in
  @in_cooked_state linux rc /\ @in_raw_state linux cr /\
  (@jointly_governed_restored linux m rc <-> @in_cooked_state linux m) /\
  (@jointly_governed_restored linux m cr <-> @in_raw_state linux m).
Proof.
  assert (H : is_tcflag (@cooked_iflags linux) /\ is_tcflag (@OPOST linux) /\
              is_tcflag (@ISIG linux .| @ICANON linux))
    by (repeat split; vm_compute; congruence).
  split; [exact H |].
  destruct H as (H1 & H2 & H3).
  apply (@raw_cooked_overwrite linux (@zero_termios linux) H1 H2 H3).
  left. split; reflexivity.
Defined.

(** C6 as it is written fails: on Linux, raw then cooked on the all-zero
    snapshot ends with ISIG, ICANON and OPOST set, and cooked then raw
    on a snapshot in cooked state ends with them clear, in both drafts. *)
Lemma raw_cooked_do_not_restore :
  ~ @jointly_governed_restored linux (@zero_termios linux)
      (@gemini_cooked linux (@gemini_raw linux (@zero_termios linux))) /\
  ~ @jointly_governed_restored linux (@zero_termios linux)
      (@gpt4o_cooked linux (@gpt4o_raw linux (@zero_termios linux))) /\
  ~ @jointly_governed_restored linux linux_cooked_flags
      (@gemini_raw linux (@gemini_cooked linux linux_cooked_flags)) /\
  ~ @jointly_governed_restored linux linux_cooked_flags
      (@gpt4o_raw linux (@gpt4o_cooked linux linux_cooked_flags)).
Proof.
  repeat split; intros (H & _); vm_compute in H; discriminate.
Qed.

(** ** C7: the control-character literal codec *)

Lemma to_cc_t_idem x : to_cc_t (to_cc_t x) = to_cc_t x.
Proof. unfold to_cc_t. apply Z.mod_mod. lia. Qed.

Lemma set_c_cc_to_cc_t i v m : set_c_cc i (to_cc_t v) m = set_c_cc i v m.
Proof. unfold set_c_cc. now rewrite to_cc_t_idem. Qed.

Lemma to_uchar_range c : 0 <= to_uchar c < 256.
Proof.
  unfold to_uchar. pose proof (N_ascii_bounded c). lia.
Qed.

Lemma ascii_eqb_refl c : Ascii.eqb c c = true.
Proof. apply Ascii.eqb_refl. Qed.

Lemma ascii_neqb c d : c <> d -> Ascii.eqb c d = false.
Proof. intros H. now apply Ascii.eqb_neq. Qed.

(** Below 128, clearing the bits 0140 leaves the low five bits. *)
Lemma caret_masks_agree c :
  to_uchar c < 128 -> Z.land (to_uchar c) (Z.lnot 96) = Z.land (to_uchar c) 31.
Proof.
  destruct c as [b0 b1 b2 b3 b4 b5 b6 b7].
  destruct b7; [ destruct b0, b1, b2, b3, b4, b5, b6; vm_compute; intros H; discriminate H |].
  intros _. destruct b0, b1, b2, b3, b4, b5, b6; reflexivity.
Qed.

Section ControlCodec.
Context `{P : platform} `{X : externals}.

Lemma bind_integer_path info arg m w (f : Z -> Z) :
  (forall v, set_c_cc (offset info) (f v) m = set_c_cc (offset info) v m) ->
  (value <- (v <- integer_arg arg UCHAR_MAX ;; ret (f v)) ;;
   ret (set_c_cc (offset info) value m)) w
  = integer_path info arg m w.
Proof.
  intros Hf. unfold integer_path, stores, bind, ret, integer_arg.
  destruct (xnumtoumax arg 0 0 UCHAR_MAX "bB" "invalid integer argument");
    simpl; [now rewrite Hf | reflexivity].
Qed.

(** The slots "min" and "time" take the integer path whatever the token. *)
Lemma count_slots_integer info arg m w :
  is_count_slot info = true ->
  Gemini.set_control_char info arg m w = integer_path info arg m w /\
  Gpt4o.set_control_char info arg m w = integer_path info arg m w.
Proof.
  unfold is_count_slot, Gemini.set_control_char, Gpt4o.set_control_char.
  intros ->. split.
  - apply bind_integer_path. intros. apply set_c_cc_to_cc_t.
  - reflexivity.
Qed.

Lemma single_char_raw info c m w :
  is_count_slot info = false -> c <> NUL ->
  Gemini.set_control_char info (String c "") m w = stores info (to_uchar c) m w /\
  Gpt4o.set_control_char info (String c "") m w = stores info (to_uchar c) m w.
Proof.
  unfold is_count_slot, Gemini.set_control_char, Gpt4o.set_control_char.
  intros -> Hc. simpl. rewrite (ascii_neqb c NUL Hc). simpl.
  split; reflexivity.
Qed.

Lemma empty_token_gemini info m w :
  is_count_slot info = false ->
  Gemini.set_control_char info "" m w = stores info 0 m w.
Proof.
  unfold is_count_slot, Gemini.set_control_char. intros ->. reflexivity.
Qed.

Lemma disable_tokens info arg m w :
  is_count_slot info = false -> arg = "^-" \/ arg = "undef" ->
  Gemini.set_control_char info arg m w = stores info _POSIX_VDISABLE m w /\
  Gpt4o.set_control_char info arg m w = stores info _POSIX_VDISABLE m w.
Proof.
  unfold is_count_slot, Gemini.set_control_char, Gpt4o.set_control_char.
  intros -> [-> | ->]; split; reflexivity.
Qed.

Lemma caret_question info rest m w :
  is_count_slot info = false ->
  Gemini.set_control_char info (String "^" (String "?" rest)) m w
    = stores info 127 m w /\
  Gpt4o.set_control_char info (String "^" (String "?" rest)) m w
    = stores info 127 m w.
Proof.
  unfold is_count_slot, Gemini.set_control_char, Gpt4o.set_control_char.
  intros ->. split; reflexivity.
Qed.

Lemma caret_not_disable c rest :
  String "^" (String c rest) <> "^-" ->
  STREQ (String "^" (String c rest)) "^-" = false.
Proof. intros H. unfold STREQ. now apply String.eqb_neq. Qed.

Lemma caret_control info c rest m w :
  is_count_slot info = false ->
  c <> NUL -> c <> "?"%char -> String "^" (String c rest) <> "^-" ->
  Gemini.set_control_char info (String "^" (String c rest)) m w
    = stores info (Z.land (to_uchar c) 0x1F) m w /\
  (to_uchar c < 128 ->
   Gpt4o.set_control_char info (String "^" (String c rest)) m w
     = stores info (Z.land (to_uchar c) 0x1F) m w).
Proof.
  unfold is_count_slot, Gemini.set_control_char, Gpt4o.set_control_char.
  intros -> Hnul Hq Hdis.
  rewrite (caret_not_disable c rest Hdis).
  change (STREQ (String "^" (String c rest)) "undef") with false.
  simpl. rewrite (ascii_neqb c NUL Hnul), (ascii_neqb c "?" Hq). simpl.
  split.
  - unfold stores, bind, ret. now rewrite set_c_cc_to_cc_t.
  - intros Hlow. unfold stores, bind, ret. now rewrite caret_masks_agree.
Qed.

Lemma other_tokens_integer info c1 c2 rest m w :
  is_count_slot info = false ->
  c1 <> NUL -> c2 <> NUL -> c1 <> "^"%char ->
  String c1 (String c2 rest) <> "undef" ->
  Gemini.set_control_char info (String c1 (String c2 rest)) m w
    = integer_path info (String c1 (String c2 rest)) m w /\
  Gpt4o.set_control_char info (String c1 (String c2 rest)) m w
    = integer_path info (String c1 (String c2 rest)) m w.
Proof.
  unfold is_count_slot, Gemini.set_control_char, Gpt4o.set_control_char.
  intros -> H1 H2 Hc Hu.
  assert (Hd : STREQ (String c1 (String c2 rest)) "^-" = false).
  { unfold STREQ. simpl. now rewrite (ascii_neqb c1 "^" Hc). }
  assert (Hu' : STREQ (String c1 (String c2 rest)) "undef" = false)
    by (unfold STREQ; now apply String.eqb_neq).
  rewrite Hd, Hu'. simpl.
  rewrite (ascii_neqb c1 NUL H1), (ascii_neqb c2 NUL H2), (ascii_neqb c1 "^" Hc).
  simpl. split.
  - apply bind_integer_path. intros. apply set_c_cc_to_cc_t.
  - reflexivity.
Qed.

End ControlCodec.

(** C7, as the sources have it.  For a slot other than "min" and "time":
    a one-byte token gives that byte (and the empty token gives 0 in the
    draft of gemini); "^-" and "undef" give the disable value; a token
    that starts with "^?" gives 127; any other token of two bytes or
    more that starts with '^' gives its second byte ANDed with 0x1F,
    whatever follows that byte (in the draft of gpt-4o for a second byte
    below 128); every other token of two bytes or more goes to the
    integer parser.  The slots "min" and "time" always go to the integer
    parser. *)
Theorem control_literal_codec `{P : platform} `{X : externals}
    (info : struct_control_info) (m : struct_termios) (w : world) :
  (is_count_slot info = true ->
     forall arg,
       Gemini.set_control_char info arg m w = integer_path info arg m w /\
       Gpt4o.set_control_char info arg m w = integer_path info arg m w) /\
  (is_count_slot info = false ->
     Gemini.set_control_char info "" m w = stores info 0 m w /\
     (forall c, c <> NUL ->
        Gemini.set_control_char info (String c "") m w
          = stores info (to_uchar c) m w /\
        Gpt4o.set_control_char info (String c "") m w
          = stores info (to_uchar c) m w) /\
     (forall arg, arg = "^-" \/ arg = "undef" ->
        Gemini.set_control_char info arg m w = stores info _POSIX_VDISABLE m w /\
        Gpt4o.set_control_char info arg m w = stores info _POSIX_VDISABLE m w) /\
     (forall rest,
        Gemini.set_control_char info (String "^" (String "?" rest)) m w
          = stores info 127 m w /\
        Gpt4o.set_control_char info (String "^" (String "?" rest)) m w
          = stores info 127 m w) /\
     (forall c rest,
        c <> NUL -> c <> "?"%char -> String "^" (String c rest) <> "^-" ->
        Gemini.set_control_char info (String "^" (String c rest)) m w
          = stores info (Z.land (to_uchar c) 0x1F) m w /\
        (to_uchar c < 128 ->
         Gpt4o.set_control_char info (String "^" (String c rest)) m w
           = stores info (Z.land (to_uchar c) 0x1F) m w)) /\
     (forall c1 c2 rest,
        c1 <> NUL -> c2 <> NUL -> c1 <> "^"%char ->
        String c1 (String c2 rest) <> "undef" ->
        Gemini.set_control_char info (String c1 (String c2 rest)) m w
          = integer_path info (String c1 (String c2 rest)) m w /\
        Gpt4o.set_control_char info (String c1 (String c2 rest)) m w
          = integer_path info (String c1 (String c2 rest)) m w)).
Proof.
  split.
  - intros Hslot arg. now apply count_slots_integer.
  - intros Hslot. repeat apply conj.
    + now apply empty_token_gemini.
    + intros c Hc. now apply single_char_raw.
    + intros arg Harg. now apply disable_tokens.
    + intros rest. now apply caret_question.
    + intros c rest H1 H2 H3. now apply caret_control.
    + intros c1 c2 rest H1 H2 H3 H4. now apply other_tokens_integer.
Qed.

(** The codec on Linux, slot "intr": "^c" and "^C" are 3, "^cx" is 3 as
    well, "undef" is 0, and "0x7f" goes to the integer parser. *)
Lemma control_literal_codec_witness :
  let w := initial_world in
  let m := @zero_termios linux in
  @is_count_slot (@intr_entry linux) = false /\
  @Gemini.set_control_char linux example_env (@intr_entry linux) "^c" m w
    = Ret (set_c_cc (@VINTR linux) 3 m) w /\
  @Gpt4o.set_control_char linux example_env (@intr_entry linux) "^cx" m w
    = Ret (set_c_cc (@VINTR linux) 3 m) w /\
  @Gemini.set_control_char linux example_env (@intr_entry linux) "0x7f" m w
    = Ret (set_c_cc (@VINTR linux) 127 m) w /\
  @Gemini.set_control_char linux example_env (@min_entry linux) "^c" m w
    = @integer_path example_env (@min_entry linux) "^c" m w.
Proof.
  intros w m.
  pose proof (@control_literal_codec linux example_env (@intr_entry linux) m w)
    as [_ Hchar].
  pose proof (@control_literal_codec linux example_env (@min_entry linux) m w)
    as [Hcount _].
  specialize (Hchar eq_refl).
  destruct Hchar as (_ & _ & _ & _ & Hcaret & Hint).
  split; [reflexivity |]. repeat apply conj.
  - destruct (Hcaret "c"%char "") as [Hg _]; try discriminate. exact Hg.
  - destruct (Hcaret "c"%char "x") as [_ Ho]; try discriminate.
    apply Ho. reflexivity.
  - destruct (Hint "0"%char "x"%char "7f") as [Hg _]; try discriminate.
    rewrite Hg. reflexivity.
  - destruct (Hcount eq_refl "^c") as [Hg _]. exact Hg.
Defined.

(** C7 as it is written fails: "^ab" is neither "^" followed by one
    character nor any of the other literal forms, so the claim sends it
    to the integer parser, which rejects it; both drafts store
    ['a' & 0x1F], which is 1. *)
Lemma caret_ignores_trailing_bytes :
  let w := initial_world in
  let m := @zero_termios linux in
  @Gemini.set_control_char linux example_env (@intr_entry linux) "^ab" m w
    = Ret (set_c_cc (@VINTR linux) 1 m) w /\
  @Gpt4o.set_control_char linux example_env (@intr_entry linux) "^ab" m w
    = Ret (set_c_cc (@VINTR linux) 1 m) w /\
  @claimed_control_codec linux example_env (@intr_entry linux) "^ab" m w
    = Exit EXIT_FAILURE (put_err "invalid integer argument: '^ab'" w) /\
  @Gemini.set_control_char linux example_env (@intr_entry linux) "^ab" m w
    <> @claimed_control_codec linux example_env (@intr_entry linux) "^ab" m w /\
  @Gpt4o.set_control_char linux example_env (@intr_entry linux) "^ab" m w
    <> @claimed_control_codec linux example_env (@intr_entry linux) "^ab" m w.
Proof.
  intros w m. repeat apply conj; try reflexivity; vm_compute; discriminate.
Qed.

(** ** C2: the baud codec *)

Lemma gtb_false n m : n <= m -> (n >? m) = false.
Proof. intros. rewrite Z.gtb_ltb. now apply Z.ltb_ge. Qed.

Lemma gtb_true n m : m < n -> (n >? m) = true.
Proof. intros. rewrite Z.gtb_ltb. now apply Z.ltb_lt. Qed.

Lemma ltb_false n m : m <= n -> (n <? m) = false.
Proof. intros. now apply Z.ltb_ge. Qed.

Lemma ltb_true n m : n < m -> (n <? m) = true.
Proof. intros. now apply Z.ltb_lt. Qed.


Lemma digit_char_value c :
  c_isdigit c = true ->
  digit_value c = Some (to_uchar c - 48) /\ 0 <= to_uchar c - 48 <= 9.
Proof.
  unfold c_isdigit, digit_value. intros H. rewrite H.
  apply andb_prop in H. destruct H as [H1 H2].
  apply Z.leb_le in H1. apply Z.leb_le in H2. split; [reflexivity | lia].
Qed.

Lemma digit_is_digit_in_10 c : is_digit_in 10 c = c_isdigit c.
Proof.
  unfold is_digit_in, digit_value, c_isdigit.
  pose proof (to_uchar_range c) as Hr.
  destruct ((48 <=? to_uchar c) && (to_uchar c <=? 57)) eqn:E.
  - apply andb_prop in E. destruct E as [H1 H2].
    apply Z.leb_le in H1. apply Z.leb_le in H2.
    apply Z.ltb_lt. lia.
  - destruct ((97 <=? to_uchar c) && (to_uchar c <=? 122)) eqn:E1.
    + apply andb_prop in E1. destruct E1 as [H1 H2].
      apply Z.leb_le in H1. apply Z.ltb_ge. lia.
    + destruct ((65 <=? to_uchar c) && (to_uchar c <=? 90)) eqn:E2;
        [| reflexivity].
      apply andb_prop in E2. destruct E2 as [H1 H2].
      apply Z.leb_le in H1. apply Z.ltb_ge. lia.
Qed.

Lemma digit_not_space c : c_isdigit c = true -> c_isspace c = false.
Proof.
  unfold c_isdigit, c_isspace. intros H. apply andb_prop in H.
  destruct H as [H1 H2]. apply Z.leb_le in H1. apply Z.leb_le in H2.
  destruct (Z.eqb_spec (to_uchar c) 32); [lia |].
  destruct (Z.leb_spec (to_uchar c) 13); [lia |].
  now rewrite andb_false_r.
Qed.

Lemma digit_not_nul c : c_isdigit c = true -> Ascii.eqb c NUL = false.
Proof. intros H. apply Ascii.eqb_neq. intros ->. discriminate H. Qed.

(** A run of digits is scanned whole. *)
Lemma scan_digits_run ds rest acc :
  all_digits ds = true -> c_isdigit (hd_c rest) = false ->
  scan_digits 10 (ds +:+ rest) acc = (number_of ds acc, rest).
Proof.
  revert acc. induction ds as [| c ds IH]; intros acc Hds Hrest; simpl in *.
  - destruct rest as [| g rest]; [reflexivity |]. simpl in Hrest. simpl.
    pose proof (digit_is_digit_in_10 g) as Hg. unfold is_digit_in in Hg.
    rewrite Hrest in Hg. destruct (digit_value g); [now rewrite Hg | reflexivity].
  - apply andb_prop in Hds. destruct Hds as [Hc Hds].
    destruct (digit_char_value c Hc) as [-> Hv].
    replace (to_uchar c - 48 <? 10) with true
      by (symmetry; apply Z.ltb_lt; lia).
    rewrite IH by assumption. f_equal. f_equal. lia.
Qed.

Lemma number_of_acc ds acc :
  number_of ds acc = acc * 10 ^ strlen ds + number_of ds 0.
Proof.
  revert acc. induction ds as [| c ds IH]; intros acc; simpl.
  - unfold strlen. simpl. lia.
  - rewrite IH, (IH (10 * 0 + _)). unfold strlen. simpl String.length.
    rewrite Nat2Z.inj_succ, Z.pow_succ_r by lia. lia.
Qed.

Lemma number_of_bounds ds :
  all_digits ds = true -> 0 <= number_of ds 0 < 10 ^ strlen ds.
Proof.
  induction ds as [| c ds IH]; simpl; intros Hds.
  - unfold strlen. simpl. lia.
  - apply andb_prop in Hds. destruct Hds as [Hc Hds].
    destruct (digit_char_value c Hc) as [_ Hv]. specialize (IH Hds).
    rewrite number_of_acc. unfold strlen in *. simpl String.length.
    rewrite Nat2Z.inj_succ, Z.pow_succ_r by lia. nia.
Qed.

Lemma skip_space_digit c r : c_isdigit c = true -> skip_space (String c r) = String c r.
Proof. intros H. simpl. now rewrite (digit_not_space c H). Qed.

Lemma skip_space_run ws c r :
  all_spaces ws = true -> c_isspace c = false ->
  skip_space (ws +:+ String c r) = String c r.
Proof.
  induction ws as [| x ws IH]; simpl; intros Hws Hc.
  - now rewrite Hc.
  - apply andb_prop in Hws. destruct Hws as [Hx Hws]. rewrite Hx. now apply IH.
Qed.

(** [strtoul] in base 10 on a string that, after its white space, does
    not start with a sign: the "0x" clause does not apply. *)
Lemma strtoul_10_unsigned s :
  hd_c (skip_space s) <> "-"%char -> hd_c (skip_space s) <> "+"%char ->
  strtoul s 10 =
  if is_digit_in 10 (hd_c (skip_space s)) then
    let '(v, rest) := scan_digits 10 (skip_space s) 0 in
    if v >? ULONG_MAX
    then {| ul := ULONG_MAX; endp := rest; errno := ERANGE; noconv := false |}
    else {| ul := v; endp := rest; errno := 0; noconv := false |}
  else {| ul := 0; endp := s; errno := 0; noconv := true |}.
Proof.
  intros Hminus Hplus. unfold strtoul.
  destruct (skip_space s) as [| g r] eqn:Hs1; [reflexivity |].
  simpl in Hminus, Hplus.
  assert (Hsign : (match String g r with
                   | String "-"%char r' => (true, r')
                   | String "+"%char r' => (false, r')
                   | _ => (false, String g r)
                   end) = (false, String g r)).
  { destruct g as [[|] [|] [|] [|] [|] [|] [|] [|]]; try reflexivity;
      congruence. }
  rewrite Hsign.
  assert (Hpre : (match String g r with
                  | String "0"%char (String x r') =>
                      if (10 =? 16) && (Ascii.eqb x "x" || Ascii.eqb x "X")
                         && is_digit_in 16 (hd_c r')
                      then r' else String g r
                  | _ => String g r
                  end) = String g r).
  { destruct g as [[|] [|] [|] [|] [|] [|] [|] [|]]; try reflexivity.
    destruct r; reflexivity. }
  rewrite Hpre. reflexivity.
Qed.

Lemma digit_not_sign c :
  c_isdigit c = true -> c <> "-"%char /\ c <> "+"%char.
Proof. intros H. split; intros ->; discriminate H. Qed.

(** [strtoul] in base 10 on digits followed by a byte that is no digit. *)
Lemma strtoul_digits c ds rest :
  all_digits (String c ds) = true -> c_isdigit (hd_c rest) = false ->
  number_of (String c ds) 0 <= ULONG_MAX ->
  strtoul (String c ds +:+ rest) 10
  = {| ul := number_of (String c ds) 0; endp := rest; errno := 0; noconv := false |}.
Proof.
  intros Hds Hrest Hmax. pose proof Hds as Hds'.
  simpl in Hds'. apply andb_prop in Hds'. destruct Hds' as [Hc _].
  destruct (digit_not_sign c Hc) as [Hm Hp].
  assert (Hsk : skip_space (String c ds +:+ rest) = String c ds +:+ rest)
    by (apply (skip_space_digit c _ Hc)).
  rewrite strtoul_10_unsigned; rewrite Hsk; try assumption.
  change (hd_c (String c ds +:+ rest)) with c.
  rewrite digit_is_digit_in_10, Hc, scan_digits_run by assumption.
  now rewrite (gtb_false _ _ Hmax).
Qed.

Lemma skip_digits_nondigit g r : c_isdigit g = false -> skip_digits g r = g.
Proof. intros H. destruct r; simpl; now rewrite H. Qed.

Lemma skip_digits_run c ds g rest :
  c_isdigit c = true -> all_digits ds = true -> c_isdigit g = false ->
  skip_digits c (ds +:+ String g rest) = g.
Proof.
  revert c. induction ds as [| x ds IH]; intros c Hc Hds Hg; simpl.
  - rewrite Hc. now apply skip_digits_nondigit.
  - rewrite Hc. simpl in Hds. apply andb_prop in Hds. destruct Hds as [Hx Hds].
    now apply IH.
Qed.

Lemma skip_digits_end c ds :
  c_isdigit c = true -> all_digits ds = true -> skip_digits c ds = NUL.
Proof.
  revert c. induction ds as [| x ds IH]; intros c Hc Hds; simpl.
  - now rewrite Hc.
  - rewrite Hc. simpl in Hds. apply andb_prop in Hds. destruct Hds as [Hx Hds].
    now apply IH.
Qed.

Lemma zero_char_value c : Ascii.eqb c "0" = true -> to_uchar c - 48 = 0.
Proof. intros H. apply Ascii.eqb_eq in H. now subst c. Qed.

Lemma nonzero_digit_value c :
  c_isdigit c = true -> Ascii.eqb c "0" = false -> 1 <= to_uchar c - 48 <= 9.
Proof.
  intros Hc Hz. destruct (digit_char_value c Hc) as [_ Hv].
  assert (to_uchar c - 48 <> 0); [| lia].
  intros H0. apply Ascii.eqb_neq in Hz. apply Hz.
  assert (Hn : N_of_ascii c = 48%N) by (unfold to_uchar in H0; lia).
  rewrite <- (ascii_N_embedding c), Hn. reflexivity.
Qed.

(** After the zeroes of a fraction: the end, when there were only
    zeroes, or a digit other than zero. *)
Lemma skip_zeroes_digits ds :
  all_digits ds = true ->
  (skip_zeroes ds = (NUL, "") /\ number_of ds 0 = 0) \/
  (exists c r, skip_zeroes ds = (c, r) /\ c_isdigit c = true /\
               all_digits r = true /\ 0 < number_of ds 0).
Proof.
  induction ds as [| c ds IH]; simpl; intros Hds.
  - left. split; reflexivity.
  - apply andb_prop in Hds. destruct Hds as [Hc Hds].
    destruct (Ascii.eqb c "0") eqn:Hz.
    + rewrite (zero_char_value c Hz). simpl. now apply IH.
    + right. exists c, ds. repeat split; try assumption.
      pose proof (nonzero_digit_value c Hc Hz).
      pose proof (number_of_bounds ds Hds).
      rewrite number_of_acc.
      assert (0 < 10 ^ strlen ds) by (apply Z.pow_pos_nonneg; unfold strlen; lia).
      nia.
Qed.

Lemma skip_zeroes_garbage ds g rest :
  all_digits ds = true -> c_isdigit g = false ->
  exists c r, skip_zeroes (ds +:+ String g rest) = (c, r) /\ skip_digits c r = g.
Proof.
  induction ds as [| c ds IH]; simpl; intros Hds Hg.
  - assert (Hz : Ascii.eqb g "0" = false).
    { apply Ascii.eqb_neq. intros ->. discriminate Hg. }
    rewrite Hz. exists g, rest. split; [reflexivity |].
    now apply skip_digits_nondigit.
  - apply andb_prop in Hds. destruct Hds as [Hc Hds].
    destruct (Ascii.eqb c "0").
    + now apply IH.
    + exists c, (ds +:+ String g rest). split; [reflexivity |].
      now apply skip_digits_run.
Qed.

Lemma to_ulong_small x : 0 <= x <= ULONG_MAX -> to_ulong x = x.
Proof. unfold to_ulong, ULONG_MAX. intros. apply Z.mod_small. lia. Qed.

Lemma land_1_parity n : n + Z.land n 1 = if Z.even n then n else n + 1.
Proof.
  change 1 with (Z.ones 1) at 1. rewrite Z.land_ones by lia.
  change (2 ^ 1) with 2. rewrite Zmod_even. destruct (Z.even n); lia.
Qed.

Section Baud.
Context `{X : externals}.

(** A fraction made of digits rounds the integer part to the nearest
    integer, a tie going to the even one. *)
Lemma string_to_baud_rounds c ip d fs :
  all_digits (String c ip) = true -> all_digits (String d fs) = true ->
  round_half_even (number_of (String c ip) 0)
    (number_of (String d fs) 0) (strlen (String d fs)) <= ULONG_MAX ->
  string_to_baud (String c ip +:+ "." +:+ String d fs)
  = value_to_baud (round_half_even (number_of (String c ip) 0)
                     (number_of (String d fs) 0) (strlen (String d fs))).
Proof.
  intros Hip Hfs Hmax.
  pose proof (number_of_bounds _ Hip) as Hn.
  set (n := number_of (String c ip) 0) in *.
  assert (Hfit : n <= ULONG_MAX).
  { revert Hmax. unfold round_half_even.
    destruct (_ >? _); [lia |]. destruct (_ <? _); [lia |].
    destruct (Z.even n); lia. }
  pose proof Hip as Hip'. simpl in Hip'. apply andb_prop in Hip'.
  destruct Hip' as [Hc _].
  pose proof Hfs as Hfs'. simpl in Hfs'. apply andb_prop in Hfs'.
  destruct Hfs' as [Hd Hfs'].
  assert (Hst : strtoul (String c (ip +:+ String "." (String d fs))) 10
                = {| ul := n; endp := String "." (String d fs);
                     errno := 0; noconv := false |}).
  { apply (strtoul_digits c ip (String "." (String d fs)));
      [assumption | reflexivity | fold n; lia]. }
  unfold string_to_baud.
  change (String c ip +:+ "." +:+ String d fs)
    with (String c (ip +:+ String "." (String d fs))).
  rewrite (skip_space_digit c _ Hc), Hst. cbn [ul endp hd_c tl_c].
  assert (Hminus : Ascii.eqb c "-" = false).
  { apply Ascii.eqb_neq. intros ->. discriminate Hc. }
  rewrite Hminus.
  change (Ascii.eqb "." ".") with true. cbn iota.
  rewrite (digit_not_nul d Hd). cbn [negb].
  destruct (digit_char_value d Hd) as [_ Hdv].
  rewrite (Z.mod_small (to_uchar d - 48) 256) by lia.
  (* the fraction as a number *)
  assert (HF : number_of (String d fs) 0
               = (to_uchar d - 48) * 10 ^ strlen fs + number_of fs 0).
  { simpl. rewrite number_of_acc. lia. }
  assert (Hk : 10 ^ strlen (String d fs) = 10 * 10 ^ strlen fs).
  { unfold strlen. simpl String.length. rewrite Nat2Z.inj_succ.
    now rewrite Z.pow_succ_r by lia. }
  pose proof (number_of_bounds fs Hfs') as HT.
  assert (Hpos : 0 < 10 ^ strlen fs)
    by (apply Z.pow_pos_nonneg; unfold strlen; lia).
  unfold round_half_even in Hmax |- *. rewrite HF, Hk in Hmax |- *.
  destruct (Z.gtb_spec (to_uchar d - 48) 5) as [Hgt | Hle].
  - (* above one half *)
    rewrite (skip_digits_end d fs Hd Hfs'). change (Ascii.eqb NUL NUL) with true.
    cbn [negb]. rewrite gtb_true in Hmax |- * by nia.
    now rewrite to_ulong_small by lia.
  - destruct (Z.eqb_spec (to_uchar d - 48) 5) as [Heq | Hne].
    + (* the digit 5 *)
      destruct (skip_zeroes_digits fs Hfs') as [[Hz HT0] | (x & r & Hz & Hx & Hr & HTpos)];
        rewrite Hz.
      * (* a tie *)
        change (Ascii.eqb NUL NUL) with true. cbn [negb].
        rewrite (skip_digits_nondigit NUL "" eq_refl).
        change (Ascii.eqb NUL NUL) with true. cbn [negb].
        rewrite land_1_parity.
        rewrite Heq, HT0 in Hmax |- *.
        rewrite gtb_false, ltb_false in Hmax |- * by lia.
        destruct (Z.even n); rewrite to_ulong_small by lia; reflexivity.
      * (* more than one half *)
        rewrite (digit_not_nul x Hx). cbn [negb].
        rewrite (skip_digits_end x r Hx Hr).
        change (Ascii.eqb NUL NUL) with true. cbn [negb].
        rewrite gtb_true in Hmax |- * by nia.
        now rewrite to_ulong_small by lia.
    + (* below one half *)
      rewrite (skip_digits_end d fs Hd Hfs'). change (Ascii.eqb NUL NUL) with true.
      cbn [negb].
      now rewrite gtb_false, ltb_true by nia.
Qed.

End Baud.

(** Where [strtoul] in base 10 leaves the end pointer: behind the
    digits, or at the start when there is none. *)
Lemma strtoul_endp_digits ds rest :
  all_digits ds = true ->
  c_isdigit (hd_c rest) = false -> c_isspace (hd_c rest) = false ->
  hd_c rest <> "-"%char -> hd_c rest <> "+"%char ->
  endp (strtoul (ds +:+ rest) 10) = rest.
Proof.
  intros Hds Hrest Hsp Hminus Hplus. destruct ds as [| c ds].
  - (* no digit: nothing is converted *)
    change ("" +:+ rest) with rest.
    assert (Hsk : skip_space rest = rest).
    { destruct rest as [| g r]; [reflexivity |]. simpl in *. now rewrite Hsp. }
    rewrite strtoul_10_unsigned; rewrite Hsk; try assumption.
    now rewrite digit_is_digit_in_10, Hrest.
  - pose proof Hds as Hds'. simpl in Hds'. apply andb_prop in Hds'.
    destruct Hds' as [Hc _].
    destruct (digit_not_sign c Hc) as [Hm Hp].
    assert (Hsk : skip_space (String c ds +:+ rest) = String c ds +:+ rest)
      by (apply (skip_space_digit c _ Hc)).
    rewrite strtoul_10_unsigned; rewrite Hsk; try assumption.
    change (hd_c (String c ds +:+ rest)) with c.
    rewrite digit_is_digit_in_10, Hc, scan_digits_run by assumption.
    destruct (number_of (String c ds) 0 >? ULONG_MAX); reflexivity.
Qed.

Lemma nondigit_value g :
  c_isdigit g = false -> ((to_uchar g - 48) mod 256 >? 5) = true.
Proof.
  intros Hg. apply gtb_true. pose proof (to_uchar_range g) as Hr.
  unfold c_isdigit in Hg. apply andb_false_iff in Hg.
  destruct Hg as [Hg | Hg]; apply Z.leb_gt in Hg;
    Z.div_mod_to_equations; lia.
Qed.

Lemma skip_space_head ws x :
  all_spaces ws = true -> c_isspace (hd_c x) = false ->
  skip_space (ws +:+ x) = x.
Proof.
  intros Hws Hx. destruct x as [| c r].
  - rewrite append_nil_r. induction ws as [| y ws IH]; [reflexivity |].
    simpl in *. apply andb_prop in Hws. destruct Hws as [-> Hws]. now apply IH.
  - now apply skip_space_run.
Qed.

Section BaudRejects.
Context `{X : externals}.

(** A '-' after optional white space makes the token invalid. *)
Lemma string_to_baud_minus ws rest :
  all_spaces ws = true ->
  string_to_baud (ws +:+ String "-" rest) = SPEED_INVALID.
Proof.
  intros Hws. unfold string_to_baud.
  now rewrite (skip_space_run ws "-" rest Hws eq_refl).
Qed.

(** What is not a digit after the digits of the fraction makes the
    token invalid. *)
Lemma string_to_baud_garbage ws ip fs g rest :
  all_spaces ws = true -> all_digits ip = true -> all_digits fs = true ->
  c_isdigit g = false -> g <> NUL ->
  string_to_baud (ws +:+ ip +:+ "." +:+ fs +:+ String g rest) = SPEED_INVALID.
Proof.
  intros Hws Hip Hfs Hg Hnul.
  set (tail := String "." (fs +:+ String g rest)).
  change ("." +:+ fs +:+ String g rest) with tail.
  assert (Hhead : c_isspace (hd_c (ip +:+ tail)) = false).
  { destruct ip as [| c ip]; [reflexivity |]. simpl in *.
    apply andb_prop in Hip. destruct Hip as [Hc _]. now apply digit_not_space. }
  assert (Hminus : Ascii.eqb (hd_c (ip +:+ tail)) "-" = false).
  { destruct ip as [| c ip]; [reflexivity |]. simpl in *.
    apply andb_prop in Hip. destruct Hip as [Hc _].
    apply Ascii.eqb_neq. intros ->. discriminate Hc. }
  unfold string_to_baud.
  rewrite (skip_space_head ws (ip +:+ tail) Hws Hhead), Hminus.
  rewrite (strtoul_endp_digits ip tail Hip) by (reflexivity || discriminate).
  subst tail. cbn [hd_c tl_c].
  change (Ascii.eqb "." ".") with true. cbn iota.
  assert (Hgn : Ascii.eqb g NUL = false) by now apply Ascii.eqb_neq.
  destruct fs as [| d fs].
  - (* the garbage follows the point at once *)
    cbn [String.append hd_c tl_c]. rewrite Hgn. cbn [negb].
    rewrite (nondigit_value g Hg).
    rewrite (skip_digits_nondigit g rest Hg), Hgn. reflexivity.
  - simpl in Hfs. apply andb_prop in Hfs. destruct Hfs as [Hd Hfs].
    cbn [String.append hd_c tl_c]. rewrite (digit_not_nul d Hd). cbn [negb].
    destruct ((to_uchar d - 48) mod 256 >? 5).
    + rewrite (skip_digits_run d fs g rest Hd Hfs Hg), Hgn. reflexivity.
    + destruct ((to_uchar d - 48) mod 256 =? 5).
      * destruct (skip_zeroes_garbage fs g rest Hfs Hg) as (x & r & -> & Hx).
        destruct (negb (Ascii.eqb x NUL)); rewrite Hx, Hgn; reflexivity.
      * rewrite (skip_digits_run d fs g rest Hd Hfs Hg), Hgn. reflexivity.
Qed.

End BaudRejects.

(** C2, as the sources have it.  The baud codec rounds a fraction to
    the nearest integer and a tie to the even neighbour, whenever the
    rounded number fits [unsigned long] (is at most ULONG_MAX); "134.5"
    decodes as "134", "135.5" and "136.5" as "136"; a token whose first
    byte after optional white space is '-' is invalid, and so is a token
    with a byte other than a digit after the digits of the fraction. *)
Theorem baud_codec_rounds_and_rejects `{X : externals} :
  (forall c ip d fs,
     all_digits (String c ip) = true -> all_digits (String d fs) = true ->
     round_half_even (number_of (String c ip) 0)
       (number_of (String d fs) 0) (strlen (String d fs)) <= ULONG_MAX ->
     string_to_baud (String c ip +:+ "." +:+ String d fs)
     = value_to_baud (round_half_even (number_of (String c ip) 0)
                        (number_of (String d fs) 0) (strlen (String d fs)))) /\
  string_to_baud "134.5" = string_to_baud "134" /\
  string_to_baud "135.5" = string_to_baud "136" /\
  string_to_baud "136.5" = string_to_baud "136" /\
  string_to_baud "136" = value_to_baud 136 /\
  (forall ws rest,
     all_spaces ws = true ->
     string_to_baud (ws +:+ String "-" rest) = SPEED_INVALID) /\
  (forall ws ip fs g rest,
     all_spaces ws = true -> all_digits ip = true -> all_digits fs = true ->
     c_isdigit g = false -> g <> NUL ->
     string_to_baud (ws +:+ ip +:+ "." +:+ fs +:+ String g rest) = SPEED_INVALID).
Proof.
  repeat apply conj.
  - intros. now apply string_to_baud_rounds.
  - reflexivity.
  - reflexivity.
  - reflexivity.
  - reflexivity.
  - intros. now apply string_to_baud_minus.
  - intros. now apply string_to_baud_garbage.
Qed.

(** The rounding rule at the three tokens of the claim, and the two
    rejections at " -9600" and "9600.5x". *)
Lemma baud_codec_rounds_and_rejects_witness :
  @string_to_baud example_env "134.5" = 134 /\
  @string_to_baud example_env "135.5" = 136 /\
  @string_to_baud example_env "136.5" = 136 /\
  @string_to_baud example_env " -9600" = SPEED_INVALID /\
  @string_to_baud example_env "9600.5x" = SPEED_INVALID.
Proof.
  destruct (@baud_codec_rounds_and_rejects example_env)
    as (Hround & _ & _ & _ & _ & Hminus & Hgarbage).
  repeat apply conj.
  - refine (eq_trans (Hround "1"%char "34" "5"%char "" eq_refl eq_refl _)
                      eq_refl).
    discriminate.
  - refine (eq_trans (Hround "1"%char "35" "5"%char "" eq_refl eq_refl _)
                      eq_refl).
    discriminate.
  - refine (eq_trans (Hround "1"%char "36" "5"%char "" eq_refl eq_refl _)
                      eq_refl).
    discriminate.
  - apply (Hminus " " "9600"). reflexivity.
  - apply (Hgarbage "" "9600" "5" "x"%char ""); try reflexivity. discriminate.
Defined.

(** C2 as it is written fails at an integer part of ULONG_MAX: [strtoul]
    returns 18446744073709551615, the tie adds [value & 1] in
    [unsigned long] and the sum wraps to 0, so "18446744073709551615.5"
    decodes as "0" does, whatever [value_to_baud] is, and not as the
    nearest even integer 18446744073709551616. *)
Lemma baud_rounding_wraps_at_ulong_max :
  all_digits "18446744073709551615" = true /\
  all_digits "5" = true /\
  round_half_even (number_of "18446744073709551615" 0) (number_of "5" 0)
    (strlen "5") = 18446744073709551616 /\
  (forall X : externals,
     @string_to_baud X "18446744073709551615.5" = @value_to_baud X 0 /\
     @string_to_baud X "18446744073709551615.5" = @string_to_baud X "0") /\
  @string_to_baud example_env "18446744073709551615.5"
    <> @value_to_baud example_env
         (round_half_even (number_of "18446744073709551615" 0)
            (number_of "5" 0) (strlen "5")).
Proof.
  split; [reflexivity |]. split; [reflexivity |]. split; [reflexivity |].
  split; [intros X; split; reflexivity |].
  discriminate.
Qed.

(** ** C1: the recoverable format round trip *)

Lemma hex_char_value d :
  0 <= d < 16 -> digit_value (hex_char d) = Some d /\ lower_hex (hex_char d) = true.
Proof.
  intros Hd.
  assert (Hcases : d = 0 \/ d = 1 \/ d = 2 \/ d = 3 \/ d = 4 \/ d = 5 \/ d = 6
                   \/ d = 7 \/ d = 8 \/ d = 9 \/ d = 10 \/ d = 11 \/ d = 12
                   \/ d = 13 \/ d = 14 \/ d = 15) by lia.
  repeat (destruct Hcases as [-> | Hcases]; [split; reflexivity |]).
  subst d. split; reflexivity.
Qed.

Lemma lower_hex_digit_in_16 c : lower_hex c = true -> is_digit_in 16 c = true.
Proof.
  unfold lower_hex, is_digit_in, digit_value. intros H.
  destruct ((48 <=? to_uchar c) && (to_uchar c <=? 57)) eqn:E.
  - apply andb_prop in E. destruct E as [H1 H2].
    apply Z.leb_le in H1. apply Z.leb_le in H2. apply Z.ltb_lt. lia.
  - simpl in H. apply andb_prop in H. destruct H as [H1 H2].
    apply Z.leb_le in H1. apply Z.leb_le in H2.
    replace ((97 <=? to_uchar c) && (to_uchar c <=? 122)) with true.
    + apply Z.ltb_lt. lia.
    + symmetry. apply andb_true_intro. split; apply Z.leb_le; lia.
Qed.

Lemma lower_hex_plain c :
  lower_hex c = true ->
  c_isspace c = false /\ c <> "-"%char /\ c <> "+"%char /\
  c <> "x"%char /\ c <> "X"%char /\ c <> ":"%char /\ c <> NUL.
Proof.
  intros H. repeat split; try (intros ->; discriminate H).
  unfold lower_hex in H. unfold c_isspace.
  apply orb_prop in H.
  destruct H as [H | H]; apply andb_prop in H; destruct H as [H1 H2];
    apply Z.leb_le in H1; apply Z.leb_le in H2;
    (destruct (Z.eqb_spec (to_uchar c) 32); [lia |]);
    (destruct (Z.leb_spec (to_uchar c) 13); [lia |]);
    now rewrite andb_false_r.
Qed.

(** The digits are written in front of what is there already. *)
Lemma digits_of_app base fuel n acc :
  digits_of base fuel n acc = digits_of base fuel n "" +:+ acc.
Proof.
  revert n acc. induction fuel as [| f IH]; intros n acc; simpl; [reflexivity |].
  destruct (n / base =? 0); [reflexivity |].
  rewrite IH, (IH _ (String _ "")), append_assoc. reflexivity.
Qed.

(** Reading back the hexadecimal digits of [n] gives [n]. *)
Lemma scan_digits_of_hex fuel n acc :
  0 <= n < 16 ^ Z.of_nat fuel ->
  scan_digits 16 (digits_of 16 fuel n acc) 0 = scan_digits 16 acc n.
Proof.
  revert n acc. induction fuel as [| f IH]; intros n acc Hn.
  - simpl in *. replace n with 0 by lia. reflexivity.
  - rewrite Nat2Z.inj_succ, Z.pow_succ_r in Hn by lia.
    assert (Hmod : 0 <= n mod 16 < 16) by (apply Z.mod_pos_bound; lia).
    destruct (hex_char_value (n mod 16) Hmod) as [Hv _].
    assert (Hstep : forall a, scan_digits 16 (String (hex_char (n mod 16)) acc) a
                              = scan_digits 16 acc (a * 16 + n mod 16)).
    { intros a. simpl. rewrite Hv.
      now replace (n mod 16 <? 16) with true by (symmetry; apply Z.ltb_lt; lia). }
    simpl digits_of. destruct (Z.eqb_spec (n / 16) 0) as [Hq | Hq].
    + rewrite Hstep. f_equal. rewrite (Z.div_mod n 16) at 2 by lia. lia.
    + rewrite IH.
      * rewrite Hstep. f_equal. rewrite (Z.div_mod n 16) at 3 by lia. lia.
      * split; [apply Z.div_pos; lia |].
        apply Z.div_lt_upper_bound; lia.
Qed.

Lemma digits_of_hex_shape fuel n acc :
  (0 < fuel)%nat -> 0 <= n -> all_lower_hex acc = true ->
  all_lower_hex (digits_of 16 fuel n acc) = true /\
  digits_of 16 fuel n acc <> "".
Proof.
  revert n acc. induction fuel as [| f IH]; intros n acc Hf Hn Hacc; [lia |].
  assert (Hmod : 0 <= n mod 16 < 16) by (apply Z.mod_pos_bound; lia).
  destruct (hex_char_value (n mod 16) Hmod) as [_ Hh].
  simpl digits_of. destruct (n / 16 =? 0).
  - split; [simpl; now rewrite Hh | discriminate].
  - destruct f as [| f'].
    + simpl. split; [now rewrite Hh | discriminate].
    + apply IH; [lia | apply Z.div_pos; lia | simpl; now rewrite Hh].
Qed.

Lemma printf_lx_shape v :
  0 <= v < 2 ^ 64 ->
  exists h t, printf_lx v = String h t /\ lower_hex h = true /\
              all_lower_hex t = true.
Proof.
  intros Hv. unfold printf_lx, to_ulong. rewrite Z.mod_small by lia.
  destruct (digits_of_hex_shape 16 v "" ltac:(lia) ltac:(lia) eq_refl) as [Hall Hne].
  destruct (digits_of 16 16 v "") as [| h t]; [congruence |].
  simpl in Hall. apply andb_prop in Hall. destruct Hall as [Hh Ht].
  exists h, t. auto.
Qed.

Lemma scan_lower_hex_stop rest n :
  is_digit_in 16 (hd_c rest) = false -> scan_digits 16 rest n = (n, rest).
Proof.
  intros H. destruct rest as [| g r]; [reflexivity |]. simpl in *.
  unfold is_digit_in in H. destruct (digit_value g); [now rewrite H | reflexivity].
Qed.

(** [strtoul] in base 16 on what [printf ("%lx")] wrote, followed by a
    byte that is no hexadecimal digit. *)
Lemma strtoul_printf_lx v rest :
  0 <= v < 2 ^ 64 -> is_digit_in 16 (hd_c rest) = false ->
  hd_c rest <> "x"%char -> hd_c rest <> "X"%char ->
  strtoul (printf_lx v +:+ rest) 16
  = {| ul := v; endp := rest; errno := 0; noconv := false |}.
Proof.
  intros Hv Hrest Hx HX.
  assert (Hscan : scan_digits 16 (printf_lx v +:+ rest) 0 = (v, rest)).
  { unfold printf_lx, to_ulong. rewrite Z.mod_small by lia.
    rewrite <- digits_of_app, scan_digits_of_hex by (simpl; lia).
    now apply scan_lower_hex_stop. }
  destruct (printf_lx_shape v Hv) as (h & t & Hshape & Hh & Ht).
  rewrite Hshape in *. change (String h t +:+ rest) with (String h (t +:+ rest)) in *.
  destruct (lower_hex_plain h Hh) as (Hsp & Hm & Hp & _).
  unfold strtoul. simpl skip_space. rewrite Hsp.
  assert (Hsign : (match String h (t +:+ rest) with
                   | String "-"%char r' => (true, r')
                   | String "+"%char r' => (false, r')
                   | _ => (false, String h (t +:+ rest))
                   end) = (false, String h (t +:+ rest))).
  { destruct h as [[|] [|] [|] [|] [|] [|] [|] [|]]; try reflexivity;
      congruence. }
  rewrite Hsign.
  assert (Hsecond : hd_c (t +:+ rest) <> "x"%char /\ hd_c (t +:+ rest) <> "X"%char).
  { destruct t as [| y t]; [simpl; auto |]. simpl in *.
    apply andb_prop in Ht. destruct Ht as [Hy _].
    destruct (lower_hex_plain y Hy) as (_ & _ & _ & H1 & H2 & _). auto. }
  assert (Hpre : (match String h (t +:+ rest) with
                  | String "0"%char (String x r') =>
                      if (16 =? 16) && (Ascii.eqb x "x" || Ascii.eqb x "X")
                         && is_digit_in 16 (hd_c r')
                      then r' else String h (t +:+ rest)
                  | _ => String h (t +:+ rest)
                  end) = String h (t +:+ rest)).
  { destruct Hsecond as [H1 H2].
    destruct (t +:+ rest) as [| x r'] eqn:Htr.
    - destruct h as [[|] [|] [|] [|] [|] [|] [|] [|]]; reflexivity.
    - simpl in H1, H2.
      rewrite (ascii_neqb x "x" H1), (ascii_neqb x "X" H2).
      destruct h as [[|] [|] [|] [|] [|] [|] [|] [|]]; reflexivity. }
  rewrite Hpre. simpl hd_c. rewrite (lower_hex_digit_in_16 h Hh), Hscan.
  replace (v >? ULONG_MAX) with false; [reflexivity |].
  symmetry. apply gtb_false. unfold ULONG_MAX. lia.
Qed.

Lemma colon_not_hex : is_digit_in 16 ":" = false.
Proof. reflexivity. Qed.

Lemma gemini_strtoul_tcflag_t_printf v more :
  is_tcflag v ->
  Gemini.strtoul_tcflag_t (printf_lx v +:+ String ":" more) 16 ":"
  = Some (v, String ":" more).
Proof.
  intros Hv. unfold Gemini.strtoul_tcflag_t.
  rewrite strtoul_printf_lx;
    [| unfold is_tcflag in Hv; lia | reflexivity | discriminate | discriminate ].
  cbn [noconv endp errno ul hd_c]. rewrite (to_tcflag_t_id v Hv), !Z.eqb_refl.
  reflexivity || (simpl; reflexivity).
Qed.

Lemma gpt4o_parse_tcflag_printf v more :
  is_tcflag v ->
  Gpt4o.parse_tcflag (printf_lx v +:+ String ":" more) = Some (v, more).
Proof.
  intros Hv. unfold Gpt4o.parse_tcflag.
  rewrite strtoul_printf_lx;
    [| unfold is_tcflag in Hv; lia | reflexivity | discriminate | discriminate ].
  cbn [noconv endp errno ul hd_c tl_c]. rewrite (to_tcflag_t_id v Hv).
  reflexivity.
Qed.

(** A control byte followed by the delimiter the loop expects: a colon
    before another byte, the end of the string after the last one. *)
Lemma gemini_strtoul_cc_t_printf v rest delim :
  is_cc v -> hd_c rest = delim -> delim = ":"%char \/ delim = NUL ->
  Gemini.strtoul_cc_t (printf_lx v +:+ rest) 16 delim = Some (v, rest).
Proof.
  intros Hv Hrest Hdelim. unfold Gemini.strtoul_cc_t.
  rewrite strtoul_printf_lx.
  - cbn [noconv endp errno ul]. rewrite Hrest, ascii_eqb_refl.
    rewrite (to_cc_t_id v Hv), !Z.eqb_refl. reflexivity || (simpl; reflexivity).
  - unfold is_cc in Hv. lia.
  - rewrite Hrest. destruct Hdelim as [-> | ->]; reflexivity.
  - rewrite Hrest. destruct Hdelim as [-> | ->]; discriminate.
  - rewrite Hrest. destruct Hdelim as [-> | ->]; discriminate.
Qed.

Lemma gpt4o_parse_cc_printf v rest delim :
  is_cc v -> hd_c rest = delim -> delim = ":"%char \/ delim = NUL ->
  Gpt4o.parse_cc (printf_lx v +:+ rest) delim
  = Some (v, match rest with EmptyString => None | String _ r => Some r end).
Proof.
  intros Hv Hrest Hdelim. unfold Gpt4o.parse_cc.
  rewrite strtoul_printf_lx.
  - cbn [noconv endp errno ul]. rewrite Hrest, ascii_eqb_refl.
    rewrite (to_cc_t_id v Hv). destruct Hdelim as [-> | ->]; reflexivity.
  - unfold is_cc in Hv. lia.
  - rewrite Hrest. destruct Hdelim as [-> | ->]; reflexivity.
  - rewrite Hrest. destruct Hdelim as [-> | ->]; discriminate.
  - rewrite Hrest. destruct Hdelim as [-> | ->]; discriminate.
Qed.

Section RoundTrip.
Context `{P : platform}.
Variable s : struct_termios.
Hypothesis Hs : wf_termios s.

Lemma get_c_cc_is_cc i : is_cc (get_c_cc i s).
Proof.
  destruct Hs as (_ & _ & _ & _ & _ & Hall). unfold get_c_cc.
  destruct (c_cc s !! i) as [x |] eqn:E; simpl.
  - apply (proj1 (Forall_lookup _ _) Hall i x E).
  - unfold is_cc. lia.
Qed.

Lemma cc_text_cons k n :
  cc_text s k (S n) = String ":" (printf_lx (get_c_cc k s) +:+ cc_text s (S k) n).
Proof. reflexivity. Qed.

(** The delimiter the loop expects after byte [k] is the one the line
    has there. *)
Lemma cc_text_delim k n :
  (k + S n = NCCS)%nat ->
  hd_c (cc_text s (S k) n) = (if (k <? NCCS - 1)%nat then ":"%char else NUL).
Proof.
  intros Hk. destruct n as [| n].
  - simpl. destruct (Nat.ltb_spec k (NCCS - 1)); [lia | reflexivity].
  - rewrite cc_text_cons. simpl.
    destruct (Nat.ltb_spec k (NCCS - 1)); [reflexivity | lia].
Qed.

Lemma gemini_recover_cc_line n : forall k m,
  (k + n = NCCS)%nat ->
  Gemini.recover_cc (seq k n) (tl_c (cc_text s k n)) m = (true, copy_cc s k n m).
Proof.
  induction n as [| n IH]; intros k m Hk; [reflexivity |].
  rewrite cc_text_cons. cbn [tl_c seq Gemini.recover_cc copy_cc fold_left].
  rewrite (gemini_strtoul_cc_t_printf (get_c_cc k s) (cc_text s (S k) n));
    [ | apply get_c_cc_is_cc | now apply cc_text_delim
      | destruct (k <? NCCS - 1)%nat; auto ].
  apply IH. lia.
Qed.

Lemma gpt4o_recover_cc_line n : forall k m,
  (k + n = NCCS)%nat -> (0 < n)%nat ->
  Gpt4o.recover_cc (seq k n) (Some (tl_c (cc_text s k n))) m
  = Some (true, copy_cc s k n m).
Proof.
  induction n as [| n IH]; intros k m Hk Hn; [lia |].
  rewrite cc_text_cons. cbn [tl_c seq Gpt4o.recover_cc copy_cc fold_left].
  rewrite (gpt4o_parse_cc_printf (get_c_cc k s) (cc_text s (S k) n));
    [ | apply get_c_cc_is_cc | now apply cc_text_delim
      | destruct (k <? NCCS - 1)%nat; auto ].
  destruct n as [| n]; [reflexivity |].
  rewrite cc_text_cons at 1.
  change (Some (printf_lx (get_c_cc (S k) s) +:+ cc_text s (S (S k)) n))
    with (Some (tl_c (String ":" (printf_lx (get_c_cc (S k) s)
                                 +:+ cc_text s (S (S k)) n)))).
  rewrite <- cc_text_cons. apply IH; lia.
Qed.

End RoundTrip.

Section CopyCc.
Context `{P : platform}.
Variable s : struct_termios.

Lemma copy_cc_cons k n m :
  copy_cc s k (S n) m = copy_cc s (S k) n (set_c_cc k (get_c_cc k s) m).
Proof. reflexivity. Qed.

Lemma copy_cc_frame n : forall k m,
  (forall w, load w (copy_cc s k n m) = load w m) /\
  c_line (copy_cc s k n m) = c_line m /\
  c_ispeed (copy_cc s k n m) = c_ispeed m /\
  c_ospeed (copy_cc s k n m) = c_ospeed m /\
  length (c_cc (copy_cc s k n m)) = length (c_cc m).
Proof.
  induction n as [| n IH]; intros k m; [repeat split |].
  rewrite copy_cc_cons.
  destruct (IH (S k) (set_c_cc k (get_c_cc k s) m)) as (H1 & H2 & H3 & H4 & H5).
  split; [intros w; rewrite H1; apply load_set_c_cc |].
  rewrite H2, H3, H4, H5. simpl. rewrite length_insert. tauto.
Qed.

Lemma copy_cc_lookup n : forall k m j,
  c_cc (copy_cc s k n m) !! j =
  if (k <=? j)%nat && (j <? k + n)%nat && (j <? length (c_cc m))%nat
  then Some (to_cc_t (get_c_cc j s)) else c_cc m !! j.
Proof.
  induction n as [| n IH]; intros k m j.
  - simpl. destruct (Nat.leb_spec k j), (Nat.ltb_spec j (k + 0)); simpl;
      try reflexivity; lia.
  - rewrite copy_cc_cons, IH. simpl c_cc. rewrite length_insert.
    destruct (Nat.eq_dec j k) as [-> | Hne].
    + replace (S k <=? k)%nat with false
        by (symmetry; apply Nat.leb_gt; lia).
      rewrite Nat.leb_refl. simpl.
      replace (k <? k + S n)%nat with true
        by (symmetry; apply Nat.ltb_lt; lia).
      destruct (Nat.ltb_spec k (length (c_cc m))).
      * now rewrite list_lookup_insert_eq.
      * rewrite list_insert_ge by lia. reflexivity.
    + rewrite list_lookup_insert_ne by congruence.
      replace (j <? S k + n)%nat with (j <? k + S n)%nat
        by (f_equal; lia).
      destruct (Nat.leb_spec (S k) j), (Nat.leb_spec k j); simpl;
        try reflexivity; lia.
Qed.

Lemma copy_cc_all m :
  wf_termios s -> length (c_cc m) = NCCS ->
  c_cc (copy_cc s 0 NCCS m) = c_cc s.
Proof.
  intros (_ & _ & _ & _ & Hlen & Hall) Hm.
  apply list_eq. intros j. rewrite copy_cc_lookup, Hm. simpl.
  destruct (Nat.ltb_spec j NCCS) as [Hj | Hj]; simpl.
  - assert (Hsome : is_Some (c_cc s !! j))
      by (apply lookup_lt_is_Some; lia).
    destruct Hsome as [x Hx]. unfold get_c_cc. rewrite Hx. simpl.
    f_equal. apply to_cc_t_id.
    apply (proj1 (Forall_lookup _ _) Hall j x Hx).
  - rewrite (lookup_ge_None_2 (c_cc s)) by lia.
    apply lookup_ge_None_2. lia.
Qed.

End CopyCc.

(** *** The shape of the line *)

Lemma printf_lx_all_hex v : 0 <= v < 2 ^ 64 -> all_lower_hex (printf_lx v) = true.
Proof.
  intros Hv. destruct (printf_lx_shape v Hv) as (h & t & -> & Hh & Ht).
  simpl. now rewrite Hh, Ht.
Qed.

Lemma lower_hex_not_colon c : lower_hex c = true -> Ascii.eqb c ":" = false.
Proof.
  intros H. destruct (Ascii.eqb_spec c ":") as [-> | _]; [discriminate | reflexivity].
Qed.

Lemma split_colon_nonempty s : split_colon s <> [].
Proof.
  destruct s as [| c r]; simpl; [discriminate |].
  destruct (Ascii.eqb c ":"); [discriminate |].
  destruct (split_colon r); discriminate.
Qed.

Lemma split_colon_field a : forall r,
  all_lower_hex a = true ->
  split_colon (a +:+ String ":" r) = a :: split_colon r.
Proof.
  induction a as [| c a IH]; intros r Ha; [reflexivity |].
  simpl in Ha. apply andb_prop in Ha. destruct Ha as [Hc Ha].
  simpl. rewrite (lower_hex_not_colon c Hc), (IH r Ha). reflexivity.
Qed.

Lemma split_colon_last a :
  all_lower_hex a = true -> split_colon a = [ a ].
Proof.
  induction a as [| c a IH]; intros Ha; [reflexivity |].
  simpl in Ha. apply andb_prop in Ha. destruct Ha as [Hc Ha].
  simpl. rewrite (lower_hex_not_colon c Hc), (IH Ha). reflexivity.
Qed.

Section LineShape.
Context `{P : platform}.
Variable s : struct_termios.
Hypothesis Hs : wf_termios s.

Lemma cc_hex i : all_lower_hex (printf_lx (get_c_cc i s)) = true.
Proof.
  apply printf_lx_all_hex. pose proof (get_c_cc_is_cc s Hs i) as H.
  unfold is_cc in H. lia.
Qed.

Lemma split_colon_cc_text n : forall k a,
  all_lower_hex a = true ->
  split_colon (a +:+ cc_text s k n)
  = a :: List.map (fun i => printf_lx (get_c_cc i s)) (seq k n).
Proof.
  induction n as [| n IH]; intros k a Ha.
  - simpl. rewrite append_nil_r. now apply split_colon_last.
  - rewrite cc_text_cons, split_colon_field by assumption.
    rewrite IH by apply cc_hex. reflexivity.
Qed.

Lemma gemini_line_fields :
  split_colon (Gemini.recoverable_line s) = recoverable_fields s.
Proof.
  destruct Hs as (Hi & Ho & Hc & Hl & _).
  unfold Gemini.recoverable_line, recoverable_fields, is_tcflag in *.
  fold (cc_text s 0 NCCS).
  repeat match goal with
         | |- context [":" +:+ ?x] => change (":" +:+ x) with (String ":" x)
         end.
  rewrite !split_colon_field by (apply printf_lx_all_hex; lia).
  rewrite split_colon_cc_text by (apply printf_lx_all_hex; lia).
  reflexivity.
Qed.

End LineShape.

(** *** Writing the line *)

Lemma put_out_put_out a b w : put_out b (put_out a w) = put_out (a +:+ b) w.
Proof. unfold put_out. simpl. now rewrite append_assoc. Qed.

Lemma emit_cc_text `{P : platform} (s : struct_termios) (c : M unit) n :
  forall k acc w,
  (fold_right (fun i k => fputs_stdout (":" +:+ printf_lx (get_c_cc i s)) ;;; k)
     (ret tt) (seq k n) ;;; c) (put_out acc w)
  = c (put_out (acc +:+ cc_text s k n) w).
Proof.
  induction n as [| n IH]; intros k acc w.
  - simpl. now rewrite append_nil_r.
  - rewrite cc_text_cons. cbn [seq fold_right].
    change ((fold_right
               (fun i k => fputs_stdout (":" +:+ printf_lx (get_c_cc i s)) ;;; k)
               (ret tt) (seq (S k) n) ;;; c)
              (put_out (":" +:+ printf_lx (get_c_cc k s)) (put_out acc w))
            = c (put_out (acc +:+ String ":" (printf_lx (get_c_cc k s)
                                             +:+ cc_text s (S k) n)) w)).
    rewrite put_out_put_out, IH, append_assoc. reflexivity.
Qed.

Lemma gemini_display_recoverable_output `{P : platform} s w :
  Gemini.display_recoverable s w
  = Ret tt (put_out (Gemini.recoverable_line s +:+ newline) w).
Proof.
  unfold Gemini.display_recoverable, Gemini.recoverable_line.
  fold (cc_text s 0 NCCS).
  match goal with
  | |- (fputs_stdout ?f ;;; ?rest) w = _ =>
      change (rest (put_out f w)
              = Ret tt (put_out ((printf_lx (c_iflag s) +:+ ":" +:+
                                  printf_lx (c_oflag s) +:+ ":" +:+
                                  printf_lx (c_cflag s) +:+ ":" +:+
                                  printf_lx (c_lflag s) +:+ cc_text s 0 NCCS)
                                 +:+ newline) w))
  end.
  rewrite emit_cc_text. unfold putchar, modify.
  rewrite put_out_put_out, !append_assoc. reflexivity.
Qed.

Lemma gpt4o_recoverable_same `{P : platform} s :
  Gpt4o.recoverable_line s = Gemini.recoverable_line s /\
  Gpt4o.display_recoverable s = Gemini.display_recoverable s.
Proof. split; reflexivity. Qed.

(** *** Reading the line back *)

Section ReadBack.
Context `{P : platform}.
Variables s m : struct_termios.
Hypothesis Hn : (0 < NCCS)%nat.
Hypothesis Hs : wf_termios s.
Hypothesis Hm : length (c_cc m) = NCCS.

Lemma line_with_colons :
  Gemini.recoverable_line s
  = printf_lx (c_iflag s) +:+ String ":" (printf_lx (c_oflag s) +:+
    String ":" (printf_lx (c_cflag s) +:+ String ":" (printf_lx (c_lflag s) +:+
    String ":" (tl_c (cc_text s 0 NCCS))))).
Proof.
  unfold Gemini.recoverable_line. fold (cc_text s 0 NCCS).
  destruct NCCS as [| n]; [lia |]. rewrite cc_text_cons. reflexivity.
Qed.

Lemma gemini_recover_flags_line :
  Gemini.recover_flags [ W_iflag; W_oflag; W_cflag; W_lflag ]
    (Gemini.recoverable_line s) m
  = (Some (tl_c (cc_text s 0 NCCS)), (flags_stored s m)).
Proof.
  destruct Hs as (Hi & Ho & Hc & Hl & _).
  rewrite line_with_colons. cbn [Gemini.recover_flags].
  repeat (rewrite gemini_strtoul_tcflag_t_printf by assumption; cbn [tl_c]).
  reflexivity.
Qed.

Lemma gpt4o_recover_flags_line :
  Gpt4o.recover_flags [ W_iflag; W_oflag; W_cflag; W_lflag ]
    (Gpt4o.recoverable_line s) m
  = (Some (tl_c (cc_text s 0 NCCS)), (flags_stored s m)).
Proof.
  destruct Hs as (Hi & Ho & Hc & Hl & _).
  change (Gpt4o.recoverable_line s) with (Gemini.recoverable_line s).
  rewrite line_with_colons. cbn [Gpt4o.recover_flags].
  rewrite !gpt4o_parse_tcflag_printf by assumption.
  reflexivity.
Qed.

Lemma copied_is_expected :
  copy_cc s 0 NCCS (flags_stored s m) = with_flags_and_cc s m.
Proof.
  destruct (copy_cc_frame s NCCS 0 (flags_stored s m)) as (Hw & Hl & Hi & Ho & _).
  pose proof (copy_cc_all s (flags_stored s m) Hs Hm) as Hcc.
  destruct Hs as (Hsi & Hso & Hsc & Hsl & _).
  apply termios_eq.
  - intros w. rewrite Hw. unfold flags_stored.
    destruct w; simpl; now apply to_tcflag_t_id.
  - rewrite Hl. reflexivity.
  - exact Hcc.
  - rewrite Hi. reflexivity.
  - rewrite Ho. reflexivity.
Qed.

Lemma gemini_recover_mode_line :
  Gemini.recover_mode (Gemini.recoverable_line s) m
  = (true, with_flags_and_cc s m).
Proof.
  unfold Gemini.recover_mode. rewrite gemini_recover_flags_line.
  rewrite (gemini_recover_cc_line s Hs) by lia. now rewrite copied_is_expected.
Qed.

Lemma gpt4o_recover_mode_line :
  Gpt4o.recover_mode (Gpt4o.recoverable_line s) m
  = Some (true, with_flags_and_cc s m).
Proof.
  unfold Gpt4o.recover_mode. rewrite gpt4o_recover_flags_line.
  rewrite (gpt4o_recover_cc_line s Hs) by lia. now rewrite copied_is_expected.
Qed.

End ReadBack.

(** C1.  The recoverable format is an exact round trip.  For a snapshot
    [s] the device can hold (flag words of 32 bits, [NCCS] control bytes),
    both drafts write the same line; its colon-separated fields are the
    four flag words and then exactly the [NCCS] control characters, in
    lower-case hexadecimal; and [recover_mode] of either draft on that
    line succeeds and leaves in the target snapshot the four flag words
    and all the control characters of [s] (line discipline and speeds of
    the target are not part of the format and stay). *)
Theorem recoverable_round_trip `{P : platform} (s m : struct_termios) (w : world) :
  (0 < NCCS)%nat -> wf_termios s -> length (c_cc m) = NCCS ->
  Gemini.display_recoverable s w
    = Ret tt (put_out (Gemini.recoverable_line s +:+ newline) w) /\
  Gpt4o.display_recoverable s w
    = Ret tt (put_out (Gpt4o.recoverable_line s +:+ newline) w) /\
  Gpt4o.recoverable_line s = Gemini.recoverable_line s /\
  split_colon (Gemini.recoverable_line s) = recoverable_fields s /\
  length (recoverable_fields s) = (4 + NCCS)%nat /\
  Forall (fun f => all_lower_hex f = true /\ f <> EmptyString)
    (recoverable_fields s) /\
  Gemini.recover_mode (Gemini.recoverable_line s) m
    = (true, with_flags_and_cc s m) /\
  Gpt4o.recover_mode (Gpt4o.recoverable_line s) m
    = Some (true, with_flags_and_cc s m) /\
  (forall fw, load fw (with_flags_and_cc s m) = load fw s) /\
  (forall i, get_c_cc i (with_flags_and_cc s m) = get_c_cc i s).
Proof.
  intros Hn Hs Hm.
  split; [apply gemini_display_recoverable_output |].
  split; [apply gemini_display_recoverable_output |].
  split; [reflexivity |].
  split; [now apply gemini_line_fields |].
  split; [unfold recoverable_fields;
          now rewrite List.length_app, !List.length_map, List.length_seq |].
  split.
  { assert (Hlx : forall v, 0 <= v < 2 ^ 64 ->
               all_lower_hex (printf_lx v) = true /\ printf_lx v <> EmptyString).
    { intros v Hv. split; [now apply printf_lx_all_hex |].
      destruct (printf_lx_shape v Hv) as (h & t & -> & _). discriminate. }
    pose proof (get_c_cc_is_cc s Hs) as Hcc.
    destruct Hs as (Hi & Ho & Hc & Hl & _).
    unfold recoverable_fields, is_tcflag, is_cc in *.
    apply Forall_app. split.
    - repeat constructor; apply Hlx; lia.
    - apply List.Forall_forall. intros f Hf. apply List.in_map_iff in Hf.
      destruct Hf as (i & <- & _). apply Hlx. specialize (Hcc i). lia. }
  split; [now apply gemini_recover_mode_line |].
  split; [now apply gpt4o_recover_mode_line |].
  split; [intros []; reflexivity | reflexivity].
Qed.

Lemma recoverable_round_trip_witness :
  Gemini.recoverable_line (P := linux) linux_login
    = "500:5:bf:8a3b:3:1c:7f:15:4:0:1:0:11:13:1a:0:12:f:17:16:0:0:0:0:0:0:0:0:0:0:0:0:0:0:0:0"
  /\
  Gemini.recover_mode (P := linux) (Gemini.recoverable_line (P := linux) linux_login)
    (@zero_termios linux)
    = (true, with_flags_and_cc linux_login (@zero_termios linux)) /\
  Gpt4o.recover_mode (P := linux) (Gpt4o.recoverable_line (P := linux) linux_login)
    (@zero_termios linux)
    = Some (true, with_flags_and_cc linux_login (@zero_termios linux)).
Proof.
  split; [reflexivity |].
  assert (Hn : (0 < @NCCS linux)%nat) by (simpl; lia).
  assert (Hs : @wf_termios linux linux_login).
  { unfold wf_termios, is_tcflag. simpl.
    repeat split; try lia; try reflexivity.
    repeat constructor; unfold is_cc; lia. }
  assert (Hm : length (c_cc (@zero_termios linux)) = @NCCS linux) by reflexivity.
  destruct (@recoverable_round_trip linux linux_login (@zero_termios linux)
              initial_world Hn Hs Hm)
    as (_ & _ & _ & _ & _ & _ & Hg & Ho & _).
  exact (conj Hg Ho).
Defined.
(** ** C4: sane *)

Section SaneControlChars.
Context `{P : platform}.

Lemma gemini_sane_control_chars_writes l m :
  Gemini.sane_control_chars l m = write_sanevals (sane_reached l) m.
Proof.
  revert m. induction l as [| ci l IH]; intros m; simpl; [reflexivity |].
  destruct (Nat.eqb VMIN VEOF && STREQ (ci_name ci) "min"); [reflexivity |].
  apply IH.
Qed.

Lemma gpt4o_sane_control_chars_same l m :
  Gpt4o.sane_control_chars l m = Gemini.sane_control_chars l m.
Proof.
  revert m. induction l as [| ci l IH]; intros m; simpl; [reflexivity |].
  destruct (Nat.eqb VMIN VEOF && STREQ (ci_name ci) "min"); [reflexivity |].
  apply IH.
Qed.

Lemma sane_reached_all l :
  Nat.eqb VMIN VEOF = false -> sane_reached l = l.
Proof.
  intros H. induction l as [| ci l IH]; simpl; [reflexivity |].
  rewrite H. simpl. now rewrite IH.
Qed.

End SaneControlChars.

(** The writes touch [c_cc] only, and there only the slots they name. *)
Lemma write_sanevals_frame l : forall m,
  (forall w, load w (write_sanevals l m) = load w m) /\
  c_line (write_sanevals l m) = c_line m /\
  c_ispeed (write_sanevals l m) = c_ispeed m /\
  c_ospeed (write_sanevals l m) = c_ospeed m /\
  length (c_cc (write_sanevals l m)) = length (c_cc m).
Proof.
  induction l as [| ci l IH]; intros m; [now repeat split |].
  destruct (IH (set_c_cc (offset ci) (saneval ci) m)) as (H1 & H2 & H3 & H4 & H5).
  change (write_sanevals (ci :: l) m)
    with (write_sanevals l (set_c_cc (offset ci) (saneval ci) m)).
  split; [intros w; rewrite H1; apply load_set_c_cc |].
  rewrite H2, H3, H4, H5. simpl. rewrite length_insert. tauto.
Qed.

Lemma write_sanevals_other l j : forall m,
  ~ In j (List.map offset l) ->
  c_cc (write_sanevals l m) !! j = c_cc m !! j.
Proof.
  induction l as [| ci l IH]; intros m Hj; [reflexivity |].
  change (write_sanevals (ci :: l) m)
    with (write_sanevals l (set_c_cc (offset ci) (saneval ci) m)).
  simpl in Hj. rewrite IH by tauto. simpl.
  apply list_lookup_insert_ne. tauto.
Qed.

(** The outcome depends on the slots that are not written only. *)
Lemma write_sanevals_determined l : forall m1 m2,
  length (c_cc m1) = length (c_cc m2) ->
  (forall j, ~ In j (List.map offset l) -> c_cc m1 !! j = c_cc m2 !! j) ->
  c_cc (write_sanevals l m1) = c_cc (write_sanevals l m2).
Proof.
  induction l as [| ci l IH]; intros m1 m2 Hlen Hout.
  - simpl. apply list_eq. intros j. apply Hout. simpl. tauto.
  - change (write_sanevals (ci :: l) m1)
      with (write_sanevals l (set_c_cc (offset ci) (saneval ci) m1)).
    change (write_sanevals (ci :: l) m2)
      with (write_sanevals l (set_c_cc (offset ci) (saneval ci) m2)).
    apply IH; simpl.
    + now rewrite !length_insert.
    + intros j Hj. destruct (Nat.eq_dec (offset ci) j) as [<- | Hne].
      * destruct (Nat.lt_ge_cases (offset ci) (length (c_cc m1))) as [Hlt | Hge].
        -- rewrite !list_lookup_insert_eq by lia. reflexivity.
        -- rewrite !list_insert_ge by lia.
           rewrite !lookup_ge_None_2 by lia. reflexivity.
      * rewrite !list_lookup_insert_ne by assumption.
        apply Hout. simpl. tauto.
Qed.

Lemma write_sanevals_idempotent l m :
  c_cc (write_sanevals l (write_sanevals l m)) = c_cc (write_sanevals l m).
Proof.
  apply write_sanevals_determined.
  - apply write_sanevals_frame.
  - intros j Hj. now apply write_sanevals_other.
Qed.

(** Every slot named holds the default of its entry, where the
    registry is consistent. *)
Lemma write_sanevals_value l : forall m ci,
  (forall c, In c l -> (offset c < length (c_cc m))%nat) ->
  (forall c c', In c l -> In c' l -> offset c = offset c' ->
     to_cc_t (saneval c) = to_cc_t (saneval c')) ->
  In ci l ->
  get_c_cc (offset ci) (write_sanevals l m) = to_cc_t (saneval ci).
Proof.
  induction l as [| c0 l IH]; intros m ci Hoff Hsame Hin; [destruct Hin |].
  change (write_sanevals (c0 :: l) m)
    with (write_sanevals l (set_c_cc (offset c0) (saneval c0) m)).
  assert (Hoff' : forall c, In c l ->
            (offset c < length (c_cc (set_c_cc (offset c0) (saneval c0) m)))%nat).
  { intros c Hc. simpl. rewrite length_insert. apply Hoff. now right. }
  assert (Hsame' : forall c c', In c l -> In c' l -> offset c = offset c' ->
            to_cc_t (saneval c) = to_cc_t (saneval c')).
  { intros c c' Hc Hc'. apply Hsame; now right. }
  destruct (in_dec Nat.eq_dec (offset ci) (List.map offset l)) as [Hlater | Hnot].
  - apply List.in_map_iff in Hlater. destruct Hlater as (c' & Heq & Hc').
    rewrite <- Heq, (IH _ c' Hoff' Hsame' Hc').
    apply Hsame; [now right | exact Hin | exact Heq].
  - destruct Hin as [-> | Hin].
    + unfold get_c_cc. rewrite write_sanevals_other by assumption. simpl.
      rewrite list_lookup_insert_eq by (apply Hoff; now left). reflexivity.
    + exfalso. apply Hnot. now apply List.in_map.
Qed.

(** *** The flag loop *)

Lemma sane_flags_either f :
  (Z.land f (SANE_SET .| SANE_UNSET) =? 0)
  = ((Z.land f SANE_SET =? 0) && (Z.land f SANE_UNSET =? 0)).
Proof.
  rewrite Z.land_lor_distr_r.
  destruct (Z.eqb_spec (Z.land f SANE_SET) 0) as [-> | Hs]; simpl.
  - now rewrite Z.lor_0_l.
  - apply Z.eqb_neq. intros H. apply Z.lor_eq_0_iff in H. tauto.
Qed.

Lemma gpt4o_sane_mode_flag_same m info :
  Gpt4o.sane_mode_flag m info = Gemini.sane_mode_flag m info.
Proof.
  unfold Gpt4o.sane_mode_flag, Gemini.sane_mode_flag.
  rewrite sane_flags_either.
  destruct (Z.land (flags info) NO_SETATTR =? 0); simpl; [| reflexivity].
  destruct (mode_type_flag (type info)) as [wd |].
  - destruct (Z.land (flags info) SANE_SET =? 0); simpl; [| reflexivity].
    destruct (Z.land (flags info) SANE_UNSET =? 0); simpl; [reflexivity |].
    unfold clear_bits. now rewrite Z.lnot_lor.
  - now destruct (Z.land (flags info) SANE_SET =? 0),
                 (Z.land (flags info) SANE_UNSET =? 0).
Qed.

Lemma fold_left_same {A B} (f g : A -> B -> A) l : forall a,
  (forall a b, f a b = g a b) -> fold_left f l a = fold_left g l a.
Proof.
  induction l as [| b l IH]; intros a H; simpl; [reflexivity |].
  rewrite H. now apply IH.
Qed.

Lemma gpt4o_sane_mode_same `{P : platform} m :
  Gpt4o.sane_mode m = Gemini.sane_mode m.
Proof.
  unfold Gpt4o.sane_mode, Gemini.sane_mode.
  rewrite gpt4o_sane_control_chars_same.
  apply fold_left_same. apply gpt4o_sane_mode_flag_same.
Qed.

(** The body of the loop leaves the snapshot alone or stores into one
    flag word. *)
Lemma sane_mode_flag_cases m info :
  Gemini.sane_mode_flag m info = m \/
  exists wd v, mode_type_flag (type info) = Some wd /\
               Gemini.sane_mode_flag m info = store wd v m.
Proof.
  unfold Gemini.sane_mode_flag.
  destruct (negb (Z.land (flags info) NO_SETATTR =? 0)); [now left |].
  destruct (negb (Z.land (flags info) (SANE_SET .| SANE_UNSET) =? 0));
    [| now left].
  destruct (mode_type_flag (type info)) as [wd |]; [| now left].
  right. exists wd.
  destruct (negb (Z.land (flags info) SANE_SET =? 0)); eexists; split;
    reflexivity.
Qed.

Lemma sane_flags_frame l : forall m,
  c_cc (fold_left Gemini.sane_mode_flag l m) = c_cc m /\
  c_line (fold_left Gemini.sane_mode_flag l m) = c_line m /\
  c_ispeed (fold_left Gemini.sane_mode_flag l m) = c_ispeed m /\
  c_ospeed (fold_left Gemini.sane_mode_flag l m) = c_ospeed m.
Proof.
  induction l as [| info l IH]; intros m; [now repeat split |].
  simpl. destruct (IH (Gemini.sane_mode_flag m info)) as (H1 & H2 & H3 & H4).
  rewrite H1, H2, H3, H4.
  destruct (sane_mode_flag_cases m info) as [-> | (wd & v & _ & ->)];
    [now repeat split |].
  now simpl_termios.
Qed.

Lemma flag_word_eqb_spec a b : reflect (a = b) (flag_word_eqb a b).
Proof. destruct a, b; simpl; constructor; congruence. Qed.

(** One turn of the loop, on the word [wd], is one step of the summary. *)
Lemma sane_mode_flag_step wd m info acc x :
  load wd m = after_writes acc x ->
  load wd (Gemini.sane_mode_flag m info) = after_writes (sane_step wd acc info) x.
Proof.
  intros Hm. unfold Gemini.sane_mode_flag, sane_step, has_flag.
  rewrite sane_flags_either.
  destruct (Z.land (flags info) NO_SETATTR =? 0); simpl; [| exact Hm].
  destruct (mode_type_flag (type info)) as [wd' |].
  - destruct (flag_word_eqb_spec wd' wd) as [-> | Hne].
    + destruct (Z.land (flags info) SANE_SET =? 0); simpl.
      * destruct (Z.land (flags info) SANE_UNSET =? 0); simpl; [exact Hm |].
        rewrite load_clear_bits, Hm. unfold after_writes. simpl.
        bitwise_eq. split_lt32 i; bit_cases.
      * rewrite load_replace_bits, Hm. unfold after_writes. simpl.
        bitwise_eq. split_lt32 i; bit_cases.
    + assert (Hother : forall v, load wd (store wd' v m) = load wd m)
        by (intros v; apply load_store_other; congruence).
      destruct (Z.land (flags info) SANE_SET =? 0); simpl.
      * destruct (Z.land (flags info) SANE_UNSET =? 0); simpl; [exact Hm |].
        unfold clear_bits. now rewrite Hother.
      * unfold replace_bits. now rewrite Hother.
  - now destruct (Z.land (flags info) SANE_SET =? 0),
                 (Z.land (flags info) SANE_UNSET =? 0).
Qed.

Lemma sane_flags_normal_form wd l : forall m acc x,
  load wd m = after_writes acc x ->
  load wd (fold_left Gemini.sane_mode_flag l m)
  = after_writes (fold_left (sane_step wd) l acc) x.
Proof.
  induction l as [| info l IH]; intros m acc x Hm; [exact Hm |].
  simpl. apply IH. now apply sane_mode_flag_step.
Qed.

Lemma after_no_writes x : is_tcflag x -> x = after_writes (0, 0) x.
Proof.
  intros Hx. unfold after_writes. simpl.
  rewrite Z.lor_0_r. change (Z.lnot 0) with (-1). rewrite Z.land_m1_r.
  symmetry. now apply to_tcflag_t_id.
Qed.

Lemma after_writes_twice acc x :
  after_writes acc (after_writes acc x) = after_writes acc x.
Proof. unfold after_writes. bitwise_eq. split_lt32 i; bit_cases. Qed.

(** The bits written only grow, and the bits of an entry that is
    handled are among them. *)
Lemma sane_step_keeps wd info acc i :
  Z.testbit (fst acc) i = true ->
  Z.testbit (fst (sane_step wd acc info)) i = true.
Proof.
  intros H. unfold sane_step.
  destruct (has_flag info NO_SETATTR); [exact H |].
  destruct (mode_type_flag (type info)) as [wd' |]; [| exact H].
  destruct (flag_word_eqb wd' wd); [| exact H].
  destruct (has_flag info SANE_SET);
    [simpl; rewrite !Z.lor_spec, H; reflexivity |].
  destruct (has_flag info SANE_UNSET);
    [simpl; rewrite !Z.lor_spec, H; reflexivity | exact H].
Qed.

Lemma sane_fold_keeps wd l i : forall acc,
  Z.testbit (fst acc) i = true ->
  Z.testbit (fst (fold_left (sane_step wd) l acc)) i = true.
Proof.
  induction l as [| info l IH]; intros acc H; [exact H |].
  simpl. apply IH. now apply sane_step_keeps.
Qed.

Lemma sane_fold_covers wd l info i : forall acc,
  In info l -> has_flag info NO_SETATTR = false ->
  mode_type_flag (type info) = Some wd ->
  has_flag info SANE_SET || has_flag info SANE_UNSET = true ->
  Z.testbit (mask info .| bits info) i = true ->
  Z.testbit (fst (fold_left (sane_step wd) l acc)) i = true.
Proof.
  induction l as [| e l IH]; intros acc Hin Hno Hwd Hsane Hbit; [destruct Hin |].
  simpl. destruct Hin as [-> | Hin]; [| now apply IH].
  apply sane_fold_keeps. unfold sane_step. rewrite Hno, Hwd.
  destruct (flag_word_eqb_spec wd wd) as [_ | Hne]; [| congruence].
  rewrite Z.lor_spec in Hbit.
  destruct (has_flag info SANE_SET); simpl in *.
  - rewrite !Z.lor_spec. destruct (Z.testbit (fst acc) i); simpl; auto.
  - rewrite Hsane. simpl. rewrite !Z.lor_spec.
    destruct (Z.testbit (fst acc) i); simpl; auto.
Qed.

(** Within the bits written, the outcome does not depend on the word
    before. *)
Lemma land_after_writes acc x c :
  (forall i, 0 <= i -> Z.testbit c i = true -> Z.testbit (fst acc) i = true) ->
  Z.land (after_writes acc x) c = Z.land (after_writes acc 0) c.
Proof.
  intros H. unfold after_writes. bitwise_eq. specialize (H i Hi).
  destruct (Z.testbit c i); [| now rewrite !andb_false_r].
  rewrite (H eq_refl). simpl. now rewrite !andb_false_r.
Qed.

Lemma default_on_after_writes info acc x :
  (forall i, 0 <= i -> Z.testbit (mask info .| bits info) i = true ->
     Z.testbit (fst acc) i = true) ->
  default_on info (after_writes acc x) = default_on info (after_writes acc 0).
Proof.
  intros H. unfold default_on.
  destruct (has_flag info SANE_SET).
  - rewrite (land_after_writes acc x); [reflexivity |].
    intros i Hi Hc. apply (H i Hi). rewrite Z.lor_spec.
    destruct (mask info =? 0); rewrite Hc; [apply orb_true_r | reflexivity].
  - destruct (has_flag info SANE_UNSET); [| reflexivity].
    now rewrite (land_after_writes acc x).
Qed.

Section Sane.
Context `{P : platform}.

Lemma sane_mode_word wd m :
  is_tcflag (load wd m) ->
  load wd (Gemini.sane_mode m)
  = after_writes (fold_left (sane_step wd) mode_info (0, 0)) (load wd m).
Proof.
  intros Hm. unfold Gemini.sane_mode. apply sane_flags_normal_form.
  rewrite gemini_sane_control_chars_writes.
  rewrite (proj1 (write_sanevals_frame _ m)). now apply after_no_writes.
Qed.

Lemma sane_mode_cc m :
  c_cc (Gemini.sane_mode m)
  = c_cc (write_sanevals (sane_reached control_info) m).
Proof.
  unfold Gemini.sane_mode.
  rewrite (proj1 (sane_flags_frame _ _)).
  now rewrite gemini_sane_control_chars_writes.
Qed.

Lemma sane_mode_other m :
  c_line (Gemini.sane_mode m) = c_line m /\
  c_ispeed (Gemini.sane_mode m) = c_ispeed m /\
  c_ospeed (Gemini.sane_mode m) = c_ospeed m.
Proof.
  unfold Gemini.sane_mode.
  destruct (sane_flags_frame mode_info
              (Gemini.sane_control_chars control_info m)) as (_ & -> & -> & ->).
  rewrite gemini_sane_control_chars_writes.
  destruct (write_sanevals_frame (sane_reached control_info) m)
    as (_ & -> & -> & -> & _).
  auto.
Qed.

Lemma wf_load wd m : wf_termios m -> is_tcflag (load wd m).
Proof. intros (Hi & Ho & Hc & Hl & _). now destruct wd. Qed.

Lemma sane_mode_idempotent m :
  wf_termios m -> Gemini.sane_mode (Gemini.sane_mode m) = Gemini.sane_mode m.
Proof.
  intros Hm. destruct (sane_mode_other m) as (Hl & Hi & Ho).
  destruct (sane_mode_other (Gemini.sane_mode m)) as (Hl' & Hi' & Ho').
  apply termios_eq; try congruence.
  - intros wd. pose proof (wf_load wd m Hm) as Hw.
    rewrite (sane_mode_word wd (Gemini.sane_mode m)).
    + rewrite (sane_mode_word wd m Hw). apply after_writes_twice.
    + rewrite (sane_mode_word wd m Hw). apply to_tcflag_t_range.
  - rewrite !sane_mode_cc. apply write_sanevals_determined.
    + rewrite sane_mode_cc. apply write_sanevals_frame.
    + intros j Hj. rewrite sane_mode_cc. now apply write_sanevals_other.
Qed.

Lemma sane_mode_defaults m info :
  wf_termios m -> flags_registry_ok Gemini.sane_mode = true ->
  In info mode_info -> has_flag info NO_SETATTR = false ->
  at_sane_default info (Gemini.sane_mode m) = true.
Proof.
  intros Hm Hok Hin Hno. unfold flags_registry_ok in Hok.
  rewrite List.forallb_forall in Hok. specialize (Hok info Hin).
  rewrite Hno in Hok. simpl in Hok. revert Hok. unfold at_sane_default.
  destruct (mode_type_flag (type info)) as [wd |] eqn:Hwd; [| reflexivity].
  rewrite (sane_mode_word wd m (wf_load wd m Hm)).
  rewrite (sane_mode_word wd zero_termios)
    by (destruct wd; simpl; unfold is_tcflag; lia).
  replace (load wd zero_termios) with 0 by now destruct wd.
  destruct (has_flag info SANE_SET || has_flag info SANE_UNSET) eqn:Hsane.
  - intros Hok. rewrite default_on_after_writes; [exact Hok |].
    intros i _ Hbit. now apply (sane_fold_covers wd mode_info info).
  - apply orb_false_elim in Hsane. destruct Hsane as [Hs Hu].
    unfold default_on. now rewrite Hs, Hu.
Qed.

Lemma sane_mode_control_chars m ci :
  wf_termios m -> cc_registry_ok = true ->
  In ci (sane_reached control_info) ->
  get_c_cc (offset ci) (Gemini.sane_mode m) = to_cc_t (saneval ci).
Proof.
  intros Hm Hok Hin. unfold cc_registry_ok in Hok.
  rewrite List.forallb_forall in Hok.
  destruct Hm as (_ & _ & _ & _ & Hlen & _).
  unfold get_c_cc. rewrite sane_mode_cc.
  apply (write_sanevals_value (sane_reached control_info) m ci); [| | exact Hin].
  - intros c Hc. specialize (Hok c Hc). apply andb_prop in Hok.
    destruct Hok as [Hlt _]. apply Nat.ltb_lt in Hlt. lia.
  - intros c c' Hc Hc' Heq. specialize (Hok c Hc). apply andb_prop in Hok.
    destruct Hok as [_ Hall]. rewrite List.forallb_forall in Hall.
    specialize (Hall c' Hc'). rewrite Heq, Nat.eqb_refl in Hall. simpl in Hall.
    now apply Z.eqb_eq.
Qed.

Lemma set_mode_sane m :
  Gemini.set_mode sane_entry false m = (true, Gemini.sane_mode m) /\
  Gpt4o.set_mode sane_entry false m = (true, Gpt4o.sane_mode m).
Proof.
  split; [| reflexivity].
  unfold Gemini.set_mode, Gemini.combination_modes.
  destruct IXANY, XCASE, IUCLC, OLCUC; reflexivity.
Qed.

End Sane.

(** C4, as the sources have it.  On a snapshot the device can hold,
    "sane" (the same function in both drafts) sets the slot of every
    control character the first loop gets to (all of them unless MIN
    shares the slot of EOF) to the default of its entry, and leaves every
    flag entry of the registry that is not flagged NO_SETATTR at its
    default; an entry flagged NO_SETATTR is passed over.  Line discipline
    and speeds stay, and "sane" after "sane" changes nothing.  The
    registry is one whose defaults do not contradict each other. *)
Theorem sane_resets_to_defaults `{P : platform} (m : struct_termios) :
  wf_termios m -> cc_registry_ok = true ->
  flags_registry_ok Gemini.sane_mode = true ->
  let m' := Gemini.sane_mode m in
  Gpt4o.sane_mode m = m' /\
  Gemini.set_mode sane_entry false m = (true, m') /\
  Gpt4o.set_mode sane_entry false m = (true, m') /\
  (forall ci, In ci (sane_reached control_info) ->
     get_c_cc (offset ci) m' = to_cc_t (saneval ci)) /\
  (Nat.eqb VMIN VEOF = false -> sane_reached control_info = control_info) /\
  (forall info, In info mode_info -> has_flag info NO_SETATTR = false ->
     at_sane_default info m' = true) /\
  (forall info x, has_flag info NO_SETATTR = true ->
     Gemini.sane_mode_flag x info = x /\ Gpt4o.sane_mode_flag x info = x) /\
  c_line m' = c_line m /\ c_ispeed m' = c_ispeed m /\
  c_ospeed m' = c_ospeed m /\
  Gemini.sane_mode m' = m' /\ Gpt4o.sane_mode (Gpt4o.sane_mode m) = m'.
Proof.
  intros Hm Hcc Hflags m'. subst m'.
  destruct (set_mode_sane m) as [Hg Ho].
  destruct (sane_mode_other m) as (Hl & Hi & Hos).
  split; [apply gpt4o_sane_mode_same |].
  split; [exact Hg |].
  split; [now rewrite Ho, gpt4o_sane_mode_same |].
  split; [intros ci; now apply sane_mode_control_chars |].
  split; [apply sane_reached_all |].
  split; [intros info; now apply sane_mode_defaults |].
  split.
  { intros info x Hno. rewrite gpt4o_sane_mode_flag_same.
    unfold Gemini.sane_mode_flag. unfold has_flag in Hno. now rewrite Hno. }
  repeat (split; [assumption |]).
  split; [now apply sane_mode_idempotent |].
  rewrite !gpt4o_sane_mode_same. now apply sane_mode_idempotent.
Qed.

Lemma sane_resets_to_defaults_witness :
  (@cc_registry_ok linux = true /\
   @flags_registry_ok linux (@Gemini.sane_mode linux) = true /\
   @cc_registry_ok freebsd = true /\
   @flags_registry_ok freebsd (@Gemini.sane_mode freebsd) = true) /\
  let m' := @Gemini.sane_mode linux linux_login in
  @Gpt4o.sane_mode linux linux_login = m' /\
  at_sane_default linux_icanon m' = true /\
  get_c_cc (@VINTR linux) m' = CINTR /\
  @Gemini.sane_mode linux m' = m'.
Proof.
  split; [repeat split; vm_compute; reflexivity |].
  assert (Hs : @wf_termios linux linux_login).
  { unfold wf_termios, is_tcflag. simpl.
    repeat split; try lia; try reflexivity.
    repeat constructor; unfold is_cc; lia. }
  destruct (@sane_resets_to_defaults linux linux_login Hs eq_refl eq_refl)
    as (Hsame & _ & _ & Hcc & _ & Hdef & _ & _ & _ & _ & Hidem & _).
  split; [exact Hsame |].
  split; [apply Hdef; [| reflexivity]; simpl; tauto |].
  split; [| exact Hidem].
  apply (Hcc (Ctl "intr" CINTR (@VINTR linux))). simpl. tauto.
Defined.

(** C4 as it is written fails on a platform with TIOCEXT: the entry
    "extproc" is flagged unset-by-default and NO_SETATTR there, and
    "sane" of either draft passes it over, so a snapshot with EXTPROC
    set keeps it. *)
Lemma sane_passes_over_extproc :
  In freebsd_extproc_entry (@mode_info freebsd) /\
  has_flag freebsd_extproc_entry SANE_UNSET = true /\
  Z.land (c_lflag (@Gemini.sane_mode freebsd freebsd_extproc)) 0x800 = 0x800 /\
  Z.land (c_lflag (@Gpt4o.sane_mode freebsd freebsd_extproc)) 0x800 = 0x800 /\
  at_sane_default freebsd_extproc_entry
    (@Gemini.sane_mode freebsd freebsd_extproc) = false /\
  at_sane_default freebsd_extproc_entry
    (@Gpt4o.sane_mode freebsd freebsd_extproc) = false.
Proof.
  split; [vm_compute; tauto |].
  repeat split; vm_compute; reflexivity.
Qed.
(** ** C3: negated tokens *)

Lemma STREQ_false a b : a <> b -> STREQ a b = false.
Proof. intros H. unfold STREQ. now apply String.eqb_neq. Qed.

Section Negated.
Context `{P : platform} `{X : externals}.
Variables (checking : bool) (device_name : string) (r : string).
Variables (rest : list (option string)) (st : Gemini.pstate) (w : world).
Hypothesis Hdrain : r <> "drain".

Lemma gemini_negated_unknown :
  find (fun info => STREQ r (name info)) mode_info = None ->
  Gemini.apply_one checking device_name (String "-" r) rest st w
  = fatal_invalid_argument (String "-" r) w.
Proof.
  intros Hfind. unfold Gemini.apply_one. cbn [hd_c tl_c].
  change (Ascii.eqb "-" "-") with true. cbv iota.
  rewrite (STREQ_false _ _ Hdrain), Hfind. reflexivity.
Qed.

Lemma gpt4o_negated_unknown :
  find (fun info => STREQ r (name info)) mode_info = None ->
  Gpt4o.apply_one checking device_name (String "-" r) rest st w
  = fatal_invalid_argument (String "-" r) w.
Proof.
  intros Hfind. unfold Gpt4o.apply_one. cbn [hd_c tl_c].
  change (Ascii.eqb "-" "-") with true. cbv iota.
  rewrite (STREQ_false _ _ Hdrain), Hfind. reflexivity.
Qed.

Lemma gpt4o_negated_irreversible info :
  find (fun info => STREQ r (name info)) mode_info = Some info ->
  has_flag info NO_SETATTR = false -> has_flag info REV = false ->
  Gpt4o.apply_one checking device_name (String "-" r) rest st w
  = fatal_invalid_argument (String "-" r) w.
Proof.
  intros Hfind Hno Hrev. unfold Gpt4o.apply_one. cbn [hd_c tl_c].
  change (Ascii.eqb "-" "-") with true. cbv iota.
  rewrite (STREQ_false _ _ Hdrain), Hfind.
  unfold has_flag in Hno, Hrev.
  apply negb_false_iff in Hno. apply negb_false_iff in Hrev.
  rewrite Hno. unfold Gpt4o.set_mode. rewrite Hrev. reflexivity.
Qed.

(** The draft of gemini drops what [set_mode] returns: the token is
    passed without a diagnostic, the snapshot stays, and the attributes
    are marked for setting. *)
Lemma gemini_negated_irreversible info :
  find (fun info => STREQ r (name info)) mode_info = Some info ->
  has_flag info NO_SETATTR = false -> has_flag info REV = false ->
  Gemini.apply_one checking device_name (String "-" r) rest st w
  = Ret (false, (fst st, true)) w.
Proof.
  intros Hfind Hno Hrev. unfold Gemini.apply_one. cbn [hd_c tl_c].
  change (Ascii.eqb "-" "-") with true. cbv iota.
  rewrite (STREQ_false _ _ Hdrain), Hfind.
  unfold has_flag in Hno, Hrev.
  apply negb_false_iff in Hno. apply negb_false_iff in Hrev.
  rewrite Hno. unfold Gemini.set_mode. rewrite Hrev. reflexivity.
Qed.

End Negated.

(** *** The checking pass of main

    A first setting that the validation-only pass of [apply_settings]
    dies on ends the program there: [main] has made no device call yet. *)
Section CheckingPass.
Context `{P : platform} `{X : externals}.
Variables (f : option string) (prog : option string) (arg0 : string).
Variables (rest : list (option string)) (w w' : world) (status : Z).

Lemma gemini_main_checking_exit :
  Gemini.apply_one true (device_name_of f) arg0 rest (zero_termios, false) w
    = Exit status w' ->
  Gemini.main (settings_run f) (prog :: Some arg0 :: rest) w = Exit status w'.
Proof.
  intros H. unfold Gemini.main, Gemini.apply_settings. simpl.
  unfold when, bind at 1 2 3 4. simpl.
  unfold device_name_of in H. unfold bind at 1. rewrite H. reflexivity.
Qed.

Lemma gpt4o_main_checking_exit :
  Gpt4o.apply_one true (device_name_of f) arg0 rest (zero_termios, false) w
    = Exit status w' ->
  Gpt4o.main (settings_run f) (prog :: Some arg0 :: rest) w = Exit status w'.
Proof.
  intros H. unfold Gpt4o.main, Gpt4o.apply_settings. simpl.
  unfold when, bind at 1 2 3 4. simpl.
  unfold device_name_of in H. unfold bind at 1 2. rewrite H. reflexivity.
Qed.

End CheckingPass.

(** C3.  A token that begins with '-', other than "-drain" (which the
    loop takes before it looks at the registry), whose remainder is the
    name of no entry of the flag registry is a fatal error in both
    drafts: "invalid argument" with the token as typed, the hint of
    [usage], and the exit with a failure status; [main] made no device
    call by then.  For a remainder that names an entry which is not
    reversible (and is set through tcsetattr), [set_mode] of both drafts
    returns false and changes nothing; the draft of gpt-4o takes the
    value as [match_found] and ends in the same fatal error, while the
    draft of gemini drops the value: there the token passes without a
    diagnostic, the snapshot is unchanged and marked for tcsetattr. *)
Theorem negated_token_rejected `{P : platform} `{X : externals}
    (r : string) (f prog : option string) (rest : list (option string))
    (w : world) :
  r <> "drain" ->
  (find (fun info => STREQ r (name info)) mode_info = None ->
     (forall checking device_name st,
        Gemini.apply_one checking device_name (String "-" r) rest st w
          = fatal_invalid_argument (String "-" r) w /\
        Gpt4o.apply_one checking device_name (String "-" r) rest st w
          = fatal_invalid_argument (String "-" r) w) /\
     Gemini.main (settings_run f) (prog :: Some (String "-" r) :: rest) w
       = fatal_invalid_argument (String "-" r) w /\
     Gpt4o.main (settings_run f) (prog :: Some (String "-" r) :: rest) w
       = fatal_invalid_argument (String "-" r) w) /\
  (forall info,
     find (fun info => STREQ r (name info)) mode_info = Some info ->
     has_flag info NO_SETATTR = false -> has_flag info REV = false ->
     (forall m, Gemini.set_mode info true m = (false, m) /\
                Gpt4o.set_mode info true m = (false, m)) /\
     (forall checking device_name st,
        Gpt4o.apply_one checking device_name (String "-" r) rest st w
          = fatal_invalid_argument (String "-" r) w /\
        Gemini.apply_one checking device_name (String "-" r) rest st w
          = Ret (false, (fst st, true)) w) /\
     Gpt4o.main (settings_run f) (prog :: Some (String "-" r) :: rest) w
       = fatal_invalid_argument (String "-" r) w) /\
  calls (put_err emit_try_help
           (put_err ("invalid argument " +:+ quote (String "-" r)) w))
    = calls w.
Proof.
  intros Hdrain. split; [| split].
  - intros Hfind. split; [| split].
    + intros checking device_name st.
      split; [now apply gemini_negated_unknown | now apply gpt4o_negated_unknown].
    + apply gemini_main_checking_exit. now apply gemini_negated_unknown.
    + apply gpt4o_main_checking_exit. now apply gpt4o_negated_unknown.
  - intros info Hfind Hno Hrev. split; [| split].
    + intros m. pose proof Hrev as Hrev'. unfold has_flag in Hrev'.
      apply negb_false_iff in Hrev'.
      unfold Gemini.set_mode, Gpt4o.set_mode. rewrite Hrev'. now split.
    + intros checking device_name st. split.
      * now apply (gpt4o_negated_irreversible checking device_name r rest st w
                     Hdrain info).
      * now apply (gemini_negated_irreversible checking device_name r rest st w
                     Hdrain info).
    + apply gpt4o_main_checking_exit.
      now apply (gpt4o_negated_irreversible true _ r rest _ w Hdrain info).
  - reflexivity.
Qed.

(** "-bogus" in both drafts, and "-cs8" (an entry without REV): fatal in
    the draft of gpt-4o, passed by the draft of gemini. *)
Lemma negated_token_rejected_witness :
  @Gemini.main linux example_env (settings_run None)
    [ Some "stty"; Some "-bogus" ] initial_world
    = @fatal_invalid_argument example_env Z "-bogus" initial_world /\
  @Gpt4o.main linux example_env (settings_run None)
    [ Some "stty"; Some "-bogus" ] initial_world
    = @fatal_invalid_argument example_env Z "-bogus" initial_world /\
  @Gpt4o.main linux example_env (settings_run None)
    [ Some "stty"; Some "-cs8" ] initial_world
    = @fatal_invalid_argument example_env Z "-cs8" initial_world /\
  @Gpt4o.apply_one linux example_env true "standard input" "-cs8" []
    (@zero_termios linux, false) initial_world
    = @fatal_invalid_argument example_env _ "-cs8" initial_world /\
  @Gemini.apply_one linux example_env true "standard input" "-cs8" []
    (@zero_termios linux, false) initial_world
    = Ret (false, (@zero_termios linux, true)) initial_world.
Proof.
  assert (Hb : "bogus" <> "drain") by discriminate.
  assert (Hc : "cs8" <> "drain") by discriminate.
  destruct (@negated_token_rejected linux example_env "bogus" None
              (Some "stty") [] initial_world Hb) as (Hun & _ & _).
  destruct (Hun eq_refl) as (_ & Hg & Ho).
  destruct (@negated_token_rejected linux example_env "cs8" None
              (Some "stty") [] initial_world Hc) as (_ & Hirr & _).
  destruct (Hirr linux_cs8 eq_refl eq_refl eq_refl) as (_ & Hone & Ho').
  destruct (Hone true "standard input" (@zero_termios linux, false))
    as (Ho1 & Hg1).
  exact (conj Hg (conj Ho (conj Ho' (conj Ho1 Hg1)))).
Defined.

(** Why "-drain" is set apart: both drafts test the remainder against
    "drain" before they look at the registry, and take the token as the
    switch for the timing of tcsetattr. *)
Lemma minus_drain_is_no_error :
  let st := (@zero_termios linux, false) in
  find (fun info => STREQ "drain" (name info)) (@mode_info linux) = None /\
  @Gemini.apply_one linux example_env true "standard input" "-drain" [] st
     initial_world
    = Ret (false, st) (set_tcsetattr_options TCSANOW initial_world) /\
  @Gpt4o.apply_one linux example_env true "standard input" "-drain" [] st
     initial_world
    = Ret (false, st) (set_tcsetattr_options TCSANOW initial_world).
Proof.
  repeat split; reflexivity.
Qed.

(** The whole validation pass of the draft of gemini at "-cs8": it
    returns, and nothing is written to standard error. *)
Lemma gemini_passes_minus_cs8 :
  @Gemini.apply_settings linux example_env true "standard input"
    [ Some "stty"; Some "-cs8" ] (@zero_termios linux, false) initial_world
  = Ret (@zero_termios linux, true) initial_world.
Proof. reflexivity. Qed.
(** ** C9: a recoverable token with too few fields *)

(** *** The draft of gemini needs a colon for every field but the last *)

Lemma colons_tl p : hd_c p = ":"%char -> colons p = S (colons (tl_c p)).
Proof. destruct p as [| c r]; simpl; [discriminate | now intros ->]. Qed.

Lemma colons_skip_space s : (colons (skip_space s) <= colons s)%nat.
Proof.
  induction s as [| c r IH]; simpl; [lia |].
  destruct (c_isspace c); simpl; lia.
Qed.

Lemma colons_scan_digits base s : forall acc,
  (colons (snd (scan_digits base s acc)) <= colons s)%nat.
Proof.
  induction s as [| c r IH]; intros acc; simpl; [lia |].
  destruct (digit_value c) as [d |]; simpl; [| lia].
  destruct (d <? base); simpl; [| lia].
  specialize (IH (acc * base + d)). lia.
Qed.

(** The end pointer of [strtoul] lies within the string. *)
Lemma colons_strtoul s base : (colons (endp (strtoul s base)) <= colons s)%nat.
Proof.
  unfold strtoul. pose proof (colons_skip_space s) as Hsp.
  set (s1 := skip_space s) in *.
  assert (Hsign : forall neg s2,
    (neg, s2) = match s1 with
                | String "-"%char r => (true, r)
                | String "+"%char r => (false, r)
                | _ => (false, s1)
                end -> (colons s2 <= colons s1)%nat).
  { intros neg s2 H. destruct s1 as [| c r]; [inversion H; lia |].
    destruct (Ascii.eqb_spec c "-") as [-> | Hm];
      [inversion H; simpl; lia |].
    destruct (Ascii.eqb_spec c "+") as [-> | Hp];
      [inversion H; simpl; lia |].
    assert (H' : (neg, s2) = (false, String c r)).
    { rewrite H. destruct c as [[] [] [] [] [] [] [] []]; try reflexivity;
        congruence. }
    inversion H'. lia. }
  destruct (match s1 with
            | String "-"%char r => (true, r)
            | String "+"%char r => (false, r)
            | _ => (false, s1)
            end) as [neg s2] eqn:E.
  specialize (Hsign neg s2 eq_refl).
  set (s3 := match s2 with
             | String "0"%char (String x r) =>
                 if (base =? 16) && (Ascii.eqb x "x" || Ascii.eqb x "X")
                    && is_digit_in 16 (hd_c r)
                 then r else s2
             | _ => s2
             end).
  assert (H3 : (colons s3 <= colons s2)%nat).
  { subst s3. destruct s2 as [| c [| x r]]; [lia | |].
    - destruct c as [[] [] [] [] [] [] [] []]; simpl; lia.
    - destruct (Ascii.eqb_spec c "0") as [-> | H0].
      + destruct ((base =? 16) && (Ascii.eqb x "x" || Ascii.eqb x "X")
                  && is_digit_in 16 (hd_c r)); simpl; lia.
      + destruct c as [[] [] [] [] [] [] [] []]; try congruence; simpl; lia. }
  destruct (is_digit_in base (hd_c s3)); [| simpl; lia].
  pose proof (colons_scan_digits base s3 0) as Hscan.
  destruct (scan_digits base s3 0) as [v rest]. simpl in Hscan.
  destruct (v >? ULONG_MAX); simpl; lia.
Qed.

Section TooFew.
Context `{P : platform}.

Lemma gemini_flag_takes_colon s v p :
  Gemini.strtoul_tcflag_t s 16 ":" = Some (v, p) ->
  (colons (tl_c p) < colons s)%nat.
Proof.
  unfold Gemini.strtoul_tcflag_t. pose proof (colons_strtoul s 16) as Hle.
  destruct (noconv (strtoul s 16)); simpl; [discriminate |].
  destruct (Ascii.eqb_spec (hd_c (endp (strtoul s 16))) ":") as [Hd | Hd];
    simpl; [| discriminate].
  destruct (negb (errno (strtoul s 16) =? 0)
            || negb (to_tcflag_t (ul (strtoul s 16)) =? ul (strtoul s 16)));
    [discriminate |].
  intros H. inversion H; subst. rewrite (colons_tl _ Hd) in Hle. lia.
Qed.

Lemma gemini_cc_takes_colon s v p :
  Gemini.strtoul_cc_t s 16 ":" = Some (v, p) ->
  (colons (tl_c p) < colons s)%nat.
Proof.
  unfold Gemini.strtoul_cc_t. pose proof (colons_strtoul s 16) as Hle.
  destruct (noconv (strtoul s 16)); [discriminate |].
  destruct (negb (errno (strtoul s 16) =? 0)); [discriminate |].
  destruct (Ascii.eqb_spec (hd_c (endp (strtoul s 16))) ":") as [Hd | Hd];
    simpl; [| discriminate].
  destruct (negb (to_cc_t (ul (strtoul s 16)) =? ul (strtoul s 16)));
    [discriminate |].
  intros H. inversion H; subst. rewrite (colons_tl _ Hd) in Hle. lia.
Qed.

Lemma gemini_recover_flags_colons ws : forall s m s' m',
  Gemini.recover_flags ws s m = (Some s', m') ->
  (colons s' + length ws <= colons s)%nat.
Proof.
  induction ws as [| wd ws IH]; intros s m s' m' H; simpl in *.
  - inversion H. lia.
  - destruct (Gemini.strtoul_tcflag_t s 16 ":") as [[v p] |] eqn:E;
      [| discriminate].
    apply gemini_flag_takes_colon in E. apply IH in H. lia.
Qed.

Lemma gemini_recover_cc_colons n : forall k s m,
  (k + n = NCCS)%nat -> (colons s + 1 < n)%nat ->
  fst (Gemini.recover_cc (seq k n) s m) = false.
Proof.
  induction n as [| n IH]; intros k s m Hk Hc; [lia |].
  cbn [seq Gemini.recover_cc].
  destruct (Nat.ltb_spec k (NCCS - 1)) as [_ | Hge]; [| lia].
  destruct (Gemini.strtoul_cc_t s 16 ":") as [[v p] |] eqn:E; [| reflexivity].
  apply gemini_cc_takes_colon in E. apply IH; lia.
Qed.

(** With fewer than [4 + NCCS] fields the draft of gemini returns
    false. *)
Lemma gemini_rejects_too_few_fields arg m :
  (colons arg + 1 < 4 + NCCS)%nat -> fst (Gemini.recover_mode arg m) = false.
Proof.
  intros H. unfold Gemini.recover_mode.
  destruct (Gemini.recover_flags [W_iflag; W_oflag; W_cflag; W_lflag] arg m)
    as [[s' |] m'] eqn:E; [| reflexivity].
  apply gemini_recover_flags_colons in E. simpl in E.
  apply gemini_recover_cc_colons; lia.
Qed.

End TooFew.

(** C9.  A token with fewer than [4 + NCCS] fields makes [recover_mode]
    of the draft of gemini return false, and "7:7:7" does so in both
    drafts.  A token with five fields is not answered by the draft of
    gpt-4o: its [parse_cc] takes the end of the string for the colon,
    steps behind it, and the next turn of the loop reads what lies
    behind the argument. *)
Theorem recover_mode_too_few_fields `{P : platform} (m : struct_termios) :
  (2 <= NCCS)%nat ->
  (forall arg, (colons arg + 1 < 4 + NCCS)%nat ->
     fst (Gemini.recover_mode arg m) = false) /\
  fst (Gemini.recover_mode "7:7:7" m) = false /\
  option_map fst (Gpt4o.recover_mode "7:7:7" m) = Some false /\
  fst (Gemini.recover_mode "7:7:7:7:7" m) = false /\
  Gpt4o.recover_mode "7:7:7:7:7" m = None.
Proof.
  intros H. split; [intros arg; apply gemini_rejects_too_few_fields |].
  destruct P. simpl in H.
  repeat match goal with
         | n : nat |- _ =>
             match type of H with
             | (2 <= n)%nat => destruct n as [| [| n]]; [lia | lia |]
             end
         end.
  repeat split; vm_compute; reflexivity.
Qed.

Lemma recover_mode_too_few_fields_witness :
  fst (@Gemini.recover_mode linux "500:5:bf:8a3b:3:1c:7f:15:4:0:1:0:11:13"
         (@zero_termios linux)) = false /\
  fst (@Gemini.recover_mode linux "7:7:7" (@zero_termios linux)) = false /\
  option_map fst (@Gpt4o.recover_mode linux "7:7:7" (@zero_termios linux))
    = Some false /\
  fst (@Gemini.recover_mode linux "7:7:7:7:7" (@zero_termios linux)) = false /\
  @Gpt4o.recover_mode linux "7:7:7:7:7" (@zero_termios linux) = None.
Proof.
  assert (H : (2 <= @NCCS linux)%nat) by (simpl; lia).
  destruct (@recover_mode_too_few_fields linux (@zero_termios linux) H)
    as (Hall & H3).
  split; [apply Hall; simpl; lia | exact H3].
Defined.

(** The whole program on these tokens.  "7:7:7" ends both drafts in the
    validation-only pass, with the diagnostic and before any device
    call; "7:7:7:7:7" does so in the draft of gemini, and leaves the
    draft of gpt-4o reading behind its argument. *)
Lemma too_few_fields_main :
  @Gemini.main linux example_env (settings_run None)
    [ Some "stty"; Some "7:7:7" ] initial_world
    = @fatal_invalid_argument example_env Z "7:7:7" initial_world /\
  @Gpt4o.main linux example_env (settings_run None)
    [ Some "stty"; Some "7:7:7" ] initial_world
    = @fatal_invalid_argument example_env Z "7:7:7" initial_world /\
  calls (@fatal_invalid_argument_world example_env "7:7:7" initial_world) = [] /\
  @Gemini.main linux example_env (settings_run None)
    [ Some "stty"; Some "7:7:7:7:7" ] initial_world
    = @fatal_invalid_argument example_env Z "7:7:7:7:7" initial_world /\
  @Gpt4o.main linux example_env (settings_run None)
    [ Some "stty"; Some "7:7:7:7:7" ] initial_world
    = Undefined initial_world.
Proof. repeat split; vm_compute; reflexivity. Qed.
(** * Further properties of the sources *)

(** ** The mutation engine *)

Lemma Forall_ifdef {A B} (Q : B -> Prop) (c : option A) (f : A -> list B) :
  (forall v, List.Forall Q (f v)) -> List.Forall Q (ifdef c f).
Proof. destruct c; simpl; auto. Qed.

(** A property of every entry of a table that is written out in pieces:
    [entry] settles one entry.  A condition of the table is decided
    where its piece is reached, in the property as well. *)
Ltac table_forall entry :=
  repeat first
    [ solve [ repeat (constructor; [ entry | ]); constructor ]
    | match goal with
      | |- List.Forall _ (_ ++ _) => apply List.Forall_app; split
      | |- List.Forall _ (ifdef ?c _) => destruct c; cbn [ifdef]
      | |- List.Forall _ (match ?c with _ => _ end) => destruct c
      | |- List.Forall _ (if ?c then _ else _) => destruct c
      end ].

(** Decide the conditions that are left in a goal. *)
Ltac decide_conditions :=
  repeat match goal with
         | |- context [ifdef ?c _] => destruct c; cbn [ifdef]
         | |- context [if ?c then _ else _] => destruct c
         end.

Section Handlers.
Context `{P : platform}.

(** Every combination of the registry has its handler in both drafts. *)
Lemma combination_entries_handled m reversed :
  List.Forall (fun info =>
    type info = combination ->
    (exists h, find (fun h => STREQ (name info) (fst h)) Gemini.combination_modes
               = Some h) /\
    fst (Gpt4o.apply_combination_mode info m reversed) = true) mode_info.
Proof.
  unfold mode_info, Gemini.combination_modes.
  table_forall ltac:(intros Ht; cbn in Ht;
                     first [ discriminate Ht
                           | split; [ decide_conditions; eexists; reflexivity
                                    | reflexivity ] ]).
Qed.

Lemma gemini_set_mode_result info reversed m :
  fst (Gemini.set_mode info reversed m) = negb (refused info reversed).
Proof.
  unfold Gemini.set_mode, refused, has_flag. rewrite negb_involutive.
  destruct (reversed && (Z.land (flags info) REV =? 0)); [reflexivity |].
  destruct (mode_type_flag (type info)); [now destruct reversed |].
  now destruct (find _ _).
Qed.

Lemma set_mode_refused info m :
  has_flag info REV = false ->
  Gemini.set_mode info true m = (false, m) /\
  Gpt4o.set_mode info true m = (false, m).
Proof.
  unfold has_flag. intros H. apply negb_false_iff in H.
  unfold Gemini.set_mode, Gpt4o.set_mode. now rewrite H.
Qed.

End Handlers.

(** X1.  For every entry of the registry, [set_mode] of both drafts
    returns false exactly when the entry is negated and not reversible,
    and then leaves the snapshot alone; every combination of the registry
    has a handler, so that none is passed over in silence. *)
Theorem set_mode_refuses_only_irreversible `{P : platform}
    (info : struct_mode_info) (reversed : bool) (m : struct_termios) :
  In info mode_info ->
  fst (Gemini.set_mode info reversed m) = negb (refused info reversed) /\
  fst (Gpt4o.set_mode info reversed m) = negb (refused info reversed) /\
  (refused info reversed = true ->
     Gemini.set_mode info reversed m = (false, m) /\
     Gpt4o.set_mode info reversed m = (false, m)) /\
  (type info = combination ->
     exists h, find (fun h => STREQ (name info) (fst h)) Gemini.combination_modes
               = Some h).
Proof.
  intros Hin.
  pose proof (proj1 (List.Forall_forall _ _)
                (combination_entries_handled m reversed) info Hin) as Hcomb.
  split; [apply gemini_set_mode_result |].
  split; [| split].
  - unfold Gpt4o.set_mode, refused, has_flag. rewrite negb_involutive.
    destruct (reversed && (Z.land (flags info) REV =? 0)); [reflexivity |].
    destruct (type info) eqn:Ht; simpl; try now destruct reversed.
    now apply Hcomb.
  - unfold refused. intros H. apply andb_prop in H. destruct H as [-> H].
    apply negb_true_iff in H. now apply set_mode_refused.
  - intros Ht. now apply Hcomb.
Qed.

Lemma set_mode_refuses_only_irreversible_witness :
  fst (@Gpt4o.set_mode linux sane_entry true (@zero_termios linux)) = false /\
  fst (@Gpt4o.set_mode linux raw_entry true (@zero_termios linux)) = true /\
  fst (@Gemini.set_mode linux linux_cs8 true (@zero_termios linux)) = false.
Proof.
  destruct (@set_mode_refuses_only_irreversible linux sane_entry true
              (@zero_termios linux) sane_in_registry) as (_ & H1 & _).
  destruct (@set_mode_refuses_only_irreversible linux raw_entry true
              (@zero_termios linux) raw_in_registry) as (_ & H2 & _).
  assert (Hcs8 : In linux_cs8 (@mode_info linux)) by (simpl; tauto).
  destruct (@set_mode_refuses_only_irreversible linux linux_cs8 true
              (@zero_termios linux) Hcs8) as (H3 & _).
  exact (conj H1 (conj H2 H3)).
Defined.

(** *** Setting and testing a flag *)

Section SetAndTest.
Context `{P : platform}.
Variables (info : struct_mode_info) (wd : flag_word) (m : struct_termios).
Hypothesis Hwd : mode_type_flag (type info) = Some wd.

Lemma gemini_set_mode_plain_eq reversed :
  refused info reversed = false ->
  Gemini.set_mode info reversed m
  = (true, if reversed then clear_bits wd (mask info .| bits info) m
           else replace_bits wd (mask info) (bits info) m).
Proof.
  unfold refused, has_flag, Gemini.set_mode. rewrite negb_involutive, Hwd.
  intros ->. now destruct reversed.
Qed.

Lemma gpt4o_set_mode_plain_eq reversed :
  refused info reversed = false ->
  Gpt4o.set_mode info reversed m
  = (true, if reversed then clear_bits wd (mask info .| bits info) m
           else replace_bits wd (mask info) (bits info) m).
Proof.
  unfold refused, has_flag, Gpt4o.set_mode. rewrite negb_involutive, Hwd.
  intros ->. destruct reversed; [| reflexivity].
  unfold clear_bits. now rewrite Z.lnot_lor.
Qed.

Lemma replaced_bits_match :
  is_tcflag (bits info) -> Z.land (bits info) (effective_mask info) = bits info ->
  Z.land (load wd (replace_bits wd (mask info) (bits info) m))
         (effective_mask info) = bits info.
Proof.
  intros Hb Hsub. rewrite load_replace_bits. unfold effective_mask in *.
  destruct (Z.eqb_spec (mask info) 0) as [E | E].
  - rewrite E. bitwise_eq.
    pose proof (testbit_tcflag_high _ i Hb) as Hhi.
    split_lt32 i; [bit_cases | now rewrite Hhi by lia].
  - bitwise_eq. bit_of Hsub i.
    pose proof (testbit_tcflag_high _ i Hb) as Hhi.
    split_lt32 i; [bit_cases |].
    rewrite Hhi by lia. reflexivity.
Qed.

Lemma cleared_bits_gone :
  Z.land (load wd (clear_bits wd (mask info .| bits info) m))
         (mask info .| bits info) = 0.
Proof. rewrite load_clear_bits. bitwise_eq. split_lt32 i; bit_cases. Qed.

Lemma cleared_bits_under_mask :
  Z.land (load wd (clear_bits wd (mask info .| bits info) m))
         (effective_mask info) = 0.
Proof.
  rewrite load_clear_bits. unfold effective_mask.
  destruct (mask info =? 0); bitwise_eq; split_lt32 i; bit_cases.
Qed.

End SetAndTest.

Lemma store_twice_eq wd v v' m :
  to_tcflag_t v' = to_tcflag_t v -> store wd v' (store wd v m) = store wd v m.
Proof. intros H. destruct wd; simpl; now rewrite H. Qed.

Lemma clear_bits_twice wd v m :
  clear_bits wd v (clear_bits wd v m) = clear_bits wd v m.
Proof.
  unfold clear_bits at 1. rewrite load_clear_bits. unfold clear_bits.
  apply store_twice_eq. bitwise_eq. split_lt32 i; bit_cases.
Qed.

Lemma replace_bits_twice wd k b m :
  replace_bits wd k b (replace_bits wd k b m) = replace_bits wd k b m.
Proof.
  unfold replace_bits at 1. rewrite load_replace_bits. unfold replace_bits.
  apply store_twice_eq. bitwise_eq. split_lt32 i; bit_cases.
Qed.

Lemma or_bits_twice wd v m : or_bits wd v (or_bits wd v m) = or_bits wd v m.
Proof.
  unfold or_bits at 1. rewrite load_or_bits. unfold or_bits.
  apply store_twice_eq. bitwise_eq. split_lt32 i; bit_cases.
Qed.

(** X2.  Setting a flag entry and testing it agree.  After [set_mode]
    has applied an entry that is not a combination, the test of the
    display routines ([(word & mask) == bits], with the bits for a zero
    mask) holds; after it has applied the entry negated, every bit of the
    entry is clear and the test fails.  The bits of the entry fit
    [tcflag_t], are not all zero, and lie within its mask where it has
    one. *)
Theorem set_mode_then_test `{P : platform}
    (info : struct_mode_info) (wd : flag_word) (m : struct_termios) :
  mode_type_flag (type info) = Some wd ->
  is_tcflag (bits info) ->
  Z.land (bits info) (effective_mask info) = bits info ->
  (forall m', m' = snd (Gemini.set_mode info false m) \/
              m' = snd (Gpt4o.set_mode info false m) ->
     bits_match info wd m' = true) /\
  (has_flag info REV = true -> bits info <> 0 ->
   forall m', m' = snd (Gemini.set_mode info true m) \/
              m' = snd (Gpt4o.set_mode info true m) ->
     Z.land (load wd m') (mask info .| bits info) = 0 /\
     bits_match info wd m' = false).
Proof.
  intros Hwd Hb Hsub. split.
  - intros m' Hm'.
    assert (E : m' = replace_bits wd (mask info) (bits info) m).
    { destruct Hm' as [-> | ->];
        [rewrite (gemini_set_mode_plain_eq info wd m Hwd false)
        |rewrite (gpt4o_set_mode_plain_eq info wd m Hwd false)];
        reflexivity. }
    subst m'. unfold bits_match. fold (effective_mask info).
    rewrite replaced_bits_match by assumption. apply Z.eqb_refl.
  - intros Hrev Hne m' Hm'.
    assert (Hnot : refused info true = false)
      by (unfold refused; now rewrite Hrev).
    assert (E : m' = clear_bits wd (mask info .| bits info) m).
    { destruct Hm' as [-> | ->];
        [rewrite (gemini_set_mode_plain_eq info wd m Hwd true Hnot)
        |rewrite (gpt4o_set_mode_plain_eq info wd m Hwd true Hnot)];
        reflexivity. }
    subst m'. split; [apply cleared_bits_gone |].
    unfold bits_match. fold (effective_mask info).
    rewrite cleared_bits_under_mask. apply Z.eqb_neq. congruence.
Qed.

Lemma set_mode_then_test_witness :
  bits_match linux_icanon W_lflag
    (snd (@Gemini.set_mode linux linux_icanon false (@zero_termios linux)))
    = true /\
  bits_match linux_icanon W_lflag
    (snd (@Gpt4o.set_mode linux linux_icanon true linux_cooked_flags)) = false.
Proof.
  assert (Hb : is_tcflag (bits linux_icanon))
    by (unfold is_tcflag; simpl; lia).
  destruct (@set_mode_then_test linux linux_icanon W_lflag (@zero_termios linux)
              eq_refl Hb eq_refl) as [Hset _].
  destruct (@set_mode_then_test linux linux_icanon W_lflag linux_cooked_flags
              eq_refl Hb eq_refl) as [_ Hclear].
  split; [apply Hset; now left |].
  apply (Hclear eq_refl); [discriminate | now right].
Defined.

(** X3.  Applying a flag entry twice is applying it once, negated or
    not, in both drafts. *)
Theorem set_mode_plain_idempotent `{P : platform}
    (info : struct_mode_info) (reversed : bool) (m : struct_termios) :
  type info <> combination ->
  Gemini.set_mode info reversed (snd (Gemini.set_mode info reversed m))
    = Gemini.set_mode info reversed m /\
  Gpt4o.set_mode info reversed (snd (Gpt4o.set_mode info reversed m))
    = Gpt4o.set_mode info reversed m.
Proof.
  intros Hplain. destruct (plain_has_word _ Hplain) as [wd Hwd].
  destruct (refused info reversed) eqn:Href.
  - unfold refused in Href. apply andb_prop in Href. destruct Href as [-> Href].
    apply negb_true_iff in Href.
    destruct (set_mode_refused info m Href) as [-> ->]. simpl.
    now destruct (set_mode_refused info m Href) as [-> ->].
  - rewrite !(gemini_set_mode_plain_eq info wd _ Hwd reversed Href).
    rewrite !(gpt4o_set_mode_plain_eq info wd _ Hwd reversed Href).
    cbn [snd].
    destruct reversed; [rewrite clear_bits_twice | rewrite replace_bits_twice];
      split; reflexivity.
Qed.

Lemma set_mode_plain_idempotent_witness :
  @Gemini.set_mode linux linux_icrnl true
    (snd (@Gemini.set_mode linux linux_icrnl true linux_cooked_flags))
  = @Gemini.set_mode linux linux_icrnl true linux_cooked_flags.
Proof.
  apply (@set_mode_plain_idempotent linux linux_icrnl true linux_cooked_flags).
  discriminate.
Defined.

(** ** Tokens that name a flag entry *)

Lemma find_app_none {A} (f : A -> bool) l1 l2 :
  find f l1 = None -> find f (l1 ++ l2) = find f l2.
Proof. induction l1 as [| a l IH]; simpl; [easy |]. destruct (f a); easy. Qed.

Lemma find_app_some {A} (f : A -> bool) l1 l2 x :
  find f l1 = Some x -> find f (l1 ++ l2) = Some x.
Proof. induction l1 as [| a l IH]; simpl; [easy |]. destruct (f a); easy. Qed.

Lemma find_ifdef_none {A B} (f : B -> bool) (c : option A) (g : A -> list B) :
  (forall v, find f (g v) = None) -> find f (ifdef c g) = None.
Proof. destruct c; simpl; auto. Qed.

(** A piece of a table that does not hold the name looked for. *)
Ltac none_piece :=
  first
    [ reflexivity
    | apply find_ifdef_none; intros ?; none_piece
    | rewrite find_app_none by none_piece; none_piece
    | match goal with
      | |- find _ (match ?c with _ => _ end) = None => destruct c; none_piece
      | |- find _ (if ?c then _ else _) = None => destruct c; none_piece
      end ].

(** The entry a name stands for in a table written out in pieces. *)
Ltac find_in_table :=
  cbv beta iota;
  repeat (rewrite find_app_none by none_piece);
  first [ reflexivity | apply find_app_some; find_in_table ].

Section TokenSteps.
Context `{P : platform} `{X : externals}.
Variables (checking : bool) (device_name : string).
Variables (rest : list (option string)) (m : struct_termios) (b : bool).
Variable w : world.

(** A token that names a flag entry set through tcsetattr. *)
Lemma gemini_apply_one_flag arg0 info :
  let reversed := Ascii.eqb (hd_c arg0) "-" in
  let arg := if reversed then tl_c arg0 else arg0 in
  STREQ arg "drain" = false ->
  find (fun i => STREQ arg (name i)) mode_info = Some info ->
  has_flag info NO_SETATTR = false ->
  Gemini.apply_one checking device_name arg0 rest (m, b) w
  = Ret (false, (snd (Gemini.set_mode info reversed m), true)) w.
Proof.
  intros reversed arg Hdrain Hfind Hno. unfold Gemini.apply_one.
  fold reversed. fold arg. rewrite Hdrain, Hfind.
  unfold has_flag in Hno. apply negb_false_iff in Hno. rewrite Hno.
  reflexivity.
Qed.

Lemma gpt4o_apply_one_flag arg0 info :
  let reversed := Ascii.eqb (hd_c arg0) "-" in
  let arg := if reversed then tl_c arg0 else arg0 in
  STREQ arg "drain" = false ->
  find (fun i => STREQ arg (name i)) mode_info = Some info ->
  has_flag info NO_SETATTR = false ->
  fst (Gpt4o.set_mode info reversed m) = true ->
  Gpt4o.apply_one checking device_name arg0 rest (m, b) w
  = Ret (false, (snd (Gpt4o.set_mode info reversed m), true)) w.
Proof.
  intros reversed arg Hdrain Hfind Hno Hok. unfold Gpt4o.apply_one.
  fold reversed. fold arg. rewrite Hdrain, Hfind.
  unfold has_flag in Hno. apply negb_false_iff in Hno. rewrite Hno.
  cbn [fst]. destruct (Gpt4o.set_mode info reversed m) as [ok m'].
  simpl in Hok. subst ok. reflexivity.
Qed.

(** A flag entry that is not a combination: what the token does to the
    snapshot is written out. *)
Lemma gemini_apply_one_plain arg0 info wd :
  let reversed := Ascii.eqb (hd_c arg0) "-" in
  let arg := if reversed then tl_c arg0 else arg0 in
  STREQ arg "drain" = false ->
  find (fun i => STREQ arg (name i)) mode_info = Some info ->
  has_flag info NO_SETATTR = false ->
  mode_type_flag (type info) = Some wd ->
  refused info reversed = false ->
  Gemini.apply_one checking device_name arg0 rest (m, b) w
  = Ret (false, ((if reversed then clear_bits wd (mask info .| bits info) m
                  else replace_bits wd (mask info) (bits info) m), true)) w.
Proof.
  intros reversed arg Hdrain Hfind Hno Hwd Href.
  rewrite (gemini_apply_one_flag arg0 info Hdrain Hfind Hno).
  fold reversed. now rewrite (gemini_set_mode_plain_eq info wd m Hwd reversed Href).
Qed.

Lemma gpt4o_apply_one_plain arg0 info wd :
  let reversed := Ascii.eqb (hd_c arg0) "-" in
  let arg := if reversed then tl_c arg0 else arg0 in
  STREQ arg "drain" = false ->
  find (fun i => STREQ arg (name i)) mode_info = Some info ->
  has_flag info NO_SETATTR = false ->
  mode_type_flag (type info) = Some wd ->
  refused info reversed = false ->
  Gpt4o.apply_one checking device_name arg0 rest (m, b) w
  = Ret (false, ((if reversed then clear_bits wd (mask info .| bits info) m
                  else replace_bits wd (mask info) (bits info) m), true)) w.
Proof.
  intros reversed arg Hdrain Hfind Hno Hwd Href.
  pose proof (gpt4o_set_mode_plain_eq info wd m Hwd reversed Href) as Heq.
  assert (Hok : fst (Gpt4o.set_mode info reversed m) = true) by now rewrite Heq.
  rewrite (gpt4o_apply_one_flag arg0 info Hdrain Hfind Hno Hok).
  fold reversed. now rewrite Heq.
Qed.

(** The loop of [apply_settings] goes on behind a token that took no
    argument. *)
Lemma gemini_settings_step arg0 st st' :
  Gemini.apply_one checking device_name arg0 rest st w = Ret (false, st') w ->
  Gemini.apply_settings_from checking device_name (Some arg0 :: rest) st w
  = Gemini.apply_settings_from checking device_name rest st' w.
Proof. intros H. simpl. unfold bind. now rewrite H. Qed.

Lemma gpt4o_settings_step arg0 st st' :
  Gpt4o.apply_one checking device_name arg0 rest st w = Ret (false, st') w ->
  Gpt4o.apply_settings_from checking device_name (Some arg0 :: rest) st w
  = Gpt4o.apply_settings_from checking device_name rest st' w.
Proof. intros H. simpl. unfold bind. now rewrite H. Qed.

End TokenSteps.

(** One token of a command line, in each draft: [Hfind] is the entry
    its name stands for. *)
Ltac gemini_token Hfind :=
  erewrite gemini_settings_step
    by (apply gemini_apply_one_flag; [reflexivity | exact Hfind | reflexivity]).
Ltac gpt4o_token Hfind :=
  erewrite gpt4o_settings_step
    by (apply gpt4o_apply_one_flag;
        [reflexivity | exact Hfind | reflexivity | reflexivity]).

(** Two snapshots that the engine has built from the same one: the
    members are compared one by one, the flag words bit by bit. *)
Ltac closed_tests :=
  repeat match goal with
         | |- context [Z.land ?a ?b =? 0] =>
             let v := eval vm_compute in (Z.land a b =? 0) in
             match v with
             | true => change (Z.land a b =? 0) with true
             | false => change (Z.land a b =? 0) with false
             end
         end.

Ltac table_steps :=
  cbn [name type flags bits mask mode_type_flag fst snd find app STREQ
       String.eqb Ascii.eqb Bool.eqb hd_c tl_c ifdef defined andb orb negb].

Ltac open_constant c :=
  lazymatch c with
  | Some _ => fail
  | None => fail
  | true => fail
  | false => fail
  | _ => destruct c
  end.

Ltac known_constants :=
  repeat match goal with
         | H : None = Some _ |- _ => discriminate H
         | H : ?c = Some _ |- context [?c] => rewrite H; table_steps
         | H : ?c = false |- context [?c] => rewrite H; table_steps
         | |- context [ifdef ?c _] => open_constant c; table_steps
         | |- context [defined ?c] => open_constant c; table_steps
         | |- context [stmt_ifdef ?c _] => open_constant c
         | |- context [stmt_if ?c _] => open_constant c; cbn [stmt_if]
         | |- context [bits_ifdef ?c] => open_constant c
         end.

Ltac unfold_engine :=
  unfold Gemini.set_mode, Gpt4o.set_mode;
  table_steps; closed_tests; table_steps;
  unfold Gemini.combination_modes, Gpt4o.apply_combination_mode;
  table_steps; known_constants; table_steps;
  unfold Gemini.set_parity_mode, Gemini.set_oddp_mode, Gemini.set_nl_mode,
    Gemini.set_cbreak_mode, Gemini.set_pass8_mode, Gemini.set_litout_mode,
    Gemini.handle_raw_mode, Gemini.handle_cooked_mode,
    Gemini.set_raw_cooked_logic, Gemini.set_decctlq_mode,
    Gemini.set_tabs_mode, Gemini.set_lcase_mode, Gemini.set_crt_mode,
    Gemini.set_dec_mode, Gemini.set_ek_mode;
  table_steps; known_constants; table_steps.

Ltac words_eq :=
  bitwise_eq;
  match goal with
  | Hi : 0 <= ?i |- _ =>
      repeat match goal with
             | H : Z.land _ _ = _ |- _ => bit_of H i; clear H
             end;
      destruct (Z.ltb_spec i 32); simpl; bit_cases
  end.

(** The same control characters written twice: the second round
    changes nothing. *)
Ltac cc_writes t :=
  lazymatch t with
  | <[?i := to_cc_t ?a]> ?t' =>
      let r := cc_writes t' in constr:(r ++ [Ctl EmptyString a i])
  | _ => constr:(@nil struct_control_info)
  end.
Ltac cc_base t :=
  lazymatch t with
  | <[_ := _]> ?t' => cc_base t'
  | _ => t
  end.
Ltac cc_twice :=
  match goal with
  | |- _ = ?rhs =>
      let ws := cc_writes rhs in
      let l := cc_base rhs in
      exact (write_sanevals_idempotent ws
               {| c_iflag := 0; c_oflag := 0; c_cflag := 0; c_lflag := 0;
                  c_line := 0; c_cc := l; c_ispeed := 0; c_ospeed := 0 |})
  end.

Ltac snapshot_eq m :=
  unfold_engine; destruct m;
  cbv [block fold_left stmt_ifdef stmt_if bits_ifdef from_option id
       replace_bits clear_bits or_bits Gpt4o.replace_bits2 load store
       set_c_iflag set_c_oflag set_c_cflag set_c_lflag set_c_cc
       c_iflag c_oflag c_cflag c_lflag c_line c_cc c_ispeed c_ospeed];
  f_equal; try reflexivity; first [ cc_twice | words_eq ].

Section Lookup.
Context `{P : platform}.

(** The entries the names of the table stand for; an entry under an
    [#ifdef] is there where the constant is defined. *)
Lemma find_parenb :
  find (fun i => STREQ "parenb" (name i)) mode_info
  = Some (Mode "parenb" control REV PARENB 0).
Proof. unfold mode_info. cbn [defined orb andb]. find_in_table. Qed.

Lemma find_parodd :
  find (fun i => STREQ "parodd" (name i)) mode_info
  = Some (Mode "parodd" control REV PARODD 0).
Proof. unfold mode_info. cbn [defined orb andb]. find_in_table. Qed.

Lemma find_cs7 :
  find (fun i => STREQ "cs7" (name i)) mode_info
  = Some (Mode "cs7" control 0 CS7 CSIZE).
Proof. unfold mode_info. cbn [defined orb andb]. find_in_table. Qed.

Lemma find_cs8 :
  find (fun i => STREQ "cs8" (name i)) mode_info
  = Some (Mode "cs8" control 0 CS8 CSIZE).
Proof. unfold mode_info. cbn [defined orb andb]. find_in_table. Qed.

Lemma find_istrip :
  find (fun i => STREQ "istrip" (name i)) mode_info
  = Some (Mode "istrip" input REV ISTRIP 0).
Proof. unfold mode_info. cbn [defined orb andb]. find_in_table. Qed.

Lemma find_brkint :
  find (fun i => STREQ "brkint" (name i)) mode_info
  = Some (Mode "brkint" input (SANE_SET .| REV) BRKINT 0).
Proof. unfold mode_info. cbn [defined orb andb]. find_in_table. Qed.

Lemma find_ignpar :
  find (fun i => STREQ "ignpar" (name i)) mode_info
  = Some (Mode "ignpar" input REV IGNPAR 0).
Proof. unfold mode_info. cbn [defined orb andb]. find_in_table. Qed.

Lemma find_inlcr :
  find (fun i => STREQ "inlcr" (name i)) mode_info
  = Some (Mode "inlcr" input (SANE_UNSET .| REV) INLCR 0).
Proof. unfold mode_info. cbn [defined orb andb]. find_in_table. Qed.

Lemma find_igncr :
  find (fun i => STREQ "igncr" (name i)) mode_info
  = Some (Mode "igncr" input (SANE_UNSET .| REV) IGNCR 0).
Proof. unfold mode_info. cbn [defined orb andb]. find_in_table. Qed.

Lemma find_icrnl :
  find (fun i => STREQ "icrnl" (name i)) mode_info
  = Some (Mode "icrnl" input (SANE_SET .| REV) ICRNL 0).
Proof. unfold mode_info. cbn [defined orb andb]. find_in_table. Qed.

Lemma find_ixon :
  find (fun i => STREQ "ixon" (name i)) mode_info
  = Some (Mode "ixon" input REV IXON 0).
Proof. unfold mode_info. cbn [defined orb andb]. find_in_table. Qed.

Lemma find_iuclc v :
  IUCLC = Some v ->
  find (fun i => STREQ "iuclc" (name i)) mode_info
  = Some (Mode "iuclc" input (SANE_UNSET .| REV) v 0).
Proof. intros H0. unfold mode_info. rewrite ?H0. cbn [defined orb andb]. find_in_table. Qed.

Lemma find_ixany v :
  IXANY = Some v ->
  find (fun i => STREQ "ixany" (name i)) mode_info
  = Some (Mode "ixany" input (SANE_UNSET .| REV) v 0).
Proof. intros H0. unfold mode_info. rewrite ?H0. cbn [defined orb andb]. find_in_table. Qed.

Lemma find_opost :
  find (fun i => STREQ "opost" (name i)) mode_info
  = Some (Mode "opost" output (SANE_SET .| REV) OPOST 0).
Proof. unfold mode_info. cbn [defined orb andb]. find_in_table. Qed.

Lemma find_olcuc v :
  OLCUC = Some v ->
  find (fun i => STREQ "olcuc" (name i)) mode_info
  = Some (Mode "olcuc" output (SANE_UNSET .| REV) v 0).
Proof. intros H0. unfold mode_info. rewrite ?H0. cbn [defined orb andb]. find_in_table. Qed.

Lemma find_ocrnl v :
  OCRNL = Some v ->
  find (fun i => STREQ "ocrnl" (name i)) mode_info
  = Some (Mode "ocrnl" output (SANE_UNSET .| REV) v 0).
Proof. intros H0. unfold mode_info. rewrite ?H0. cbn [defined orb andb]. find_in_table. Qed.

Lemma find_onlcr v :
  ONLCR = Some v ->
  find (fun i => STREQ "onlcr" (name i)) mode_info
  = Some (Mode "onlcr" output (SANE_SET .| REV) v 0).
Proof. intros H0. unfold mode_info. rewrite ?H0. cbn [defined orb andb]. find_in_table. Qed.

Lemma find_onlret v :
  ONLRET = Some v ->
  find (fun i => STREQ "onlret" (name i)) mode_info
  = Some (Mode "onlret" output (SANE_UNSET .| REV) v 0).
Proof. intros H0. unfold mode_info. rewrite ?H0. cbn [defined orb andb]. find_in_table. Qed.

Lemma find_tab3 d v :
  TABDLY = Some d ->
  TAB3 = Some v ->
  find (fun i => STREQ "tab3" (name i)) mode_info
  = Some (Mode "tab3" output SANE_UNSET v d).
Proof. intros H0 H1. unfold mode_info. rewrite ?H0, ?H1. cbn [defined orb andb]. find_in_table. Qed.

Lemma find_tab0 d v :
  TABDLY = Some d ->
  TAB0 = Some v ->
  find (fun i => STREQ "tab0" (name i)) mode_info
  = Some (Mode "tab0" output SANE_SET v d).
Proof. intros H0 H1. unfold mode_info. rewrite ?H0, ?H1. cbn [defined orb andb]. find_in_table. Qed.

Lemma find_isig :
  find (fun i => STREQ "isig" (name i)) mode_info
  = Some (Mode "isig" local (SANE_SET .| REV) ISIG 0).
Proof. unfold mode_info. cbn [defined orb andb]. find_in_table. Qed.

Lemma find_icanon :
  find (fun i => STREQ "icanon" (name i)) mode_info
  = Some (Mode "icanon" local (SANE_SET .| REV) ICANON 0).
Proof. unfold mode_info. cbn [defined orb andb]. find_in_table. Qed.

Lemma find_echoe :
  find (fun i => STREQ "echoe" (name i)) mode_info
  = Some (Mode "echoe" local (SANE_SET .| REV) ECHOE 0).
Proof. unfold mode_info. cbn [defined orb andb]. find_in_table. Qed.

Lemma find_xcase v :
  XCASE = Some v ->
  find (fun i => STREQ "xcase" (name i)) mode_info
  = Some (Mode "xcase" local (SANE_UNSET .| REV) v 0).
Proof. intros H0. unfold mode_info. rewrite ?H0. cbn [defined orb andb]. find_in_table. Qed.

Lemma find_echoctl v :
  ECHOCTL = Some v ->
  find (fun i => STREQ "echoctl" (name i)) mode_info
  = Some (Mode "echoctl" local (SANE_SET .| REV) v 0).
Proof. intros H0. unfold mode_info. rewrite ?H0. cbn [defined orb andb]. find_in_table. Qed.

Lemma find_echoke v :
  ECHOKE = Some v ->
  find (fun i => STREQ "echoke" (name i)) mode_info
  = Some (Mode "echoke" local (SANE_SET .| REV) v 0).
Proof. intros H0. unfold mode_info. rewrite ?H0. cbn [defined orb andb]. find_in_table. Qed.

Lemma find_evenp :
  find (fun i => STREQ "evenp" (name i)) mode_info
  = Some (Mode "evenp" combination (REV .| OMIT) 0 0).
Proof. unfold mode_info. cbn [defined orb andb]. find_in_table. Qed.

Lemma find_parity :
  find (fun i => STREQ "parity" (name i)) mode_info
  = Some (Mode "parity" combination (REV .| OMIT) 0 0).
Proof. unfold mode_info. cbn [defined orb andb]. find_in_table. Qed.

Lemma find_oddp :
  find (fun i => STREQ "oddp" (name i)) mode_info
  = Some (Mode "oddp" combination (REV .| OMIT) 0 0).
Proof. unfold mode_info. cbn [defined orb andb]. find_in_table. Qed.

Lemma find_nl :
  find (fun i => STREQ "nl" (name i)) mode_info
  = Some (Mode "nl" combination (REV .| OMIT) 0 0).
Proof. unfold mode_info. cbn [defined orb andb]. find_in_table. Qed.

Lemma find_cooked :
  find (fun i => STREQ "cooked" (name i)) mode_info
  = Some (Mode "cooked" combination (REV .| OMIT) 0 0).
Proof. unfold mode_info. cbn [defined orb andb]. find_in_table. Qed.

Lemma find_raw :
  find (fun i => STREQ "raw" (name i)) mode_info
  = Some (Mode "raw" combination (REV .| OMIT) 0 0).
Proof. unfold mode_info. cbn [defined orb andb]. find_in_table. Qed.

Lemma find_pass8 :
  find (fun i => STREQ "pass8" (name i)) mode_info
  = Some (Mode "pass8" combination (REV .| OMIT) 0 0).
Proof. unfold mode_info. cbn [defined orb andb]. find_in_table. Qed.

Lemma find_litout :
  find (fun i => STREQ "litout" (name i)) mode_info
  = Some (Mode "litout" combination (REV .| OMIT) 0 0).
Proof. unfold mode_info. cbn [defined orb andb]. find_in_table. Qed.

Lemma find_cbreak :
  find (fun i => STREQ "cbreak" (name i)) mode_info
  = Some (Mode "cbreak" combination (REV .| OMIT) 0 0).
Proof. unfold mode_info. cbn [defined orb andb]. find_in_table. Qed.

Lemma find_decctlq v :
  IXANY = Some v ->
  find (fun i => STREQ "decctlq" (name i)) mode_info
  = Some (Mode "decctlq" combination (REV .| OMIT) 0 0).
Proof. intros H0. unfold mode_info. rewrite ?H0. cbn [defined orb andb]. find_in_table. Qed.

Lemma find_tabs d :
  TABDLY = Some d ->
  find (fun i => STREQ "tabs" (name i)) mode_info
  = Some (Mode "tabs" combination (REV .| OMIT) 0 0).
Proof. intros H0. unfold mode_info. rewrite ?H0. cbn [defined orb andb]. find_in_table. Qed.

Lemma find_lcase x y z :
  XCASE = Some x ->
  IUCLC = Some y ->
  OLCUC = Some z ->
  find (fun i => STREQ "lcase" (name i)) mode_info
  = Some (Mode "lcase" combination (REV .| OMIT) 0 0).
Proof. intros H0 H1 H2. unfold mode_info. rewrite ?H0, ?H1, ?H2. cbn [defined orb andb]. find_in_table. Qed.

Lemma find_LCASE x y z :
  XCASE = Some x ->
  IUCLC = Some y ->
  OLCUC = Some z ->
  find (fun i => STREQ "LCASE" (name i)) mode_info
  = Some (Mode "LCASE" combination (REV .| OMIT) 0 0).
Proof. intros H0 H1 H2. unfold mode_info. rewrite ?H0, ?H1, ?H2. cbn [defined orb andb]. find_in_table. Qed.

Lemma find_crt :
  find (fun i => STREQ "crt" (name i)) mode_info
  = Some (Mode "crt" combination OMIT 0 0).
Proof. unfold mode_info. cbn [defined orb andb]. find_in_table. Qed.

End Lookup.

Create HintDb finds.
#[export] Hint Resolve
  find_parenb
  find_parodd
  find_cs7
  find_cs8
  find_istrip
  find_brkint
  find_ignpar
  find_inlcr
  find_igncr
  find_icrnl
  find_ixon
  find_iuclc
  find_ixany
  find_opost
  find_olcuc
  find_ocrnl
  find_onlcr
  find_onlret
  find_tab3
  find_tab0
  find_isig
  find_icanon
  find_echoe
  find_xcase
  find_echoctl
  find_echoke
  find_evenp
  find_parity
  find_oddp
  find_nl
  find_cooked
  find_raw
  find_pass8
  find_litout
  find_cbreak
  find_decctlq
  find_tabs
  find_lcase
  find_LCASE
  find_crt : finds.

(** ** The combinations, token by token

    The usage text of the sources explains most combinations as "same
    as" a run of plain settings.  What follows compares the two sides
    through the parser. *)

Ltac find_entry := cbn [hd_c tl_c Ascii.eqb Bool.eqb]; solve [eauto with finds].
Ltac gemini_tokens :=
  repeat first
    [ erewrite gemini_settings_step
        by (eapply gemini_apply_one_plain;
            [ reflexivity | find_entry | reflexivity | reflexivity | reflexivity ])
    | erewrite gemini_settings_step
        by (apply gemini_apply_one_flag;
            [ reflexivity | find_entry | reflexivity ]) ].
Ltac gpt4o_tokens :=
  repeat first
    [ erewrite gpt4o_settings_step
        by (eapply gpt4o_apply_one_plain;
            [ reflexivity | find_entry | reflexivity | reflexivity | reflexivity ])
    | erewrite gpt4o_settings_step
        by (apply gpt4o_apply_one_flag;
            [ reflexivity | find_entry | reflexivity | reflexivity ]) ].

(** Both sides of [same_settings], once the tokens are gone. *)
Ltac same_tokens :=
  split; intros checking device_name rest [m b] w; cbn [List.map app];
  [ gemini_tokens | gpt4o_tokens ];
  do 2 f_equal; snapshot_eq m.

Section ParityFamily.
Context `{P : platform} `{X : externals}.
Hypothesis Hparenb : Z.land PARENB (PARODD .| CSIZE) = 0.
Hypothesis Hparodd : Z.land PARODD CSIZE = 0.

Lemma evenp_same_as : same_settings [ "evenp" ] [ "parenb"; "-parodd"; "cs7" ].
Proof. same_tokens. Qed.

Lemma minus_evenp_same_as : same_settings [ "-evenp" ] [ "-parenb"; "cs8" ].
Proof. same_tokens. Qed.

Lemma oddp_same_as : same_settings [ "oddp" ] [ "parenb"; "parodd"; "cs7" ].
Proof. same_tokens. Qed.

Lemma minus_oddp_same_as : same_settings [ "-oddp" ] [ "-parenb"; "cs8" ].
Proof. same_tokens. Qed.

Lemma parity_same_as :
  same_settings [ "parity" ] [ "evenp" ] /\
  same_settings [ "-parity" ] [ "-evenp" ].
Proof. split; same_tokens. Qed.

End ParityFamily.

(** X4.  The parity combinations are what the usage text of the sources
    says: "evenp" is "parenb -parodd cs7", "oddp" is "parenb parodd cs7",
    "-evenp" and "-oddp" are "-parenb cs8", and "[-]parity" is
    "[-]evenp", anywhere on a command line and in both drafts.  PARENB,
    PARODD and the character-size field do not overlap. *)
Theorem parity_combinations_same_as `{P : platform} `{X : externals} :
  Z.land PARENB (PARODD .| CSIZE) = 0 -> Z.land PARODD CSIZE = 0 ->
  same_settings [ "evenp" ] [ "parenb"; "-parodd"; "cs7" ] /\
  same_settings [ "-evenp" ] [ "-parenb"; "cs8" ] /\
  same_settings [ "oddp" ] [ "parenb"; "parodd"; "cs7" ] /\
  same_settings [ "-oddp" ] [ "-parenb"; "cs8" ] /\
  same_settings [ "parity" ] [ "evenp" ] /\
  same_settings [ "-parity" ] [ "-evenp" ].
Proof.
  intros H1 H2.
  split; [apply evenp_same_as; assumption |].
  split; [solve [apply minus_evenp_same_as | apply minus_evenp_same_as; assumption] |].
  split; [apply oddp_same_as; assumption |].
  split; [solve [apply minus_oddp_same_as | apply minus_oddp_same_as; assumption] |].
  apply parity_same_as.
Qed.

Lemma parity_combinations_same_as_witness :
  @same_settings linux example_env [ "evenp" ] [ "parenb"; "-parodd"; "cs7" ] /\
  @same_settings linux example_env [ "-oddp" ] [ "-parenb"; "cs8" ].
Proof.
  destruct (@parity_combinations_same_as linux example_env eq_refl eq_refl)
    as (H1 & _ & _ & H4 & _).
  exact (conj H1 H4).
Defined.

(** *** pass8 and litout *)

Section EightBitFamily.
Context `{P : platform} `{X : externals}.
Hypothesis Hparenb : Z.land PARENB CSIZE = 0.

Lemma pass8_same_as : same_settings [ "pass8" ] [ "-parenb"; "-istrip"; "cs8" ].
Proof. same_tokens. Qed.

Lemma minus_pass8_same_as :
  same_settings [ "-pass8" ] [ "parenb"; "istrip"; "cs7" ].
Proof. same_tokens. Qed.

Lemma litout_same_as :
  same_settings [ "litout" ] [ "-parenb"; "-istrip"; "-opost"; "cs8" ].
Proof. same_tokens. Qed.

Lemma minus_litout_same_as :
  same_settings [ "-litout" ] [ "parenb"; "istrip"; "opost"; "cs7" ].
Proof. same_tokens. Qed.

End EightBitFamily.

(** X5.  "pass8" is "-parenb -istrip cs8" and "litout" is that with
    "-opost"; negated they are "parenb istrip cs7" and that with "opost",
    as the usage text says, anywhere on a command line and in both
    drafts.  PARENB lies outside the character-size field. *)
Theorem eight_bit_combinations_same_as `{P : platform} `{X : externals} :
  Z.land PARENB CSIZE = 0 ->
  same_settings [ "pass8" ] [ "-parenb"; "-istrip"; "cs8" ] /\
  same_settings [ "-pass8" ] [ "parenb"; "istrip"; "cs7" ] /\
  same_settings [ "litout" ] [ "-parenb"; "-istrip"; "-opost"; "cs8" ] /\
  same_settings [ "-litout" ] [ "parenb"; "istrip"; "opost"; "cs7" ].
Proof.
  intros H.
  split; [solve [apply pass8_same_as | apply pass8_same_as; assumption] |].
  split; [apply minus_pass8_same_as; assumption |].
  split; [solve [apply litout_same_as | apply litout_same_as; assumption] | apply minus_litout_same_as; assumption].
Qed.

Lemma eight_bit_combinations_same_as_witness :
  @same_settings linux example_env [ "-pass8" ] [ "parenb"; "istrip"; "cs7" ].
Proof.
  destruct (@eight_bit_combinations_same_as linux example_env eq_refl)
    as (_ & H2 & _).
  exact H2.
Defined.

(** *** Combinations that stand for one flag *)

Section SingleFlag.
Context `{P : platform} `{X : externals}.

Lemma cbreak_same_as :
  same_settings [ "cbreak" ] [ "-icanon" ] /\
  same_settings [ "-cbreak" ] [ "icanon" ].
Proof. split; same_tokens. Qed.

Lemma decctlq_same_as v :
  IXANY = Some v ->
  same_settings [ "decctlq" ] [ "-ixany" ] /\
  same_settings [ "-decctlq" ] [ "ixany" ].
Proof. intros H. split; same_tokens. Qed.

Lemma tabs_same_as d t0 t3 :
  TABDLY = Some d -> TAB0 = Some t0 -> TAB3 = Some t3 ->
  same_settings [ "tabs" ] [ "tab0" ] /\
  same_settings [ "-tabs" ] [ "tab3" ].
Proof. intros H H0 H3. split; same_tokens. Qed.

End SingleFlag.

(** X6.  Three combinations stand for one flag each: "cbreak" is
    "-icanon", "decctlq" is "-ixany" (the usage text has it the other
    way round) and "tabs" is "tab0"; negated they are "icanon", "ixany"
    and "tab3".  This holds anywhere on a command line and in both
    drafts, where IXANY and the tab delays exist. *)
Theorem single_flag_combinations_same_as `{P : platform} `{X : externals}
    v d t0 t3 :
  IXANY = Some v -> TABDLY = Some d -> TAB0 = Some t0 -> TAB3 = Some t3 ->
  same_settings [ "cbreak" ] [ "-icanon" ] /\
  same_settings [ "-cbreak" ] [ "icanon" ] /\
  same_settings [ "decctlq" ] [ "-ixany" ] /\
  same_settings [ "-decctlq" ] [ "ixany" ] /\
  same_settings [ "tabs" ] [ "tab0" ] /\
  same_settings [ "-tabs" ] [ "tab3" ].
Proof.
  intros Hv Hd H0 H3.
  destruct cbreak_same_as as [? ?].
  destruct (decctlq_same_as v Hv) as [? ?].
  destruct (tabs_same_as d t0 t3 Hd H0 H3) as [? ?].
  tauto.
Qed.

Lemma single_flag_combinations_same_as_witness :
  @same_settings linux example_env [ "decctlq" ] [ "-ixany" ] /\
  @same_settings linux example_env [ "-tabs" ] [ "tab3" ].
Proof.
  destruct (@single_flag_combinations_same_as linux example_env
              _ _ _ _ eq_refl eq_refl eq_refl eq_refl)
    as (_ & _ & H3 & _ & _ & H6).
  exact (conj H3 H6).
Defined.

(** *** nl *)

Section NewlineFamily.
Context `{P : platform} `{X : externals}.
Variables onlcr ocrnl onlret : Z.
Hypothesis Honlcr : ONLCR = Some onlcr.
Hypothesis Hocrnl : OCRNL = Some ocrnl.
Hypothesis Honlret : ONLRET = Some onlret.

Lemma nl_same_as : same_settings [ "nl" ] [ "-icrnl"; "-onlcr" ].
Proof. same_tokens. Qed.

Lemma minus_nl_same_as :
  same_settings [ "-nl" ]
    [ "icrnl"; "-inlcr"; "-igncr"; "onlcr"; "-ocrnl"; "-onlret" ].
Proof. same_tokens. Qed.

End NewlineFamily.

(** X7.  "nl" is "-icrnl -onlcr" and "-nl" is "icrnl -inlcr -igncr onlcr
    -ocrnl -onlret", as the usage text says, anywhere on a command line
    and in both drafts, where ONLCR, OCRNL and ONLRET exist. *)
Theorem nl_combination_same_as `{P : platform} `{X : externals}
    onlcr ocrnl onlret :
  ONLCR = Some onlcr -> OCRNL = Some ocrnl -> ONLRET = Some onlret ->
  same_settings [ "nl" ] [ "-icrnl"; "-onlcr" ] /\
  same_settings [ "-nl" ]
    [ "icrnl"; "-inlcr"; "-igncr"; "onlcr"; "-ocrnl"; "-onlret" ].
Proof.
  intros H1 H2 H3. split.
  - exact (nl_same_as onlcr H1).
  - exact (minus_nl_same_as onlcr ocrnl onlret H1 H2 H3).
Qed.

Lemma nl_combination_same_as_witness :
  @same_settings linux example_env [ "-nl" ]
    [ "icrnl"; "-inlcr"; "-igncr"; "onlcr"; "-ocrnl"; "-onlret" ].
Proof.
  exact (proj2 (@nl_combination_same_as linux example_env _ _ _
                  eq_refl eq_refl eq_refl)).
Defined.

(** *** raw and cooked *)

(** X8.  "-raw" is "cooked" and "-cooked" is "raw", as the usage text
    says, anywhere on a command line and in both drafts. *)
Theorem raw_cooked_mirror `{P : platform} `{X : externals} :
  same_settings [ "-raw" ] [ "cooked" ] /\
  same_settings [ "-cooked" ] [ "raw" ].
Proof. split; same_tokens. Qed.

(** X9.  In the first draft "cooked" is "brkint ignpar istrip icrnl ixon
    opost isig icanon" and nothing more where the slots of min and time
    are not those of eof and eol (as on Linux): the eof and eol
    characters stay as they are. *)
Theorem gemini_cooked_same_as `{P : platform} `{X : externals} :
  Nat.eqb VMIN VEOF = false -> Nat.eqb VTIME VEOL = false ->
  gemini_same_settings [ "cooked" ]
    [ "brkint"; "ignpar"; "istrip"; "icrnl"; "ixon"; "opost"; "isig";
      "icanon" ].
Proof.
  intros Hmin Htime checking device_name rest [m b] w; cbn [List.map app].
  gemini_tokens. do 2 f_equal. snapshot_eq m.
Qed.

Lemma gemini_cooked_same_as_witness :
  @gemini_same_settings linux example_env [ "cooked" ]
    [ "brkint"; "ignpar"; "istrip"; "icrnl"; "ixon"; "opost"; "isig";
      "icanon" ].
Proof. exact (@gemini_cooked_same_as linux example_env eq_refl eq_refl). Defined.

(** *** crt and lcase *)

Section EchoAndCase.
Context `{P : platform} `{X : externals}.
Variables echoctl echoke xcase iuclc olcuc : Z.
Hypothesis Hechoctl : ECHOCTL = Some echoctl.
Hypothesis Hechoke : ECHOKE = Some echoke.
Hypothesis Hxcase : XCASE = Some xcase.
Hypothesis Hiuclc : IUCLC = Some iuclc.
Hypothesis Holcuc : OLCUC = Some olcuc.

Lemma crt_same_as : same_settings [ "crt" ] [ "echoe"; "echoctl"; "echoke" ].
Proof. same_tokens. Qed.

Lemma lcase_same_as : same_settings [ "lcase" ] [ "xcase"; "iuclc"; "olcuc" ].
Proof. same_tokens. Qed.

Lemma minus_lcase_same_as :
  same_settings [ "-lcase" ] [ "-xcase"; "-iuclc"; "-olcuc" ].
Proof. same_tokens. Qed.

Lemma LCASE_same_as :
  same_settings [ "LCASE" ] [ "lcase" ] /\
  same_settings [ "-LCASE" ] [ "-lcase" ].
Proof. split; same_tokens. Qed.

End EchoAndCase.

(** X10.  "crt" is "echoe echoctl echoke", "lcase" is "xcase iuclc
    olcuc", "-lcase" is "-xcase -iuclc -olcuc" and "[-]LCASE" is
    "[-]lcase", as the usage text says, anywhere on a command line and in
    both drafts, where ECHOCTL, ECHOKE, XCASE, IUCLC and OLCUC exist. *)
Theorem crt_lcase_same_as `{P : platform} `{X : externals}
    echoctl echoke xcase iuclc olcuc :
  ECHOCTL = Some echoctl -> ECHOKE = Some echoke ->
  XCASE = Some xcase -> IUCLC = Some iuclc -> OLCUC = Some olcuc ->
  same_settings [ "crt" ] [ "echoe"; "echoctl"; "echoke" ] /\
  same_settings [ "lcase" ] [ "xcase"; "iuclc"; "olcuc" ] /\
  same_settings [ "-lcase" ] [ "-xcase"; "-iuclc"; "-olcuc" ] /\
  same_settings [ "LCASE" ] [ "lcase" ] /\
  same_settings [ "-LCASE" ] [ "-lcase" ].
Proof.
  intros H1 H2 H3 H4 H5.
  split; [exact (crt_same_as _ _ H1 H2) |].
  split; [exact (lcase_same_as _ _ _ H3 H4 H5) |].
  split; [exact (minus_lcase_same_as _ _ _ H3 H4 H5) |].
  exact (LCASE_same_as _ _ _ H3 H4 H5).
Qed.

Lemma crt_lcase_same_as_witness :
  @same_settings linux example_env [ "crt" ] [ "echoe"; "echoctl"; "echoke" ] /\
  @same_settings linux example_env [ "-LCASE" ] [ "-lcase" ].
Proof.
  destruct (@crt_lcase_same_as linux example_env _ _ _ _ _
              eq_refl eq_refl eq_refl eq_refl eq_refl)
    as (H1 & _ & _ & _ & H5).
  exact (conj H1 H5).
Defined.
(** ** Tokens that name a control character *)

Section ControlSteps.
Context `{P : platform} `{X : externals}.
Variables (checking : bool) (device_name : string).
Variables (rest : list (option string)) (m : struct_termios) (b : bool).
Variable w : world.

(** A control-character name and the argument behind it. *)
Lemma gemini_apply_one_cc arg0 ci a v :
  Ascii.eqb (hd_c arg0) "-" = false ->
  STREQ arg0 "drain" = false ->
  find (fun i => STREQ arg0 (name i)) mode_info = None ->
  find (fun c => STREQ arg0 (ci_name c)) control_info = Some ci ->
  Gemini.set_control_char ci a m w = stores ci v m w ->
  Gemini.apply_one checking device_name arg0 (Some a :: rest) (m, b) w
  = Ret (true, (set_c_cc (offset ci) v m, true)) w.
Proof.
  intros Hrev Hdrain Hmode Hci Hset. unfold Gemini.apply_one.
  rewrite Hrev, Hdrain, Hmode. cbn [negb andb fst]. rewrite Hci.
  unfold Gemini.check_missing_argument. cbn [Gemini.next_arg].
  unfold bind at 1. unfold ret at 1. unfold bind. now rewrite Hset.
Qed.

Lemma gpt4o_apply_one_cc arg0 ci a v :
  Ascii.eqb (hd_c arg0) "-" = false ->
  STREQ arg0 "drain" = false ->
  find (fun i => STREQ arg0 (name i)) mode_info = None ->
  find (fun c => STREQ arg0 (ci_name c)) control_info = Some ci ->
  Gpt4o.set_control_char ci a m w = stores ci v m w ->
  Gpt4o.apply_one checking device_name arg0 (Some a :: rest) (m, b) w
  = Ret (true, (set_c_cc (offset ci) v m, true)) w.
Proof.
  intros Hrev Hdrain Hmode Hci Hset. unfold Gpt4o.apply_one.
  rewrite Hrev, Hdrain, Hmode. cbn [negb andb fst]. rewrite Hci.
  cbn [Gpt4o.next_arg]. unfold bind. now rewrite Hset.
Qed.

(** The loop of [apply_settings] skips the argument a token took. *)
Lemma gemini_settings_step2 arg0 a st st' :
  Gemini.apply_one checking device_name arg0 (Some a :: rest) st w
  = Ret (true, st') w ->
  Gemini.apply_settings_from checking device_name
    (Some arg0 :: Some a :: rest) st w
  = Gemini.apply_settings_from checking device_name rest st' w.
Proof. intros H. simpl. unfold bind. now rewrite H. Qed.

Lemma gpt4o_settings_step2 arg0 a st st' :
  Gpt4o.apply_one checking device_name arg0 (Some a :: rest) st w
  = Ret (true, st') w ->
  Gpt4o.apply_settings_from checking device_name
    (Some arg0 :: Some a :: rest) st w
  = Gpt4o.apply_settings_from checking device_name rest st' w.
Proof. intros H. simpl. unfold bind. now rewrite H. Qed.

End ControlSteps.

Section ControlLookup.
Context `{P : platform}.

Lemma find_dec :
  find (fun i => STREQ "dec" (name i)) mode_info
  = Some (Mode "dec" combination OMIT 0 0).
Proof. unfold mode_info. cbn [defined orb andb]. find_in_table. Qed.

Lemma find_ek :
  find (fun i => STREQ "ek" (name i)) mode_info
  = Some (Mode "ek" combination OMIT 0 0).
Proof. unfold mode_info. cbn [defined orb andb]. find_in_table. Qed.

(** The names of the control characters are not names of flags. *)
Lemma intr_no_flag : find (fun i => STREQ "intr" (name i)) mode_info = None.
Proof. unfold mode_info. cbn [defined orb andb]. none_piece. Qed.

Lemma erase_no_flag : find (fun i => STREQ "erase" (name i)) mode_info = None.
Proof. unfold mode_info. cbn [defined orb andb]. none_piece. Qed.

Lemma kill_no_flag : find (fun i => STREQ "kill" (name i)) mode_info = None.
Proof. unfold mode_info. cbn [defined orb andb]. none_piece. Qed.

Lemma find_intr :
  find (fun c => STREQ "intr" (ci_name c)) control_info = Some (Ctl "intr" CINTR VINTR).
Proof. reflexivity. Qed.

Lemma find_erase :
  find (fun c => STREQ "erase" (ci_name c)) control_info
  = Some (Ctl "erase" CERASE VERASE).
Proof. reflexivity. Qed.

Lemma find_kill :
  find (fun c => STREQ "kill" (ci_name c)) control_info = Some (Ctl "kill" CKILL VKILL).
Proof. reflexivity. Qed.

End ControlLookup.

#[export] Hint Resolve find_dec find_ek : finds.

(** *** dec *)

Section Dec.
Context `{P : platform} `{X : externals}.
Variables ixany echoctl echoke : Z.
Hypothesis Hixany : IXANY = Some ixany.
Hypothesis Hechoctl : ECHOCTL = Some echoctl.
Hypothesis Hechoke : ECHOKE = Some echoke.
Hypothesis Hoctal :
  xnumtoumax "0177" 0 0 UCHAR_MAX "bB" "invalid integer argument" = inl 127.

Lemma octal_del info m w :
  is_count_slot info = false ->
  Gemini.set_control_char info "0177" m w = stores info 127 m w /\
  Gpt4o.set_control_char info "0177" m w = stores info 127 m w.
Proof.
  intros Hslot.
  destruct (other_tokens_integer info "0" "1" "77" m w Hslot) as [Hg Ho];
    try discriminate.
  rewrite Hg, Ho. unfold integer_path, integer_arg, bind. now rewrite Hoctal.
Qed.

Lemma caret_letter info c m w :
  is_count_slot info = false ->
  c <> NUL -> c <> "?"%char -> c <> "-"%char -> to_uchar c < 128 ->
  Gemini.set_control_char info (String "^" (String c "")) m w
    = stores info (Z.land (to_uchar c) 0x1F) m w /\
  Gpt4o.set_control_char info (String "^" (String c "")) m w
    = stores info (Z.land (to_uchar c) 0x1F) m w.
Proof.
  intros Hslot Hnul Hq Hminus Hlow.
  destruct (caret_control info c "" m w Hslot Hnul Hq) as [Hg Ho].
  - intros E. now injection E.
  - split; [exact Hg | exact (Ho Hlow)].
Qed.

Ltac cc_side step cc octal caret :=
  erewrite step
    by (eapply cc;
        [ reflexivity | reflexivity
        | first [ apply intr_no_flag | apply erase_no_flag | apply kill_no_flag ]
        | first [ apply find_intr | apply find_erase | apply find_kill ]
        | first [ apply octal; reflexivity
                | apply caret;
                  [ reflexivity | discriminate | discriminate | discriminate
                  | vm_compute; reflexivity ] ] ]).

Lemma dec_same_as :
  same_settings [ "dec" ]
    [ "echoe"; "echoctl"; "echoke"; "-ixany";
      "intr"; "^c"; "erase"; "0177"; "kill"; "^u" ].
Proof.
  pose proof (fun info m w H => proj1 (octal_del info m w H)) as Hg8.
  pose proof (fun info m w H => proj2 (octal_del info m w H)) as Ho8.
  pose proof (fun info c m w H1 H2 H3 H4 H5 =>
                proj1 (caret_letter info c m w H1 H2 H3 H4 H5)) as Hgc.
  pose proof (fun info c m w H1 H2 H3 H4 H5 =>
                proj2 (caret_letter info c m w H1 H2 H3 H4 H5)) as Hoc.
  split; intros checking device_name rest [m b] w; cbn [List.map app].
  - gemini_tokens.
    do 3 cc_side gemini_settings_step2 gemini_apply_one_cc Hg8 Hgc.
    do 2 f_equal. clear Hg8 Ho8 Hgc Hoc. snapshot_eq m.
  - gpt4o_tokens.
    do 3 cc_side gpt4o_settings_step2 gpt4o_apply_one_cc Ho8 Hoc.
    do 2 f_equal. clear Hg8 Ho8 Hgc Hoc. snapshot_eq m.
Qed.

End Dec.

(** X11.  "dec" is "echoe echoctl echoke -ixany intr ^c erase 0177 kill
    ^u", as the usage text says, anywhere on a command line and in both
    drafts, where ECHOCTL, ECHOKE and IXANY exist and the number parser
    reads 0177 as octal. *)
Theorem dec_combination_same_as `{P : platform} `{X : externals}
    ixany echoctl echoke :
  IXANY = Some ixany -> ECHOCTL = Some echoctl -> ECHOKE = Some echoke ->
  xnumtoumax "0177" 0 0 UCHAR_MAX "bB" "invalid integer argument" = inl 127 ->
  same_settings [ "dec" ]
    [ "echoe"; "echoctl"; "echoke"; "-ixany";
      "intr"; "^c"; "erase"; "0177"; "kill"; "^u" ].
Proof. intros H1 H2 H3 H4. exact (dec_same_as _ _ _ H1 H2 H3 H4). Qed.

Lemma dec_combination_same_as_witness :
  @same_settings linux example_env [ "dec" ]
    [ "echoe"; "echoctl"; "echoke"; "-ixany";
      "intr"; "^c"; "erase"; "0177"; "kill"; "^u" ].
Proof.
  exact (@dec_combination_same_as linux example_env _ _ _
           eq_refl eq_refl eq_refl eq_refl).
Defined.
(** ** What [visible] prints comes back through [set_control_char] *)

Lemma to_uchar_ascii_of_N x : 0 <= x < 256 -> to_uchar (ascii_of_N (Z.to_N x)) = x.
Proof.
  intros Hx. unfold to_uchar. rewrite N_ascii_embedding by lia. lia.
Qed.

Lemma low_byte_no_meta ch : 0 <= ch < 128 -> Z.land ch 0x80 = 0.
Proof.
  intros Hch. apply Z.bits_inj'. intros n Hn.
  rewrite Z.land_spec, Z.bits_0.
  destruct (Z.eq_dec n 7) as [-> | Hne].
  - destruct (Z.eq_dec ch 0) as [-> | Hnz]; [reflexivity |].
    rewrite Z.bits_above_log2; [reflexivity | lia |].
    apply Z.log2_lt_pow2; lia.
  - change 0x80 with (2 ^ 7). rewrite Z.pow2_bits_false by lia.
    apply andb_false_r.
Qed.

Lemma caret_code ch : 0 <= ch < 32 -> Z.land (ch + 64) 0x1F = ch.
Proof.
  intros Hch. change 0x1F with (Z.ones 5). rewrite Z.land_ones by lia.
  change (2 ^ 5) with 32. replace (ch + 64) with (ch + 2 * 32) by lia.
  rewrite Z.mod_add by lia. apply Z.mod_small. lia.
Qed.

Lemma ascii_by_code c (x : Z) : to_uchar c <> x -> forall d, to_uchar d = x -> c <> d.
Proof. intros H d Hd ->. contradiction. Qed.

Section VisibleRoundTrip.
Context `{P : platform} `{X : externals}.
Variables (info : struct_control_info) (m : struct_termios) (w : world).
Hypothesis Hslot : is_count_slot info = false.

Lemma printable_back ch :
  32 <= ch < 127 ->
  Gemini.set_control_char info (String (ascii_of_N (Z.to_N ch)) "") m w
    = stores info ch m w /\
  Gpt4o.set_control_char info (String (ascii_of_N (Z.to_N ch)) "") m w
    = stores info ch m w.
Proof.
  intros Hch.
  assert (Hc : to_uchar (ascii_of_N (Z.to_N ch)) = ch)
    by (apply to_uchar_ascii_of_N; lia).
  rewrite <- Hc at 2 4. apply single_char_raw; [exact Hslot |].
  apply (ascii_by_code _ 0); [lia | reflexivity].
Qed.

Lemma caret_back ch :
  0 <= ch < 32 ->
  Gemini.set_control_char info
    (String "^" (String (ascii_of_N (Z.to_N (ch + 64))) "")) m w
  = stores info ch m w.
Proof.
  intros Hch.
  assert (Hc : to_uchar (ascii_of_N (Z.to_N (ch + 64))) = ch + 64)
    by (apply to_uchar_ascii_of_N; lia).
  destruct (caret_control info (ascii_of_N (Z.to_N (ch + 64))) "" m w Hslot)
    as [Hg _].
  - apply (ascii_by_code _ 0); [lia | reflexivity].
  - apply (ascii_by_code _ 63); [lia | reflexivity].
  - intros E. injection E as E.
    revert E. apply (ascii_by_code _ 45); [lia | reflexivity].
  - rewrite Hg, Hc, caret_code by lia. reflexivity.
Qed.

Lemma gemini_visible_back ch :
  0 <= ch < 128 -> ch <> _POSIX_VDISABLE ->
  Gemini.set_control_char info (Gemini.visible ch) m w = stores info ch m w.
Proof.
  intros Hch Hdis. unfold Gemini.visible.
  rewrite (proj2 (Z.eqb_neq _ _) Hdis), (low_byte_no_meta ch Hch).
  cbn [Z.eqb negb]. change ("" +:+ ?s) with s.
  destruct (Z.ltb_spec ch 32).
  - apply caret_back. lia.
  - destruct (Z.ltb_spec ch 127).
    + apply printable_back. lia.
    + replace ch with 127 by lia.
      apply (proj1 (caret_question info "" m w Hslot)).
Qed.

Lemma gpt4o_visible_back ch :
  32 <= ch < 127 -> ch <> _POSIX_VDISABLE ->
  Gpt4o.set_control_char info (Gpt4o.visible ch) m w = stores info ch m w.
Proof.
  intros Hch Hdis. unfold Gpt4o.visible.
  rewrite (proj2 (Z.eqb_neq _ _) Hdis).
  rewrite (proj2 (Z.leb_le 32 ch)), (proj2 (Z.ltb_lt ch 127)) by lia.
  apply printable_back. lia.
Qed.

Lemma gpt4o_visible_empty ch :
  0 <= ch < 32 \/ ch = 127 -> ch <> _POSIX_VDISABLE -> Gpt4o.visible ch = "".
Proof.
  intros Hch Hdis. unfold Gpt4o.visible.
  rewrite (proj2 (Z.eqb_neq _ _) Hdis).
  destruct Hch as [Hch | ->]; [| reflexivity].
  rewrite (proj2 (Z.leb_gt 32 ch)) by lia. cbn [andb].
  rewrite (proj2 (Z.eqb_neq ch 127)) by lia.
  rewrite (proj2 (Z.leb_gt 128 ch)) by lia. reflexivity.
Qed.

End VisibleRoundTrip.

(** X12.  A control character below 128 that is not the disable value
    comes back from its display text: in the first draft
    [set_control_char] on [visible ch] stores [ch] (slots other than min
    and time).  The second draft gives back the printable characters
    only: it displays a control character or DEL as the empty string. *)
Theorem visible_round_trip `{P : platform} `{X : externals}
    (info : struct_control_info) (ch : Z) (m : struct_termios) (w : world) :
  is_count_slot info = false -> 0 <= ch < 128 -> ch <> _POSIX_VDISABLE ->
  Gemini.set_control_char info (Gemini.visible ch) m w = stores info ch m w /\
  (32 <= ch < 127 ->
   Gpt4o.set_control_char info (Gpt4o.visible ch) m w = stores info ch m w) /\
  (ch < 32 \/ ch = 127 -> Gpt4o.visible ch = "").
Proof.
  intros Hslot Hch Hdis. split; [| split].
  - now apply gemini_visible_back.
  - intros Hp. now apply gpt4o_visible_back.
  - intros Hc. apply gpt4o_visible_empty; [lia | exact Hdis].
Qed.

Lemma visible_round_trip_witness :
  @Gemini.set_control_char linux example_env (Ctl "intr" CINTR (@VINTR linux))
    (@Gemini.visible linux 3) (@zero_termios linux) initial_world
  = Ret (set_c_cc (@VINTR linux) 3 (@zero_termios linux)) initial_world.
Proof.
  apply (@visible_round_trip linux example_env
           (Ctl "intr" CINTR (@VINTR linux)) 3
           (@zero_termios linux) initial_world);
    [reflexivity | lia | discriminate].
Defined.
(** ** The validation pass stays off the device *)

Section OffDevice.
Context `{X : externals}.

Lemma off_device_ret {A} (a : A) : off_device (ret a).
Proof. intros w. split; reflexivity. Qed.

Lemma off_device_bind {A B} (c : M A) (k : A -> M B) :
  off_device c -> (forall a, off_device (k a)) -> off_device (bind c k).
Proof.
  intros Hc Hk w. unfold bind. specialize (Hc w).
  destruct (c w) as [a w' | s w' | w']; simpl in *; [| exact Hc | exact Hc].
  destruct (Hk a w') as [H1 H2]. destruct Hc as [H3 H4].
  split; congruence.
Qed.

Lemma off_device_modify (f : world -> world) :
  (forall w, calls (f w) = calls w /\ out (f w) = out w) ->
  off_device (modify f).
Proof. intros Hf w. exact (Hf w). Qed.

Lemma off_device_exit {A} s : off_device (@exit A s).
Proof. intros w. split; reflexivity. Qed.

Lemma off_device_undefined {A} : off_device (@undefined_behaviour A).
Proof. intros w. split; reflexivity. Qed.

Lemma off_device_gets {A} (f : world -> A) : off_device (gets f).
Proof. intros w. split; reflexivity. Qed.

Lemma off_device_error_continue msg : off_device (error_continue msg).
Proof. intros w. split; reflexivity. Qed.

Lemma off_device_error_exit {A} msg : off_device (@error_exit A msg).
Proof. intros w. split; reflexivity. Qed.

Lemma off_device_usage_failure {A} : off_device (@usage_failure _ A).
Proof. intros w. split; reflexivity. Qed.

Lemma off_device_abort {A} : off_device (@abort A).
Proof. intros w. split; reflexivity. Qed.

Lemma off_device_integer_arg s maxval : off_device (integer_arg s maxval).
Proof.
  unfold integer_arg. destruct (xnumtoumax _ _ _ _ _ _).
  - apply off_device_ret.
  - apply off_device_error_exit.
Qed.

End OffDevice.

(** One step of a proof that a computation is [off_device]: the shape
    of the computation decides. *)
Ltac off_device_step :=
  match goal with
  | |- off_device (ret _) => apply off_device_ret
  | |- off_device (bind _ _) => apply off_device_bind; [| intros ?]
  | |- off_device (modify _) =>
      apply off_device_modify; intros ?; split; reflexivity
  | |- off_device (gets _) => apply off_device_gets
  | |- off_device (exit _) => apply off_device_exit
  | |- off_device undefined_behaviour => apply off_device_undefined
  | |- off_device (error_continue _) => apply off_device_error_continue
  | |- off_device (error_exit _) => apply off_device_error_exit
  | |- off_device usage_failure => apply off_device_usage_failure
  | |- off_device abort => apply off_device_abort
  | |- off_device (integer_arg _ _) => apply off_device_integer_arg
  | |- off_device (when ?b _) => unfold when
  | |- off_device (if ?b then _ else _) => destruct b
  | |- off_device (match ?x with _ => _ end) => destruct x
  | |- off_device (let '(_, _) := ?x in _) => destruct x
  end.
Ltac off_device_all := repeat off_device_step.

Section CheckingPass.
Context `{P : platform} `{X : externals}.

Lemma gemini_set_speed_off type_ arg m : off_device (Gemini.set_speed type_ arg m).
Proof. unfold Gemini.set_speed. off_device_all. Qed.

Lemma gpt4o_set_speed_off type_ arg m : off_device (Gpt4o.set_speed type_ arg m).
Proof. unfold Gpt4o.set_speed. off_device_all. Qed.

Lemma gemini_set_control_char_off info arg m :
  off_device (Gemini.set_control_char info arg m).
Proof. unfold Gemini.set_control_char. off_device_all. Qed.

Lemma gpt4o_set_control_char_off info arg m :
  off_device (Gpt4o.set_control_char info arg m).
Proof. unfold Gpt4o.set_control_char. off_device_all. Qed.

Lemma gemini_check_speed_off m : off_device (Gemini.check_speed m).
Proof. unfold Gemini.check_speed. off_device_all. Qed.

Lemma gpt4o_check_speed_off m : off_device (Gpt4o.check_speed m).
Proof. unfold Gpt4o.check_speed. off_device_all. Qed.

Lemma gemini_apply_unmatched_off arg reversed device_name rest st :
  off_device (Gemini.apply_unmatched arg reversed true device_name rest st).
Proof.
  unfold Gemini.apply_unmatched, Gemini.apply_special_setting,
    Gemini.handle_speed_arg_setting, Gemini.handle_window_size_setting,
    Gemini.check_missing_argument.
  cbn [negb when].
  repeat first [ apply gemini_set_speed_off | off_device_step ].
Qed.

Lemma gpt4o_apply_unmatched_off arg reversed device_name rest st :
  off_device (Gpt4o.apply_unmatched arg reversed true device_name rest st).
Proof.
  unfold Gpt4o.apply_unmatched, Gpt4o.missing_argument.
  cbn [negb when].
  repeat first [ apply gpt4o_set_speed_off | off_device_step ].
Qed.

Lemma gemini_apply_one_off device_name arg0 rest st :
  off_device (Gemini.apply_one true device_name arg0 rest st).
Proof.
  unfold Gemini.apply_one, Gemini.check_missing_argument.
  repeat first [ apply gemini_apply_unmatched_off
               | apply gemini_set_control_char_off | off_device_step ].
Qed.

Lemma gpt4o_apply_one_off device_name arg0 rest st :
  off_device (Gpt4o.apply_one true device_name arg0 rest st).
Proof.
  unfold Gpt4o.apply_one, Gpt4o.missing_argument.
  repeat first [ apply gpt4o_apply_unmatched_off
               | apply gpt4o_set_control_char_off | off_device_step ].
Qed.

Lemma gemini_apply_settings_from_off device_name n :
  forall settings st, (length settings <= n)%nat ->
    off_device (Gemini.apply_settings_from true device_name settings st).
Proof.
  induction n as [| n IH]; intros [| [arg0 |] rest] st Hlen;
    simpl in Hlen; try lia; cbn [Gemini.apply_settings_from];
    try apply off_device_ret; try (apply IH; lia).
  apply off_device_bind; [apply gemini_apply_one_off |].
  intros [consumed st']. destruct consumed; [| apply IH; lia].
  destruct rest as [| a rest']; [apply off_device_ret |].
  apply IH. simpl in Hlen. lia.
Qed.

Lemma gpt4o_apply_settings_from_off device_name n :
  forall settings st, (length settings <= n)%nat ->
    off_device (Gpt4o.apply_settings_from true device_name settings st).
Proof.
  induction n as [| n IH]; intros [| [arg0 |] rest] st Hlen;
    simpl in Hlen; try lia; cbn [Gpt4o.apply_settings_from];
    try apply off_device_ret; try (apply IH; lia).
  apply off_device_bind; [apply gpt4o_apply_one_off |].
  intros [consumed st']. destruct consumed; [| apply IH; lia].
  destruct rest as [| a rest']; [apply off_device_ret |].
  apply IH. simpl in Hlen. lia.
Qed.

Lemma gemini_apply_settings_off device_name settings st :
  off_device (Gemini.apply_settings true device_name settings st).
Proof.
  unfold Gemini.apply_settings. apply off_device_bind.
  - now apply (gemini_apply_settings_from_off device_name (length (tl settings))).
  - intros st'. cbn [when]. apply off_device_bind;
      [apply gemini_check_speed_off | intros ?; apply off_device_ret].
Qed.

Lemma gpt4o_apply_settings_off device_name settings st :
  off_device (Gpt4o.apply_settings true device_name settings st).
Proof.
  unfold Gpt4o.apply_settings. apply off_device_bind.
  - now apply (gpt4o_apply_settings_from_off device_name (length (tl settings))).
  - intros st'. cbn [when]. apply off_device_bind;
      [apply gpt4o_check_speed_off | intros ?; apply off_device_ret].
Qed.

End CheckingPass.

(** X13.  With [checking] true, [apply_settings] makes no call on the
    device and writes nothing to standard output, whatever the settings,
    the snapshot and the state of the process, and however it ends; this
    holds in both drafts. *)
Theorem checking_pass_stays_off_device `{P : platform} `{X : externals}
    (device_name : string) (settings : list (option string))
    (st : struct_termios * bool) :
  off_device (Gemini.apply_settings true device_name settings st) /\
  off_device (Gpt4o.apply_settings true device_name settings st).
Proof.
  split; [apply gemini_apply_settings_off | apply gpt4o_apply_settings_off].
Qed.

Section RejectedRun.
Context `{P : platform} `{X : externals}.
Variables (f : option string) (argv : list (option string)).
Variables (w w' : world) (status : Z).

Lemma gemini_rejected_run :
  Gemini.apply_settings true (device_name_of f) argv (zero_termios, false) w
    = Exit status w' ->
  Gemini.main (settings_run f) argv w = Exit status w' /\
  calls w' = calls w /\ out w' = out w.
Proof.
  intros H. split.
  - unfold Gemini.main. cbn [settings_run cfg_output_type noargs file_name negb when].
    unfold device_name_of in H. unfold bind at 1 2. now rewrite H.
  - pose proof (gemini_apply_settings_off (device_name_of f) argv
                  (zero_termios, false) w) as Hoff.
    now rewrite H in Hoff.
Qed.

Lemma gpt4o_rejected_run :
  Gpt4o.apply_settings true (device_name_of f) argv (zero_termios, false) w
    = Exit status w' ->
  Gpt4o.main (settings_run f) argv w = Exit status w' /\
  calls w' = calls w /\ out w' = out w.
Proof.
  intros H. split.
  - unfold Gpt4o.main.
    cbn [settings_run verbose_output recoverable_output noargs file_name
         negb andb orb when].
    unfold device_name_of in H. unfold bind at 1 2 3 4. simpl.
    unfold bind at 1. now rewrite H.
  - pose proof (gpt4o_apply_settings_off (device_name_of f) argv
                  (zero_termios, false) w) as Hoff.
    now rewrite H in Hoff.
Qed.

End RejectedRun.

(** X14.  Settings that the validation pass rejects touch nothing: when
    [apply_settings] with [checking] true exits, [main] exits there with
    the same status, and by then it has made no call on the device (it
    has not even opened it) and written nothing to standard output; this
    holds in both drafts. *)
Theorem rejected_run_touches_nothing `{P : platform} `{X : externals}
    (f : option string) (argv : list (option string)) (w w' : world)
    (status : Z) :
  (Gemini.apply_settings true (device_name_of f) argv (zero_termios, false) w
     = Exit status w' ->
   Gemini.main (settings_run f) argv w = Exit status w' /\
   calls w' = calls w /\ out w' = out w) /\
  (Gpt4o.apply_settings true (device_name_of f) argv (zero_termios, false) w
     = Exit status w' ->
   Gpt4o.main (settings_run f) argv w = Exit status w' /\
   calls w' = calls w /\ out w' = out w).
Proof. split; [apply gemini_rejected_run | apply gpt4o_rejected_run]. Qed.

Lemma rejected_run_touches_nothing_witness :
  @Gemini.main linux example_env (settings_run None)
    [ Some "stty"; Some "cs8"; Some "rows" ] initial_world
  = Exit EXIT_FAILURE
      (put_err (@emit_try_help example_env)
         (put_err "missing argument to 'rows'" initial_world)).
Proof.
  apply (@rejected_run_touches_nothing linux example_env None
           [ Some "stty"; Some "cs8"; Some "rows" ] initial_world).
  vm_compute. reflexivity.
Defined.
(** ** The calls a run makes on the device *)

Section Emits.
Context `{X : externals}.
Variable P : dev_call -> Prop.

Lemma emits_ret {A} (a : A) : emits P (ret a).
Proof. intros w. exists []. split; [symmetry; apply app_nil_r | constructor]. Qed.

Lemma emits_bind {A B} (c : M A) (k : A -> M B) :
  emits P c -> (forall a, emits P (k a)) -> emits P (bind c k).
Proof.
  intros Hc Hk w. unfold bind. destruct (Hc w) as (l1 & H1 & F1).
  destruct (c w) as [a w' | s w' | w']; simpl in *;
    [| exists l1; now split | exists l1; now split].
  destruct (Hk a w') as (l2 & H2 & F2).
  exists (l1 ++ l2). split.
  - rewrite H2, H1. symmetry. apply app_assoc.
  - apply List.Forall_app. now split.
Qed.

Lemma emits_still {A} (c : M A) :
  (forall w, calls (world_after (c w)) = calls w) -> emits P c.
Proof.
  intros H w. exists []. split; [| constructor].
  rewrite H. symmetry. apply app_nil_r.
Qed.

Lemma emits_off_device {A} (c : M A) : off_device c -> emits P c.
Proof. intros H. apply emits_still. intros w. apply H. Qed.

Lemma emits_call c : P c -> emits P (call c).
Proof.
  intros Hc w. exists [c]. split; [reflexivity | now constructor].
Qed.

End Emits.

(** One step of a proof of [emits]; [tac] shows that a call is of the
    kind allowed. *)
Ltac emits_step tac :=
  match goal with
  | |- emits _ (ret _) => apply emits_ret
  | |- emits _ (bind _ _) => apply emits_bind; [| intros ?]
  | |- emits _ (call _) => apply emits_call; tac
  | |- emits _ (modify _) => apply emits_still; intros ?; reflexivity
  | |- emits _ (gets _) => apply emits_still; intros ?; reflexivity
  | |- emits _ (exit _) => apply emits_still; intros ?; reflexivity
  | |- emits _ undefined_behaviour => apply emits_still; intros ?; reflexivity
  | |- emits _ (putchar _) => apply emits_still; intros ?; reflexivity
  | |- emits _ (fputs_stdout _) => apply emits_still; intros ?; reflexivity
  | |- emits _ (error_continue _) => apply emits_still; intros ?; reflexivity
  | |- emits _ (error_exit _) => apply emits_still; intros ?; reflexivity
  | |- emits _ usage_failure => apply emits_still; intros ?; reflexivity
  | |- emits _ abort => apply emits_still; intros ?; reflexivity
  | |- emits _ (integer_arg _ _) =>
      apply emits_off_device, off_device_integer_arg
  | |- emits _ (when ?b _) => unfold when
  | |- emits _ (if ?b then _ else _) => destruct b
  | |- emits _ (match ?x with _ => _ end) => destruct x
  | |- emits _ (let '(_, _) := ?x in _) => destruct x
  end.

Create HintDb emits_db.

Ltac emits_known := solve [auto 1 with emits_db nocore].
Ltac emits_go tac := repeat first [ emits_known | emits_step tac ].

(** A loop over a table: induction on the table, whatever the state the
    loop carries. *)
Ltac emits_loop tac :=
  match goal with
  | |- emits ?Q (?f ?l0 ?e0 ?e1) =>
      lazymatch type of l0 with
      | list _ =>
          let H := fresh "H" in
          let l := fresh "l" in
          let IH := fresh "IH" in
          assert (H : forall l e e', emits Q (f l e e'));
          [ intros l; induction l as [| ? l IH]; intros ? ?; simpl;
            repeat first [ apply IH | emits_known | emits_step tac ]
          | apply H ]
      end
  | |- emits ?Q (?f ?l0 ?e0) =>
      lazymatch type of l0 with
      | list _ =>
          let H := fresh "H" in
          let l := fresh "l" in
          let IH := fresh "IH" in
          assert (H : forall l e, emits Q (f l e));
          [ intros l; induction l as [| ? l IH]; intros ?; simpl;
            repeat first [ apply IH | emits_known | emits_step tac ]
          | apply H ]
      end
  | |- emits ?Q (?f ?l0) =>
      lazymatch type of l0 with
      | list _ =>
          let H := fresh "H" in
          let l := fresh "l" in
          let IH := fresh "IH" in
          assert (H : forall l, emits Q (f l));
          [ intros l; induction l as [| ? l IH]; simpl;
            repeat first [ apply IH | emits_known | emits_step tac ]
          | apply H ]
      end
  end.
Ltac emits_auto tac := emits_go tac; try (emits_loop tac).

Section Writers.
Context `{P : platform} `{X : externals}.
Variable Q : dev_call -> Prop.

Lemma gemini_wrapf_emits buf : emits Q (Gemini.wrapf buf).
Proof. unfold Gemini.wrapf. emits_go idtac. Qed.

Lemma gpt4o_wrapf_emits buf : emits Q (Gpt4o.wrapf buf).
Proof. unfold Gpt4o.wrapf, Gpt4o.safeOutput. emits_go idtac. Qed.

End Writers.

#[export] Hint Resolve gemini_wrapf_emits gpt4o_wrapf_emits : emits_db.

Section Displays.
Context `{P : platform} `{X : externals}.
Variable Q : dev_call -> Prop.

Lemma gemini_display_speed_emits m fancy : emits Q (Gemini.display_speed m fancy).
Proof. unfold Gemini.display_speed. emits_go idtac. Qed.

Lemma gpt4o_display_speed_emits m fancy : emits Q (Gpt4o.display_speed m fancy).
Proof. unfold Gpt4o.display_speed. emits_go idtac. Qed.

Lemma gemini_newline_emits e : emits Q (Gemini.print_newline_if_needed e).
Proof. unfold Gemini.print_newline_if_needed. emits_go idtac. Qed.

Lemma gemini_start_new_line_emits : emits Q Gemini.start_new_line.
Proof. unfold Gemini.start_new_line. emits_go idtac. Qed.

Lemma gemini_one_mode_flag_emits info m e :
  emits Q (Gemini.display_one_mode_flag info m e).
Proof. unfold Gemini.display_one_mode_flag. emits_go idtac. Qed.

Lemma gpt4o_changed_flag_emits info m st :
  emits Q (Gpt4o.display_changed_flag info m st).
Proof.
  unfold Gpt4o.display_changed_flag, Gpt4o.start_flag_group. emits_go idtac.
Qed.

Lemma gemini_recoverable_emits m : emits Q (Gemini.display_recoverable m).
Proof.
  unfold Gemini.display_recoverable. emits_go idtac.
  induction (seq 0 NCCS) as [| i l IH]; simpl; emits_go idtac.
Qed.

Lemma gpt4o_recoverable_emits m : emits Q (Gpt4o.display_recoverable m).
Proof.
  unfold Gpt4o.display_recoverable. emits_go idtac.
  induction (seq 0 NCCS) as [| i l IH]; simpl; emits_go idtac.
Qed.

End Displays.

#[export] Hint Resolve gemini_display_speed_emits gpt4o_display_speed_emits
  gemini_newline_emits gemini_start_new_line_emits gemini_one_mode_flag_emits
  gpt4o_changed_flag_emits gemini_recoverable_emits gpt4o_recoverable_emits
  : emits_db.

Section ChangedOutput.
Context `{P : platform} `{X : externals}.
Variable Q : dev_call -> Prop.

Lemma gemini_control_chars_emits m : emits Q (Gemini.display_control_chars m).
Proof. unfold Gemini.display_control_chars. emits_go idtac. emits_loop idtac. Qed.

Lemma gemini_mode_flags_emits m : emits Q (Gemini.display_mode_flags m).
Proof. unfold Gemini.display_mode_flags. emits_go idtac. emits_loop idtac. Qed.

Lemma gemini_until_min_emits body l :
  (forall ci, emits Q (body ci)) -> emits Q (Gemini.until_min body l).
Proof.
  intros Hbody. induction l as [| ci l IH]; simpl; emits_go idtac.
Qed.

Lemma gemini_control_characters_emits m :
  emits Q (Gemini.display_control_characters m).
Proof.
  unfold Gemini.display_control_characters. emits_go idtac.
  apply gemini_until_min_emits. intros ci. emits_go idtac.
Qed.

Lemma gemini_terminal_modes_emits m : emits Q (Gemini.display_terminal_modes m).
Proof. unfold Gemini.display_terminal_modes. emits_loop idtac. Qed.

Lemma gpt4o_display_changed_emits m : emits Q (Gpt4o.display_changed m).
Proof. unfold Gpt4o.display_changed. emits_go idtac; emits_loop idtac. Qed.

End ChangedOutput.

#[export] Hint Resolve gemini_control_chars_emits gemini_mode_flags_emits
  gemini_control_characters_emits gemini_terminal_modes_emits
  gpt4o_display_changed_emits : emits_db.

(** What the display routines ask of the device is read-only. *)
Section Readers.
Context `{P : platform} `{X : externals}.
Variable Q : dev_call -> Prop.
Hypothesis Hreads : forall c, reads_only c -> Q c.

Ltac read_call := apply Hreads; reflexivity.

Lemma gemini_screen_columns_emits : emits Q Gemini.screen_columns.
Proof.
  unfold Gemini.screen_columns, Gemini.get_win_size. emits_go read_call.
Qed.

Lemma gpt4o_screen_columns_emits : emits Q Gpt4o.screen_columns.
Proof.
  unfold Gpt4o.screen_columns, Gpt4o.get_win_size. emits_go read_call.
Qed.

Lemma gemini_window_size_emits fancy device_name :
  emits Q (Gemini.display_window_size fancy device_name).
Proof.
  unfold Gemini.display_window_size, Gemini.get_win_size. emits_go read_call.
Qed.

Lemma gpt4o_window_size_emits fancy device_name :
  emits Q (Gpt4o.display_window_size fancy device_name).
Proof.
  unfold Gpt4o.display_window_size, Gpt4o.get_win_size. emits_go read_call.
Qed.

Lemma gemini_display_settings_emits ot m device_name :
  emits Q (Gemini.display_settings ot m device_name).
Proof.
  pose proof gemini_window_size_emits.
  unfold Gemini.display_settings, Gemini.display_changed, Gemini.display_all.
  emits_go read_call.
Qed.

Lemma gpt4o_display_settings_emits ot m device_name :
  emits Q (Gpt4o.display_settings ot m device_name).
Proof.
  pose proof gpt4o_window_size_emits.
  unfold Gpt4o.display_settings, Gpt4o.display_all.
  emits_go read_call; emits_loop read_call.
Qed.

Lemma gemini_get_attributes_emits device_name :
  emits Q (Gemini.get_terminal_attributes device_name).
Proof. unfold Gemini.get_terminal_attributes. emits_go read_call. Qed.

Lemma gemini_open_device_emits f : emits Q (Gemini.open_device_file f).
Proof. unfold Gemini.open_device_file. emits_go read_call. Qed.

End Readers.

(** X15.  A run that only displays never changes the device: with no
    settings, or with -a or -g, every call that [main] makes on the
    device is read-only (no tcsetattr, no TIOCSWINSZ, no TIOCEXT),
    however the run ends; this holds in both drafts. *)
Theorem display_run_reads_only `{P : platform} `{X : externals}
    (config : stty_config) (argv : list (option string)) :
  (match cfg_output_type config with changed => noargs config | _ => true end
   = true ->
   emits reads_only (Gemini.main config argv)) /\
  (verbose_output config || recoverable_output config || noargs config = true ->
   emits reads_only (Gpt4o.main config argv)).
Proof.
  assert (Hreads : forall c, reads_only c -> reads_only c) by auto.
  pose proof (gemini_screen_columns_emits reads_only Hreads).
  pose proof (gemini_display_settings_emits reads_only Hreads).
  pose proof (gpt4o_display_settings_emits reads_only Hreads).
  pose proof (gemini_get_attributes_emits reads_only Hreads).
  pose proof (gemini_open_device_emits reads_only Hreads).
  split; intros Hmode.
  - unfold Gemini.main. rewrite Hmode. cbn [negb when].
    emits_go ltac:(reflexivity).
  - unfold Gpt4o.main. rewrite Hmode.
    assert (Hpass : negb (noargs config) && negb (verbose_output config)
                    && negb (recoverable_output config) = false).
    { destruct (noargs config), (verbose_output config),
        (recoverable_output config); try reflexivity; discriminate Hmode. }
    rewrite Hpass. emits_go ltac:(reflexivity).
Qed.

Lemma display_run_reads_only_witness :
  emits reads_only
    (@Gemini.main linux example_env
       {| cfg_output_type := all; verbose_output := true;
          recoverable_output := false; noargs := true; file_name := None |}
       [ Some "stty"; None ]).
Proof.
  apply (@display_run_reads_only linux example_env). reflexivity.
Defined.

(** The settings loop asks for the window size, sets it, and sets
    "extproc"; it never calls tcsetattr. *)
Section SettingsLoop.
Context `{P : platform} `{X : externals}.
Variable Q : dev_call -> Prop.
Hypothesis Hreads : forall c, reads_only c -> Q c.
Hypothesis Hwinsize : forall rows cols, Q (Ioctl_TIOCSWINSZ rows cols).
Hypothesis Hext : forall val, Q (Ioctl_TIOCEXT val).

Ltac loop_call := first [ apply Hwinsize | apply Hext | apply Hreads; reflexivity ].

Lemma gpt4o_set_window_size_emits rows cols device_name :
  emits Q (Gpt4o.set_window_size rows cols device_name).
Proof.
  unfold Gpt4o.set_window_size, Gpt4o.get_win_size. emits_go loop_call.
Qed.

Lemma gpt4o_apply_unmatched_emits arg reversed checking device_name rest st :
  emits Q (Gpt4o.apply_unmatched arg reversed checking device_name rest st).
Proof.
  pose proof gpt4o_set_window_size_emits.
  pose proof (gpt4o_screen_columns_emits Q Hreads).
  pose proof (gpt4o_window_size_emits Q Hreads).
  pose proof (fun t a m => emits_off_device Q _ (gpt4o_set_speed_off t a m)).
  unfold Gpt4o.apply_unmatched, Gpt4o.missing_argument. emits_go loop_call.
Qed.

Lemma gpt4o_apply_one_emits checking device_name arg0 rest st :
  emits Q (Gpt4o.apply_one checking device_name arg0 rest st).
Proof.
  pose proof gpt4o_apply_unmatched_emits.
  pose proof (fun i a m => emits_off_device Q _ (gpt4o_set_control_char_off i a m)).
  unfold Gpt4o.apply_one, Gpt4o.missing_argument. emits_go loop_call.
Qed.

Lemma gpt4o_apply_settings_from_emits checking device_name n :
  forall settings st, (length settings <= n)%nat ->
    emits Q (Gpt4o.apply_settings_from checking device_name settings st).
Proof.
  induction n as [| n IH]; intros [| [arg0 |] rest] st Hlen;
    simpl in Hlen; try lia; cbn [Gpt4o.apply_settings_from];
    try apply emits_ret; try (apply IH; lia).
  apply emits_bind; [apply gpt4o_apply_one_emits |].
  intros [consumed st']. destruct consumed; [| apply IH; lia].
  destruct rest as [| a rest']; [apply emits_ret |].
  apply IH. simpl in Hlen. lia.
Qed.

Lemma gpt4o_apply_settings_emits checking device_name settings st :
  emits Q (Gpt4o.apply_settings checking device_name settings st).
Proof.
  pose proof (fun m => emits_off_device Q _ (gpt4o_check_speed_off m)).
  unfold Gpt4o.apply_settings. apply emits_bind.
  - now apply (gpt4o_apply_settings_from_emits checking device_name
                 (length (tl settings))).
  - intros st'. emits_go loop_call.
Qed.

Lemma gemini_set_window_size_emits rows cols device_name :
  emits Q (Gemini.set_window_size rows cols device_name).
Proof.
  unfold Gemini.set_window_size, Gemini.get_win_size. emits_go loop_call.
Qed.

Lemma gemini_apply_unmatched_emits arg reversed checking device_name rest st :
  emits Q (Gemini.apply_unmatched arg reversed checking device_name rest st).
Proof.
  pose proof gemini_set_window_size_emits.
  pose proof (gemini_screen_columns_emits Q Hreads).
  pose proof (gemini_window_size_emits Q Hreads).
  pose proof (fun t a m => emits_off_device Q _ (gemini_set_speed_off t a m)).
  unfold Gemini.apply_unmatched, Gemini.apply_special_setting,
    Gemini.handle_speed_arg_setting, Gemini.handle_window_size_setting,
    Gemini.check_missing_argument.
  emits_go loop_call.
Qed.

Lemma gemini_apply_one_emits checking device_name arg0 rest st :
  emits Q (Gemini.apply_one checking device_name arg0 rest st).
Proof.
  pose proof gemini_apply_unmatched_emits.
  pose proof (fun i a m => emits_off_device Q _ (gemini_set_control_char_off i a m)).
  unfold Gemini.apply_one, Gemini.check_missing_argument. emits_go loop_call.
Qed.

Lemma gemini_apply_settings_from_emits checking device_name n :
  forall settings st, (length settings <= n)%nat ->
    emits Q (Gemini.apply_settings_from checking device_name settings st).
Proof.
  induction n as [| n IH]; intros [| [arg0 |] rest] st Hlen;
    simpl in Hlen; try lia; cbn [Gemini.apply_settings_from];
    try apply emits_ret; try (apply IH; lia).
  apply emits_bind; [apply gemini_apply_one_emits |].
  intros [consumed st']. destruct consumed; [| apply IH; lia].
  destruct rest as [| a rest']; [apply emits_ret |].
  apply IH. simpl in Hlen. lia.
Qed.

Lemma gemini_apply_settings_emits checking device_name settings st :
  emits Q (Gemini.apply_settings checking device_name settings st).
Proof.
  pose proof (fun m => emits_off_device Q _ (gemini_check_speed_off m)).
  unfold Gemini.apply_settings. apply emits_bind.
  - now apply (gemini_apply_settings_from_emits checking device_name
                 (length (tl settings))).
  - intros st'. emits_go loop_call.
Qed.

End SettingsLoop.

(** X16.  The settings loop never commits a snapshot: whatever the
    settings, with [checking] true or false, [apply_settings] makes no
    tcsetattr call in either draft; what it calls is read-only, or sets
    the window size or "extproc". *)
Theorem settings_loop_never_commits `{P : platform} `{X : externals}
    (checking : bool) (device_name : string)
    (settings : list (option string)) (st : struct_termios * bool) :
  emits no_tcsetattr (Gemini.apply_settings checking device_name settings st) /\
  emits no_tcsetattr (Gpt4o.apply_settings checking device_name settings st).
Proof.
  assert (Hreads : forall c, reads_only c -> no_tcsetattr c).
  { intros c H. destruct c; simpl; try exact I. discriminate H. }
  split.
  - apply gemini_apply_settings_emits; [exact Hreads | | ]; intros; exact I.
  - apply gpt4o_apply_settings_emits; [exact Hreads | | ]; intros; exact I.
Qed.

Lemma reads_set_at_once c : reads_only c -> sets_at_once c.
Proof. destruct c; simpl; intros H; try exact I. discriminate H. Qed.

(** X17.  In the second draft the drain setting is without effect:
    whatever the settings and however the run ends, every tcsetattr that
    [main] calls carries TCSANOW. *)
Theorem gpt4o_sets_at_once `{P : platform} `{X : externals}
    (config : stty_config) (argv : list (option string)) :
  emits sets_at_once (Gpt4o.main config argv).
Proof.
  pose proof (gpt4o_apply_settings_emits sets_at_once reads_set_at_once
                (fun _ _ => I) (fun _ => I)).
  pose proof (gpt4o_display_settings_emits sets_at_once reads_set_at_once).
  unfold Gpt4o.main. emits_go ltac:(exact I || reflexivity).
Qed.
(** ** Settings that take an argument *)

Section WindowSizeNames.
Context `{P : platform}.

Lemma rows_no_flag : find (fun i => STREQ "rows" (name i)) mode_info = None.
Proof. unfold mode_info. cbn [defined orb andb]. none_piece. Qed.

Lemma cols_no_flag : find (fun i => STREQ "cols" (name i)) mode_info = None.
Proof. unfold mode_info. cbn [defined orb andb]. none_piece. Qed.

Lemma columns_no_flag : find (fun i => STREQ "columns" (name i)) mode_info = None.
Proof. unfold mode_info. cbn [defined orb andb]. none_piece. Qed.

Lemma rows_no_char : find (fun c => STREQ "rows" (ci_name c)) control_info = None.
Proof. unfold control_info. none_piece. Qed.

Lemma cols_no_char : find (fun c => STREQ "cols" (ci_name c)) control_info = None.
Proof. unfold control_info. none_piece. Qed.

Lemma columns_no_char :
  find (fun c => STREQ "columns" (ci_name c)) control_info = None.
Proof. unfold control_info. none_piece. Qed.

End WindowSizeNames.

Section WindowSizeChecked.
Context `{P : platform} `{X : externals}.
Hypothesis Hwinsz : TIOCGWINSZ = true.
Variables (device_name a : string) (rest : list (option string)).
Variables (st : struct_termios * bool) (w : world).

Lemma gemini_checks_size_argument arg :
  STREQ arg "drain" = false -> Ascii.eqb (hd_c arg) "-" = false ->
  find (fun i => STREQ arg (name i)) mode_info = None ->
  find (fun c => STREQ arg (ci_name c)) control_info = None ->
  STREQ arg "ispeed" || STREQ arg "ospeed" = false ->
  STREQ arg "rows" || (STREQ arg "cols" || STREQ arg "columns") = true ->
  Gemini.apply_settings_from true device_name (Some arg :: Some a :: rest) st w
  = Gemini.apply_settings_from true device_name rest st w.
Proof.
  intros Hdrain Hrev Hmode Hci Hspeed Hname.
  cbn [Gemini.apply_settings_from]. unfold Gemini.apply_one.
  rewrite Hrev, Hdrain, Hmode. cbn [negb andb]. rewrite Hci.
  unfold Gemini.apply_unmatched, Gemini.apply_special_setting,
    Gemini.handle_speed_arg_setting, Gemini.handle_window_size_setting.
  rewrite Hspeed, Hwinsz. cbn [negb].
  destruct (STREQ arg "rows"); [reflexivity |].
  cbn [orb] in Hname. rewrite Hname. reflexivity.
Qed.

Lemma gpt4o_rereads_size_argument arg :
  STREQ arg "drain" = false -> Ascii.eqb (hd_c arg) "-" = false ->
  find (fun i => STREQ arg (name i)) mode_info = None ->
  find (fun c => STREQ arg (ci_name c)) control_info = None ->
  STREQ arg "ispeed" || STREQ arg "ospeed" = false ->
  TIOCEXT && STREQ arg "extproc" = false ->
  STREQ arg "rows" || STREQ arg "cols" || STREQ arg "columns" = true ->
  Gpt4o.apply_settings_from true device_name (Some arg :: Some a :: rest) st w
  = Gpt4o.apply_settings_from true device_name (Some a :: rest) st w.
Proof.
  intros Hdrain Hrev Hmode Hci Hspeed Hext Hname.
  cbn [Gpt4o.apply_settings_from]. unfold Gpt4o.apply_one.
  rewrite Hrev, Hdrain, Hmode. cbn [negb andb]. rewrite Hci.
  unfold Gpt4o.apply_unmatched.
  rewrite Hspeed, Hext, Hwinsz, Hname. reflexivity.
Qed.

End WindowSizeChecked.

(** X18.  In the validation pass the first draft steps over the
    argument of "rows", "cols" and "columns" without reading it; the
    second draft does not step over it and reads it as a setting of its
    own (where TIOCGWINSZ exists). *)
Theorem window_size_argument_in_checking `{P : platform} `{X : externals}
    (arg a device_name : string) (rest : list (option string))
    (st : struct_termios * bool) (w : world) :
  TIOCGWINSZ = true ->
  arg = "rows" \/ arg = "cols" \/ arg = "columns" ->
  Gemini.apply_settings_from true device_name (Some arg :: Some a :: rest) st w
  = Gemini.apply_settings_from true device_name rest st w /\
  Gpt4o.apply_settings_from true device_name (Some arg :: Some a :: rest) st w
  = Gpt4o.apply_settings_from true device_name (Some a :: rest) st w.
Proof.
  intros Hwinsz [-> | [-> | ->]]; split;
    first [ apply gemini_checks_size_argument
          | apply gpt4o_rereads_size_argument ];
    first [ exact Hwinsz | apply rows_no_flag | apply cols_no_flag
          | apply columns_no_flag | apply rows_no_char | apply cols_no_char
          | apply columns_no_char | reflexivity
          | apply andb_false_r ].
Qed.

Lemma window_size_argument_in_checking_witness :
  @Gpt4o.apply_settings_from linux example_env true "standard input"
    [ Some "rows"; Some "x" ] (@zero_termios linux, false) initial_world
  = @Gpt4o.apply_settings_from linux example_env true "standard input"
      [ Some "x" ] (@zero_termios linux, false) initial_world.
Proof.
  apply (@window_size_argument_in_checking linux example_env "rows" "x"
           "standard input" [] (@zero_termios linux, false) initial_world);
    [reflexivity | left; reflexivity].
Defined.

(** *** A missing argument *)

Lemma STREQ_eq a b : STREQ a b = true -> a = b.
Proof. unfold STREQ. apply String.eqb_eq. Qed.

Section ArgumentNames.
Context `{P : platform}.

Lemma control_names_plain :
  List.Forall (fun ci => plain_word (ci_name ci)) control_info.
Proof.
  unfold control_info, plain_word.
  table_forall ltac:(cbn [ci_name]; split; [reflexivity |];
                     split; [reflexivity |];
                     unfold mode_info; cbn [defined orb andb]; none_piece).
Qed.

Lemma control_name_plain arg ci :
  find (fun c => STREQ arg (ci_name c)) control_info = Some ci -> plain_word arg.
Proof.
  intros H. apply find_some in H. destruct H as [Hin Heq].
  apply STREQ_eq in Heq. subst arg.
  exact (proj1 (List.Forall_forall _ _) control_names_plain ci Hin).
Qed.

Lemma other_names_plain arg :
  STREQ arg "ispeed" || STREQ arg "ospeed"
  || (TIOCGWINSZ && (STREQ arg "rows" || STREQ arg "cols" || STREQ arg "columns"))
  || (HAVE_C_LINE && STREQ arg "line") = true ->
  plain_word arg.
Proof.
  intros H.
  assert (Hcases : arg = "ispeed" \/ arg = "ospeed" \/ arg = "rows"
                   \/ arg = "cols" \/ arg = "columns" \/ arg = "line").
  { repeat (apply orb_true_iff in H; destruct H as [H | H]);
      repeat (apply andb_true_iff in H; destruct H as [_ H]);
      repeat (apply orb_true_iff in H; destruct H as [H | H]);
      apply STREQ_eq in H; tauto. }
  unfold plain_word.
  destruct Hcases as [-> | [-> | [-> | [-> | [-> | ->]]]]];
    (split; [reflexivity |]; split; [reflexivity |];
     unfold mode_info; cbn [defined orb andb]; none_piece).
Qed.

End ArgumentNames.

Section MissingArgument.
Context `{P : platform} `{X : externals}.
Variables (checking : bool) (device_name arg : string).
Variables (rest : list (option string)) (st : struct_termios * bool).
Variable w : world.
Hypothesis Htakes : takes_argument arg = true.
Hypothesis Hrest : nothing_follows rest.

Lemma no_next_arg : Gemini.next_arg rest = None /\ Gpt4o.next_arg rest = None.
Proof. destruct Hrest as [-> | [rest' ->]]; split; reflexivity. Qed.

Lemma takes_argument_plain : plain_word arg.
Proof.
  unfold takes_argument in Htakes.
  destruct (find (fun c => STREQ arg (ci_name c)) control_info) as [ci |] eqn:Hci.
  - exact (control_name_plain arg ci Hci).
  - exact (other_names_plain arg Htakes).
Qed.

Lemma line_is_left :
  HAVE_C_LINE && STREQ arg "line" = true ->
  HAVE_C_LINE = true /\ arg = "line".
Proof.
  intros H. apply andb_true_iff in H. destruct H as [H1 H2].
  split; [exact H1 | now apply STREQ_eq].
Qed.

Lemma gemini_missing_argument :
  Gemini.apply_one checking device_name arg rest st w
  = fatal_missing_argument arg w.
Proof.
  destruct takes_argument_plain as (Hrev & Hdrain & Hmode).
  destruct no_next_arg as [Hnext _].
  pose proof Htakes as Ht. unfold takes_argument in Ht.
  unfold Gemini.apply_one. rewrite Hrev, Hdrain, Hmode. cbn [negb andb].
  destruct (find (fun c => STREQ arg (ci_name c)) control_info) as [ci |].
  - unfold Gemini.check_missing_argument. rewrite Hnext. reflexivity.
  - unfold Gemini.apply_unmatched, Gemini.apply_special_setting,
      Gemini.handle_speed_arg_setting, Gemini.handle_window_size_setting,
      Gemini.check_missing_argument.
    rewrite Hnext. revert Ht.
    destruct (STREQ arg "ispeed" || STREQ arg "ospeed"); [reflexivity |].
    destruct TIOCGWINSZ; cbn [negb andb orb].
    + destruct (STREQ arg "rows"); [reflexivity |]. cbn [orb].
      destruct (STREQ arg "cols" || STREQ arg "columns"); [reflexivity |].
      cbn [orb]. intros Ht. destruct (line_is_left Ht) as [Hline ->].
      rewrite Hline, andb_false_r. reflexivity.
    + intros Ht. destruct (line_is_left Ht) as [Hline ->].
      rewrite Hline, andb_false_r. reflexivity.
Qed.

Lemma gpt4o_missing_argument :
  Gpt4o.apply_one checking device_name arg rest st w
  = fatal_missing_argument arg w.
Proof.
  destruct takes_argument_plain as (Hrev & Hdrain & Hmode).
  destruct no_next_arg as [_ Hnext].
  pose proof Htakes as Ht. unfold takes_argument in Ht.
  unfold Gpt4o.apply_one. rewrite Hrev, Hdrain, Hmode. cbn [negb andb].
  destruct (find (fun c => STREQ arg (ci_name c)) control_info) as [ci |].
  - rewrite Hnext. reflexivity.
  - unfold Gpt4o.apply_unmatched. rewrite Hnext. revert Ht.
    destruct (STREQ arg "ispeed" || STREQ arg "ospeed"); [reflexivity |].
    cbn [orb].
    destruct (STREQ arg "extproc") eqn:He.
    { apply STREQ_eq in He. subst arg.
      destruct TIOCGWINSZ, HAVE_C_LINE; intros Ht; discriminate Ht. }
    rewrite andb_false_r.
    destruct TIOCGWINSZ; cbn [negb andb orb].
    + destruct (STREQ arg "rows" || STREQ arg "cols" || STREQ arg "columns");
        [reflexivity |].
      cbn [orb]. intros Ht. destruct (line_is_left Ht) as [Hline ->].
      rewrite Hline. reflexivity.
    + intros Ht. destruct (line_is_left Ht) as [Hline ->].
      rewrite Hline. reflexivity.
Qed.

End MissingArgument.

(** X19.  A setting that takes an argument (a control character, ispeed,
    ospeed, rows, cols, columns, line) and is the last token, or is
    followed by a null, is a fatal error in both drafts and in both
    passes: "missing argument to" with the name quoted, the hint of
    [usage], and the exit with a failure status; the snapshot and the
    device are not reached. *)
Theorem missing_argument_is_fatal `{P : platform} `{X : externals}
    (checking : bool) (device_name arg : string)
    (rest : list (option string)) (st : struct_termios * bool) (w : world) :
  takes_argument arg = true -> nothing_follows rest ->
  Gemini.apply_one checking device_name arg rest st w
    = fatal_missing_argument arg w /\
  Gpt4o.apply_one checking device_name arg rest st w
    = fatal_missing_argument arg w.
Proof.
  intros Htakes Hrest. split.
  - now apply gemini_missing_argument.
  - now apply gpt4o_missing_argument.
Qed.

Lemma missing_argument_is_fatal_witness :
  @Gemini.apply_one linux example_env false "standard input" "erase"
    [ None; Some "x" ] (@zero_termios linux, false) initial_world
  = @fatal_missing_argument example_env _ "erase" initial_world.
Proof.
  apply (@missing_argument_is_fatal linux example_env false "standard input"
           "erase" [ None; Some "x" ] (@zero_termios linux, false)
           initial_world).
  - reflexivity.
  - right. eexists. reflexivity.
Defined.
(** ** A bare speed *)

Lemma find_none_all {A} (f : A -> bool) l :
  List.Forall (fun x => f x = false) l -> find f l = None.
Proof.
  induction 1 as [| x l Hx _ IH]; simpl; [reflexivity |]. now rewrite Hx.
Qed.

Lemma digit_head_differs s t :
  c_isdigit (hd_c s) = true -> c_isdigit (hd_c t) = false -> STREQ s t = false.
Proof.
  intros Hs Ht. destruct (STREQ s t) eqn:E; [| reflexivity].
  apply STREQ_eq in E. subst t. congruence.
Qed.

Section NumberTokens.
Context `{P : platform}.

Lemma flag_names_no_digit :
  List.Forall (fun i => c_isdigit (hd_c (name i)) = false) mode_info.
Proof. unfold mode_info. table_forall ltac:(reflexivity). Qed.

Lemma control_names_no_digit :
  List.Forall (fun c => c_isdigit (hd_c (ci_name c)) = false) control_info.
Proof. unfold control_info. table_forall ltac:(reflexivity). Qed.

Lemma number_no_flag s :
  c_isdigit (hd_c s) = true ->
  find (fun i => STREQ s (name i)) mode_info = None.
Proof.
  intros Hs. apply find_none_all.
  eapply List.Forall_impl; [| exact flag_names_no_digit].
  intros i Hi. now apply digit_head_differs.
Qed.

Lemma number_no_char s :
  c_isdigit (hd_c s) = true ->
  find (fun c => STREQ s (ci_name c)) control_info = None.
Proof.
  intros Hs. apply find_none_all.
  eapply List.Forall_impl; [| exact control_names_no_digit].
  intros i Hi. now apply digit_head_differs.
Qed.

Lemma speed_words_plain word :
  word = "ispeed" \/ word = "ospeed" ->
  plain_word word /\
  find (fun c => STREQ word (ci_name c)) control_info = None.
Proof.
  unfold plain_word.
  intros [-> | ->]; (split; [split; [reflexivity | split; [reflexivity |]] |]);
    first [ unfold mode_info; cbn [defined orb andb]; none_piece
          | unfold control_info; none_piece ].
Qed.

End NumberTokens.

Section BareSpeed.
Context `{P : platform} `{X : externals}.
Variable n : string.
Hypothesis Hdigit : c_isdigit (hd_c n) = true.
Hypothesis Hspeed : string_to_baud n <> SPEED_INVALID.

Lemma number_not_minus : Ascii.eqb (hd_c n) "-" = false.
Proof.
  destruct (Ascii.eqb (hd_c n) "-") eqn:E; [| reflexivity].
  apply Ascii.eqb_eq in E. rewrite E in Hdigit. discriminate Hdigit.
Qed.

Lemma number_is_not word :
  c_isdigit (hd_c word) = false -> STREQ n word = false.
Proof. now apply digit_head_differs. Qed.

Lemma speed_is_valid : (string_to_baud n =? SPEED_INVALID) = false.
Proof. now apply Z.eqb_neq. Qed.

Lemma gemini_bare_speed checking device_name rest m b w :
  Gemini.apply_one checking device_name n rest (m, b) w
  = (m' <- Gemini.set_speed both_speeds n m ;;
     ret (false, (m', if negb checking then true else b))) w.
Proof.
  unfold Gemini.apply_one.
  rewrite number_not_minus, (number_is_not "drain"), (number_no_flag n),
    (number_no_char n) by (assumption || reflexivity).
  cbn [negb andb fst snd].
  unfold Gemini.apply_unmatched, Gemini.apply_special_setting,
    Gemini.handle_speed_arg_setting, Gemini.handle_window_size_setting.
  rewrite !number_is_not by reflexivity.
  rewrite speed_is_valid, !andb_false_r. cbn [negb orb].
  destruct TIOCGWINSZ; cbn [negb]; unfold bind, ret; cbn [fst snd];
    destruct (Gemini.set_speed both_speeds n m w); reflexivity.
Qed.

Lemma gpt4o_bare_speed checking device_name rest m b w :
  Gpt4o.apply_one checking device_name n rest (m, b) w
  = (m' <- Gpt4o.set_speed both_speeds n m ;;
     ret (false, (m', if negb checking then true else b))) w.
Proof.
  unfold Gpt4o.apply_one.
  rewrite number_not_minus, (number_is_not "drain"), (number_no_flag n),
    (number_no_char n) by (assumption || reflexivity).
  cbn [negb andb fst snd].
  unfold Gpt4o.apply_unmatched.
  rewrite !number_is_not by reflexivity.
  rewrite speed_is_valid, !andb_false_r. reflexivity.
Qed.

Lemma gemini_speed_word word checking device_name rest m b w :
  word = "ispeed" \/ word = "ospeed" ->
  Gemini.apply_one checking device_name word (Some n :: rest) (m, b) w
  = (m' <- Gemini.set_speed
             (if STREQ word "ispeed" then input_speed else output_speed) n m ;;
     ret (true, (m', if negb checking then true else b))) w.
Proof.
  intros Hword. unfold Gemini.apply_one.
  destruct (speed_words_plain word Hword) as ((Hrev & Hdrain & Hmode) & Hci).
  rewrite Hrev, Hdrain, Hmode. cbn [negb andb fst snd]. rewrite Hci.
  unfold Gemini.apply_unmatched, Gemini.apply_special_setting,
    Gemini.handle_speed_arg_setting, Gemini.check_missing_argument.
  cbn [Gemini.next_arg].
  destruct Hword as [-> | ->]; cbn [STREQ String.eqb Ascii.eqb Bool.eqb hd_c orb];
    unfold bind at 1 2 3; unfold ret at 1; rewrite speed_is_valid;
    unfold bind, ret; cbn [fst snd];
    match goal with |- context [Gemini.set_speed ?t n m w] =>
      destruct (Gemini.set_speed t n m w) end; reflexivity.
Qed.

Lemma gpt4o_speed_word word checking device_name rest m b w :
  word = "ispeed" \/ word = "ospeed" ->
  Gpt4o.apply_one checking device_name word (Some n :: rest) (m, b) w
  = (m' <- Gpt4o.set_speed
             (if STREQ word "ispeed" then input_speed else output_speed) n m ;;
     ret (true, (m', if negb checking then true else b))) w.
Proof.
  intros Hword. unfold Gpt4o.apply_one.
  destruct (speed_words_plain word Hword) as ((Hrev & Hdrain & Hmode) & Hci).
  rewrite Hrev, Hdrain, Hmode. cbn [negb andb fst snd]. rewrite Hci.
  unfold Gpt4o.apply_unmatched. cbn [Gpt4o.next_arg].
  destruct Hword as [-> | ->]; cbn [STREQ String.eqb Ascii.eqb Bool.eqb hd_c orb];
    rewrite speed_is_valid; reflexivity.
Qed.

Lemma gemini_set_speed_both m w :
  Gemini.set_speed both_speeds n m w
  = (m1 <- Gemini.set_speed input_speed n m ;;
     Gemini.set_speed output_speed n m1) w.
Proof.
  unfold Gemini.set_speed. rewrite speed_is_valid.
  unfold bind, modify, ret.
  destruct (cfsetispeed m (string_to_baud n)); reflexivity.
Qed.

Lemma gpt4o_set_speed_both m w :
  cfsetispeed m (string_to_baud n) <> None ->
  Gpt4o.set_speed both_speeds n m w
  = (m1 <- Gpt4o.set_speed input_speed n m ;;
     Gpt4o.set_speed output_speed n m1) w.
Proof.
  intros Hacc. unfold Gpt4o.set_speed. rewrite speed_is_valid.
  unfold bind, modify, ret. cbn [fst snd andb negb].
  destruct (cfsetispeed m (string_to_baud n)) as [m1 |]; [| contradiction].
  cbn [fst snd andb negb].
  destruct (cfsetospeed m1 (string_to_baud n)); reflexivity.
Qed.

Lemma gemini_from_cons checking device_name arg0 rest st w :
  Gemini.apply_settings_from checking device_name (Some arg0 :: rest) st w
  = match Gemini.apply_one checking device_name arg0 rest st w with
    | Ret (consumed, st') w' =>
        if consumed
        then match rest with
             | [] => Ret st' w'
             | _ :: rest' =>
                 Gemini.apply_settings_from checking device_name rest' st' w'
             end
        else Gemini.apply_settings_from checking device_name rest st' w'
    | Exit s w' => Exit s w'
    | Undefined w' => Undefined w'
    end.
Proof.
  cbn [Gemini.apply_settings_from]. unfold bind.
  destruct (Gemini.apply_one checking device_name arg0 rest st w)
    as [[[] st'] w' | |]; try reflexivity.
  now destruct rest.
Qed.

Lemma gpt4o_from_cons checking device_name arg0 rest st w :
  Gpt4o.apply_settings_from checking device_name (Some arg0 :: rest) st w
  = match Gpt4o.apply_one checking device_name arg0 rest st w with
    | Ret (consumed, st') w' =>
        if consumed
        then match rest with
             | [] => Ret st' w'
             | _ :: rest' =>
                 Gpt4o.apply_settings_from checking device_name rest' st' w'
             end
        else Gpt4o.apply_settings_from checking device_name rest st' w'
    | Exit s w' => Exit s w'
    | Undefined w' => Undefined w'
    end.
Proof.
  cbn [Gpt4o.apply_settings_from]. unfold bind.
  destruct (Gpt4o.apply_one checking device_name arg0 rest st w)
    as [[[] st'] w' | |]; try reflexivity.
  now destruct rest.
Qed.

Lemma gemini_bare_speed_same :
  gemini_same_settings [ n ] [ "ispeed"; n; "ospeed"; n ].
Proof.
  intros checking device_name rest [m b] w. cbn [List.map app].
  rewrite (gemini_from_cons _ _ n), gemini_bare_speed.
  rewrite (gemini_from_cons _ _ "ispeed"),
    (gemini_speed_word "ispeed") by (left; reflexivity).
  cbn [STREQ String.eqb Ascii.eqb Bool.eqb].
  unfold bind, ret. rewrite gemini_set_speed_both. unfold bind.
  destruct (Gemini.set_speed input_speed n m w) as [m1 w1 | |]; try reflexivity.
  rewrite (gemini_from_cons _ _ "ospeed"),
    (gemini_speed_word "ospeed") by (right; reflexivity).
  cbn [STREQ String.eqb Ascii.eqb Bool.eqb].
  unfold bind, ret.
  destruct (Gemini.set_speed output_speed n m1 w1); try reflexivity.
  now destruct checking.
Qed.

Lemma gpt4o_bare_speed_same :
  (forall m baud, cfsetispeed m baud <> None) ->
  gpt4o_same_settings [ n ] [ "ispeed"; n; "ospeed"; n ].
Proof.
  intros Hacc checking device_name rest [m b] w. cbn [List.map app].
  rewrite (gpt4o_from_cons _ _ n), gpt4o_bare_speed.
  rewrite (gpt4o_from_cons _ _ "ispeed"),
    (gpt4o_speed_word "ispeed") by (left; reflexivity).
  cbn [STREQ String.eqb Ascii.eqb Bool.eqb].
  unfold bind, ret. rewrite gpt4o_set_speed_both by apply Hacc. unfold bind.
  destruct (Gpt4o.set_speed input_speed n m w) as [m1 w1 | |]; try reflexivity.
  rewrite (gpt4o_from_cons _ _ "ospeed"),
    (gpt4o_speed_word "ospeed") by (right; reflexivity).
  cbn [STREQ String.eqb Ascii.eqb Bool.eqb].
  unfold bind, ret.
  destruct (Gpt4o.set_speed output_speed n m1 w1); try reflexivity.
  now destruct checking.
Qed.

End BareSpeed.

(** X20.  A bare number that is a speed sets both speeds: it is "ispeed
    N ospeed N", anywhere on a command line.  This holds in the first
    draft as it is; in the second where cfsetispeed accepts every speed
    (when it refuses, the second draft has already recorded the output
    speed as well). *)
Theorem bare_speed_same_as `{P : platform} `{X : externals} (n : string) :
  c_isdigit (hd_c n) = true -> string_to_baud n <> SPEED_INVALID ->
  gemini_same_settings [ n ] [ "ispeed"; n; "ospeed"; n ] /\
  ((forall m baud, cfsetispeed m baud <> None) ->
   gpt4o_same_settings [ n ] [ "ispeed"; n; "ospeed"; n ]).
Proof.
  intros Hdigit Hspeed. split.
  - now apply gemini_bare_speed_same.
  - intros Hacc. now apply gpt4o_bare_speed_same.
Qed.

Lemma bare_speed_same_as_witness :
  @gemini_same_settings linux example_env [ "9600" ]
    [ "ispeed"; "9600"; "ospeed"; "9600" ].
Proof.
  apply (@bare_speed_same_as linux example_env "9600"); [reflexivity |].
  vm_compute. discriminate.
Defined.
(** ** After "sane" the changed-only output has nothing to show *)

Lemma has_flag_both info :
  entry_shape info = true ->
  has_flag info SANE_SET && has_flag info SANE_UNSET = false.
Proof.
  unfold entry_shape, has_flag. intros H. apply andb_prop in H.
  destruct H as [_ H].
  assert (Hf : existsb (Z.eqb (flags info))
                 [ 0; REV; REV .| OMIT; SANE_SET; SANE_UNSET; SANE_SET .| REV;
                   SANE_UNSET .| REV; SANE_UNSET .| REV .| NO_SETATTR; OMIT ]
               = true).
  { destruct (type info); simpl in H |- *;
      repeat (apply andb_prop in H; destruct H as [H _]);
      repeat (apply orb_prop in H; destruct H as [H | H]);
      try discriminate H; rewrite H; rewrite ?orb_true_r; reflexivity. }
  simpl in Hf.
  repeat (apply orb_prop in Hf; destruct Hf as [Hf | Hf]);
    try discriminate Hf; apply Z.eqb_eq in Hf; rewrite Hf; reflexivity.
Qed.

Section SaneDisplay.
Context `{P : platform} `{X : externals}.
Variable m : struct_termios.
Hypothesis Hwf : wf_termios m.
Hypothesis Hcc : cc_registry_ok = true.
Hypothesis Hflags : flags_registry_ok Gemini.sane_mode = true.
Hypothesis Hshows : registry_shows_changes = true.
Hypothesis Hicanon : ICANON <> 0.

Let m' := Gemini.sane_mode m.

(** What the changed-only output tests of an entry, after "sane". *)
Lemma test_after_sane info wd :
  In info mode_info -> mode_type_flag (type info) = Some wd ->
  let matches :=
    Z.land (load wd m') (if negb (mask info =? 0) then mask info else bits info)
    =? bits info in
  (matches = true -> has_flag info SANE_UNSET = false) /\
  (matches = false -> has_flag info SANE_SET = false).
Proof.
  intros Hin Hwd matches.
  pose proof (proj1 (List.Forall_forall _ _) mode_info_shape info Hin) as Hshape.
  pose proof (has_flag_both info Hshape) as Hboth.
  unfold registry_shows_changes in Hshows.
  rewrite List.forallb_forall in Hshows. specialize (Hshows info Hin).
  apply andb_prop in Hshows. destruct Hshows as [Hno Hbits].
  apply negb_true_iff in Hno.
  pose proof (sane_mode_defaults m info Hwf Hflags Hin Hno) as Hdef.
  unfold at_sane_default in Hdef. rewrite Hwd in Hdef.
  unfold default_on in Hdef. fold m' in Hdef. subst matches.
  destruct (has_flag info SANE_SET) eqn:Hset.
  - simpl in Hboth. split; [intros _; exact Hboth |].
    intros Hne. destruct (mask info =? 0); simpl in Hne; congruence.
  - split; [| reflexivity]. intros Hm.
    destruct (has_flag info SANE_UNSET) eqn:Hunset; [| reflexivity].
    exfalso. simpl in Hbits. apply negb_true_iff, Z.eqb_neq in Hbits.
    apply Z.eqb_eq in Hdef. rewrite Z.land_lor_distr_r in Hdef.
    apply Z.lor_eq_0_iff in Hdef. destruct Hdef as [H1 H2].
    apply Z.eqb_eq in Hm.
    destruct (mask info =? 0); simpl in Hm; congruence.
Qed.

Lemma gemini_flag_silent info e :
  In info mode_info -> Gemini.display_one_mode_flag info m' e = ret e.
Proof.
  intros Hin. unfold Gemini.display_one_mode_flag.
  destruct (has_flag info OMIT) eqn:Homit; unfold has_flag in Homit;
    rewrite Homit; [reflexivity |].
  destruct (shown_entry_has_word info Hin Homit) as [wd Hwd]. rewrite Hwd.
  destruct (test_after_sane info wd Hin Hwd) as [Hyes Hno].
  cbv zeta in Hyes, Hno. rewrite both_flags_test.
  destruct (Z.land (load wd m')
              (if negb (mask info =? 0) then mask info else bits info)
            =? bits info).
  - specialize (Hyes eq_refl). unfold has_flag in Hyes. now rewrite Hyes.
  - now rewrite (Hno eq_refl).
Qed.

Lemma gpt4o_flag_silent info t :
  In info mode_info ->
  exists t', Gpt4o.display_changed_flag info m' (true, t) = ret (true, t').
Proof.
  intros Hin. unfold Gpt4o.display_changed_flag.
  destruct (has_flag info OMIT) eqn:Homit; unfold has_flag in Homit;
    rewrite Homit; [now eexists |].
  destruct (shown_entry_has_word info Hin Homit) as [wd Hwd]. rewrite Hwd.
  destruct (test_after_sane info wd Hin Hwd) as [Hyes Hno].
  cbv zeta in Hyes, Hno. rewrite both_flags_test.
  assert (Hgroup : exists t', Gpt4o.start_flag_group info (true, t)
                              = ret (true, t')).
  { unfold Gpt4o.start_flag_group. cbn [fst snd negb].
    destruct (negb (mode_type_eqb (type info) t)); now eexists. }
  destruct Hgroup as [t' ->]. exists t'.
  destruct (Z.land (load wd m')
              (if negb (mask info =? 0) then mask info else bits info)
            =? bits info).
  - specialize (Hyes eq_refl). unfold has_flag in Hyes. now rewrite Hyes.
  - now rewrite (Hno eq_refl).
Qed.

Lemma gemini_mode_flags_silent w : Gemini.display_mode_flags m' w = Ret tt w.
Proof.
  unfold Gemini.display_mode_flags.
  match goal with |- context [?f mode_info true control] => set (loop := f) end.
  assert (Hloop : forall l prev w0,
            (forall info, In info l -> In info mode_info) ->
            loop l true prev w0 = Ret true w0).
  { induction l as [| info l IH]; intros prev w0 Hl; [reflexivity |].
    cbn [loop]. fold loop. unfold bind.
    destruct (negb (mode_type_eqb (type info) prev));
      cbn [Gemini.print_newline_if_needed negb ret fst snd];
      rewrite gemini_flag_silent by (apply Hl; now left);
      unfold ret; apply IH; intros i Hi; apply Hl; now right. }
  unfold bind. rewrite Hloop by auto. reflexivity.
Qed.

Lemma icanon_after_sane : (Z.land (c_lflag m') ICANON =? 0) = false.
Proof.
  pose proof find_icanon as Hfind. apply find_some in Hfind.
  destruct Hfind as [Hin _].
  unfold registry_shows_changes in Hshows.
  rewrite List.forallb_forall in Hshows. specialize (Hshows _ Hin).
  apply andb_prop in Hshows. destruct Hshows as [Hno _].
  apply negb_true_iff in Hno.
  pose proof (sane_mode_defaults m _ Hwf Hflags Hin Hno) as Hdef.
  fold m' in Hdef.
  change ((Z.land (c_lflag m') ICANON =? ICANON) = true) in Hdef.
  apply Z.eqb_eq in Hdef. rewrite Hdef.
  now apply Z.eqb_neq.
Qed.

Lemma min_in_table :
  find (fun ci => STREQ (ci_name ci) "min") control_info
  = Some (Ctl "min" 1 VMIN).
Proof. unfold control_info. find_in_table. Qed.

(** An entry that the loops over the control characters get to before
    "min" is at its default. *)
Lemma control_char_at_default ci l :
  (forall c, In c (sane_reached (ci :: l)) -> In c (sane_reached control_info)) ->
  STREQ (ci_name ci) "min" = false ->
  (get_c_cc (offset ci) m' =? to_cc_t (saneval ci)) = true /\
  (forall c, In c (sane_reached l) -> In c (sane_reached control_info)).
Proof.
  intros Hl Hmin. cbn [sane_reached] in Hl. rewrite Hmin, andb_false_r in Hl.
  split.
  - apply Z.eqb_eq. apply sane_mode_control_chars; auto. apply Hl. now left.
  - intros c Hc. apply Hl. now right.
Qed.

Lemma gemini_control_chars_silent w : Gemini.display_control_chars m' w = Ret tt w.
Proof.
  unfold Gemini.display_control_chars.
  match goal with |- context [?f control_info true] => set (loop := f) end.
  assert (Hloop : forall l e w0,
            find (fun ci => STREQ (ci_name ci) "min") l <> None ->
            (forall c, In c (sane_reached l) -> In c (sane_reached control_info)) ->
            loop l e w0 = Ret e w0).
  { induction l as [| ci l IH]; intros e w0 Hmin Hl; [now elim Hmin |].
    cbn [loop]. fold loop. cbn [find] in Hmin.
    destruct (STREQ (ci_name ci) "min") eqn:E; [reflexivity |].
    destruct (control_char_at_default ci l Hl E) as [Hdef Hl'].
    unfold Gemini.should_skip_control_char. rewrite Hdef. now apply IH. }
  unfold bind. rewrite Hloop; [| now rewrite min_in_table | auto].
  rewrite icanon_after_sane. reflexivity.
Qed.

Lemma gemini_changed_after_sane w :
  Gemini.display_changed m' w = gemini_changed_header m' w.
Proof.
  unfold Gemini.display_changed, gemini_changed_header, bind.
  destruct (Gemini.display_speed m' true w) as [[] w1 | |]; try reflexivity.
  destruct (when HAVE_C_LINE _ w1) as [[] w2 | |]; try reflexivity.
  destruct (putchar "010" w2) as [[] w3 | |]; try reflexivity.
  destruct (modify (set_current_col 0) w3) as [[] w4 | |]; try reflexivity.
  rewrite gemini_control_chars_silent. apply gemini_mode_flags_silent.
Qed.

Lemma gpt4o_changed_after_sane w :
  Gpt4o.display_changed m' w = gpt4o_changed_header m' w.
Proof.
  unfold Gpt4o.display_changed, gpt4o_changed_header.
  match goal with |- context [?f control_info true] => set (cc_loop := f) end.
  match goal with |- context [?f mode_info (true, control)] =>
    set (flag_loop := f) end.
  assert (Hccl : forall l e w0,
            find (fun ci => STREQ (ci_name ci) "min") l <> None ->
            (forall c, In c (sane_reached l) -> In c (sane_reached control_info)) ->
            cc_loop l e w0 = Ret e w0).
  { induction l as [| ci l IH]; intros e w0 Hmin Hl; [now elim Hmin |].
    cbn [cc_loop]. fold cc_loop. cbn [find] in Hmin.
    destruct (STREQ (ci_name ci) "min") eqn:E; [reflexivity |].
    destruct (control_char_at_default ci l Hl E) as [Hdef Hl'].
    rewrite Hdef. now apply IH. }
  assert (Hfl : forall l t w0,
            (forall info, In info l -> In info mode_info) ->
            exists t', flag_loop l (true, t) w0 = Ret (true, t') w0).
  { induction l as [| info l IH]; intros t w0 Hl; [now eexists |].
    cbn [flag_loop]. fold flag_loop. unfold bind.
    destruct (gpt4o_flag_silent info t (Hl info (or_introl eq_refl)))
      as [t' ->].
    unfold ret. apply IH. intros i Hi. apply Hl. now right. }
  unfold bind.
  destruct (Gpt4o.display_speed m' true w) as [[] w1 | |]; try reflexivity.
  destruct (when HAVE_C_LINE _ w1) as [[] w2 | |]; try reflexivity.
  destruct (putchar "010" w2) as [[] w3 | |]; try reflexivity.
  unfold modify at 1 4.
  rewrite Hccl; [| now rewrite min_in_table | auto].
  rewrite icanon_after_sane. cbn [negb when ret].
  unfold modify at 1.
  destruct (Hfl mode_info control (set_current_col 0 (set_current_col 0 w3)))
    as [t' ->]; [auto |].
  reflexivity.
Qed.



End SaneDisplay.

(** X21.  After "sane" the changed-only output has nothing to show: on
    the snapshot "sane" leaves, [display_changed] of both drafts prints
    the speed, the line discipline where there is one, and the end of
    the line, and no control character and no flag.  This holds on a
    platform whose registry has no entry set outside tcsetattr and gives
    every entry that is unset by default a bit to show, for a snapshot
    the device can hold. *)
Theorem sane_then_changed_output `{P : platform} `{X : externals}
    (m : struct_termios) (w : world) :
  wf_termios m -> cc_registry_ok = true ->
  flags_registry_ok Gemini.sane_mode = true ->
  registry_shows_changes = true -> ICANON <> 0 ->
  Gemini.display_changed (Gemini.sane_mode m) w
    = gemini_changed_header (Gemini.sane_mode m) w /\
  Gpt4o.display_changed (Gpt4o.sane_mode m) w
    = gpt4o_changed_header (Gpt4o.sane_mode m) w.
Proof.
  intros Hwf Hcc Hflags Hshows Hicanon. split.
  - now apply gemini_changed_after_sane.
  - rewrite gpt4o_sane_mode_same. now apply gpt4o_changed_after_sane.
Qed.

Lemma sane_then_changed_output_witness :
  @Gemini.display_changed linux example_env
    (@Gemini.sane_mode linux linux_login) initial_world
  = @gemini_changed_header linux example_env
      (@Gemini.sane_mode linux linux_login) initial_world.
Proof.
  assert (Hs : @wf_termios linux linux_login).
  { unfold wf_termios, is_tcflag. simpl.
    repeat split; try lia; try reflexivity.
    repeat constructor; unfold is_cc; lia. }
  assert (H1 : @cc_registry_ok linux = true) by (vm_compute; reflexivity).
  assert (H2 : @flags_registry_ok linux (@Gemini.sane_mode linux) = true)
    by (vm_compute; reflexivity).
  assert (H3 : @registry_shows_changes linux = true)
    by (vm_compute; reflexivity).
  assert (H4 : @ICANON linux <> 0) by discriminate.
  exact (proj1 (@sane_then_changed_output linux example_env linux_login
                  initial_world Hs H1 H2 H3 H4)).
Defined.
(** ** A combination said twice *)

Section Twice.
Context `{P : platform} `{X : externals}.

Lemma parity_twice :
  List.Forall (fun n => same_settings [ n; n ] [ n ])
    [ "evenp"; "-evenp"; "oddp"; "-oddp"; "parity"; "-parity" ].
Proof. repeat (constructor; [same_tokens |]). constructor. Qed.

Lemma eight_bit_twice :
  List.Forall (fun n => same_settings [ n; n ] [ n ])
    [ "pass8"; "-pass8"; "litout"; "-litout" ].
Proof. repeat (constructor; [same_tokens |]). constructor. Qed.

Lemma newline_twice :
  List.Forall (fun n => same_settings [ n; n ] [ n ])
    [ "nl"; "-nl"; "cbreak"; "-cbreak"; "crt" ].
Proof. repeat (constructor; [same_tokens |]). constructor. Qed.

Lemma raw_cooked_twice :
  List.Forall (fun n => same_settings [ n; n ] [ n ])
    [ "raw"; "-raw"; "cooked"; "-cooked" ].
Proof. repeat (constructor; [same_tokens |]). constructor. Qed.

Lemma characters_twice :
  List.Forall (fun n => same_settings [ n; n ] [ n ]) [ "ek"; "dec" ].
Proof. repeat (constructor; [same_tokens |]). constructor. Qed.

End Twice.

(** X22.  A combination said twice is the combination said once:
    anywhere on a command line and in both drafts, the second of two
    equal tokens changes nothing, for the parity, character-size,
    newline, raw and cooked combinations, negated or not, and for
    "crt", "ek" and "dec". *)
Theorem combination_twice `{P : platform} `{X : externals} :
  List.Forall (fun n => same_settings [ n; n ] [ n ])
    [ "evenp"; "-evenp"; "oddp"; "-oddp"; "parity"; "-parity";
      "pass8"; "-pass8"; "litout"; "-litout";
      "nl"; "-nl"; "cbreak"; "-cbreak"; "crt";
      "raw"; "-raw"; "cooked"; "-cooked";
      "ek"; "dec" ].
Proof.
  pose proof (fun l1 l2 H1 H2 =>
    proj2 (List.Forall_app (fun n => same_settings [ n; n ] [ n ]) l1 l2)
          (conj H1 H2)) as Happ.
  exact (Happ _ _ parity_twice
           (Happ _ _ eight_bit_twice
              (Happ _ _ newline_twice
                 (Happ _ _ raw_cooked_twice characters_twice)))).
Qed.
(** ** [wrapf] keeps the lines within the width *)

Lemma has_newline_app s t :
  has_newline (s +:+ t) = has_newline s || has_newline t.
Proof.
  induction s as [| c r IH]; simpl; [reflexivity |].
  rewrite IH. apply orb_assoc.
Qed.

Lemma last_line_app s t :
  has_newline t = false -> last_line (s +:+ t) = last_line s +:+ t.
Proof.
  intros Ht. induction s as [| c r IH]; simpl.
  - destruct t as [| c r]; [reflexivity |]. simpl in *.
    apply orb_false_elim in Ht. destruct Ht as [Hc Hr]. now rewrite Hr, Hc.
  - rewrite has_newline_app, Ht, orb_false_r.
    destruct (has_newline r); [exact IH |].
    destruct (Ascii.eqb c "010"); reflexivity.
Qed.

Lemma last_line_newline s t :
  has_newline t = false -> last_line (s +:+ String "010" t) = t.
Proof.
  intros Ht. induction s as [| c r IH]; simpl.
  - now rewrite Ht.
  - rewrite has_newline_app. simpl. rewrite orb_true_r. exact IH.
Qed.

Lemma strlen_app s t : strlen (s +:+ t) = strlen s + strlen t.
Proof.
  unfold strlen. induction s as [| c r IH]; simpl String.length; [lia |].
  rewrite !Nat2Z.inj_succ. lia.
Qed.

Lemma strlen_nonneg s : 0 <= strlen s.
Proof. unfold strlen. lia. Qed.

Section Wrapf.
Variables (buf : string) (w : world).
Hypothesis Hbuf : has_newline buf = false.
Hypothesis Hcol : column_tracks_output w.

Lemma gemini_wrapf_column :
  exists w', Gemini.wrapf buf w = Ret tt w' /\
    column_tracks_output w' /\ max_col w' = max_col w /\
    (strlen buf <= max_col w -> current_col w <= max_col w ->
     current_col w' <= max_col w').
Proof.
  unfold column_tracks_output in *.
  unfold Gemini.wrapf, bind, gets, when, modify, putchar, fputs_stdout, ret.
  destruct (Z.ltb_spec 0 (current_col w)) as [Hpos | Hzero].
  - destruct (Z.ltb_spec (max_col w) (current_col w + 1 + strlen buf))
      as [Hwrap | Hfits]; simpl; eexists; (split; [reflexivity |]); simpl.
    + rewrite append_assoc. simpl. rewrite last_line_newline by assumption.
      repeat split; lia.
    + rewrite append_assoc. simpl. rewrite last_line_app by assumption.
      rewrite strlen_app, <- Hcol.
      change (String " " buf) with (" " +:+ buf). rewrite strlen_app.
      change (strlen " ") with 1.
      repeat split; lia.
  - simpl. eexists; (split; [reflexivity |]); simpl.
    rewrite last_line_app by assumption. rewrite strlen_app, <- Hcol.
    pose proof (strlen_nonneg (last_line (out w))).
    repeat split; lia.
Qed.

End Wrapf.

(** X23.  [wrapf] keeps the column and the width: where [current_col]
    is the length of the open line of standard output and the text holds
    no newline, it still is afterwards, in both drafts alike; and a text
    that fits the width leaves the open line within [max_col] when it
    was within it before. *)
Theorem wrapf_keeps_lines_in_width (buf : string) (w : world) :
  has_newline buf = false -> column_tracks_output w ->
  exists w', Gemini.wrapf buf w = Ret tt w' /\ Gpt4o.wrapf buf w = Ret tt w' /\
    column_tracks_output w' /\ max_col w' = max_col w /\
    (strlen buf <= max_col w -> current_col w <= max_col w ->
     current_col w' <= max_col w').
Proof.
  intros Hbuf Hcol.
  destruct (gemini_wrapf_column buf w Hbuf Hcol) as (w' & Hw & H).
  exists w'. rewrite gpt4o_wrapf_eq. auto.
Qed.

Lemma wrapf_keeps_lines_in_width_witness :
  exists w', Gemini.wrapf "speed 9600 baud;" initial_world = Ret tt w' /\
    column_tracks_output w'.
Proof.
  destruct (wrapf_keeps_lines_in_width "speed 9600 baud;" initial_world
              eq_refl eq_refl) as (w' & H1 & _ & H2 & _).
  exists w'. split; assumption.
Defined.
(** ** What [recover_mode] leaves alone *)

(** A snapshot the device can hold, with the line discipline and the
    speeds of [m]. *)
Section RecoverFrame.
Context `{P : platform}.

Lemma kept_store wd v m0 m :
  wf_termios m ->
  c_line m = c_line m0 /\ c_ispeed m = c_ispeed m0 /\ c_ospeed m = c_ospeed m0 ->
  wf_termios (store wd v m) /\
  c_line (store wd v m) = c_line m0 /\
  c_ispeed (store wd v m) = c_ispeed m0 /\
  c_ospeed (store wd v m) = c_ospeed m0.
Proof.
  intros (H1 & H2 & H3 & H4 & H5 & H6) Hk.
  rewrite c_line_store, c_ispeed_store, c_ospeed_store.
  split; [| exact Hk].
  unfold wf_termios. rewrite c_cc_store.
  destruct wd; simpl;
    refine (conj _ (conj _ (conj _ (conj _ (conj _ _)))));
    first [ assumption | apply to_tcflag_t_range ].
Qed.

Lemma kept_set_c_cc i v m0 m :
  wf_termios m ->
  c_line m = c_line m0 /\ c_ispeed m = c_ispeed m0 /\ c_ospeed m = c_ospeed m0 ->
  wf_termios (set_c_cc i v m) /\
  c_line (set_c_cc i v m) = c_line m0 /\
  c_ispeed (set_c_cc i v m) = c_ispeed m0 /\
  c_ospeed (set_c_cc i v m) = c_ospeed m0.
Proof.
  intros (H1 & H2 & H3 & H4 & H5 & H6) Hk. split; [| exact Hk].
  unfold wf_termios. simpl. rewrite length_insert.
  refine (conj _ (conj _ (conj _ (conj _ (conj _ _))))); try assumption.
  apply Forall_insert; [exact H6 | apply to_cc_t_range].
Qed.

Lemma gemini_recover_flags_kept m0 ws : forall s m,
  wf_termios m ->
  c_line m = c_line m0 /\ c_ispeed m = c_ispeed m0 /\ c_ospeed m = c_ospeed m0 ->
  let m' := snd (Gemini.recover_flags ws s m) in
  wf_termios m' /\
  c_line m' = c_line m0 /\ c_ispeed m' = c_ispeed m0 /\ c_ospeed m' = c_ospeed m0.
Proof.
  induction ws as [| wd ws IH]; intros s m Hwf Hk; simpl; [tauto |].
  destruct (Gemini.strtoul_tcflag_t s 16 ":") as [[v p] |]; simpl; [| tauto].
  destruct (kept_store wd v m0 m Hwf Hk) as [Hwf' Hk']. now apply IH.
Qed.

Lemma gemini_recover_cc_kept m0 idx : forall s m,
  wf_termios m ->
  c_line m = c_line m0 /\ c_ispeed m = c_ispeed m0 /\ c_ospeed m = c_ospeed m0 ->
  let m' := snd (Gemini.recover_cc idx s m) in
  wf_termios m' /\
  c_line m' = c_line m0 /\ c_ispeed m' = c_ispeed m0 /\ c_ospeed m' = c_ospeed m0.
Proof.
  induction idx as [| i idx IH]; intros s m Hwf Hk; simpl; [tauto |].
  destruct (Gemini.strtoul_cc_t s 16 _) as [[v p] |]; simpl; [| tauto].
  destruct (kept_set_c_cc i v m0 m Hwf Hk) as [Hwf' Hk']. now apply IH.
Qed.

Lemma gpt4o_recover_flags_kept m0 ws : forall s m,
  wf_termios m ->
  c_line m = c_line m0 /\ c_ispeed m = c_ispeed m0 /\ c_ospeed m = c_ospeed m0 ->
  let m' := snd (Gpt4o.recover_flags ws s m) in
  wf_termios m' /\
  c_line m' = c_line m0 /\ c_ispeed m' = c_ispeed m0 /\ c_ospeed m' = c_ospeed m0.
Proof.
  induction ws as [| wd ws IH]; intros s m Hwf Hk; simpl; [tauto |].
  destruct (Gpt4o.parse_tcflag s) as [[v p] |]; simpl; [| tauto].
  destruct (kept_store wd v m0 m Hwf Hk) as [Hwf' Hk']. now apply IH.
Qed.

Lemma gpt4o_recover_cc_kept m0 idx : forall s m ok m',
  wf_termios m ->
  c_line m = c_line m0 /\ c_ispeed m = c_ispeed m0 /\ c_ospeed m = c_ospeed m0 ->
  Gpt4o.recover_cc idx s m = Some (ok, m') ->
  wf_termios m' /\
  c_line m' = c_line m0 /\ c_ispeed m' = c_ispeed m0 /\ c_ospeed m' = c_ospeed m0.
Proof.
  induction idx as [| i idx IH]; intros s m ok m' Hwf Hk H; simpl in H.
  - inversion H; subst. tauto.
  - destruct s as [s |]; [| discriminate].
    destruct (Gpt4o.parse_cc s _) as [[v p] |].
    + destruct (kept_set_c_cc i v m0 m Hwf Hk) as [Hwf' Hk'].
      exact (IH _ _ _ _ Hwf' Hk' H).
    + inversion H; subst. tauto.
Qed.

End RecoverFrame.

(** X24.  [recover_mode] writes flag words and control characters only:
    whatever the token, and whether it is accepted or not, the snapshot
    it leaves is one the device can hold when the snapshot it was given
    was one ([c_cc] keeps its length, every value fits its type), with
    the line discipline and both speeds as they were; this holds in both
    drafts. *)
Theorem recover_mode_keeps_the_rest `{P : platform}
    (arg : string) (m : struct_termios) :
  wf_termios m ->
  (let m' := snd (Gemini.recover_mode arg m) in
   wf_termios m' /\ c_line m' = c_line m /\
   c_ispeed m' = c_ispeed m /\ c_ospeed m' = c_ospeed m) /\
  (forall ok m', Gpt4o.recover_mode arg m = Some (ok, m') ->
   wf_termios m' /\ c_line m' = c_line m /\
   c_ispeed m' = c_ispeed m /\ c_ospeed m' = c_ospeed m).
Proof.
  intros Hwf.
  assert (Hk : c_line m = c_line m /\ c_ispeed m = c_ispeed m /\
               c_ospeed m = c_ospeed m) by tauto.
  split.
  - unfold Gemini.recover_mode.
    pose proof (gemini_recover_flags_kept m
                  [W_iflag; W_oflag; W_cflag; W_lflag] arg m Hwf Hk) as Hf.
    destruct (Gemini.recover_flags _ arg m) as [[s |] m1]; simpl in Hf;
      [| exact Hf].
    destruct Hf as [Hwf1 Hk1].
    exact (gemini_recover_cc_kept m (seq 0 NCCS) s m1 Hwf1 Hk1).
  - intros ok m'. unfold Gpt4o.recover_mode.
    pose proof (gpt4o_recover_flags_kept m
                  [W_iflag; W_oflag; W_cflag; W_lflag] arg m Hwf Hk) as Hf.
    destruct (Gpt4o.recover_flags _ arg m) as [[s |] m1]; simpl in Hf.
    + destruct Hf as [Hwf1 Hk1].
      exact (gpt4o_recover_cc_kept m (seq 0 NCCS) (Some s) m1 ok m' Hwf1 Hk1).
    + intros H. inversion H; subst. exact Hf.
Qed.

Lemma recover_mode_keeps_the_rest_witness :
  c_ispeed (snd (@Gemini.recover_mode linux "7:7:7" linux_login)) = 15.
Proof.
  assert (Hs : @wf_termios linux linux_login).
  { unfold wf_termios, is_tcflag. simpl.
    repeat split; try lia; try reflexivity.
    repeat constructor; unfold is_cc; lia. }
  destruct (@recover_mode_keeps_the_rest linux "7:7:7" linux_login Hs)
    as [(_ & _ & H & _) _].
  exact H.
Defined.
(** ** Names that stand for the same bits *)

Section Aliases.
Context `{P : platform} `{X : externals}.
Variables (arg : string) (info : struct_mode_info) (wd : flag_word).
Hypothesis Hplain : Ascii.eqb (hd_c arg) "-" = false.
Hypothesis Hdrain : STREQ arg "drain" = false.
Hypothesis Hfind : find (fun i => STREQ arg (name i)) mode_info = Some info.
Hypothesis Hattr : has_flag info NO_SETATTR = false.
Hypothesis Hwd : mode_type_flag (type info) = Some wd.
Variable negated : bool.
Hypothesis Hrev : refused info negated = false.

Lemma typed_parts :
  let arg0 := typed negated arg in
  Ascii.eqb (hd_c arg0) "-" = negated /\
  (if Ascii.eqb (hd_c arg0) "-" then tl_c arg0 else arg0) = arg.
Proof.
  destruct negated; simpl; [split; reflexivity |]. now rewrite Hplain.
Qed.

Lemma gemini_typed_flag checking device_name rest m b w :
  Gemini.apply_settings_from checking device_name
    (Some (typed negated arg) :: rest) (m, b) w
  = Gemini.apply_settings_from checking device_name rest
      ((if negated then clear_bits wd (mask info .| bits info) m
        else replace_bits wd (mask info) (bits info) m), true) w.
Proof.
  destruct typed_parts as [Hneg Harg].
  erewrite gemini_settings_step; [reflexivity |].
  rewrite <- Hneg at 2.
  apply gemini_apply_one_plain; cbv zeta; rewrite ?Harg, ?Hneg;
    auto.
Qed.

Lemma gpt4o_typed_flag checking device_name rest m b w :
  Gpt4o.apply_settings_from checking device_name
    (Some (typed negated arg) :: rest) (m, b) w
  = Gpt4o.apply_settings_from checking device_name rest
      ((if negated then clear_bits wd (mask info .| bits info) m
        else replace_bits wd (mask info) (bits info) m), true) w.
Proof.
  destruct typed_parts as [Hneg Harg].
  erewrite gpt4o_settings_step; [reflexivity |].
  rewrite <- Hneg at 2.
  apply gpt4o_apply_one_plain; cbv zeta; rewrite ?Harg, ?Hneg;
    auto.
Qed.

End Aliases.

(** X25.  What a flag name does on a command line.  For a name of the
    registry whose entry is not a combination and is set through
    tcsetattr, both drafts store the bits of the entry, under its mask,
    in the flag word of its type; typed with '-' before a reversible
    entry, they clear the bits and the mask.  The snapshot is marked for
    tcsetattr, nothing else of it and nothing of the process changes,
    and the loop goes on with the next token. *)
Theorem flag_token_sets_or_clears `{P : platform} `{X : externals}
    (arg : string) (info : struct_mode_info) (wd : flag_word) (negated : bool)
    (checking : bool) (device_name : string) (rest : list (option string))
    (m : struct_termios) (b : bool) (w : world) :
  Ascii.eqb (hd_c arg) "-" = false -> STREQ arg "drain" = false ->
  find (fun i => STREQ arg (name i)) mode_info = Some info ->
  has_flag info NO_SETATTR = false ->
  mode_type_flag (type info) = Some wd ->
  refused info negated = false ->
  let m' := if negated then clear_bits wd (mask info .| bits info) m
            else replace_bits wd (mask info) (bits info) m in
  Gemini.apply_settings_from checking device_name
    (Some (typed negated arg) :: rest) (m, b) w
  = Gemini.apply_settings_from checking device_name rest (m', true) w /\
  Gpt4o.apply_settings_from checking device_name
    (Some (typed negated arg) :: rest) (m, b) w
  = Gpt4o.apply_settings_from checking device_name rest (m', true) w.
Proof.
  intros Hplain Hdrain Hfind Hattr Hwd Hrev m'. split.
  - now apply gemini_typed_flag.
  - now apply gpt4o_typed_flag.
Qed.

Lemma flag_token_sets_or_clears_witness :
  @Gemini.apply_settings_from linux example_env false "standard input"
    [ Some "-icanon" ] (@zero_termios linux, false) initial_world
  = Ret (clear_bits W_lflag (@ICANON linux) (@zero_termios linux), true)
      initial_world.
Proof.
  apply (@flag_token_sets_or_clears linux example_env "icanon"
           (Mode "icanon" local (SANE_SET .| REV) (@ICANON linux) 0) W_lflag true
           false "standard input" [] (@zero_termios linux) false initial_world);
    reflexivity.
Defined.

(** X26.  Two names of the registry whose entries have the same type,
    bits and mask stand for each other, typed plain or with '-' (both
    entries being reversible then), anywhere on a command line and in
    both drafts: so do "hup" and "hupcl", "tandem" and "ixoff",
    "crterase" and "echoe". *)
Theorem aliases_behave_alike `{P : platform} `{X : externals}
    (arg1 arg2 : string) (info1 info2 : struct_mode_info) (wd : flag_word)
    (negated : bool) :
  plain_word_found arg1 info1 -> plain_word_found arg2 info2 ->
  mode_type_flag (type info1) = Some wd -> type info2 = type info1 ->
  bits info2 = bits info1 -> mask info2 = mask info1 ->
  refused info1 negated = false -> refused info2 negated = false ->
  same_settings [ typed negated arg1 ] [ typed negated arg2 ].
Proof.
  intros (Hp1 & Hd1 & Hf1 & Ha1) (Hp2 & Hd2 & Hf2 & Ha2) Hwd Ht Hb Hm Hr1 Hr2.
  assert (Hwd2 : mode_type_flag (type info2) = Some wd) by now rewrite Ht.
  split; intros checking device_name rest [m b] w; cbn [List.map app].
  - rewrite (gemini_typed_flag arg1 info1 wd Hp1 Hd1 Hf1 Ha1 Hwd negated Hr1).
    rewrite (gemini_typed_flag arg2 info2 wd Hp2 Hd2 Hf2 Ha2 Hwd2 negated Hr2).
    now rewrite Hb, Hm.
  - rewrite (gpt4o_typed_flag arg1 info1 wd Hp1 Hd1 Hf1 Ha1 Hwd negated Hr1).
    rewrite (gpt4o_typed_flag arg2 info2 wd Hp2 Hd2 Hf2 Ha2 Hwd2 negated Hr2).
    now rewrite Hb, Hm.
Qed.

Lemma aliases_behave_alike_witness :
  @same_settings linux example_env [ "-hup" ] [ "-hupcl" ] /\
  @same_settings linux example_env [ "tandem" ] [ "ixoff" ] /\
  @same_settings linux example_env [ "crterase" ] [ "echoe" ].
Proof.
  split; [| split].
  - apply (@aliases_behave_alike linux example_env "hup" "hupcl"
             (Mode "hup" control (REV .| OMIT) (@HUPCL linux) 0)
             (Mode "hupcl" control REV (@HUPCL linux) 0) W_cflag true);
      try reflexivity; repeat split; reflexivity.
  - apply (@aliases_behave_alike linux example_env "tandem" "ixoff"
             (Mode "tandem" input (REV .| OMIT) (@IXOFF linux) 0)
             (Mode "ixoff" input (SANE_UNSET .| REV) (@IXOFF linux) 0)
             W_iflag false);
      try reflexivity; repeat split; reflexivity.
  - apply (@aliases_behave_alike linux example_env "crterase" "echoe"
             (Mode "crterase" local (REV .| OMIT) (@ECHOE linux) 0)
             (Mode "echoe" local (SANE_SET .| REV) (@ECHOE linux) 0)
             W_lflag false);
      try reflexivity; repeat split; reflexivity.
Defined.
(** ** Names that take their argument *)

Section ControlName.
Context `{P : platform} `{X : externals}.
Variables (arg a : string) (ci : struct_control_info).
Variables (checking : bool) (device_name : string).
Variables (rest : list (option string)) (m : struct_termios) (b : bool).
Variable w : world.
Hypothesis Hci : find (fun c => STREQ arg (ci_name c)) control_info = Some ci.

Lemma gemini_control_name :
  Gemini.apply_settings_from checking device_name
    (Some arg :: Some a :: rest) (m, b) w
  = match Gemini.set_control_char ci a m w with
    | Ret m' w' =>
        Gemini.apply_settings_from checking device_name rest (m', true) w'
    | Exit s w' => Exit s w'
    | Undefined w' => Undefined w'
    end.
Proof.
  destruct (control_name_plain arg ci Hci) as (Hrev & Hdrain & Hmode).
  rewrite gemini_from_cons. unfold Gemini.apply_one.
  rewrite Hrev, Hdrain, Hmode. cbn [negb andb fst]. rewrite Hci.
  unfold Gemini.check_missing_argument. cbn [Gemini.next_arg].
  unfold bind, ret.
  destruct (Gemini.set_control_char ci a m w); reflexivity.
Qed.

Lemma gpt4o_control_name :
  Gpt4o.apply_settings_from checking device_name
    (Some arg :: Some a :: rest) (m, b) w
  = match Gpt4o.set_control_char ci a m w with
    | Ret m' w' =>
        Gpt4o.apply_settings_from checking device_name rest (m', true) w'
    | Exit s w' => Exit s w'
    | Undefined w' => Undefined w'
    end.
Proof.
  destruct (control_name_plain arg ci Hci) as (Hrev & Hdrain & Hmode).
  rewrite gpt4o_from_cons. unfold Gpt4o.apply_one.
  rewrite Hrev, Hdrain, Hmode. cbn [negb andb fst]. rewrite Hci.
  cbn [Gpt4o.next_arg]. unfold bind, ret.
  destruct (Gpt4o.set_control_char ci a m w); reflexivity.
Qed.

End ControlName.

(** X27.  What the name of a control character does on a command line.
    On every platform no such name is the name of a flag, so in both
    drafts the name takes the token behind it as its argument:
    [set_control_char] runs on the entry of that name, the snapshot it
    returns is marked for tcsetattr, and the loop goes on behind the
    argument; when [set_control_char] exits, so does the loop. *)
Theorem control_name_takes_argument `{P : platform} `{X : externals}
    (arg a : string) (ci : struct_control_info)
    (checking : bool) (device_name : string) (rest : list (option string))
    (m : struct_termios) (b : bool) (w : world) :
  find (fun c => STREQ arg (ci_name c)) control_info = Some ci ->
  find (fun i => STREQ arg (name i)) mode_info = None /\
  Gemini.apply_settings_from checking device_name
    (Some arg :: Some a :: rest) (m, b) w
  = match Gemini.set_control_char ci a m w with
    | Ret m' w' =>
        Gemini.apply_settings_from checking device_name rest (m', true) w'
    | Exit s w' => Exit s w'
    | Undefined w' => Undefined w'
    end /\
  Gpt4o.apply_settings_from checking device_name
    (Some arg :: Some a :: rest) (m, b) w
  = match Gpt4o.set_control_char ci a m w with
    | Ret m' w' =>
        Gpt4o.apply_settings_from checking device_name rest (m', true) w'
    | Exit s w' => Exit s w'
    | Undefined w' => Undefined w'
    end.
Proof.
  intros Hci. split; [exact (proj2 (proj2 (control_name_plain arg ci Hci))) |].
  split; [now apply gemini_control_name | now apply gpt4o_control_name].
Qed.

Lemma control_name_takes_argument_witness :
  @Gemini.apply_settings_from linux example_env false "standard input"
    [ Some "erase"; Some "^h" ] (@zero_termios linux, false) initial_world
  = Ret (set_c_cc (@VERASE linux) 8 (@zero_termios linux), true) initial_world.
Proof.
  destruct (@control_name_takes_argument linux example_env "erase" "^h"
              (Ctl "erase" CERASE (@VERASE linux)) false "standard input" []
              (@zero_termios linux) false initial_world eq_refl)
    as (_ & H & _).
  rewrite H. reflexivity.
Defined.

(** *** The line discipline *)

Section LineDiscipline.
Context `{P : platform} `{X : externals}.
Hypothesis Hline : HAVE_C_LINE = true.
Variables (a : string) (v : Z).
Hypothesis Hnum :
  xnumtoumax a 0 0 UINTMAX_MAX "bB" "invalid integer argument" = inl v.
Variables (checking : bool) (device_name : string).
Variables (rest : list (option string)) (m : struct_termios) (b : bool).
Variable w : world.

Lemma line_plain :
  plain_word "line" /\
  find (fun c => STREQ "line" (ci_name c)) control_info = None.
Proof.
  unfold plain_word. split; [split; [reflexivity | split; [reflexivity |]] |].
  - unfold mode_info. cbn [defined orb andb]. none_piece.
  - unfold control_info. none_piece.
Qed.

Lemma gemini_line_setting :
  Gemini.apply_one checking device_name "line" (Some a :: rest) (m, b) w
  = Ret (true, (set_c_line (to_cc_t v) m, true))
      (if to_cc_t v =? v then w
       else put_err ("invalid line discipline " +:+ quote a) w).
Proof.
  destruct line_plain as ((Hrev & Hdrain & Hmode) & Hci).
  unfold Gemini.apply_one.
  rewrite Hrev, Hdrain, Hmode. cbn [negb andb fst]. rewrite Hci.
  unfold Gemini.apply_unmatched, Gemini.apply_special_setting,
    Gemini.handle_speed_arg_setting, Gemini.handle_window_size_setting,
    Gemini.check_missing_argument, integer_arg, Gemini.ckd_add_c_line.
  cbn [hd_c Ascii.eqb Bool.eqb STREQ String.eqb orb Gemini.next_arg].
  rewrite Hline, andb_false_r.
  destruct TIOCGWINSZ; cbn [negb andb]; unfold bind, ret; rewrite Hnum;
    cbn [fst snd]; unfold when; destruct (to_cc_t v =? v); reflexivity.
Qed.

Lemma gpt4o_line_setting :
  Gpt4o.apply_one checking device_name "line" (Some a :: rest) (m, b) w
  = Ret (true, (set_c_line (to_cc_t v) m, true))
      (if to_cc_t v =? v then w
       else put_err ("invalid line discipline " +:+ quote a) w).
Proof.
  destruct line_plain as ((Hrev & Hdrain & Hmode) & Hci).
  unfold Gpt4o.apply_one.
  rewrite Hrev, Hdrain, Hmode. cbn [negb andb fst]. rewrite Hci.
  unfold Gpt4o.apply_unmatched, integer_arg, Gpt4o.ckd_add_c_line.
  cbn [hd_c Ascii.eqb Bool.eqb STREQ String.eqb orb Gpt4o.next_arg].
  rewrite Hline, !andb_false_r.
  cbn [negb andb]; unfold bind, ret; rewrite Hnum;
    cbn [fst snd]; unfold when; destruct (to_cc_t v =? v); reflexivity.
Qed.

End LineDiscipline.

(** X28.  A line discipline that does not fit is reported and stored all
    the same.  Where there is a [c_line], "line N" stores N cut to the
    eight bits of [cc_t] in both drafts and marks the snapshot for
    tcsetattr; for an N above 255 the message "invalid line discipline"
    goes to standard error, and the run goes on: it is no fatal error. *)
Theorem line_out_of_range_goes_on `{P : platform} `{X : externals}
    (a : string) (v : Z) (checking : bool) (device_name : string)
    (rest : list (option string)) (m : struct_termios) (b : bool) (w : world) :
  HAVE_C_LINE = true ->
  xnumtoumax a 0 0 UINTMAX_MAX "bB" "invalid integer argument" = inl v ->
  let w' := if to_cc_t v =? v then w
            else put_err ("invalid line discipline " +:+ quote a) w in
  Gemini.apply_one checking device_name "line" (Some a :: rest) (m, b) w
    = Ret (true, (set_c_line (to_cc_t v) m, true)) w' /\
  Gpt4o.apply_one checking device_name "line" (Some a :: rest) (m, b) w
    = Ret (true, (set_c_line (to_cc_t v) m, true)) w'.
Proof.
  intros Hline Hnum w'. split.
  - now apply gemini_line_setting.
  - now apply gpt4o_line_setting.
Qed.

Lemma line_out_of_range_goes_on_witness :
  @Gemini.apply_one linux example_env false "standard input" "line"
    [ Some "300" ] (@zero_termios linux, false) initial_world
  = Ret (true, (set_c_line 44 (@zero_termios linux), true))
      (put_err "invalid line discipline '300'" initial_world).
Proof.
  apply (@line_out_of_range_goes_on linux example_env "300" 300 false
           "standard input" [] (@zero_termios linux) false initial_world);
    reflexivity.
Defined.
(** ** C8: the flag block of the changed-only output, as it is printed *)

(** *** Words *)

Lemma words_cons c r :
  words (String c r)
  = if is_blank c then words r
    else match r with
         | EmptyString => [ String c "" ]
         | String c' _ =>
             if is_blank c' then String c "" :: words r
             else match words r with
                  | first :: others => String c first :: others
                  | [] => [ String c "" ]
                  end
         end.
Proof. reflexivity. Qed.

Lemma words_head c r :
  is_blank c = false -> exists first others, words (String c r) = first :: others.
Proof.
  intros H. rewrite words_cons, H.
  destruct r as [| c' r']; [eauto |].
  destruct (is_blank c'); [eauto |].
  destruct (words (String c' r')); eauto.
Qed.

(** The words of two texts with a space or newline between them. *)
Lemma words_app_blank a c b :
  is_blank c = true -> words (a +:+ String c b) = words a ++ words b.
Proof.
  intros Hc. induction a as [| x a IH].
  - cbn [String.append]. now rewrite words_cons, Hc.
  - cbn [String.append]. rewrite (words_cons x a), (words_cons x (a +:+ _)).
    destruct (is_blank x) eqn:Hx; [exact IH |].
    destruct a as [| y a'].
    + cbn [String.append]. rewrite Hc, words_cons, Hc. reflexivity.
    + cbn [String.append] in IH |- *. rewrite IH.
      destruct (is_blank y) eqn:Hy; [reflexivity |].
      destruct (words_head y a' Hy) as (f & o & ->). reflexivity.
Qed.

Lemma words_word tok : word_like tok = true -> words tok = [ tok ].
Proof.
  induction tok as [| c r IH]; [discriminate |]. intros H.
  cbn [word_like no_blank] in H. apply andb_prop in H. destruct H as [Hc Hr].
  apply negb_true_iff in Hc. rewrite words_cons, Hc.
  destruct r as [| c' r']; [reflexivity |].
  rewrite (IH Hr). cbn [no_blank] in Hr. apply andb_prop in Hr.
  destruct Hr as [Hc' _]. apply negb_true_iff in Hc'. now rewrite Hc'.
Qed.

Lemma words_newline blk : words (blk +:+ String "010" "") = words blk.
Proof. rewrite words_app_blank by reflexivity. apply app_nil_r. Qed.

Lemma words_after_blank blk c tok :
  is_blank c = true -> word_like tok = true ->
  words (blk +:+ String c tok) = words blk ++ [ tok ].
Proof.
  intros Hc Htok. rewrite words_app_blank by assumption.
  now rewrite (words_word tok).
Qed.

Lemma words_at_start blk tok :
  line_closed blk -> word_like tok = true ->
  words (blk +:+ tok) = words blk ++ [ tok ].
Proof.
  intros [-> | [b ->]] Htok.
  - cbn [String.append]. now rewrite (words_word tok).
  - rewrite append_assoc. cbn [String.append].
    now rewrite words_after_blank, words_newline.
Qed.

Lemma word_like_length tok : word_like tok = true -> 0 < strlen tok.
Proof.
  destruct tok; [discriminate |]. intros _. unfold strlen.
  cbn [String.length]. lia.
Qed.

(** The names of the registry are words, and so are they with '-'. *)
Lemma name_word_like info :
  entry_shape info = true -> word_like (name info) = true.
Proof.
  unfold entry_shape. intros H. apply andb_prop in H. destruct H as [H _].
  apply existsb_exists in H. destruct H as (n & Hin & Hn).
  apply String.eqb_eq in Hn. rewrite Hn.
  assert (Hall : forallb word_like all_mode_names = true) by reflexivity.
  rewrite forallb_forall in Hall. now apply Hall.
Qed.

Lemma minus_word_like n : word_like n = true -> word_like ("-" +:+ n) = true.
Proof. destruct n; [discriminate |]. intros H. exact H. Qed.

(** *** The state of the output while the block is printed *)

Lemma world_ext (a b : world) :
  out a = out b -> err a = err b -> calls a = calls b ->
  max_col a = max_col b -> current_col a = current_col b ->
  tcsetattr_options a = tcsetattr_options b ->
  last_ibaud a = last_ibaud b -> last_obaud a = last_obaud b -> a = b.
Proof. destruct a, b; cbn; intros; subst; reflexivity. Qed.

Ltac same_world :=
  apply world_ext; cbn [out err calls max_col current_col tcsetattr_options
                        last_ibaud last_obaud set_current_col put_out];
  rewrite ?append_assoc, ?append_nil_r; try reflexivity.

Section Block.
Context `{P : platform} `{X : externals}.
Variable w1 : world.

Lemma block_start : current_col w1 = 0 -> block_state w1 [] true w1.
Proof.
  intros H. exists "", 0.
  refine (conj _ (conj eq_refl (conj _ (conj _ _)))).
  - same_world. exact H.
  - lia.
  - intros _. now left.
  - reflexivity.
Qed.

Lemma block_newline toks e w :
  block_state w1 toks e w ->
  block_state w1 toks true (set_current_col 0 (put_out (String "010" "") w)).
Proof.
  intros (blk & c & -> & Hw & Hc & Hcl & He).
  exists (blk +:+ String "010" ""), 0.
  refine (conj _ (conj _ (conj _ (conj _ _)))).
  - same_world.
  - now rewrite words_newline.
  - lia.
  - intros _. right. now exists blk.
  - reflexivity.
Qed.

Lemma block_wrapf toks e w tok :
  block_state w1 toks e w -> word_like tok = true ->
  exists w', Gemini.wrapf tok w = Ret tt w' /\
             block_state w1 (toks ++ [ tok ]) false w'.
Proof.
  intros (blk & c & -> & Hw & Hc & Hcl & He) Htok.
  pose proof (word_like_length tok Htok) as Hlen.
  unfold Gemini.wrapf, bind, gets, when, modify, putchar, fputs_stdout, ret.
  cbn [current_col max_col set_current_col put_out].
  destruct (Z.ltb_spec 0 c) as [Hpos | Hzero].
  - destruct (max_col w1 <? c + 1 + strlen tok);
      cbn [current_col max_col set_current_col put_out];
      (eexists; split; [reflexivity |]).
    + exists (blk +:+ String "010" tok), (0 + strlen tok).
      refine (conj _ (conj _ (conj _ (conj _ _)))); [same_world | | lia | lia |
        discriminate].
      rewrite <- Hw. now apply words_after_blank.
    + exists (blk +:+ String " " tok), (c + 1 + strlen tok).
      refine (conj _ (conj _ (conj _ (conj _ _)))); [same_world | | lia | lia |
        discriminate].
      rewrite <- Hw. now apply words_after_blank.
  - assert (c = 0) by lia. subst c.
    cbn [current_col max_col set_current_col put_out].
    eexists; split; [reflexivity |].
    exists (blk +:+ tok), (0 + strlen tok).
    refine (conj _ (conj _ (conj _ (conj _ _)))); [same_world | | lia | lia |
      discriminate].
    rewrite <- Hw. apply words_at_start; auto.
Qed.

End Block.

(** *** The flag block *)

Section FlagBlock.
Context `{P : platform} `{X : externals}.
Variables (m : struct_termios) (w1 : world).

Lemma tokens_of_cons info l :
  tokens_of m (info :: l) = tokens_of m [ info ] ++ tokens_of m l.
Proof. cbn [tokens_of]. now destruct (shown_token m info). Qed.

Lemma shown_token_word info tok :
  In info mode_info -> shown_token m info = Some tok -> word_like tok = true.
Proof.
  intros Hin.
  pose proof (proj1 (List.Forall_forall _ _) mode_info_shape info Hin) as Hs.
  pose proof (name_word_like info Hs) as Hn.
  unfold shown_token, changed_only_token.
  destruct (has_flag info OMIT); [discriminate |].
  destruct (mode_type_flag (type info)); [| discriminate].
  destruct (_ && _); [intros [= <-]; exact Hn |].
  destruct (_ && _); [intros [= <-]; now apply minus_word_like | discriminate].
Qed.

(** One entry in the draft of gemini. *)
Lemma gemini_entry info e w :
  In info mode_info ->
  Gemini.display_one_mode_flag info m e w
  = match shown_token m info with
    | Some token => (Gemini.wrapf token ;;; ret false) w
    | None => Ret e w
    end.
Proof.
  intros Hin. unfold shown_token.
  destruct (has_flag info OMIT) eqn:Homit.
  - unfold Gemini.display_one_mode_flag. unfold has_flag in Homit.
    now rewrite Homit.
  - destruct (changed_only_entry info Hin Homit) as (wd & Hwd & H).
    rewrite Hwd. apply (proj1 (H m w)).
Qed.

Lemma gemini_entry_block info toks e w :
  In info mode_info -> block_state w1 toks e w ->
  exists e' w',
    Gemini.display_one_mode_flag info m e w = Ret e' w' /\
    block_state w1 (toks ++ tokens_of m [ info ]) e' w'.
Proof.
  intros Hin Hst. rewrite gemini_entry by assumption. cbn [tokens_of].
  destruct (shown_token m info) as [tok |] eqn:Htok.
  - destruct (block_wrapf w1 toks e w tok Hst (shown_token_word info tok Hin Htok))
      as (w' & Hw & Hst').
    exists false, w'. unfold bind. rewrite Hw. now split.
  - exists e, w. now rewrite app_nil_r.
Qed.

Lemma gemini_print_newline toks e w :
  block_state w1 toks e w ->
  exists w', Gemini.print_newline_if_needed e w = Ret true w' /\
             block_state w1 toks true w'.
Proof.
  intros Hst. unfold Gemini.print_newline_if_needed. destruct e; cbn [negb].
  - exists w. now split.
  - eexists. split; [reflexivity |]. now apply (block_newline w1 toks false).
Qed.

(** [display_mode_flags] from a state at column 0. *)
Lemma gemini_flags_block :
  current_col w1 = 0 ->
  exists block,
    Gemini.display_mode_flags m w1
      = Ret tt (set_current_col 0 (put_out block w1)) /\
    words block = changed_tokens m.
Proof.
  intros Hcol. unfold Gemini.display_mode_flags.
  match goal with |- context [?f mode_info true control] => set (loop := f) end.
  assert (Hloop : forall l e prev toks w,
            (forall info, In info l -> In info mode_info) ->
            block_state w1 toks e w ->
            exists e' w', loop l e prev w = Ret e' w' /\
                          block_state w1 (toks ++ tokens_of m l) e' w').
  { induction l as [| info l IH]; intros e prev toks w Hl Hst.
    - exists e, w. cbn [tokens_of]. rewrite app_nil_r. now split.
    - cbn [loop]. fold loop. rewrite tokens_of_cons, app_assoc.
      assert (Hin : In info mode_info) by (apply Hl; now left).
      assert (Hl' : forall i, In i l -> In i mode_info)
        by (intros i Hi; apply Hl; now right).
      unfold bind at 1.
      destruct (negb (mode_type_eqb (type info) prev)).
      + destruct (gemini_print_newline toks e w Hst) as (wa & Ha & Hsta).
        unfold bind at 1. rewrite Ha. cbn [ret fst snd].
        destruct (gemini_entry_block info toks true wa Hin Hsta)
          as (eb & wb & Hb & Hstb).
        unfold bind at 1. rewrite Hb. now apply IH.
      + cbn [ret fst snd].
        destruct (gemini_entry_block info toks e w Hin Hst)
          as (eb & wb & Hb & Hstb).
        unfold bind at 1. rewrite Hb. now apply IH. }
  destruct (Hloop mode_info true control [] w1 (fun _ H => H)
              (block_start w1 Hcol)) as (e' & w' & Hrun & Hst).
  unfold bind at 1. rewrite Hrun.
  destruct (gemini_print_newline _ e' w' Hst) as (w'' & Hnl & Hst').
  unfold bind. rewrite Hnl. cbn [ret].
  destruct Hst' as (blk & c & -> & Hw & _ & _ & He).
  rewrite (He eq_refl). exists blk. now split.
Qed.

End FlagBlock.

(** *** What stands before the flag block *)

Section Top.
Context `{P : platform} `{X : externals}.
Variable m : struct_termios.

Lemma gemini_wrapf_returns buf w : exists w', Gemini.wrapf buf w = Ret tt w'.
Proof. destruct (gemini_wrapf_output buf w) as (w' & _ & H & _). eauto. Qed.

Lemma gpt4o_wrapf_returns buf w : exists w', Gpt4o.wrapf buf w = Ret tt w'.
Proof. rewrite gpt4o_wrapf_eq. apply gemini_wrapf_returns. Qed.

Ltac wrapf_returns :=
  match goal with
  | |- context [Gemini.wrapf ?b ?w] =>
      let w' := fresh "w" in
      destruct (gemini_wrapf_returns b w) as (w' & ->)
  | |- context [Gpt4o.wrapf ?b ?w] =>
      let w' := fresh "w" in
      destruct (gpt4o_wrapf_returns b w) as (w' & ->)
  end.

Lemma gemini_header_returns w :
  exists w', gemini_changed_header m w = Ret tt w' /\ current_col w' = 0.
Proof.
  unfold gemini_changed_header, Gemini.display_speed, bind.
  destruct (_ || _); wrapf_returns; cbn [negb when ret];
    (destruct HAVE_C_LINE; cbn [when ret]; [wrapf_returns |]);
    (eexists; split; [reflexivity | reflexivity]).
Qed.

Lemma gpt4o_header_returns w :
  exists w', gpt4o_changed_header m w = Ret tt w' /\ current_col w' = 0.
Proof.
  unfold gpt4o_changed_header, Gpt4o.display_speed, bind.
  destruct (_ || _); wrapf_returns; cbn [negb when ret];
    (destruct HAVE_C_LINE; cbn [when ret]; [wrapf_returns |]);
    (eexists; split; [reflexivity | reflexivity]).
Qed.

Lemma min_found :
  find (fun ci => STREQ (ci_name ci) "min") control_info <> None.
Proof. now rewrite min_in_table. Qed.

(** [display_control_chars] returns, at column 0. *)
Lemma gemini_control_chars_returns w :
  current_col w = 0 ->
  exists w', Gemini.display_control_chars m w = Ret tt w' /\
             current_col w' = 0.
Proof.
  intros Hcol. unfold Gemini.display_control_chars.
  match goal with |- context [?f control_info true] => set (loop := f) end.
  assert (Hloop : forall l e w0,
            find (fun ci => STREQ (ci_name ci) "min") l <> None ->
            (e = true -> current_col w0 = 0) ->
            exists e' w', loop l e w0 = Ret e' w' /\
                          (e' = true -> current_col w' = 0)).
  { induction l as [| ci l IH]; intros e w0 Hmin He; [now elim Hmin |].
    cbn [loop]. fold loop. cbn [find] in Hmin.
    destruct (STREQ (ci_name ci) "min"); [now exists e, w0 |].
    destruct (Gemini.should_skip_control_char ci m); [now apply IH |].
    unfold bind. wrapf_returns. apply IH; [assumption | discriminate]. }
  destruct (Hloop control_info true w min_found (fun _ => Hcol))
    as (e & wa & Hrun & He).
  unfold bind at 1. rewrite Hrun.
  destruct (Z.land (c_lflag m) ICANON =? 0).
  - unfold bind. wrapf_returns. cbn [ret Gemini.print_newline_if_needed negb].
    unfold putchar, modify. eexists. split; reflexivity.
  - unfold bind. cbn [ret]. unfold Gemini.print_newline_if_needed.
    destruct e; cbn [negb].
    + exists wa. split; [reflexivity | now apply He].
    + unfold bind, putchar, modify, ret. eexists. split; reflexivity.
Qed.

Lemma gemini_top_returns w :
  exists w', gemini_changed_top m w = Ret tt w' /\ current_col w' = 0.
Proof.
  unfold gemini_changed_top, bind.
  destruct (gemini_header_returns w) as (wa & -> & Hcol).
  now apply gemini_control_chars_returns.
Qed.

Lemma gemini_changed_parts w :
  Gemini.display_changed m w
  = (gemini_changed_top m ;;; Gemini.display_mode_flags m) w.
Proof.
  unfold Gemini.display_changed, gemini_changed_top, gemini_changed_header,
    bind.
  destruct (Gemini.display_speed m true w) as [[] wa | |]; try reflexivity.
  destruct (when HAVE_C_LINE _ wa) as [[] wb | |]; reflexivity.
Qed.

(** The first loop of [display_changed] in the draft of gpt-4o. *)
Lemma gpt4o_control_chars_returns l e w :
  find (fun ci => STREQ (ci_name ci) "min") l <> None ->
  exists e' w', gpt4o_changed_control_chars m l e w = Ret e' w'.
Proof.
  revert e w. induction l as [| ci l IH]; intros e w Hmin; [now elim Hmin |].
  cbn [gpt4o_changed_control_chars]. cbn [find] in Hmin.
  destruct (STREQ (ci_name ci) "min"); [now exists e, w |].
  repeat match goal with
         | |- context [if ?c then gpt4o_changed_control_chars m l e else _] =>
             destruct c; [now apply IH |]
         end.
  unfold bind. wrapf_returns. now apply IH.
Qed.

Lemma gpt4o_top_returns w :
  exists w', gpt4o_changed_top m w = Ret tt w' /\ current_col w' = 0.
Proof.
  unfold gpt4o_changed_top. unfold bind at 1.
  destruct (gpt4o_header_returns w) as (wa & -> & _).
  unfold bind at 1.
  destruct (gpt4o_control_chars_returns control_info true wa min_found)
    as (e & wb & ->).
  unfold bind.
  destruct (Z.land (c_lflag m) ICANON =? 0).
  - wrapf_returns. unfold modify. eexists. split; reflexivity.
  - destruct e; cbn [negb when ret]; unfold putchar, modify;
      eexists; split; reflexivity.
Qed.

End Top.

(** *** The second loop of [display_changed] in the draft of gpt-4o *)

Section Gpt4oBlock.
Context `{P : platform} `{X : externals}.
Variables (m : struct_termios) (w1 : world).

Lemma gpt4o_group_block info toks st w :
  block_state w1 toks (fst st) w ->
  exists st' w',
    Gpt4o.start_flag_group info st w = Ret st' w' /\
    block_state w1 toks (fst st') w'.
Proof.
  intros Hst. unfold Gpt4o.start_flag_group.
  destruct (negb (mode_type_eqb (type info) (snd st))); [| now exists st, w].
  destruct st as [e t]. cbn [fst snd] in *. destruct e; cbn [negb].
  - exists (true, type info), w. now split.
  - eexists (true, type info), _. split; [reflexivity |].
    now apply (block_newline w1 toks false).
Qed.

Lemma gpt4o_entry_block info toks st w :
  In info mode_info -> block_state w1 toks (fst st) w ->
  exists st' w',
    Gpt4o.display_changed_flag info m st w = Ret st' w' /\
    block_state w1 (toks ++ tokens_of m [ info ]) (fst st') w'.
Proof.
  intros Hin Hst. cbn [tokens_of].
  pose proof (shown_token_word m info) as Hword. revert Hword.
  unfold shown_token. destruct (has_flag info OMIT) eqn:Homit; intros Hword.
  - unfold Gpt4o.display_changed_flag. unfold has_flag in Homit.
    rewrite Homit. exists st, w. now rewrite app_nil_r.
  - destruct (changed_only_entry info Hin Homit) as (wd & Hwd & H).
    rewrite Hwd in Hword |- *. rewrite (proj2 (H m w) st).
    destruct (gpt4o_group_block info toks st w Hst) as (sa & wa & Ha & Hsta).
    unfold bind at 1. rewrite Ha.
    destruct (changed_only_token info wd m) as [tok |].
    + destruct (block_wrapf w1 toks (fst sa) wa tok Hsta (Hword tok Hin eq_refl))
        as (wb & Hb & Hstb).
      exists (false, snd sa), wb. unfold bind. rewrite gpt4o_wrapf_eq, Hb.
      now split.
    + exists sa, wa. now rewrite app_nil_r.
Qed.

End Gpt4oBlock.

(** The whole of [display_changed]: what stands before the flag block,
    then the block. *)
Lemma gpt4o_changed_block `{P : platform} `{X : externals}
    (m : struct_termios) (w : world) :
  exists w1 block,
    gpt4o_changed_top m w = Ret tt w1 /\
    Gpt4o.display_changed m w
      = Ret tt (set_current_col 0 (put_out block w1)) /\
    words block = changed_tokens m.
Proof.
  destruct (gpt4o_top_returns m w) as (w1 & Htop & Hcol).
  cut (exists block,
         Gpt4o.display_changed m w
           = Ret tt (set_current_col 0 (put_out block w1)) /\
         words block = changed_tokens m).
  { intros (block & Hrun & Hwords). now exists w1, block. }
  unfold Gpt4o.display_changed.
  match goal with |- context [?f control_info true] => set (cc_loop := f) end.
  match goal with |- context [?f mode_info (true, control)] =>
    set (flag_loop := f) end.
  assert (Hcc : forall l e w0,
            cc_loop l e w0 = gpt4o_changed_control_chars m l e w0).
  { induction l as [| ci l IH]; intros e w0; [reflexivity |].
    cbn [cc_loop gpt4o_changed_control_chars]. fold cc_loop.
    destruct (STREQ (ci_name ci) "min"); [reflexivity |].
    repeat match goal with
           | |- context [if ?c then cc_loop l e else _] =>
               destruct c; [apply IH |]
           end.
    unfold bind. destruct (Gpt4o.wrapf _ w0); try reflexivity. apply IH. }
  assert (Hfl : forall l st toks w0,
            (forall info, In info l -> In info mode_info) ->
            block_state w1 toks (fst st) w0 ->
            exists st' w', flag_loop l st w0 = Ret st' w' /\
                           block_state w1 (toks ++ tokens_of m l) (fst st') w').
  { induction l as [| info l IH]; intros st toks w0 Hl Hst.
    - exists st, w0. cbn [tokens_of]. rewrite app_nil_r. now split.
    - cbn [flag_loop]. fold flag_loop. rewrite tokens_of_cons, app_assoc.
      destruct (gpt4o_entry_block m w1 info toks st w0
                  (Hl info (or_introl eq_refl)) Hst) as (sa & wa & Ha & Hsta).
      unfold bind at 1. rewrite Ha. apply IH; [| assumption].
      intros i Hi. apply Hl. now right. }
  revert Htop. unfold gpt4o_changed_top, gpt4o_changed_header, bind.
  destruct (Gpt4o.display_speed m true w) as [[] wa | |]; try discriminate.
  destruct (when HAVE_C_LINE _ wa) as [[] wb | |]; try discriminate.
  cbn [putchar modify]. rewrite Hcc.
  destruct (gpt4o_changed_control_chars m control_info true _)
    as [e wc | |]; try discriminate.
  match goal with
  | |- context [if ?c then ?a else ?b] => destruct (if c then a else b)
      as [[] wd | |]; try discriminate
  end.
  intros [= <-].
  destruct (Hfl mode_info (true, control) [] (set_current_col 0 wd)
              (fun _ H => H) (block_start (set_current_col 0 wd) eq_refl))
    as ([e' t'] & w' & Hrun & Hst').
  rewrite Hrun. cbn [fst] in *.
  destruct e'; cbn [negb when ret putchar modify].
  - destruct Hst' as (blk & c & -> & Hw & _ & _ & He).
    rewrite (He eq_refl). exists blk. now split.
  - destruct (block_newline _ _ _ _ Hst') as (blk & c & Heq & Hw & _ & _ & He).
    exists blk. split; [| exact Hw].
    change (Ret tt (set_current_col 0 (put_out (String "010" "") w'))
            = Ret tt (set_current_col 0
                        (put_out blk (set_current_col 0 wd)))).
    now rewrite Heq, (He eq_refl).
Qed.

Lemma gemini_changed_block `{P : platform} `{X : externals}
    (m : struct_termios) (w : world) :
  exists w1 block,
    gemini_changed_top m w = Ret tt w1 /\
    Gemini.display_changed m w
      = Ret tt (set_current_col 0 (put_out block w1)) /\
    words block = changed_tokens m.
Proof.
  destruct (gemini_top_returns m w) as (w1 & Htop & Hcol).
  destruct (gemini_flags_block m w1 Hcol) as (block & Hrun & Hwords).
  exists w1, block. split; [exact Htop |]. split; [| exact Hwords].
  rewrite gemini_changed_parts. unfold bind. now rewrite Htop.
Qed.

(** The tokens of a list of entries are the tokens of its entries. *)
Lemma in_tokens_of `{P : platform} (m : struct_termios) l token :
  In token (tokens_of m l)
  <-> exists info, In info l /\ shown_token m info = Some token.
Proof.
  induction l as [| i l IH]; cbn [tokens_of In].
  - split; [tauto | now intros (info & [] & _)].
  - destruct (shown_token m i) as [t |] eqn:Ht; cbn [In]; rewrite IH; split.
    + intros [<- | (info & Hin & Hs)]; [now exists i; auto | exists info; auto].
    + intros (info & [<- | Hin] & Hs); [left; congruence | right; eauto].
    + intros (info & Hin & Hs). exists info; auto.
    + intros (info & [<- | Hin] & Hs); [congruence | eauto].
Qed.

Lemma shown_token_rule `{P : platform} (m : struct_termios) info token :
  shown_token m info = Some token
  <-> has_flag info OMIT = false /\
      exists wd, mode_type_flag (type info) = Some wd /\
                 changed_only_token info wd m = Some token.
Proof.
  unfold shown_token. destruct (has_flag info OMIT).
  - split; [discriminate | now intros [? _]].
  - destruct (mode_type_flag (type info)) as [wd |].
    + split; [eauto | now intros (_ & wd' & [= <-] & H)].
    + split; [discriminate | now intros (_ & wd' & ? & _)].
Qed.

(** C8.  What the changed-only output prints for the flags.  In both
    drafts [display_changed] returns, and what it writes to standard
    output behind the head and the control characters (the part named
    [gemini_changed_top], [gpt4o_changed_top]) is a text whose words,
    the runs of bytes between spaces and newlines, are the tokens of the
    registry entries in the order of the registry, whatever the width
    of the screen: an entry that is not omitted gives its plain name
    exactly when its bits match its pattern under its mask and it is
    flagged SANE_UNSET, its name with '-' exactly when the bits do not
    match and it is flagged SANE_SET and REV, and no word otherwise; an
    omitted entry gives no word.  Nothing else of the process state
    changes in the block, and the column is 0 after it. *)
Theorem changed_only_flag_rule `{P : platform} `{X : externals}
    (m : struct_termios) (w : world) :
  (exists w1 block,
     gemini_changed_top m w = Ret tt w1 /\
     Gemini.display_changed m w
       = Ret tt (set_current_col 0 (put_out block w1)) /\
     words block = changed_tokens m) /\
  (exists w1 block,
     gpt4o_changed_top m w = Ret tt w1 /\
     Gpt4o.display_changed m w
       = Ret tt (set_current_col 0 (put_out block w1)) /\
     words block = changed_tokens m) /\
  (forall token,
     In token (changed_tokens m)
     <-> exists info wd,
           In info mode_info /\ has_flag info OMIT = false /\
           mode_type_flag (type info) = Some wd /\
           changed_only_token info wd m = Some token).
Proof.
  split; [apply gemini_changed_block |].
  split; [apply gpt4o_changed_block |].
  intros token. unfold changed_tokens. rewrite in_tokens_of. split.
  - intros (info & Hin & Hs). apply shown_token_rule in Hs.
    destruct Hs as (Homit & wd & Hwd & Htok). now exists info, wd.
  - intros (info & wd & Hin & Homit & Hwd & Htok). exists info.
    split; [exact Hin |]. apply shown_token_rule. eauto.
Qed.

(** On Linux, a login terminal with "ignbrk" set and "icanon" cleared:
    the flag block of the draft of gemini. *)
Lemma changed_only_flag_rule_witness :
  exists w1 block,
    @Gemini.display_changed linux example_env
      (set_c_lflag (Z.land (c_lflag linux_login) (Z.lnot (@ICANON linux)))
         (set_c_iflag (Z.lor (c_iflag linux_login) (@IGNBRK linux))
            linux_login))
      initial_world
    = Ret tt (set_current_col 0 (put_out block w1)) /\
    words block = [ "ignbrk"; "-brkint"; "-imaxbel"; "-icanon" ].
Proof.
  destruct (@changed_only_flag_rule linux example_env
              (set_c_lflag (Z.land (c_lflag linux_login) (Z.lnot (@ICANON linux)))
                 (set_c_iflag (Z.lor (c_iflag linux_login) (@IGNBRK linux))
                    linux_login))
              initial_world) as ((w1 & block & _ & Hrun & Hwords) & _).
  exists w1, block. split; [exact Hrun |].
  rewrite Hwords. vm_compute. reflexivity.
Defined.
